(* ===== verification/_CoqProject ===== *)
-Q . S2P
Prelude.v
RustStd.v
RustText.v
Disk.v
Net.v
Core.v
Protocol.v
Redis.v
Http1.v
Postgres.v
Redact.v
RedactFacts.v
Plugin.v
Http2.v
Http2Wire.v
Store.v
StoreFacts.v
StoreStreams.v
StoreExport.v
Replay.v
Proxy.v
ProxyFacts.v
Pipeline.v
Tls.v
TlsFacts.v
PluginDir.v
Tui.v
TuiFacts.v
Terminal.v
Platform.v
PlatformFacts.v
Driver.v
Wfp.v
Discovery.v
DiscoveryFacts.v
Cli.v
CliRun.v
CliFacts.v
CliRunFacts.v
Session.v
