(* ===== verification/Prelude.v ===== *)
(** * lens: a verification of the observation proxy

    lens is a local observability proxy.  Its proxy forwards connections
    between local services and emits observations (a flow was opened, its
    protocol was detected, these bytes went by, it was closed); the flow store
    consumes the observations in order, decodes the bytes with a streaming
    decoder for the protocol of the flow, redacts what was decoded, hands the
    redacted events to plugins and keeps a bounded number of flows for the
    terminal UI and for export.  Around this pipeline stand the certificate
    authority for intercepted TLS, the installation of plugins, the trust
    stores and lookups of the platform, the redirecting driver, the eBPF
    discovery of processes, the replay of exported requests and the command
    line that puts all of it together.  This library models these parts, from
    the arguments of the program and the bytes of a flow to what is shown,
    written and sent, and proves what makes them correct.

    ** Files, and what they model

    - [Prelude] (this file): byte strings, machine integers with saturating and
      checked arithmetic, results, searching, loops with a measure, automation.
    - [RustStd], [RustText]: the parts of Rust's standard library the sources
      use: ASCII and UTF-8 classification, lossy decoding, trimming, splitting,
      lines, parsing and printing of integers, characters of a string.
    - [Disk]: a file system with paths, permissions and calls that may fail,
      and what an operation may change ([Disk.only]).
    - [Net]: internet addresses of the standard library with their parsers and
      their text, and the types of the http crate as a parameter.
    - [Core]: crates/lens-core, the records, enums and builders of the domain
      (envelopes, flows, messages, sessions, observations, the fixed clock).
    - [Protocol]: crates/lens-protocol, decoded messages, batches and the
      [StreamingDecoder] trait as a class.  [DecoderLaws] is what the store
      relies on: an invariant, and indifference to how bytes are cut.  The
      decoding loops of all decoders are instances of one [decode_loop], whose
      termination, equations and fragment lemma are proved once here.
    - [Redis], [Http1], [Postgres]: the decoders of crates/lens-proto-redis,
      lens-proto-http1 and lens-proto-postgres, with their theorems.
    - [Redact]: crates/lens-redact, the redaction policy.
    - [Plugin], [PluginDir]: crates/lens-plugin, manifests and the plugin host,
      and the installation directory on a disk.
    - [Http2], [Http2Wire]: crates/lens-proto-http2, the HTTP/2 and gRPC
      decoder, and what it makes of frames on the wire.
    - [Store]: crates/lens-store, the actor, its JSON exports and the service
      map; [StoreFacts] has the invariants of the actor, [StoreStreams] the
      composition with the decoders, [StoreExport] the exported text and the
      service map.
    - [Replay]: crates/lens-replay, from an export back to a request: selection,
      reconstruction, the guards before execution, the comparison.
    - [Proxy]: crates/lens-proxy: configuration, routing, CONNECT, the pumps of
      a connection and the tasks of the server as step relations, the
      observation channel; [ProxyFacts] has its theorems.  [Pipeline] composes
      the proxy with the store.
    - [Tls]: crates/lens-tls: the authority, its files, the reader of its
      certificate and the cache of leaf certificates; [TlsFacts].
    - [Tui]: crates/lens-tui: filters, selection, keys, and the text of every
      widget; [TuiFacts].  [Terminal]: its session with the terminal and the
      event loop.
    - [Platform]: crates/lens-platform: trust stores (lib.rs), transparent
      redirection and its binary records (transparent.rs), process lookup
      (identity.rs); [PlatformFacts].  [Driver]: the Windows driver of
      drivers/windows/lens-wfp, with the records it shares with
      transparent.rs, and what the two make of each other's records.  [Wfp]:
      the driver from loading to unloading (Module [Loading]) and the native
      session of transparent/windows.rs with it (Module [Wfp]).
    - [Discovery]: crates/lens-ebpf: the probe (lens-discovery.bpf.c), its
      records and the cache that answers lookups; [DiscoveryFacts].
    - [Cli], [CliRun]: crates/lens-cli/src/main.rs, in two parts: arguments,
      settings and their resolution; the commands, the session and [main].
      [CliFacts] and [CliRunFacts] have their theorems.
    - [Session]: the tasks that a session runs at the same time, server,
      connections, lookups, channel and store, as one step relation.

    A [Vec<u8>] or [String] is a list of bytes, a [u64] or [usize] an integer
    with its saturation or check written out, a [HashMap] a [gmap], a
    [BTreeMap] a sorted association list.  A method that mutates its object is
    a function that returns the new object; a fallible one returns [result],
    one that may panic on an [expect] or a slice says so in its type.

    ** What the theorems show

    - Exactness of the decoders: well-formed traffic, cut into fragments in any
      way, is decoded into exactly the messages it stands for
      (redis_stream_exact, http1_message_exact, postgres_stream_exact,
      postgres_startup_exact, grpc_stream_exact, http2_message_exact); the
      bytes of an HTTP/2 connection refine the sequence of its frames
      (http2_frames_exact).
    - Bounds: whatever is observed, buffers, bodies and tables stay within
      their caps (redis_push_bounded, http1_bounded, postgres_push_bounded,
      http2_bounded, discovery_cache_bounded).
    - Secrecy: which parts of a message redaction hides and which it leaves
      alone (the redact_ theorems), values the PostgreSQL decoder never shows
      (postgres_values_omitted, postgres_encrypted_opaque), what the store
      keeps (store_redacts), what plugins see
      (store_reveal_hidden_from_plugins, plugins_contained) and what is
      exported (cli_export_safe).
    - The store: exact retention, isolation of flows, unique message
      identifiers, latencies, indifference to fragments (the store_ theorems);
      exact grouping in the service map and faithful JSON text.
    - The proxy: in every interleaving both directions are carried completely
      and in order (mirror_transparent, proxy_delivers), forwarding ends
      (mirror_terminates), requests are rewritten as announced
      (route_rewrites), every connection is observed from its opening to its
      end (proxy_flow_trace), and channel and counters add up (sink_accounts,
      server_accounts).
    - Proxy and store together: a flow in the store is what its own
      observations say (store_refines_flow), every forwarded connection is
      recorded with its outcome (pipeline_records), a session that is over
      shows all its connections (session_records), and from the request to
      shut down every session ends (shutdown_completes).
    - Replay: what stands before a request is sent again (replay_guarded), what
      is sent (replay_reconstructs) and what a reported match means
      (replay_match_sound).
    - Files: the authority and the plugins are created without harming what is
      there, whatever calls fail (ca_files_safe, plugin_install_safe), and are
      found again (ca_created_then_loaded, plugin_install_roundtrip); the
      certificate reader is exact (ca_certificate_parsed), the leaf cache is
      least recently used (leaf_cache_lru).
    - The system around it: a trust store is verified after a change
      (trust_verified), labels are safe text (resolver_labels_safe), proxy and
      driver agree on their records (driver_session, driver_status_exact),
      connections are attributed to their processes (discovery_attributes);
      the driver is loaded and unloaded without a trace (driver_lifecycle), and
      so is a native session with it (wfp_session).
    - The surface: selection and inspector of the UI (tui_selection,
      inspector_safe), the terminal it leaves (terminal_restored), arguments
      and settings (cli_parse_canonical,
      cli_resolve_exact), commands without a failing [expect]
      (cli_never_unwraps).
    - Behaviour worth knowing: theorems that show where the code does less
      than its documentation says (store_http2_path_leaks,
      http2_bodyless_exhausts, http2_reset_leaks, grpc_trailers_only_unmarked,
      store_decoders_outlive_flows, redact_sql_gaps, replay_headerless_fails,
      inspect_panics).

    ** Loops and fuel

    Loops that are not structural are [iterate] or [decode_loop] with a measure
    (the bytes left in the buffer, the text left to scan).  The measure is
    proved to decrease on every round, so the fuel, one more than the measure,
    is never used up: [loop_fuel_total], [decode_loop_returns].  [dec] prints
    with one round per binary digit, which is enough for decimal digits.
    [parse_value] of [Redis] recurses on the nesting depth, which the code
    limits as well.

    ** Parameters

    Crates outside the repository are parameters, as classes: HPACK
    ([Http2.Hpack], httlib_hpack), the regular expression for JSON secrets
    ([Redact.JsonSecret], regex), the WebAssembly runtime ([Plugin.Wasm],
    wasmtime), digests ([PluginDir.Digests], sha2), base64 ([Store.Base64],
    [Replay.Base64Decode]), JSON ([Replay.Serde], serde_json), URIs and header
    syntax ([Net.Http], http), the HTTP client ([Replay.Client], ureq), files
    to replay ([Replay.Files]), TLS sessions ([Proxy.Tls], rustls), keys and
    certificates ([Tls.Crypto], rcgen, ring and x509 signatures).  So is the
    system: programs that are run ([Platform.Commands]), /proc
    ([Platform.Proc]), the kernel that takes the probe
    ([Discovery.Kernel]), the terminal ([Terminal.Console]) and Windows
    ([Wfp.Win32]); what is documented of the last two stands in their classes
    of laws.  A socket is a script of what reading it yields and
    how much writing it accepts.  [CliRun.Sessions] says how the concurrent
    tasks of a session go: what the server counted, which observations reached
    the store, what the terminal returned.  Theorems that need a property of
    one of them name it as a hypothesis; the examples use concrete instances.

    ** Not modelled

    The log, the delivery of signals (a request to shut down is a step of
    [Session]), layout and colours of the terminal, and the configuration of
    the runtime and of rustls, which are calls into their crates.  The system
    clock is modelled by its readings.  The store is modelled as the single
    consumer it is, without the lock its readers take.  The builders of
    [ProxyServer] that only attach a sink or a lookup have no definition of
    their own.  The fuzz targets and build scripts are not part of the
    program. *)

(** ** Prelude: bytes, machine integers, loops and the shared automation *)

From Stdlib Require Export ZArith Lia Bool.
From Stdlib Require Export Strings.Byte Strings.String.
From stdpp Require Export base list option numbers countable.

(** Comparisons and conversions of integers stay as the source writes them. *)
#[global] Arguments Z.ltb : simpl never.
#[global] Arguments Z.leb : simpl never.
#[global] Arguments Z.eqb : simpl never.
#[global] Arguments Z.min : simpl never.
#[global] Arguments Z.max : simpl never.
#[global] Arguments Z.of_nat : simpl never.
#[global] Arguments Z.to_nat : simpl never.

(** ** Bytes and byte strings

    A Rust [u8] is a [byte]; a [Vec<u8>], a [&[u8]] and the UTF-8 contents of
    a [String] or [&str] are all [bytes]. *)

Abbreviation bytes := (list byte).

Declare Scope lens_scope.
Delimit Scope lens_scope with lens.

(** A byte-string literal: the source's [b"..."] and [".."]. *)
Definition lit (s : string) : bytes := list_byte_of_string s.

#[global] Instance byte_eq_decision : EqDecision byte := Byte.byte_eq_dec.

(** The numeric value of a byte, [usize::from(byte)]. *)
Definition byte_val (b : byte) : Z := Z.of_N (Byte.to_N b).

Definition byte_of (z : Z) : byte :=
  match Byte.of_N (Z.to_N z) with Some b => b | None => x00 end.

(** Facts the automation of the components uses. *)
Create HintDb lens.

Open Scope Z_scope.

Lemma byte_val_range (b : byte) : 0 <= byte_val b < 256.
Proof. unfold byte_val. pose proof (Byte.to_N_bounded b). lia. Qed.

Lemma byte_of_val (b : byte) : byte_of (byte_val b) = b.
Proof. unfold byte_of, byte_val. by rewrite N2Z.id, Byte.of_to_N. Qed.

#[global] Instance byte_countable : Countable byte := inj_countable' byte_val byte_of byte_of_val.

Lemma byte_val_of (z : Z) : 0 <= z < 256 -> byte_val (byte_of z) = z.
Proof.
  intros H. unfold byte_of, byte_val.
  destruct (Byte.of_N (Z.to_N z)) as [b|] eqn:E.
  - apply Byte.to_of_N in E. lia.
  - apply Byte.of_N_None_iff in E. lia.
Qed.

Lemma byte_val_inj (a b : byte) : byte_val a = byte_val b -> a = b.
Proof. intros H. rewrite <- (byte_of_val a), <- (byte_of_val b). by rewrite H. Qed.

Lemma byte_eqb_eq (a b : byte) : Byte.eqb a b = true <-> a = b.
Proof. split; [apply Byte.byte_dec_bl | intros ->; by apply Byte.byte_dec_lb]. Qed.

Lemma byte_eqb_refl (a : byte) : Byte.eqb a a = true.
Proof. by apply byte_eqb_eq. Qed.

Lemma byte_eqb_neq (a b : byte) : Byte.eqb a b = false <-> a <> b.
Proof.
  rewrite <- byte_eqb_eq. destruct (Byte.eqb a b); split; congruence.
Qed.

(** A decidable property of bytes holds of all of them when it does of the
    256 constructors. *)
Lemma byte_all (f : byte -> bool) :
  forallb f (map (fun n => byte_of (Z.of_nat n)) (seq 0 256)) = true ->
  forall b, f b = true.
Proof.
  rewrite forallb_forall. intros H b.
  apply H, in_map_iff. exists (Z.to_nat (byte_val b)).
  pose proof (byte_val_range b).
  rewrite Z2Nat.id by lia. split; [apply byte_of_val|].
  apply in_seq. lia.
Qed.

Notation "a =b b" := (Byte.eqb a b) (at level 70, no associativity) : lens_scope.
Open Scope lens_scope.

(** Equality of byte strings as a boolean. *)
Fixpoint bytes_eqb (a b : bytes) : bool :=
  match a, b with
  | [], [] => true
  | x :: a', y :: b' => (x =b y) && bytes_eqb a' b'
  | _, _ => false
  end.

Notation "a =s b" := (bytes_eqb a b) (at level 70, no associativity) : lens_scope.

Lemma bytes_eqb_eq (a b : bytes) : (a =s b) = true <-> a = b.
Proof.
  revert b; induction a as [|x a IH]; intros [|y b]; simpl; try done.
  rewrite andb_true_iff, byte_eqb_eq, IH. split; [by intros [-> ->]|by intros [= -> ->]].
Qed.

Lemma bytes_eqb_refl (a : bytes) : (a =s a) = true.
Proof. by apply bytes_eqb_eq. Qed.

Lemma bytes_eqb_neq (a b : bytes) : (a =s b) = false <-> a <> b.
Proof. rewrite <- bytes_eqb_eq. destruct (a =s b); split; congruence. Qed.

(** [value.len()] of a byte string, as a [usize]. *)
Definition blen {A} (s : list A) : Z := Z.of_nat (length s).

Lemma blen_app {A} (a b : list A) : blen (a ++ b) = blen a + blen b.
Proof. unfold blen. rewrite length_app. lia. Qed.

Lemma blen_nonneg {A} (a : list A) : 0 <= blen a.
Proof. unfold blen. lia. Qed.

(** Arithmetic goals about the lengths of composed lists. *)
Ltac len :=
  unfold blen in *; cbn [length app] in *;
  repeat (rewrite ?length_app, ?length_take, ?length_drop, ?length_rev, ?length_map in *;
          cbn [length app] in *);
  lia.

(** ** Machine integers *)

Definition u16_max : Z := 2 ^ 16 - 1.
Definition u32_max : Z := 2 ^ 32 - 1.
Definition u64_max : Z := 2 ^ 64 - 1.
Definition usize_max : Z := u64_max.
Definition i64_min : Z := - 2 ^ 63.
Definition i64_max : Z := 2 ^ 63 - 1.

(** [saturating_add] and [saturating_sub] of [u64] and of [usize] (64-bit
    targets), and the checked operations of [usize]. *)
Definition sat_add (a b : Z) : Z := Z.min u64_max (a + b).
Definition sat_sub (a b : Z) : Z := Z.max 0 (a - b).
Definition checked_add (a b : Z) : option Z :=
  if a + b <=? usize_max then Some (a + b) else None.
Definition checked_mul (a b : Z) : option Z :=
  if a * b <=? usize_max then Some (a * b) else None.
Definition checked_sub (a b : Z) : option Z :=
  if b <=? a then Some (a - b) else None.

Lemma sat_add_nonneg a b : 0 <= a -> 0 <= b -> 0 <= sat_add a b.
Proof. intros. unfold sat_add, u64_max. lia. Qed.

Lemma sat_add_exact a b : a + b <= u64_max -> sat_add a b = a + b.
Proof. unfold sat_add. lia. Qed.

Lemma sat_sub_nonneg a b : 0 <= sat_sub a b.
Proof. unfold sat_sub. lia. Qed.

#[export] Hint Resolve sat_add_nonneg sat_sub_nonneg blen_nonneg : lens.

Lemma checked_add_Some a b c : checked_add a b = Some c -> c = a + b /\ c <= usize_max.
Proof. unfold checked_add. case_match; intros [= <-]; lia. Qed.

Lemma checked_mul_Some a b c : checked_mul a b = Some c -> c = a * b /\ c <= usize_max.
Proof. unfold checked_mul. case_match; intros [= <-]; lia. Qed.

Lemma checked_sub_Some a b c : checked_sub a b = Some c -> c = a - b /\ b <= a.
Proof. unfold checked_sub. case_match; intros [= <-]; lia. Qed.

(** Big-endian and little-endian decoding, [uN::from_be_bytes] and
    [uN::from_le_bytes]. *)
Definition be_uint (s : bytes) : Z := fold_left (fun acc b => acc * 256 + byte_val b) s 0.
Definition le_uint (s : bytes) : Z := be_uint (rev s).

(** [uN::to_be_bytes] and [uN::to_le_bytes], [n] bytes wide. *)
Fixpoint le_bytes (n : nat) (z : Z) : bytes :=
  match n with
  | O => []
  | S k => byte_of (z mod 256) :: le_bytes k (z / 256)
  end.
Definition be_bytes (n : nat) (z : Z) : bytes := rev (le_bytes n z).

Lemma be_uint_snoc (s : bytes) (b : byte) : be_uint (s ++ [b]) = be_uint s * 256 + byte_val b.
Proof. unfold be_uint. by rewrite fold_left_app. Qed.

Lemma le_uint_cons (b : byte) (s : bytes) : le_uint (b :: s) = byte_val b + 256 * le_uint s.
Proof. unfold le_uint; simpl. rewrite be_uint_snoc. lia. Qed.

Lemma le_uint_bounds (s : bytes) : 0 <= le_uint s < 256 ^ blen s.
Proof.
  induction s as [|b s IH]; [done|].
  rewrite le_uint_cons. unfold blen in *; simpl length.
  rewrite Nat2Z.inj_succ, Z.pow_succ_r by lia.
  pose proof (byte_val_range b). nia.
Qed.

Lemma be_uint_bounds (s : bytes) : 0 <= be_uint s < 256 ^ blen s.
Proof.
  pose proof (le_uint_bounds (rev s)) as H. unfold le_uint, blen in *.
  rewrite rev_involutive, length_rev in H. done.
Qed.

Lemma length_le_bytes (n : nat) (z : Z) : length (le_bytes n z) = n.
Proof. revert z; induction n as [|n IH]; intros z; simpl; auto. Qed.

Lemma length_be_bytes (n : nat) (z : Z) : length (be_bytes n z) = n.
Proof. unfold be_bytes. by rewrite length_rev, length_le_bytes. Qed.

Lemma le_uint_le_bytes (n : nat) (z : Z) :
  0 <= z < 256 ^ Z.of_nat n -> le_uint (le_bytes n z) = z.
Proof.
  revert z; induction n as [|n IH]; intros z Hz.
  - simpl. change (256 ^ Z.of_nat 0) with 1 in Hz. change (le_uint []) with 0. lia.
  - simpl le_bytes. rewrite le_uint_cons.
    rewrite Nat2Z.inj_succ, Z.pow_succ_r in Hz by lia.
    rewrite byte_val_of by (apply Z.mod_pos_bound; lia).
    rewrite IH.
    + pose proof (Z.div_mod z 256). lia.
    + split; [apply Z.div_pos; lia|]. apply Z.div_lt_upper_bound; lia.
Qed.

Lemma be_uint_be_bytes (n : nat) (z : Z) :
  0 <= z < 256 ^ Z.of_nat n -> be_uint (be_bytes n z) = z.
Proof.
  intros H. rewrite <- (le_uint_le_bytes n z H) at 2. done.
Qed.

#[global] Arguments be_bytes : simpl never.
#[global] Arguments le_bytes : simpl never.

(** A field of a packed little-endian record. *)
Definition field (at_ n : nat) (record : bytes) : Z := le_uint (take n (drop at_ record)).

Lemma le_bytes_uint s : le_bytes (length s) (le_uint s) = s.
Proof.
  induction s as [|b s IH]; [done|]. cbn [length]. rewrite le_uint_cons.
  match goal with |- le_bytes (S ?n) ?z = _ => change (le_bytes (S n) z) with (byte_of (z mod 256) :: le_bytes n (z / 256)) end.
  pose proof (byte_val_range b).
  replace ((byte_val b + 256 * le_uint s) mod 256) with (byte_val b) by (rewrite Z.mul_comm, Z_mod_plus_full, Z.mod_small; lia).
  replace ((byte_val b + 256 * le_uint s) / 256) with (le_uint s) by (rewrite Z.mul_comm, Z_div_plus_full, Z.div_small; lia).
  by rewrite byte_of_val, IH.
Qed.

Lemma field_bytes off n s : (off + n <= length s)%nat -> le_bytes n (field off n s) = take n (drop off s).
Proof. intros Hl. unfold field. rewrite <- (le_bytes_uint (take n (drop off s))) at 2. by rewrite length_take, length_drop, Nat.min_l by lia. Qed.

Lemma field_range off n s : 0 <= field off n s < 256 ^ Z.of_nat n.
Proof.
  unfold field. pose proof (le_uint_bounds (take n (drop off s))) as [H0 H1]. split; [done|].
  eapply Z.lt_le_trans; [exact H1|]. apply Z.pow_le_mono_r; [lia|]. unfold blen. rewrite length_take. lia.
Qed.

(** ** Results

    [Result<A, String>]: every error of the modelled code is a message. *)

Inductive result (A : Type) : Type :=
| Ok (a : A)
| Err (reason : bytes).
Arguments Ok {A} a.
Arguments Err {A} reason.

Notation "'let?' x := e 'in' k" :=
  (match e with Ok x => k | Err reason => Err reason end)
  (at level 10, x name, e at level 200, k at level 200) : lens_scope.
Notation "'let?' ' p := e 'in' k" :=
  (match e with Ok p => k | Err reason => Err reason end)
  (at level 10, p pattern, e at level 200, k at level 200) : lens_scope.

(** How code that may panic ends: with a value, or in a panic: a value that
    was taken to be there, or a slice off a character boundary. *)
Inductive Panic := Expected (message : bytes) | Slice.
Inductive ended (A : Type) := Finished (a : A) | Panicked (p : Panic).
Arguments Finished {A} a.
Arguments Panicked {A} p.

Definition ended_bind {A B} (m : ended A) (k : A -> ended B) : ended B :=
  match m with Finished x => k x | Panicked p => Panicked p end.

(** [option.expect(message)]. *)
Notation "'expect' x := e 'with' message 'in' k" :=
  (match e with Some x => k | None => Panicked (Expected (lit message)) end)
  (at level 10, x name, e at level 200, message at level 0, k at level 200) : lens_scope.

(** A computation that does not take for present what is missing. *)
Definition sound {A} (r : ended A) : Prop := forall message, r <> Panicked (Expected message).

Lemma sound_bind {A B} (m : ended A) (k : A -> ended B) :
  sound m -> (forall x, m = Finished x -> sound (k x)) -> sound (ended_bind m k).
Proof. intros Hm Hk message. destruct m as [x|p]; [by apply Hk|]. intros [= ->]. by apply (Hm message). Qed.

(** Fallible calls on a world they change: the first failure ends them. *)
Definition call (W A : Type) : Type := W -> result A * W.
Definition call_ret {W A} (x : A) : call W A := fun w => (Ok x, w).
Definition call_bind {W A B} (m : call W A) (k : A -> call W B) : call W B := fun w =>
  match m w with (Ok x, w) => k x w | (Err e, w) => (Err e, w) end.

(** A call that cannot fail. *)
Definition call_sure {W A} (f : W -> A * W) : call W A := fun w => let '(x, w) := f w in (Ok x, w).

Notation "'let*' x := m 'in' k" := (call_bind m (fun x => k))
  (at level 10, x name, m at level 200, k at level 200) : lens_scope.

Definition is_ok {A} (r : result A) : bool := match r with Ok _ => true | Err _ => false end.

Definition ok_or {A} (o : option A) (reason : bytes) : result A :=
  match o with Some a => Ok a | None => Err reason end.

(** ** Searching *)

(** [starts_with]. *)
Fixpoint starts_with (needle s : bytes) : bool :=
  match needle, s with
  | [], _ => true
  | n :: ns, c :: cs => (n =b c) && starts_with ns cs
  | _ :: _, [] => false
  end.

(** [buffer.windows(needle.len()).position(|window| window == needle)], for a
    non-empty needle. *)
Fixpoint find_bytes (s needle : bytes) : option nat :=
  if starts_with needle s then Some O
  else match s with
       | [] => None
       | _ :: r => S <$> find_bytes r needle
       end.

(** [iter().position(|byte| p byte)]. *)
Fixpoint position {A} (p : A -> bool) (s : list A) : option nat :=
  match s with
  | [] => None
  | x :: r => if p x then Some O else S <$> position p r
  end.

Definition contains (needle s : bytes) : bool :=
  match find_bytes s needle with Some _ => true | None => false end.

Lemma starts_with_spec (needle s : bytes) :
  starts_with needle s = true <-> exists r, s = needle ++ r.
Proof.
  revert s; induction needle as [|n ns IH]; intros s; simpl.
  - split; eauto.
  - destruct s as [|c cs]; [split; [done|by intros [r ?]]|].
    rewrite andb_true_iff, byte_eqb_eq, IH.
    split; [intros [-> [r ->]]; eauto|intros [r Hr]; simplify_eq; eauto].
Qed.

Lemma starts_with_app (needle s t : bytes) :
  starts_with needle s = true -> starts_with needle (s ++ t) = true.
Proof.
  rewrite !starts_with_spec. intros [r ->]. exists (r ++ t). by rewrite app_assoc.
Qed.

Lemma starts_with_short (needle s t : bytes) :
  (length needle <= length s)%nat -> starts_with needle (s ++ t) = starts_with needle s.
Proof.
  revert s; induction needle as [|n ns IH]; intros [|c cs] H; simpl in *; try done; try lia.
  by rewrite IH by lia.
Qed.

Lemma starts_with_length (needle s : bytes) :
  starts_with needle s = true -> (length needle <= length s)%nat.
Proof. rewrite starts_with_spec. intros [r ->]. rewrite length_app. lia. Qed.

Lemma find_bytes_spec (s needle : bytes) (i : nat) :
  find_bytes s needle = Some i -> exists u, s = take i s ++ needle ++ u.
Proof.
  revert i; induction s as [|d r IH]; intros i; simpl.
  - destruct needle; simpl; intros [= <-]. by exists [].
  - destruct (starts_with needle (d :: r)) eqn:E.
    + intros [= <-]. apply starts_with_spec in E as [u ->]. by exists u.
    + destruct (find_bytes r needle) as [j|] eqn:E2; simpl; intros [= <-].
      destruct (IH _ eq_refl) as [u Hu]. exists u. simpl. by f_equal.
Qed.

Lemma find_bytes_bound (s needle : bytes) (i : nat) :
  find_bytes s needle = Some i -> (i + length needle <= length s)%nat.
Proof.
  revert i; induction s as [|d r IH]; intros i; simpl.
  - destruct needle; simpl; intros [= <-]. simpl. lia.
  - destruct (starts_with needle (d :: r)) eqn:E.
    + intros [= <-]. by apply starts_with_length in E.
    + destruct (find_bytes r needle) as [j|] eqn:E2; simpl; intros [= <-].
      specialize (IH _ eq_refl). lia.
Qed.

(** A match found in a prefix is the first match of the whole. *)
Lemma find_bytes_app (s needle t : bytes) (i : nat) :
  find_bytes s needle = Some i -> find_bytes (s ++ t) needle = Some i.
Proof.
  revert i; induction s as [|c r IH]; intros i; simpl.
  - destruct needle; simpl; [|done]. intros [= <-]. by destruct t.
  - destruct (starts_with needle (c :: r)) eqn:E.
    + intros [= <-]. apply (starts_with_app _ _ t) in E. simpl in E. by rewrite E.
    + destruct (find_bytes r needle) as [j|] eqn:Ej; simpl; [|done].
      intros [= <-]. pose proof (find_bytes_bound _ _ _ Ej).
      change (c :: r ++ t) with ((c :: r) ++ t).
      rewrite starts_with_short, E by (simpl; lia). by rewrite (IH _ eq_refl).
Qed.

Lemma position_app {A} (p : A -> bool) (s t : list A) (i : nat) :
  position p s = Some i -> position p (s ++ t) = Some i.
Proof.
  revert i; induction s as [|c r IH]; intros i; simpl; [done|].
  destruct (p c); [done|].
  destruct (position p r) eqn:E; simpl; [|done]. intros [= <-].
  by rewrite (IH _ eq_refl).
Qed.

Lemma position_bound {A} (p : A -> bool) (s : list A) (i : nat) :
  position p s = Some i -> (i < length s)%nat.
Proof.
  revert i; induction s as [|c r IH]; intros i; simpl; [done|].
  destruct (p c); [intros [= <-]; lia|].
  destruct (position p r) eqn:E; simpl; [|done]. intros [= <-].
  specialize (IH _ eq_refl). lia.
Qed.

(** ** Loops

    The source's [loop { ... continue ... break ... }] is a step function on
    the state the loop mutates: [inl] continues, [inr] breaks with the value
    the loop leaves behind.  [loop_fuel] runs it for a bounded number of
    rounds and [None] is only the answer of a loop whose rounds ran out;
    [iterate] gives it one round more than the measure of the state, which is
    enough as soon as every continuing round lowers the measure. *)

Section Loop.
Context {S R : Type} (mu : S -> nat) (step : S -> S + R).

Fixpoint loop_fuel (fuel : nat) (s : S) : option R :=
  match fuel with
  | O => None
  | Datatypes.S n =>
      match step s with
      | inl s' => loop_fuel n s'
      | inr r => Some r
      end
  end.

Definition iterate (d : S -> R) (s : S) : R :=
  match loop_fuel (Datatypes.S (mu s)) s with Some r => r | None => d s end.

(** The loop invariant [I] may be needed to see the measure decrease. *)
Context (I : S -> Prop).
Definition decreasing : Prop :=
  forall s s', I s -> step s = inl s' -> I s' /\ (mu s' < mu s)%nat.

Lemma loop_fuel_total (n : nat) (s : S) :
  decreasing -> I s -> (mu s < n)%nat -> exists r, loop_fuel n s = Some r.
Proof.
  intros Hdec. revert s; induction n as [|n IH]; intros s Hs Hn; [lia|]. simpl.
  destruct (step s) as [s'|r] eqn:E; [|by eexists].
  destruct (Hdec _ _ Hs E). apply IH; [done|lia].
Qed.

Lemma loop_fuel_irrel (n m : nat) (s : S) (r r' : R) :
  loop_fuel n s = Some r -> loop_fuel m s = Some r' -> r = r'.
Proof.
  revert m s; induction n as [|n IH]; intros [|m] s; simpl; try done.
  destruct (step s); [by apply IH|congruence].
Qed.

(** The equation of the source's loop. *)
Lemma iterate_unfold (d : S -> R) (s : S) :
  decreasing -> I s ->
  iterate d s = match step s with inl s' => iterate d s' | inr r => r end.
Proof.
  intros Hdec Hs. unfold iterate at 1. simpl loop_fuel.
  destruct (step s) as [s'|r] eqn:E; [|done].
  destruct (Hdec _ _ Hs E) as [Hs' Hlt].
  destruct (loop_fuel_total (mu s) s' Hdec Hs' Hlt) as [r Hr].
  destruct (loop_fuel_total (Datatypes.S (mu s')) s' Hdec Hs' ltac:(lia)) as [r' Hr'].
  unfold iterate. rewrite Hr, Hr'. by eapply loop_fuel_irrel.
Qed.

(** Induction along the rounds of the loop. *)
Lemma iterate_ind (d : S -> R) (P : S -> R -> Prop) :
  decreasing ->
  (forall s r, I s -> step s = inr r -> P s r) ->
  (forall s s' r, I s -> step s = inl s' -> P s' r -> P s r) ->
  forall s, I s -> P s (iterate d s).
Proof.
  intros Hdec Hbreak Hcont s.
  induction s as [s IH] using (induction_ltof1 _ mu). intros Hs.
  rewrite iterate_unfold by done.
  destruct (step s) as [s'|r] eqn:E; [|by apply Hbreak].
  destruct (Hdec _ _ Hs E) as [Hs' Hlt].
  eapply Hcont; [done..|]. by apply IH.
Qed.
End Loop.
