(* ===== verification/RustStd.v ===== *)
(** * RustStd: the parts of Rust's standard library the sources use.

    A [String] is its UTF-8 bytes.  This file has the ASCII classifications
    and case mappings of [u8] and [str], UTF-8 validation and lossy decoding,
    the Unicode-aware [trim] and [split_whitespace], the splitting functions,
    and the parsing and printing of integers. *)

From S2P Require Import Prelude.

(** ** ASCII *)
Section Ascii.
Implicit Type b : byte.

Definition in_range (lo hi : Z) b : bool := (lo <=? byte_val b) && (byte_val b <=? hi).

Definition is_ascii_digit b : bool := in_range 48 57 b.
Definition is_ascii_lower b : bool := in_range 97 122 b.
Definition is_ascii_upper b : bool := in_range 65 90 b.
Definition is_ascii_alphabetic b : bool := is_ascii_lower b || is_ascii_upper b.
Definition is_ascii_alphanumeric b : bool := is_ascii_digit b || is_ascii_alphabetic b.
(** [u8::is_ascii_whitespace]: space, tab, line feed, form feed, carriage return. *)
Definition is_ascii_whitespace b : bool :=
  (b =b x20) || (b =b x09) || (b =b x0a) || (b =b x0c) || (b =b x0d).
Definition is_ascii_control b : bool := in_range 0 31 b || (b =b x7f).

(** [chars().any(char::is_control)] of a UTF-8 text: the ASCII controls and
    U+0080 to U+009F. *)
Fixpoint any_control (s : bytes) : bool :=
  match s with
  | [] => false
  | b :: r => is_ascii_control b
              || ((b =b xc2) && match r with c :: _ => in_range 128 159 c | [] => false end)
              || any_control r
  end.
Definition is_ascii_hexdigit b : bool := is_ascii_digit b || in_range 97 102 b || in_range 65 70 b.

Definition lower_byte b : byte := if is_ascii_upper b then byte_of (byte_val b + 32) else b.
Definition upper_byte b : byte := if is_ascii_lower b then byte_of (byte_val b - 32) else b.
End Ascii.

Definition to_ascii_lowercase (s : bytes) : bytes := map lower_byte s.
Definition to_ascii_uppercase (s : bytes) : bytes := map upper_byte s.
Definition eq_ignore_ascii_case (a b : bytes) : bool :=
  to_ascii_lowercase a =s to_ascii_lowercase b.

(** ** UTF-8 *)

Inductive utf8_step : Type :=
| Valid (n : nat)    (** a well-formed character of [n] bytes *)
| Invalid (n : nat). (** an ill-formed prefix of [n] bytes *)

Definition is_cont (b : byte) : bool := in_range 128 191 b.

Definition nth_is (p : byte -> bool) (s : bytes) (i : nat) : bool :=
  match s !! i with Some b => p b | None => false end.

(** One round of [core::str]'s validation: the range of the second byte
    depends on the first; a missing byte is no continuation byte. *)
Definition utf8_next (s : bytes) : utf8_step :=
  match s with
  | [] => Invalid 0
  | b :: r =>
      let v := byte_val b in
      if v <? 128 then Valid 1
      else if (194 <=? v) && (v <=? 223) then
        if nth_is is_cont r 0 then Valid 2 else Invalid 1
      else if (224 <=? v) && (v <=? 239) then
        let second := if v =? 224 then in_range 160 191
                      else if v =? 237 then in_range 128 159 else is_cont in
        if negb (nth_is second r 0) then Invalid 1
        else if negb (nth_is is_cont r 1) then Invalid 2
        else Valid 3
      else if (240 <=? v) && (v <=? 244) then
        let second := if v =? 240 then in_range 144 191
                      else if v =? 244 then in_range 128 143 else is_cont in
        if negb (nth_is second r 0) then Invalid 1
        else if negb (nth_is is_cont r 1) then Invalid 2
        else if negb (nth_is is_cont r 2) then Invalid 3
        else Valid 4
      else Invalid 1
  end.

Fixpoint utf8_valid_go (skip : nat) (s : bytes) : bool :=
  match s with
  | [] => true
  | _ :: r =>
      match skip with
      | S k => utf8_valid_go k r
      | O => match utf8_next s with
             | Valid n => utf8_valid_go (n - 1) r
             | Invalid _ => false
             end
      end
  end.

(** [std::str::from_utf8(bytes).is_ok()]. *)
Definition utf8_valid (s : bytes) : bool := utf8_valid_go 0 s.

Definition from_utf8 (s : bytes) : option bytes := if utf8_valid s then Some s else None.

Definition replacement_char : bytes := [xef; xbf; xbd].

Fixpoint utf8_lossy_go (skip : nat) (keep : bool) (s : bytes) : bytes :=
  match s with
  | [] => []
  | b :: r =>
      match skip with
      | S k => (if keep then [b] else []) ++ utf8_lossy_go k keep r
      | O => match utf8_next s with
             | Valid n => b :: utf8_lossy_go (n - 1) true r
             | Invalid n => replacement_char ++ utf8_lossy_go (n - 1) false r
             end
      end
  end.

(** [String::from_utf8_lossy]: every maximal ill-formed prefix becomes U+FFFD. *)
Definition from_utf8_lossy (s : bytes) : bytes := utf8_lossy_go 0 true s.

(** ** Unicode white space, [trim], [split_whitespace] *)

(** Length of the [char::is_whitespace] character at the head, 0 if there is none. *)
Definition ws_len (s : bytes) : nat :=
  match s with
  | b :: r =>
      if in_range 9 13 b || (b =b x20) then 1
      else if b =b xc2 then
        if nth_is (fun c => (c =b x85) || (c =b xa0)) r 0 then 2 else 0
      else if b =b xe1 then
        if nth_is (Byte.eqb x9a) r 0 && nth_is (Byte.eqb x80) r 1 then 3 else 0
      else if b =b xe2 then
        if (nth_is (Byte.eqb x80) r 0
              && nth_is (fun c => in_range 128 138 c || (c =b xa8) || (c =b xa9) || (c =b xaf)) r 1)
           || (nth_is (Byte.eqb x81) r 0 && nth_is (Byte.eqb x9f) r 1) then 3 else 0
      else if b =b xe3 then
        if nth_is (Byte.eqb x80) r 0 && nth_is (Byte.eqb x80) r 1 then 3 else 0
      else 0
  | [] => 0
  end.

Fixpoint trim_start_go (skip : nat) (s : bytes) : bytes :=
  match s with
  | [] => []
  | _ :: r =>
      match skip with
      | S k => trim_start_go k r
      | O => match ws_len s with O => s | S k => trim_start_go k r end
      end
  end.
Definition trim_start (s : bytes) : bytes := trim_start_go 0 s.

(** Whether the text is nothing but white space. *)
Definition all_ws (s : bytes) : bool :=
  match trim_start s with [] => true | _ => false end.

Fixpoint trim_end (s : bytes) : bytes :=
  match s with
  | [] => []
  | c :: r => if all_ws s then [] else c :: trim_end r
  end.

Definition trim (s : bytes) : bytes := trim_end (trim_start s).

Definition flush (cur : bytes) : list bytes :=
  match cur with [] => [] | _ => [cur] end.

Fixpoint split_ws_go (skip : nat) (cur : bytes) (s : bytes) : list bytes :=
  match s with
  | [] => flush cur
  | b :: r =>
      match skip with
      | S k => split_ws_go k cur r
      | O => match ws_len s with
             | O => split_ws_go 0 (cur ++ [b]) r
             | S k => flush cur ++ split_ws_go k [] r
             end
      end
  end.
Definition split_whitespace (s : bytes) : list bytes := split_ws_go 0 [] s.

(** ** Lines *)

Definition crlf : bytes := [x0d; x0a].

(** A text without a line break inside. *)
Definition line_ok (s : bytes) : bool := negb (contains crlf s).

(** ** Splitting *)

(** [split(|byte| p byte)] and [split(char)] for an ASCII character. *)
Fixpoint split_on (p : byte -> bool) (s : bytes) : list bytes :=
  match s with
  | [] => [[]]
  | b :: r =>
      if p b then [] :: split_on p r
      else match split_on p r with
           | w :: ws => (b :: w) :: ws
           | [] => [[b]]
           end
  end.

(** [str::lines]: lines end with a line feed, a carriage return in front of it
    is dropped, and an empty last line is none. *)
Definition strip_cr (s : bytes) : bytes :=
  match rev s with b :: r => if b =b x0d then rev r else s | [] => s end.
Fixpoint finish_lines (ws : list bytes) : list bytes :=
  match ws with
  | [] => []
  | [l] => match l with [] => [] | _ => [l] end
  | w :: ws => strip_cr w :: finish_lines ws
  end.
Definition lines (s : bytes) : list bytes := finish_lines (split_on (fun b => b =b x0a) s).

(** [strip_prefix]. *)
Definition strip_prefix (p s : bytes) : option bytes :=
  if starts_with p s then Some (drop (length p) s) else None.

(** [split("\r\n")]. *)
Fixpoint split_crlf (s : bytes) : list bytes :=
  match s with
  | [] => [[]]
  | b :: r =>
      match r with
      | c :: r' =>
          if (b =b x0d) && (c =b x0a) then [] :: split_crlf r'
          else match split_crlf r with
               | w :: ws => (b :: w) :: ws
               | [] => [[b]]
               end
      | [] => [[b]]
      end
  end.

(** [split_once(char)] for an ASCII character. *)
Fixpoint split_once (sep : byte) (s : bytes) : option (bytes * bytes) :=
  match s with
  | [] => None
  | b :: r =>
      if b =b sep then Some ([], r)
      else match split_once sep r with
           | Some (l, t) => Some (b :: l, t)
           | None => None
           end
  end.

(** [join(separator)]. *)
Fixpoint join (sep : bytes) (ss : list bytes) : bytes :=
  match ss with
  | [] => []
  | [s] => s
  | s :: rest => s ++ sep ++ join sep rest
  end.

Definition ends_with (suffix s : bytes) : bool := starts_with (rev suffix) (rev s).

(** [Ord] of strings and byte strings. *)
Fixpoint bytes_cmp (a b : bytes) : comparison :=
  match a, b with
  | [], [] => Eq
  | [], _ :: _ => Lt
  | _ :: _, [] => Gt
  | x :: xs, y :: ys => match byte_val x ?= byte_val y with Eq => bytes_cmp xs ys | c => c end
  end.

(** What [Utf8Error] says of the first ill-formed character: a text that ends
    within a character has no length of error. *)
Fixpoint utf8_error_go (skip : nat) (index : Z) (s : bytes) : option (Z * option nat) :=
  match s with
  | [] => None
  | b :: r =>
      match skip with
      | S k => utf8_error_go k (index + 1) r
      | O => match utf8_next s with
             | Valid n => utf8_error_go (n - 1) (index + 1) r
             | Invalid n =>
                 Some (index, if (length s =? n)%nat && in_range 194 244 b then None else Some n)
             end
      end
  end.

(** ** Integers *)

Definition digit_val (radix : Z) (b : byte) : option Z :=
  let d := if is_ascii_digit b then byte_val b - 48
           else if is_ascii_lower b then byte_val b - 87
           else if is_ascii_upper b then byte_val b - 55
           else radix in
  if d <? radix then Some d else None.

Fixpoint parse_digits (radix acc : Z) (s : bytes) : option Z :=
  match s with
  | [] => Some acc
  | b :: r => match digit_val radix b with
              | Some d => parse_digits radix (acc * radix + d) r
              | None => None
              end
  end.

(** [uN::from_str_radix] and [str::parse::<uN>] ([radix] 10): an optional [+],
    at least one digit, no overflow. *)
Definition parse_unsigned (radix max : Z) (s : bytes) : option Z :=
  let digits := match s with b :: r => if b =b x2b then r else s | [] => s end in
  match digits with
  | [] => None
  | _ => match parse_digits radix 0 digits with
         | Some n => if n <=? max then Some n else None
         | None => None
         end
  end.

(** [str::parse::<i64>]. *)
Definition parse_i64 (s : bytes) : option Z :=
  match s with
  | b :: r =>
      if b =b x2d then
        match r with
        | [] => None
        | _ => match parse_digits 10 0 r with
               | Some n => if i64_min <=? - n then Some (- n) else None
               | None => None
               end
        end
      else parse_unsigned 10 i64_max s
  | [] => None
  end.

Definition digit_byte (d : Z) : byte := byte_of (if d <? 10 then d + 48 else d + 87).

Fixpoint dec_go (fuel : nat) (n : Z) : bytes :=
  match fuel with
  | O => []
  | S f => (if n <? 10 then [] else dec_go f (n / 10)) ++ [digit_byte (n mod 10)]
  end.

(** [to_string] of a non-negative integer; one round per binary digit is enough. *)
Definition dec (n : Z) : bytes := dec_go (S (Z.to_nat (Z.log2 n))) n.

(** [format!("{byte:02x}")]. *)
Definition hex2 (b : byte) : bytes :=
  [digit_byte (byte_val b / 16); digit_byte (byte_val b mod 16)].

(** [format!("{n:0width$}")] of an integer. *)
Definition pad (width : nat) (n : Z) : bytes :=
  if n <? 0 then lit "-" ++ repeat x30 (width - 1 - length (dec (- n))) ++ dec (- n)
  else repeat x30 (width - length (dec n)) ++ dec n.

Definition utf8_error (s : bytes) : bytes :=
  match utf8_error_go 0 0 s with
  | Some (index, Some n) =>
      lit "invalid utf-8 sequence of " ++ dec (Z.of_nat n) ++ lit " bytes from index " ++ dec index
  | Some (index, None) => lit "incomplete utf-8 byte sequence from index " ++ dec index
  | None => []
  end.

Definition bool_text (b : bool) : bytes := lit (if b then "true" else "false").

(** ** Facts *)

Lemma is_ascii_digit_spec b : is_ascii_digit b = true <-> 48 <= byte_val b <= 57.
Proof. unfold is_ascii_digit, in_range. rewrite andb_true_iff. lia. Qed.

Lemma digit_byte_val d : 0 <= d < 10 -> byte_val (digit_byte d) = d + 48.
Proof.
  intros H. unfold digit_byte. destruct (Z.ltb_spec d 10); [|lia].
  apply byte_val_of. lia.
Qed.

Lemma digit_byte_digit d : 0 <= d < 10 -> is_ascii_digit (digit_byte d) = true.
Proof. intros H. apply is_ascii_digit_spec. rewrite digit_byte_val; lia. Qed.

Lemma digit_val_digit_byte d : 0 <= d < 10 -> digit_val 10 (digit_byte d) = Some d.
Proof.
  intros H. unfold digit_val. rewrite digit_byte_digit, digit_byte_val by done.
  replace (d + 48 - 48) with d by lia. by destruct (Z.ltb_spec d 10); [|lia].
Qed.

Lemma parse_digits_snoc radix acc s b :
  parse_digits radix acc (s ++ [b]) =
  match parse_digits radix acc s with
  | Some n => match digit_val radix b with Some d => Some (n * radix + d) | None => None end
  | None => None
  end.
Proof.
  revert acc; induction s as [|c s IH]; intros acc; simpl; [done|].
  by destruct (digit_val radix c).
Qed.

Lemma parse_dec_go fuel n :
  0 <= n < 2 ^ Z.of_nat fuel -> (0 < fuel)%nat -> parse_digits 10 0 (dec_go fuel n) = Some n.
Proof.
  revert n; induction fuel as [|f IH]; intros n Hn Hf; [lia|]. cbn [dec_go].
  assert (Hm : 0 <= n mod 10 < 10) by (apply Z.mod_pos_bound; lia).
  rewrite parse_digits_snoc, digit_val_digit_byte by done.
  pose proof (Z.div_mod n 10).
  destruct (Z.ltb_spec n 10); simpl parse_digits.
  - rewrite Z.mod_small by lia. f_equal.
  - rewrite Nat2Z.inj_succ, Z.pow_succ_r in Hn by lia.
    rewrite IH; [f_equal; lia| |].
    + split; [apply Z.div_pos; lia|]. apply Z.div_lt_upper_bound; lia.
    + destruct f; [|lia]. simpl in Hn. lia.
Qed.

Lemma dec_go_digits fuel n : 0 <= n -> forallb is_ascii_digit (dec_go fuel n) = true.
Proof.
  revert n; induction fuel as [|f IH]; intros n Hn; [done|]. cbn [dec_go].
  assert (0 <= n mod 10 < 10) by (apply Z.mod_pos_bound; lia).
  rewrite forallb_app; simpl. rewrite digit_byte_digit by done. rewrite andb_true_r.
  destruct (n <? 10); [done|]. apply IH. by apply Z.div_pos.
Qed.

Lemma dec_nonempty n : dec n <> [].
Proof. unfold dec. cbn [dec_go]. by destruct (if n <? 10 then _ else _). Qed.

Lemma dec_digits n : 0 <= n -> forallb is_ascii_digit (dec n) = true.
Proof. apply dec_go_digits. Qed.

(** Parsing a printed number gives the number back. *)
Lemma parse_digits_dec n : 0 <= n -> parse_digits 10 0 (dec n) = Some n.
Proof.
  intros Hn. apply parse_dec_go; [|lia]. rewrite Nat2Z.inj_succ, Z2Nat.id by apply Z.log2_nonneg.
  split; [done|]. destruct (Z.eq_dec n 0) as [->|]; [done|]. apply Z.log2_spec. lia.
Qed.

Lemma dec_head n : 0 <= n -> exists b r, dec n = b :: r /\ is_ascii_digit b = true.
Proof.
  intros Hn. pose proof (dec_nonempty n). pose proof (dec_digits n Hn) as H1.
  destruct (dec n) as [|b r]; [done|]. simpl in H1. apply andb_true_iff in H1 as [Hb _]. by exists b, r.
Qed.

Lemma digit_not_byte b c : is_ascii_digit b = true -> is_ascii_digit c = false -> (b =b c) = false.
Proof. intros Hb Hc. apply byte_eqb_neq. intros ->. congruence. Qed.

Lemma parse_unsigned_dec n max : 0 <= n <= max -> parse_unsigned 10 max (dec n) = Some n.
Proof.
  intros Hn. unfold parse_unsigned.
  destruct (dec_head n) as (b & r & E & Hb); [lia|]. rewrite E.
  rewrite (digit_not_byte b x2b Hb) by done.
  rewrite <- E, parse_digits_dec by lia. by destruct (Z.leb_spec n max); [|lia].
Qed.

Lemma parse_i64_dec n : 0 <= n <= i64_max -> parse_i64 (dec n) = Some n.
Proof.
  intros Hn. pose proof (parse_unsigned_dec n i64_max Hn) as H. unfold parse_i64.
  destruct (dec_head n) as (b & r & E & Hb); [lia|]. rewrite E in *.
  by rewrite (digit_not_byte b x2d Hb).
Qed.

(** *** UTF-8 *)

Definition is_ascii (b : byte) : bool := byte_val b <? 128.

Lemma ascii_valid s : forallb is_ascii s = true -> utf8_valid s = true.
Proof.
  unfold utf8_valid. induction s as [|b s IH]; [done|]. simpl.
  rewrite andb_true_iff. intros [Hb Hs]. unfold is_ascii in Hb. rewrite Hb. by apply IH.
Qed.

Lemma digits_ascii s : forallb is_ascii_digit s = true -> forallb is_ascii s = true.
Proof.
  rewrite !forallb_forall. intros H b Hb. specialize (H b Hb).
  apply is_ascii_digit_spec in H. unfold is_ascii. lia.
Qed.

Lemma utf8_lossy_valid_go skip s :
  utf8_valid_go skip s = true -> utf8_lossy_go skip true s = s.
Proof.
  revert skip; induction s as [|b s IH]; intros skip; [done|]. cbn [utf8_valid_go utf8_lossy_go].
  destruct skip as [|k]; [|intros H; by rewrite (IH _ H)].
  destruct (utf8_next (b :: s)); [|done]. intros H. by rewrite (IH _ H).
Qed.

(** Lossy decoding leaves well-formed text alone. *)
Lemma from_utf8_lossy_valid s : utf8_valid s = true -> from_utf8_lossy s = s.
Proof. apply utf8_lossy_valid_go. Qed.

(** *** Lines *)

Lemma find_crlf_line t rest :
  line_ok t = true -> find_bytes (t ++ crlf ++ rest) crlf = Some (length t).
Proof.
  unfold line_ok, contains. destruct (find_bytes t crlf) eqn:E; [done|]. intros _.
  revert E; induction t as [|c t IH]; [done|].
  cbn [find_bytes app]. destruct (starts_with crlf (c :: t)) eqn:E; [done|].
  destruct (find_bytes t crlf) eqn:E2; [done|]. intros _.
  assert (starts_with crlf (c :: t ++ crlf ++ rest) = false) as ->.
  { destruct t as [|d t]; [|done]. simpl. by rewrite andb_false_r. }
  by rewrite (IH eq_refl).
Qed.

Lemma digits_line_ok t : forallb is_ascii_digit t = true -> line_ok t = true.
Proof.
  unfold line_ok, contains. induction t as [|c t IH]; [done|].
  cbn [forallb find_bytes]. rewrite andb_true_iff. intros [Hc Ht].
  assert (starts_with crlf (c :: t) = false) as ->.
  { simpl. rewrite andb_false_iff. left. apply byte_eqb_neq. by intros <-. }
  specialize (IH Ht). by destruct (find_bytes t crlf).
Qed.

Lemma dec_line_ok n : 0 <= n -> line_ok (dec n) = true.
Proof. intros. by apply digits_line_ok, dec_digits. Qed.


(** [strip_prefix] takes back what was put in front. *)
Lemma strip_prefix_app p s : strip_prefix p (p ++ s) = Some s.
Proof.
  unfold strip_prefix. assert (starts_with p (p ++ s) = true) as -> by (apply starts_with_spec; eauto).
  by rewrite drop_app_length.
Qed.

(** Lines put together with line feeds are taken apart. *)
Definition no_break (s : bytes) : bool := forallb (fun b => negb ((b =b x0a) || (b =b x0d))) s.

Lemma split_on_break s rest :
  no_break s = true ->
  split_on (fun b => b =b x0a) (s ++ x0a :: rest) = s :: split_on (fun b => b =b x0a) rest.
Proof.
  induction s as [|b s IH]; [done|]. cbn [no_break forallb app split_on]. rewrite andb_true_iff.
  intros [Hb Hs]. rewrite negb_true_iff, orb_false_iff in Hb. destruct Hb as [-> _]. by rewrite IH.
Qed.

Lemma strip_cr_no_break s : no_break s = true -> strip_cr s = s.
Proof.
  intros Hs. unfold strip_cr. destruct (rev s) as [|b r] eqn:E; [done|].
  assert (Hb : In b s) by (apply in_rev; rewrite E; by left).
  unfold no_break in Hs. rewrite forallb_forall in Hs. specialize (Hs b Hb).
  rewrite negb_true_iff, orb_false_iff in Hs. by destruct Hs as [_ ->].
Qed.

Lemma split_on_nonempty p s : split_on p s <> [].
Proof. destruct s as [|b s]; [done|]. cbn. destruct (p b); [done|]. by destruct (split_on p s). Qed.

Lemma lines_cons s rest : no_break s = true -> lines (s ++ x0a :: rest) = s :: lines rest.
Proof.
  intros Hs. unfold lines. rewrite split_on_break by done. cbn [finish_lines].
  rewrite strip_cr_no_break by done.
  pose proof (split_on_nonempty (fun b => b =b x0a) rest) as Hne.
  destruct (split_on (fun b => b =b x0a) rest) as [|w ws]; done.
Qed.

Lemma digits_no_break s : forallb is_ascii_digit s = true -> no_break s = true.
Proof.
  unfold no_break. rewrite !forallb_forall. intros Hs b Hb. specialize (Hs b Hb). revert Hs.
  apply implb_true_iff. revert b Hb. intros b _. revert b. apply byte_all. by vm_compute.
Qed.

(** *** Texts made of lines *)

(** A line followed by its break, in front of [rest]. *)
Lemma line_ok_cons c t :
  line_ok (c :: t) = true -> line_ok t = true /\ forall rest, starts_with crlf (c :: t ++ crlf ++ rest) = false.
Proof.
  unfold line_ok, contains. cbn [find_bytes]. destruct (starts_with crlf (c :: t)) eqn:E; [done|].
  destruct (find_bytes t crlf); [done|]. intros _. split; [done|]. intros rest.
  destruct t as [|d t]; [|done]. simpl. by rewrite andb_false_r.
Qed.

Lemma not_break c d r : starts_with crlf (c :: d :: r) = false -> (c =b x0d) && (d =b x0a) = false.
Proof. intros E. apply not_true_iff_false. rewrite andb_true_iff, !byte_eqb_eq. by intros [-> ->]. Qed.

Lemma starts_with_blank s : starts_with crlf s = false -> starts_with (crlf ++ crlf) s = false.
Proof.
  destruct s as [|a [|b s]]; try done. cbn [app starts_with crlf].
  rewrite !andb_true_r. rewrite andb_assoc. by intros ->.
Qed.

Lemma find_blank_line l rest :
  line_ok l = true ->
  find_bytes (l ++ crlf ++ rest) (crlf ++ crlf)
  = if starts_with crlf rest then Some (length l)
    else (fun i => length l + 2 + i)%nat <$> find_bytes rest (crlf ++ crlf).
Proof.
  induction l as [|c t IH]; intros Hl.
  - cbn [app find_bytes crlf length]. destruct (starts_with crlf rest) eqn:E; [by cbn in *; rewrite E|].
    cbn in E |- *. rewrite E. by destruct (find_bytes rest _).
  - apply line_ok_cons in Hl as [Ht Hs]. cbn [app]. cbn [find_bytes].
    rewrite (starts_with_blank _ (Hs rest)), IH by done. cbn [length].
    destruct (starts_with crlf rest); [done|]. by destruct (find_bytes rest _).
Qed.

Lemma split_crlf_line l rest : line_ok l = true -> split_crlf (l ++ crlf ++ rest) = l :: split_crlf rest.
Proof.
  induction l as [|c t IH]; intros Hl; [done|]. apply line_ok_cons in Hl as [Ht Hs].
  specialize (Hs rest). specialize (IH Ht). cbn [app split_crlf].
  destruct (t ++ crlf ++ rest) as [|d r] eqn:E; [by destruct t|].
  rewrite (not_break _ _ _ Hs). by rewrite IH.
Qed.

Lemma split_crlf_single l : line_ok l = true -> split_crlf l = [l].
Proof.
  induction l as [|c t IH]; intros Hl; [done|]. apply line_ok_cons in Hl as [Ht Hs].
  specialize (IH Ht). destruct t as [|d t]; [done|]. specialize (Hs []). cbn [app] in Hs.
  cbn [split_crlf] in IH |- *. rewrite (not_break _ _ _ Hs). by rewrite IH.
Qed.

Lemma line_ok_nil : line_ok [] = true.
Proof. done. Qed.

Lemma split_crlf_step b c r :
  split_crlf (b :: c :: r)
  = if (b =b x0d) && (c =b x0a) then [] :: split_crlf r
    else match split_crlf (c :: r) with w :: ws => (b :: w) :: ws | [] => [[b]] end.
Proof. done. Qed.

Lemma split_crlf_nonempty s : split_crlf s <> [].
Proof. destruct s as [|b [|c r]]; [done..|]. rewrite split_crlf_step. destruct (_ && _); [done|]. by destruct (split_crlf (c :: r)). Qed.

Lemma split_crlf_ok s : Forall (fun l => line_ok l = true) (split_crlf s).
Proof.
  induction s as [s IH] using (induction_ltof1 _ length). unfold ltof in IH.
  destruct s as [|b [|c r]]; [by repeat constructor| |rewrite split_crlf_step].
  { cbn [split_crlf]. constructor; [|done]. unfold line_ok, contains. cbn. by rewrite andb_false_r. }
  destruct ((b =b x0d) && (c =b x0a)) eqn:E.
  { constructor; [done|]. apply IH. cbn. lia. }
  specialize (IH (c :: r) ltac:(cbn; lia)). destruct (split_crlf (c :: r)) as [|w ws] eqn:Es; [by destruct (split_crlf_nonempty (c :: r))|].
  apply Forall_cons_1 in IH as [Hw Hws]. constructor; [|done].
  unfold line_ok, contains in *. cbn [find_bytes]. destruct (starts_with crlf (b :: w)) eqn:Eb; [|by destruct (find_bytes w crlf)].
  exfalso. destruct w as [|d w]; [by cbn in Eb; rewrite andb_false_r in Eb|]. cbn [starts_with crlf] in Eb.
  rewrite !andb_true_iff, !byte_eqb_eq in Eb. destruct Eb as [<- [<- _]].
  assert (c = x0a) as ->; [|by cbn in E].
  destruct r as [|e r]; [by injection Es as ->|]. rewrite split_crlf_step in Es.
  destruct ((c =b x0d) && (e =b x0a)); [done|]. destruct (split_crlf (e :: r)); by injection Es as ->.
Qed.

Lemma join_cons sep l ls : ls <> [] -> join sep (l :: ls) = l ++ sep ++ join sep ls.
Proof. by destruct ls. Qed.

Lemma join_split_crlf s : join crlf (split_crlf s) = s.
Proof.
  induction s as [s IH] using (induction_ltof1 _ length). unfold ltof in IH.
  destruct s as [|b [|c r]]; [done..|]. rewrite split_crlf_step.
  destruct ((b =b x0d) && (c =b x0a)) eqn:E.
  - rewrite andb_true_iff, !byte_eqb_eq in E. destruct E as [-> ->].
    rewrite join_cons by apply split_crlf_nonempty. rewrite IH by (cbn; lia). done.
  - specialize (IH (c :: r) ltac:(cbn; lia)). destruct (split_crlf (c :: r)) as [|w ws] eqn:Es; [done|].
    rewrite <- IH. by destruct ws.
Qed.

Lemma split_crlf_join ls : ls <> [] -> Forall (fun l => line_ok l = true) ls -> split_crlf (join crlf ls) = ls.
Proof.
  induction ls as [|l ls IH]; [done|]. intros _ [Hl Hls]%Forall_cons_1. destruct ls as [|l' ls]; [by apply split_crlf_single|].
  rewrite join_cons, split_crlf_line, IH by done. done.
Qed.

(** The blank line behind a text of lines comes first if no line is empty. *)
Definition full_line (l : bytes) : Prop := line_ok l = true /\ l <> [].

Lemma full_lines_ok ls : Forall full_line ls -> Forall (fun l => line_ok l = true) ls.
Proof. induction 1 as [|l ls [Hl _] _ IH]; by constructor. Qed.

Lemma full_line_starts l ls rest :
  full_line l -> starts_with crlf (join crlf (l :: ls) ++ crlf ++ rest) = false.
Proof.
  intros [Hl Hne]. destruct l as [|c t]; [done|]. apply line_ok_cons in Hl as [_ Hl].
  destruct ls as [|l' ls]; [apply Hl|]. rewrite join_cons, <- !app_assoc by done. apply Hl.
Qed.

Lemma find_blank_join ls rest :
  ls <> [] -> Forall full_line ls ->
  find_bytes (join crlf ls ++ crlf ++ crlf ++ rest) (crlf ++ crlf) = Some (length (join crlf ls)).
Proof.
  induction ls as [|l ls IH]; [done|]. intros _ [Hl Hls]%Forall_cons_1. destruct ls as [|l' ls].
  - cbn [join]. by rewrite find_blank_line by apply Hl.
  - rewrite join_cons, <- !app_assoc, find_blank_line by (done || apply Hl).
    rewrite full_line_starts by (by apply Forall_cons_1 in Hls as [? _]). rewrite IH by done.
    cbn. f_equal. rewrite !length_app. cbn. lia.
Qed.

Lemma find_blank_full l ls :
  Forall (fun l => line_ok l = true) (l :: ls) ->
  find_bytes (join crlf (l :: ls) ++ crlf ++ crlf) (crlf ++ crlf) = Some (length (join crlf (l :: ls))) ->
  Forall full_line ls.
Proof.
  revert l. induction ls as [|l' ls IH]; [done|]. intros l [Hl Hls]%Forall_cons_1.
  rewrite join_cons, <- !app_assoc, find_blank_line by done. destruct (starts_with crlf _) eqn:Es.
  { intros E%(inj Some). rewrite !length_app in E. cbn in E. lia. }
  destruct (find_bytes _ _) as [i|] eqn:Ef; [|done]. intros E%(inj Some). rewrite !length_app in E. change (length crlf) with 2%nat in E.
  constructor.
  - split; [by apply Forall_cons_1 in Hls as [? _]|]. intros ->. by destruct ls.
  - apply (IH l' Hls). rewrite Ef. f_equal. lia.
Qed.

(** *** Text cut at an ASCII character *)

Lemma nth_is_lookup p s i : nth_is p s i = true -> (i < length s)%nat.
Proof. unfold nth_is. destruct (s !! i) eqn:E; [|done]. intros _. by eapply lookup_lt_Some. Qed.

Lemma utf8_next_size s n : utf8_next s = Valid n -> (0 < n <= length s)%nat.
Proof.
  unfold utf8_next. destruct s as [|b r]; [done|]. cbn [length]. repeat case_match; try done; intros [= <-]; try lia;
    repeat match goal with
    | H : negb _ = false |- _ => apply negb_false_iff in H
    | H : nth_is _ _ _ = true |- _ => apply nth_is_lookup in H
    end; lia.
Qed.

Lemma ascii_not_in lo hi c : is_ascii c = true -> 128 <= lo -> in_range lo hi c = false.
Proof. unfold is_ascii, in_range. intros Hc%Z.ltb_lt Hlo. apply andb_false_iff. left. apply Z.leb_gt. lia. Qed.

Lemma utf8_next_ascii b r c t : is_ascii c = true -> utf8_next ((b :: r) ++ c :: t) = utf8_next (b :: r).
Proof.
  intros Hc. cbn [app utf8_next].
  assert (Hcont : is_cont c = false) by (by apply ascii_not_in).
  assert (Hr : forall lo hi, 128 <= lo -> in_range lo hi c = false) by (intros; by apply ascii_not_in).
  destruct r as [|r0 [|r1 [|r2 r]]]; [..|done]; cbn [app]; unfold nth_is; cbn [lookup list_lookup];
    rewrite ?Hcont; repeat case_match; rewrite ?Hcont, ?Hr in * by lia; try done; congruence.
Qed.

Lemma utf8_go_split k a c t :
  is_ascii c = true -> (k <= length a)%nat ->
  utf8_valid_go k (a ++ c :: t) = utf8_valid_go k a && utf8_valid t.
Proof.
  intros Hc. revert k. induction a as [|b a IH]; intros k Hk.
  - destruct k; [|cbn in Hk; lia]. unfold utf8_valid. cbn [app utf8_valid_go utf8_next].
    unfold is_ascii in Hc. by rewrite Hc.
  - cbn [app utf8_valid_go]. destruct k as [|k]; [|apply IH; cbn in Hk; lia].
    pose proof (utf8_next_ascii b a c t Hc) as Hn. cbn [app] in Hn. rewrite Hn. destruct (utf8_next (b :: a)) as [n|n] eqn:E; [|done].
    apply utf8_next_size in E. cbn in E. apply IH. lia.
Qed.

Lemma utf8_valid_split a c t : is_ascii c = true -> utf8_valid (a ++ c :: t) = utf8_valid a && utf8_valid t.
Proof. intros Hc. apply utf8_go_split; [done|lia]. Qed.

Lemma utf8_valid_crlf a t : utf8_valid (a ++ crlf ++ t) = utf8_valid a && utf8_valid t.
Proof. cbn [app crlf]. by rewrite utf8_valid_split. Qed.

Lemma utf8_valid_join ls : utf8_valid (join crlf ls) = forallb utf8_valid ls.
Proof.
  induction ls as [|l ls IH]; [done|]. destruct ls as [|l' ls]; [cbn; by rewrite andb_true_r|].
  rewrite join_cons, utf8_valid_crlf, IH by done. done.
Qed.

(** ** Padded decimals and their order *)

Lemma dec_go_fuel a b n :
  0 <= n -> n < 10 ^ Z.of_nat (S a) -> n < 10 ^ Z.of_nat (S b) -> dec_go (S a) n = dec_go (S b) n.
Proof.
  revert b n. induction a as [|a IH]; intros b n Hn Ha Hb; rewrite Nat2Z.inj_succ, Z.pow_succ_r in Ha, Hb by lia.
  - cbn [dec_go]. f_equal. destruct (Z.ltb_spec n 10); [done|]. change (10 ^ Z.of_nat 0) with 1 in Ha. lia.
  - cbn [dec_go]. f_equal. destruct (Z.ltb_spec n 10) as [|Hge]; [done|].
    destruct b as [|b]; [change (10 ^ Z.of_nat 0) with 1 in Hb; lia|].
    apply IH; [apply Z.div_pos; lia|..]; apply Z.div_lt_upper_bound; lia.
Qed.

Lemma dec_fuel n : 0 <= n -> n < 10 ^ Z.of_nat (S (Z.to_nat (Z.log2 n))).
Proof.
  intros Hn. destruct (Z.eq_dec n 0) as [->|]; [done|].
  rewrite Nat2Z.inj_succ, Z2Nat.id by apply Z.log2_nonneg.
  pose proof (Z.log2_spec n ltac:(lia)) as [_ Hl]. eapply Z.lt_le_trans; [exact Hl|].
  apply Z.pow_le_mono_l. lia.
Qed.

Lemma dec_small n : n < 10 -> dec n = [digit_byte (n mod 10)].
Proof. intros Hn. unfold dec. cbn [dec_go]. by rewrite (proj2 (Z.ltb_lt n 10) Hn). Qed.

Lemma dec_step n : 10 <= n -> dec n = dec (n / 10) ++ [digit_byte (n mod 10)].
Proof.
  intros Hn. unfold dec. pose proof (dec_fuel n ltac:(lia)) as Hf.
  destruct (Z.to_nat (Z.log2 n)) as [|k] eqn:Ek.
  { change (10 ^ Z.of_nat 1) with 10 in Hf. lia. }
  cbn [dec_go]. destruct (Z.ltb_spec n 10); [lia|]. f_equal.
  assert (0 <= n / 10) by (apply Z.div_pos; lia).
  apply dec_go_fuel; [done| |by apply dec_fuel].
  rewrite Nat2Z.inj_succ, Z.pow_succ_r in Hf by lia. apply Z.div_lt_upper_bound; lia.
Qed.

(** The last [width] decimal digits of a number. *)
Fixpoint digits_of (width : nat) (n : Z) : bytes :=
  match width with
  | O => []
  | S w => digits_of w (n / 10) ++ [digit_byte (n mod 10)]
  end.

Lemma length_digits_of width n : length (digits_of width n) = width.
Proof. revert n; induction width as [|w IH]; intros n; cbn; [done|]. rewrite length_app, IH. cbn. lia. Qed.

Lemma digits_of_zero width : digits_of width 0 = repeat x30 width.
Proof.
  induction width as [|w IH]; [done|]. cbn [digits_of]. change (0 / 10) with 0. rewrite IH.
  change [digit_byte (0 mod 10)] with (repeat x30 1). rewrite <- repeat_app. f_equal. lia.
Qed.

Lemma length_dec_le width n : 0 <= n -> n < 10 ^ Z.of_nat (S width) -> (length (dec n) <= S width)%nat.
Proof.
  revert n. induction width as [|w IH]; intros n H0 Hn.
  - change (10 ^ Z.of_nat 1) with 10 in Hn. rewrite dec_small by lia. done.
  - destruct (Z.lt_ge_cases n 10); [rewrite dec_small by lia; cbn; lia|].
    rewrite dec_step, length_app by done. cbn [length].
    rewrite Nat2Z.inj_succ, Z.pow_succ_r in Hn by lia.
    specialize (IH (n / 10) ltac:(apply Z.div_pos; lia) ltac:(apply Z.div_lt_upper_bound; lia)). lia.
Qed.

Lemma pad_digits width n : 0 <= n < 10 ^ Z.of_nat (S width) -> pad (S width) n = digits_of (S width) n.
Proof.
  intros Hn. unfold pad. destruct (Z.ltb_spec n 0); [lia|]. revert n Hn H.
  induction width as [|w IH]; intros n Hn Hp; cbn [digits_of].
  - change (10 ^ Z.of_nat 1) with 10 in Hn. rewrite dec_small by lia. done.
  - destruct (Z.lt_ge_cases n 10) as [Hs|Hs].
    + rewrite dec_small by lia. rewrite (Z.div_small n 10) by lia. change (0 / 10) with 0.
      rewrite digits_of_zero, <- app_assoc. cbn [length].
      replace (S (S w) - 1)%nat with (w + 1)%nat by lia. rewrite repeat_app, <- app_assoc. done.
    + rewrite Nat2Z.inj_succ, Z.pow_succ_r in Hn by lia.
      rewrite dec_step, length_app, app_assoc by done. f_equal. cbn [length].
      change (digits_of w (n / 10 / 10) ++ [digit_byte ((n / 10) mod 10)]) with (digits_of (S w) (n / 10)).
      rewrite <- (IH (n / 10)); [|split; [apply Z.div_pos; lia|apply Z.div_lt_upper_bound; lia]|apply Z.div_pos; lia].
      f_equal. f_equal. lia.
Qed.

Lemma bytes_cmp_app a b x y :
  length a = length b ->
  bytes_cmp (a ++ x) (b ++ y) = match bytes_cmp a b with Eq => bytes_cmp x y | c => c end.
Proof.
  revert b. induction a as [|c a IH]; intros [|d b] H; try done. cbn. destruct (byte_val c ?= byte_val d); try done.
  apply IH. by injection H.
Qed.

(** Numbers of one width are ordered as their texts are. *)
Lemma digits_of_cmp width m n :
  0 <= m < 10 ^ Z.of_nat width -> 0 <= n < 10 ^ Z.of_nat width ->
  bytes_cmp (digits_of width m) (digits_of width n) = (m ?= n).
Proof.
  revert m n. induction width as [|w IH]; intros m n Hm Hn.
  - change (10 ^ Z.of_nat 0) with 1 in *. assert (m = 0 /\ n = 0) as [-> ->] by lia. done.
  - rewrite Nat2Z.inj_succ, Z.pow_succ_r in Hm, Hn by lia. cbn [digits_of].
    rewrite bytes_cmp_app by by rewrite !length_digits_of.
    pose proof (Z.div_mod m 10). pose proof (Z.div_mod n 10).
    pose proof (Z.mod_pos_bound m 10). pose proof (Z.mod_pos_bound n 10).
    rewrite IH by (split; [apply Z.div_pos; lia|apply Z.div_lt_upper_bound; lia]).
    cbn [bytes_cmp]. rewrite !digit_byte_val by lia.
    destruct (Z.compare_spec (m / 10) (n / 10)); [|symmetry; apply Z.compare_lt_iff; lia|symmetry; apply Z.compare_gt_iff; lia].
    destruct (Z.compare_spec (m mod 10 + 48) (n mod 10 + 48)); symmetry;
      [apply Z.compare_eq_iff|apply Z.compare_lt_iff|apply Z.compare_gt_iff]; lia.
Qed.
