(* ===== verification/RustText.v ===== *)
(** * RustText: characters of strings, and floating point numbers as text.

    [str::chars] over the UTF-8 contents of a string, [char::is_control], and
    the decimal text of an [f64] quotient with a fixed number of places. *)

From S2P Require Import Prelude RustStd.
#[local] Open Scope lens_scope.

(** ** Characters *)

(** The length in bytes of the first character. *)
Definition char_len (s : bytes) : nat := match utf8_next s with Valid n => n | Invalid n => Nat.max 1 n end.

Fixpoint chars_fuel (fuel : nat) (s : bytes) : list bytes :=
  match fuel, s with
  | S fuel, _ :: _ => take (char_len s) s :: chars_fuel fuel (drop (char_len s) s)
  | _, _ => []
  end.

(** [chars()], each character as its bytes; a character has at least one byte,
    so one round per byte is enough. *)
Definition chars (s : bytes) : list bytes := chars_fuel (length s) s.

(** [char::is_control]: the ASCII controls and U+0080 to U+009F. *)
Definition is_control (c : bytes) : bool :=
  match c with
  | [b] => is_ascii_control b
  | [b; d] => (b =b xc2) && in_range 128 159 d
  | _ => false
  end.

(** [char::is_whitespace]. *)
Definition is_whitespace (c : bytes) : bool := (0 <? length c)%nat && (ws_len c =? length c)%nat.

(** [String::pop]. *)
Definition pop (s : bytes) : bytes := List.concat (removelast (chars s)).

(** One well-formed character. *)
Definition char_ok (c : bytes) : Prop := c <> [] /\ utf8_next c = Valid (length c).

Lemma char_len_pos s : (0 < char_len s)%nat.
Proof.
  unfold char_len. destruct (utf8_next s) as [n|n] eqn:E; [|lia]. apply utf8_next_size in E. lia.
Qed.

Lemma chars_fuel_more fuel s : (length s <= fuel)%nat -> chars_fuel fuel s = chars s.
Proof.
  unfold chars. assert (forall n m s, (length s <= n)%nat -> (length s <= m)%nat -> chars_fuel n s = chars_fuel m s) as K.
  { clear. induction n as [|n IH]; intros [|m] s Hn Hm; destruct s as [|b r]; cbn [length] in *; try lia; try done.
    cbn [chars_fuel]. f_equal. pose proof (char_len_pos (b :: r)). apply IH; rewrite length_drop; cbn [length]; lia. }
  intros Hf. by apply K.
Qed.

Lemma chars_cons b r : chars (b :: r) = take (char_len (b :: r)) (b :: r) :: chars (drop (char_len (b :: r)) (b :: r)).
Proof.
  unfold chars at 1. cbn [length chars_fuel]. f_equal. apply chars_fuel_more.
  pose proof (char_len_pos (b :: r)). rewrite length_drop. cbn [length]. lia.
Qed.

(** A first character is the same with more text behind it. *)
Lemma utf8_next_app s t n : utf8_next s = Valid n -> utf8_next (s ++ t) = Valid n.
Proof.
  destruct s as [|b r]; [done|]. cbn [app utf8_next]. unfold nth_is.
  destruct r as [|r0 [|r1 [|r2 r]]]; cbn [app]; cbn [lookup list_lookup]; cbn [negb]; [..|by intros ?];
    repeat case_match; simplify_eq/=; try done; congruence.
Qed.

Lemma char_ok_app c s : char_ok c -> chars (c ++ s) = c :: chars s.
Proof.
  intros [Hne Hc]. destruct c as [|b r]; [done|]. cbn [app]. rewrite chars_cons.
  assert (char_len (b :: r ++ s) = length (b :: r)) as ->.
  { unfold char_len. pose proof (utf8_next_app (b :: r) s _ Hc) as K. cbn [app] in K. by rewrite K. }
  change (b :: r ++ s) with ((b :: r) ++ s). by rewrite take_app_length, drop_app_length.
Qed.

Lemma chars_concat cs : Forall char_ok cs -> chars (List.concat cs) = cs.
Proof. induction 1 as [|c cs Hc _ IH]; [done|]. cbn [List.concat]. by rewrite char_ok_app, IH. Qed.

Lemma concat_chars s : List.concat (chars s) = s.
Proof.
  induction s as [s IH] using (induction_ltof1 _ (@length byte)). destruct s as [|b r]; [done|].
  rewrite chars_cons. cbn [List.concat]. rewrite IH; [by rewrite take_drop|].
  unfold ltof. rewrite length_drop. pose proof (char_len_pos (b :: r)). cbn [length]. lia.
Qed.

Lemma utf8_next_take s n : utf8_next s = Valid n -> utf8_next (take n s) = Valid n.
Proof.
  destruct s as [|b r]; [done|]. cbn [utf8_next]. unfold nth_is.
  destruct r as [|r0 [|r1 [|r2 r]]]; cbn [lookup list_lookup];
    repeat case_match; intros [= <-]; cbn [take utf8_next]; unfold nth_is; cbn [lookup list_lookup];
    repeat case_match; congruence.
Qed.

Lemma utf8_go_drop k s : (k <= length s)%nat -> utf8_valid_go k s = utf8_valid_go 0 (drop k s).
Proof.
  revert k. induction s as [|b r IH]; intros [|k] Hk; cbn [length] in Hk; try lia; try done.
  cbn [utf8_valid_go drop]. apply IH. lia.
Qed.

Lemma utf8_valid_cons b r : utf8_valid (b :: r) = true ->
  exists n, utf8_next (b :: r) = Valid n /\ utf8_valid (drop n (b :: r)) = true.
Proof.
  unfold utf8_valid. cbn [utf8_valid_go]. destruct (utf8_next (b :: r)) as [n|] eqn:E; [|done]. intros Hv. exists n.
  split; [done|]. apply utf8_next_size in E. destruct n as [|n]; [lia|]. cbn [length] in E. cbn [drop].
  replace (S n - 1)%nat with n in Hv by lia. rewrite utf8_go_drop in Hv by lia. done.
Qed.

(** The characters of valid text are well-formed. *)
Lemma chars_ok s : utf8_valid s = true -> Forall char_ok (chars s).
Proof.
  induction s as [s IH] using (induction_ltof1 _ (@length byte)). destruct s as [|b r]; [constructor|]. intros Hv.
  destruct (utf8_valid_cons b r Hv) as (n & Hn & Hd). pose proof (utf8_next_size _ _ Hn) as Hsz.
  rewrite chars_cons. unfold char_len. rewrite Hn. constructor.
  - split; [|rewrite (utf8_next_take _ _ Hn), length_take, Nat.min_l by lia; done].
    intros E%(f_equal length). rewrite length_take in E. cbn [length] in *. lia.
  - apply IH; [|done]. unfold ltof. rewrite length_drop. cbn [length]. lia.
Qed.

Lemma chars_app a b : utf8_valid a = true -> chars (a ++ b) = chars a ++ chars b.
Proof.
  intros Ha. rewrite <- (concat_chars a) at 1. pose proof (chars_ok a Ha) as Hok. revert Hok.
  induction (chars a) as [|c cs IH]; intros Hok; [done|]. inversion_clear Hok. cbn [List.concat app].
  by rewrite <- app_assoc, char_ok_app, IH.
Qed.

Lemma utf8_valid_char c s : char_ok c -> utf8_valid (c ++ s) = utf8_valid s.
Proof.
  intros [Hne Hc]. destruct c as [|b r]; [done|]. pose proof (utf8_next_app (b :: r) s _ Hc) as Hn. cbn [app] in *.
  unfold utf8_valid at 1. cbn [utf8_valid_go]. rewrite Hn. rewrite utf8_go_drop by (cbn [length]; rewrite length_app; lia).
  cbn [length]. replace (S (length r) - 1)%nat with (length r) by lia. by rewrite drop_app_length.
Qed.

Lemma utf8_valid_app a b : utf8_valid a = true -> utf8_valid (a ++ b) = utf8_valid b.
Proof.
  intros Ha. rewrite <- (concat_chars a). pose proof (chars_ok a Ha) as Hok. revert Hok.
  induction (chars a) as [|c cs IH]; intros Hok; [done|]. inversion_clear Hok. cbn [List.concat].
  by rewrite <- app_assoc, utf8_valid_char, IH.
Qed.

(** Lossy decoding yields text. *)
Lemma lossy_go k keep s :
  utf8_lossy_go k keep s = (if keep then take k s else []) ++ utf8_lossy_go 0 true (drop k s).
Proof.
  revert k keep. induction s as [|b r IH]; intros [|k] keep; try (by destruct keep).
  cbn [utf8_lossy_go drop take]. rewrite IH. by destruct keep.
Qed.

Lemma lossy_valid s : utf8_valid (from_utf8_lossy s) = true.
Proof.
  unfold from_utf8_lossy. induction s as [s IH] using (induction_ltof1 _ (@length byte)). unfold ltof in IH.
  destruct s as [|b r]; [done|]. cbn [utf8_lossy_go]. destruct (utf8_next (b :: r)) as [n|n] eqn:E.
  - pose proof (utf8_next_size _ _ E) as Hsz. rewrite lossy_go, app_comm_cons.
    assert (b :: take (n - 1) r = take n (b :: r)) as Ht by (destruct n; [lia|]; cbn; by rewrite Nat.sub_0_r).
    rewrite Ht, utf8_valid_char; [apply IH; rewrite length_drop; cbn [length]; lia|].
    split; [rewrite <- Ht; done|]. by rewrite (utf8_next_take _ _ E), length_take, Nat.min_l by lia.
  - rewrite lossy_go. cbn [app]. rewrite utf8_valid_char; [apply IH; rewrite length_drop; cbn [length]; lia|]. by vm_compute.
Qed.

(** Text of well-formed characters is valid. *)
Lemma utf8_valid_concat cs : Forall char_ok cs -> utf8_valid (List.concat cs) = true.
Proof. induction 1 as [|c cs Hc _ IH]; [done|]. cbn [List.concat]. by rewrite utf8_valid_char. Qed.

(** ** Trimming removes whole characters *)

Lemma char_ok_cont b r : char_ok (b :: r) -> forallb is_cont r = true.
Proof.
  intros [_ Hn]. cbn [utf8_next] in Hn. unfold nth_is in Hn.
  assert (forall lo hi c, 128 <= lo -> hi <= 191 -> in_range lo hi c = true -> is_cont c = true) as K
    by (unfold is_cont, in_range; intros *; rewrite !andb_true_iff, !Z.leb_le; lia).
  destruct r as [|r0 [|r1 [|r2 [|r3 r]]]]; cbn [lookup list_lookup length] in Hn; cbn [forallb];
    repeat case_match; try done; try lia;
    repeat match goal with H : negb _ = false |- _ => apply negb_false_iff in H end;
    rewrite ?andb_true_iff; repeat split; try done; eapply K; try eassumption; lia.
Qed.

Lemma ws_len_char c s : char_ok c -> ws_len (c ++ s) = O \/ ws_len (c ++ s) = length c.
Proof.
  intros [Hne Hn]. destruct c as [|b r]; [done|]. cbn [utf8_next] in Hn.
  assert (forall v, (b =b v) = true -> byte_val b = byte_val v) as K by (by intros v ->%byte_eqb_eq).
  cbn [app ws_len]. destruct (in_range 9 13 b || (b =b x20)) eqn:E0.
  { assert (byte_val b < 128) as Hb.
    { apply orb_true_iff in E0 as [E0|E0%K]; [unfold in_range in E0; lia|rewrite E0; done]. }
    rewrite (proj2 (Z.ltb_lt _ 128) Hb) in Hn. right. congruence. }
  destruct (b =b xc2) eqn:E1; [apply K in E1|destruct (b =b xe1) eqn:E2;
    [apply K in E2|destruct (b =b xe2) eqn:E3; [apply K in E3|destruct (b =b xe3) eqn:E4; [apply K in E4|by left]]]].
  all: match goal with H : byte_val ?x = byte_val _, Hn : _ = Valid _ |- _ => rewrite H in Hn; cbn in Hn end.
  all: repeat case_match; try (by left); right; simplify_eq; cbn [length]; try done; congruence.
Qed.

Lemma trim_go_drop k s : (k <= length s)%nat -> trim_start_go k s = trim_start (drop k s).
Proof.
  revert k. induction s as [|b r IH]; intros [|k] Hk; cbn [length] in Hk; try lia; try done.
  cbn [trim_start_go drop]. apply IH. lia.
Qed.

Lemma trim_start_chars cs : Forall char_ok cs -> exists k, trim_start (List.concat cs) = List.concat (drop k cs).
Proof.
  induction 1 as [|c cs Hc _ IH]; [by exists O|]. cbn [List.concat].
  destruct (ws_len_char c (List.concat cs) Hc) as [E|E]; destruct c as [|b r]; try by destruct Hc.
  - exists O. cbn [app] in E |- *. unfold trim_start. cbn [trim_start_go]. by rewrite E.
  - destruct IH as [k IH]. exists (S k). cbn [app length] in E |- *. unfold trim_start at 1. cbn [trim_start_go drop].
    rewrite E, trim_go_drop by (rewrite length_app; lia). by rewrite drop_app_length.
Qed.

Lemma trim_end_cont r s : forallb is_cont r = true -> trim_end (r ++ s) = r ++ trim_end s.
Proof.
  induction r as [|b r IH]; [done|]. cbn [forallb]. rewrite andb_true_iff. intros [Hb Hr].
  assert (forall t, ws_len (b :: t) = O) as Hw.
  { intros t. revert Hb. unfold is_cont. intros Hb. cbn [ws_len].
    assert (forall v, byte_val v < 128 \/ 191 < byte_val v -> (b =b v) = false) as K.
    { intros v Hv. apply byte_eqb_neq. intros ->. unfold in_range in Hb. lia. }
    rewrite !K by (cbn; lia). unfold in_range in Hb |- *. rewrite orb_false_r.
    destruct (Z.leb_spec (byte_val b) 13); [lia|]. by rewrite andb_false_r. }
  cbn [app trim_end]. unfold all_ws, trim_start. cbn [trim_start_go]. by rewrite Hw, IH.
Qed.

Lemma trim_end_chars cs : Forall char_ok cs -> exists k, trim_end (List.concat cs) = List.concat (take k cs).
Proof.
  induction 1 as [|c cs Hc _ [k IH]]; [by exists O|]. cbn [List.concat]. destruct c as [|b r]; [by destruct Hc|].
  cbn [app trim_end]. destruct (all_ws _); [by exists O|]. exists (S k). cbn [take List.concat app].
  rewrite trim_end_cont, IH; [done|by eapply char_ok_cont].
Qed.

Lemma trim_chars cs : Forall char_ok cs -> exists i k, trim (List.concat cs) = List.concat (take k (drop i cs)).
Proof.
  intros Hcs. destruct (trim_start_chars cs Hcs) as [i Hi]. destruct (trim_end_chars (drop i cs)) as [k Hk];
    [by apply Forall_drop|]. exists i, k. unfold trim. by rewrite Hi.
Qed.

(** ** Floating point numbers *)

(** Division rounded to the nearest integer, ties to even. *)
Definition round_div (a b : Z) : Z :=
  let q := a / b in
  let r := a mod b in
  if 2 * r <? b then q else if b <? 2 * r then q + 1 else if Z.even q then q else q + 1.

(** The [f64] nearest to the positive quotient [a / b], as a quotient: 53
    significant bits. *)
Definition to_f64 (a b : Z) : Z * Z :=
  if a =? 0 then (0, 1)
  else
    let scaled e := if 0 <=? e then (a, b * 2 ^ e) else (a * 2 ^ (- e), b) in
    let e0 := Z.log2 a - Z.log2 b - 52 in
    let e := if fst (scaled e0) / snd (scaled e0) <? 2 ^ 52 then e0 - 1 else e0 in
    let m := round_div (fst (scaled e)) (snd (scaled e)) in
    if 0 <=? e then (m * 2 ^ e, 1) else (m, 2 ^ (- e)).

(** [format!("{:.places$}", n as f64 / d)] for integers [n] and [d]. *)
Definition fixed_quotient (places : nat) (n d : Z) : bytes :=
  let '(x, y) := to_f64 n 1 in
  let '(x, y) := to_f64 x (y * d) in
  let q := round_div (x * 10 ^ Z.of_nat places) y in
  dec (q / 10 ^ Z.of_nat places) ++ lit "." ++ pad places (q mod 10 ^ Z.of_nat places).
