(* ===== verification/Disk.v ===== *)
(** * Disk: what the sources use of [std::fs] and [std::path].

    A file system is a finite map from paths to files and directories with
    their permission bits, and the mask of the process.  Paths are compared as
    text; the root and the working directory (the empty path) exist.  Any call
    may fail for reasons of its own (a full disk, missing rights): [faults]
    scripts which of the coming calls do, and how much a failing write leaves
    behind.  Queries of metadata by [is_file] and [exists] tell what is there. *)

From stdpp Require Import gmap.
From S2P Require Import Prelude RustStd.
#[local] Open Scope lens_scope.

Module Disk.

(** ** Paths *)

Definition slash : byte := "/"%byte.

(** [Path::join]. *)
Definition join (dir name : bytes) : bytes :=
  if starts_with [slash] name then name
  else if dir =s [] then name
  else if ends_with [slash] dir then dir ++ name
  else dir ++ [slash] ++ name.

(** [Path::parent]. *)
Definition parent (p : bytes) : option bytes :=
  if (p =s []) || (p =s [slash]) then None
  else match position (fun b => b =b slash) (rev p) with
       | None => Some []
       | Some i =>
           let head := take (length p - i - 1) p in
           Some (if head =s [] then [slash] else head)
       end.

(** [Path::file_name], of a path that does not end in a slash. *)
Definition file_name (p : bytes) : bytes :=
  match position (fun b => b =b slash) (rev p) with
  | None => p
  | Some i => drop (length p - i) p
  end.

(** ** State and errors *)

Inductive node := File (contents : bytes) (mode : Z) | Dir (mode : Z).

Inductive ErrorKind := NotFound | AlreadyExists | OtherKind.
Record IoError := mkIo { kind : ErrorKind; text : bytes }.

Definition enoent : IoError := mkIo NotFound (lit "No such file or directory (os error 2)").
Definition eexist : IoError := mkIo AlreadyExists (lit "File exists (os error 17)").
Definition enotdir : IoError := mkIo OtherKind (lit "Not a directory (os error 20)").
Definition eisdir : IoError := mkIo OtherKind (lit "Is a directory (os error 21)").
Definition enotempty : IoError := mkIo OtherKind (lit "Directory not empty (os error 39)").
Definition invalid_utf8 : IoError := mkIo OtherKind (lit "stream did not contain valid UTF-8").

(** [io::Result<A>]. *)
Abbreviation io A := (A + IoError)%type.

(** A call that fails, and the bytes a failing write has written. *)
Record Fault := mkFault { cause : IoError; written : nat }.

Record t := mk { nodes : gmap bytes node; umask : Z; faults : list (option Fault) }.

Definition set_nodes (d : t) (ns : gmap bytes node) : t := mk ns (umask d) (faults d).

(** The fate of the next call. *)
Definition tick (d : t) : option Fault * t :=
  match faults d with
  | [] => (None, d)
  | f :: fs => (f, mk (nodes d) (umask d) fs)
  end.

(** A call that does [k] unless it is scripted to fail. *)
Definition call {A} (d : t) (k : t -> io A * t) : io A * t :=
  match tick d with
  | (Some f, d) => (inr (cause f), d)
  | (None, d) => k d
  end.

(** ** Queries *)

Definition is_file (d : t) (p : bytes) : bool :=
  match nodes d !! p with Some (File _ _) => true | _ => false end.

Definition is_dir (d : t) (p : bytes) : bool :=
  (p =s []) || (p =s [slash]) || match nodes d !! p with Some (Dir _) => true | _ => false end.

Definition exists_ (d : t) (p : bytes) : bool := is_file d p || is_dir d p.

(** [fs::metadata]: whether the path is a regular file, and its length. *)
Definition metadata (d : t) (p : bytes) : io (bool * Z) * t :=
  call d (fun d =>
    (match nodes d !! p with
     | Some (File c _) => inl (true, blen c)
     | Some (Dir _) => inl (false, 4096)
     | None => if is_dir d p then inl (false, 4096) else inr enoent
     end, d)).

Definition read (d : t) (p : bytes) : io bytes * t :=
  call d (fun d =>
    (match nodes d !! p with
     | Some (File c _) => inl c
     | Some (Dir _) => inr eisdir
     | None => inr (if is_dir d p then eisdir else enoent)
     end, d)).

Definition read_to_string (d : t) (p : bytes) : io bytes * t :=
  match read d p with
  | (inl c, d) => (if utf8_valid c then inl c else inr invalid_utf8, d)
  | (inr e, d) => (inr e, d)
  end.

(** The paths directly below a directory, in the order the system has them. *)
Definition children (d : t) (p : bytes) : list bytes :=
  filter (fun q => parent q = Some p) (map fst (map_to_list (nodes d))).

(** The next entry of a directory that is being read, and whether it is a
    directory itself ([entry?] and [entry.file_type()]). *)
Definition next_entry (d : t) : io unit * t := call d (fun d => (inl tt, d)).
Definition entry_is_dir (d : t) (p : bytes) : io bool * t := call d (fun d => (inl (is_dir d p), d)).

Definition read_dir (d : t) (p : bytes) : io (list bytes) * t :=
  call d (fun d =>
    (if is_dir d p then inl (children d p)
     else inr (if is_file d p then enotdir else enoent), d)).

(** ** Changes *)

Definition parent_exists (d : t) (p : bytes) : bool :=
  match parent p with Some q => is_dir d q | None => false end.

(** [mode] as a new file gets it. *)
Definition masked (d : t) (mode : Z) : Z := Z.ldiff mode (umask d).

#[global] Arguments masked : simpl never.

Definition create_dir (d : t) (p : bytes) : io unit * t :=
  call d (fun d =>
    if exists_ d p then (inr eexist, d)
    else if parent_exists d p then (inl tt, set_nodes d (<[p := Dir (masked d 511)]> (nodes d)))
    else (inr enoent, d)).

(** [fs::create_dir_all]: the parents first, when they are missing.  Every
    parent is shorter than the path, so one round per byte is enough. *)
Fixpoint create_tree (fuel : nat) (d : t) (p : bytes) : io unit * t :=
  match fuel with
  | O => (inr enoent, d)
  | S fuel =>
      if p =s [] then (inl tt, d)
      else
        match create_dir d p with
        | (inl _, d) => (inl tt, d)
        | (inr e, d) =>
            match kind e with
            | NotFound =>
                match parent p with
                | None => (inr (mkIo OtherKind (lit "failed to create whole tree")), d)
                | Some q =>
                    match create_tree fuel d q with
                    | (inr e, d) => (inr e, d)
                    | (inl _, d) =>
                        match create_dir d p with
                        | (inl _, d) => (inl tt, d)
                        | (inr e, d) => (if is_dir d p then inl tt else inr e, d)
                        end
                    end
                end
            | _ => (if is_dir d p then inl tt else inr e, d)
            end
        end
  end.

Definition create_dir_all (d : t) (p : bytes) : io unit * t := create_tree (S (length p)) d p.

#[global] Arguments create_dir_all : simpl never.

(** [OpenOptions::new().write(true).create_new(true).mode(mode).open(path)]. *)
Definition open_new (d : t) (p : bytes) (mode : Z) : io unit * t :=
  call d (fun d =>
    if exists_ d p then (inr eexist, d)
    else if parent_exists d p then (inl tt, set_nodes d (<[p := File [] (masked d mode)]> (nodes d)))
    else (inr enoent, d)).

(** [OpenOptions::new().write(true).create(true).truncate(true)]: an existing
    file keeps its permissions. *)
Definition open_truncate (d : t) (p : bytes) (mode : Z) : io unit * t :=
  call d (fun d =>
    match nodes d !! p with
    | Some (File _ m) => (inl tt, set_nodes d (<[p := File [] m]> (nodes d)))
    | Some (Dir _) => (inr eisdir, d)
    | None =>
        if is_dir d p then (inr eisdir, d)
        else if parent_exists d p then (inl tt, set_nodes d (<[p := File [] (masked d mode)]> (nodes d)))
        else (inr enoent, d)
    end).

Definition append (ns : gmap bytes node) (p s : bytes) : gmap bytes node :=
  match ns !! p with Some (File c m) => <[p := File (c ++ s) m]> ns | _ => ns end.

(** [file.write_all(contents)] on a file opened at [p]. *)
Definition write_all (d : t) (p s : bytes) : io unit * t :=
  match tick d with
  | (Some f, d) => (inr (cause f), set_nodes d (append (nodes d) p (take (written f) s)))
  | (None, d) => (inl tt, set_nodes d (append (nodes d) p s))
  end.

Definition sync_all (d : t) : io unit * t := call d (fun d => (inl tt, d)).

Definition set_permissions (d : t) (p : bytes) (mode : Z) : io unit * t :=
  call d (fun d =>
    match nodes d !! p with
    | Some (Dir _) => (inl tt, set_nodes d (<[p := Dir mode]> (nodes d)))
    | Some (File c _) =>
        if is_dir d p then (inl tt, d) else (inl tt, set_nodes d (<[p := File c mode]> (nodes d)))
    | None => (if is_dir d p then inl tt else inr enoent, d)
    end).

Definition remove_file (d : t) (p : bytes) : io unit * t :=
  call d (fun d =>
    match nodes d !! p with
    | Some (File _ _) => (inl tt, set_nodes d (base.delete p (nodes d)))
    | Some (Dir _) => (inr eisdir, d)
    | None => (inr enoent, d)
    end).

Definition remove_dir (d : t) (p : bytes) : io unit * t :=
  call d (fun d =>
    match nodes d !! p with
    | Some (Dir _) =>
        match children d p with
        | [] => (inl tt, set_nodes d (base.delete p (nodes d)))
        | _ :: _ => (inr enotempty, d)
        end
    | Some (File _ _) => (inr enotdir, d)
    | None => (inr enoent, d)
    end).

(** ** What the calls leave alone *)

(** Only directories were added. *)
Definition dirs_added (d d' : t) : Prop :=
  umask d' = umask d /\
  forall p, nodes d' !! p = nodes d !! p \/ (nodes d !! p = None /\ exists m, nodes d' !! p = Some (Dir m)).

#[export] Instance dirs_added_preorder : PreOrder dirs_added.
Proof.
  split.
  - intros d. split; [done|]. by left.
  - intros d1 d2 d3 [U1 H1] [U2 H2]. split; [congruence|]. intros p.
    destruct (H1 p) as [E1|[E1 [m1 F1]]], (H2 p) as [E2|[E2 [m2 F2]]]; rewrite ?E1 in *; eauto; try congruence.
    right. split; [done|]. exists m1. congruence.
Qed.

Lemma tick_nodes d : nodes (snd (tick d)) = nodes d /\ umask (snd (tick d)) = umask d.
Proof. unfold tick. by destruct (faults d). Qed.

(** Reasoning about a call that is not scripted to fail. *)
Lemma call_cases {A} d (k : t -> io A * t) (P : io A * t -> Prop) :
  (forall d' e, nodes d' = nodes d -> umask d' = umask d -> P (inr e, d')) ->
  (forall d', nodes d' = nodes d -> umask d' = umask d -> P (k d')) ->
  P (call d k).
Proof.
  intros Hf Hk. unfold call. pose proof (tick_nodes d) as [En Eu].
  destruct (tick d) as [[f|] d']; cbn in *; auto.
Qed.

Lemma same_nodes_dir d d' p : nodes d' = nodes d -> is_dir d' p = is_dir d p.
Proof. intros E. unfold is_dir. by rewrite E. Qed.

Lemma same_nodes_file d d' p : nodes d' = nodes d -> is_file d' p = is_file d p.
Proof. intros E. unfold is_file. by rewrite E. Qed.

Lemma exists_false d p : exists_ d p = false -> nodes d !! p = None.
Proof.
  unfold exists_, is_file, is_dir. destruct (nodes d !! p) as [[]|]; [done| |done].
  intros [_ K]%orb_false_iff. rewrite !orb_true_r in K. done.
Qed.

Lemma create_dir_spec d p :
  dirs_added d (snd (create_dir d p)) /\ (fst (create_dir d p) = inl tt -> is_dir (snd (create_dir d p)) p = true).
Proof.
  unfold create_dir. apply call_cases.
  - intros d' e En Eu. split; [|done]. split; [done|]. cbn. rewrite En. by left.
  - intros d' En Eu.
    assert (dirs_added d d') as Hsame by (split; [done|]; intros q; rewrite En; by left).
    destruct (exists_ d' p) eqn:Ex; [by split|]. destruct (parent_exists d' p); [|by split]. cbn. split.
    + split; [done|]. intros q. cbn. rewrite En. destruct (decide (p = q)) as [<-|Hne].
      * right. split; [rewrite <- En; by apply exists_false|]. rewrite lookup_insert_eq. by eexists.
      * left. by rewrite lookup_insert_ne.
    + intros _. unfold is_dir. cbn. by rewrite lookup_insert_eq, orb_true_r.
Qed.

Lemma create_tree_spec fuel d p :
  dirs_added d (snd (create_tree fuel d p)) /\
  (fst (create_tree fuel d p) = inl tt -> is_dir (snd (create_tree fuel d p)) p = true).
Proof.
  revert d p. induction fuel as [|fuel IH]; intros d p; [by split|]. cbn [create_tree].
  destruct (p =s []) eqn:Ep; [split; [done|]; intros _; by unfold is_dir; cbn; rewrite Ep|].
  pose proof (create_dir_spec d p) as [A1 I1]. destruct (create_dir d p) as [[[]|e] d1]; cbn in *; [by auto|].
  assert (dirs_added d d1 /\ ((if is_dir d1 p then inl tt else inr e) = inl tt -> is_dir d1 p = true)) as K
    by (split; [done|]; by destruct (is_dir d1 p)).
  destruct (kind e); try exact K. destruct (parent p) as [q|]; [|by split].
  pose proof (IH d1 q) as [A2 _]. destruct (create_tree fuel d1 q) as [[[]|e2] d2]; cbn in *; [|split; [by trans d1|done]].
  pose proof (create_dir_spec d2 p) as [A3 I3]. assert (dirs_added d (snd (create_dir d2 p))) as A4
    by (trans d1; [done|]; by trans d2).
  destruct (create_dir d2 p) as [[[]|e3] d3]; cbn in *; [by auto|]. split; [done|]. by destruct (is_dir d3 p).
Qed.

Lemma parent_length p q : parent p = Some q -> (length q < length p)%nat.
Proof.
  unfold parent. destruct ((p =s []) || (p =s [slash])) eqn:E; [done|]. apply orb_false_iff in E as [E1 E2].
  destruct p as [|b p]; [done|].
  destruct (position _ (rev (b :: p))) as [i|] eqn:Ei; [|intros [= <-]; cbn; lia].
  destruct p as [|c p].
  { cbn in Ei, E2. rewrite andb_true_r in E2. by rewrite E2 in Ei. }
  apply position_bound in Ei. rewrite length_rev in Ei.
  destruct (take _ _ =s []); intros [= <-]; cbn [length]; [lia|]. rewrite length_take. cbn [length] in *. lia.
Qed.

(** Creating a directory concerns no longer path. *)
Lemma create_tree_short fuel d p q :
  (length p < length q)%nat -> nodes (snd (create_tree fuel d p)) !! q = nodes d !! q.
Proof.
  assert (forall d p, (length p < length q)%nat -> nodes (snd (create_dir d p)) !! q = nodes d !! q) as K.
  { clear. intros d p Hl. unfold create_dir. apply call_cases; [intros d' e En _; cbn; by rewrite En|]. intros d' En _.
    destruct (exists_ d' p), (parent_exists d' p); cbn; rewrite ?En; try done.
    rewrite lookup_insert_ne; [done|]. intros <-. lia. }
  revert d p. induction fuel as [|fuel IH]; intros d p Hl; [done|]. cbn [create_tree].
  destruct (p =s []); [done|]. pose proof (K d p Hl) as E1. destruct (create_dir d p) as [[[]|e] d1]; [done|]. cbn in E1.
  destruct (kind e); [|by destruct (is_dir d1 p)..]. destruct (parent p) as [r|] eqn:Ep; [|done].
  pose proof (IH d1 r ltac:(apply parent_length in Ep; lia)) as E2.
  destruct (create_tree fuel d1 r) as [[[]|e2] d2]; cbn in *; [|congruence].
  pose proof (K d2 p Hl) as E3. destruct (create_dir d2 p) as [[[]|e3] d3]; cbn in *; congruence.
Qed.

(** A new file: nothing happened, or it holds a prefix of what was written. *)
Lemma open_new_spec d p mode :
  let '(r, d') := open_new d p mode in
  umask d' = umask d /\
  match r with
  | inl _ => nodes d !! p = None /\ nodes d' = <[p := File [] (masked d mode)]> (nodes d)
  | inr _ => nodes d' = nodes d
  end.
Proof.
  unfold open_new. apply call_cases; [by intros d' e -> ->|]. intros d' En Eu.
  destruct (exists_ d' p) eqn:Ex; [|destruct (parent_exists d' p)]; cbn; rewrite ?En; try by split.
  split; [done|]. split; [rewrite <- En; by apply exists_false|]. unfold masked. by rewrite Eu.
Qed.

Lemma write_all_spec d p s c m :
  nodes d !! p = Some (File c m) ->
  let '(r, d') := write_all d p s in
  umask d' = umask d /\
  exists k, nodes d' = <[p := File (c ++ take k s) m]> (nodes d) /\ (r = inl tt -> take k s = s).
Proof.
  intros Hp. unfold write_all. pose proof (tick_nodes d) as [En Eu].
  destruct (tick d) as [[f|] d']; cbn in *; (split; [done|]); unfold append; rewrite En, Hp.
  - by exists (written f).
  - exists (length s). by rewrite take_ge.
Qed.

(** The permissions of a directory are its own. *)
Lemma set_permissions_dir d p mode :
  is_dir d p = true ->
  let d' := snd (set_permissions d p mode) in
  umask d' = umask d /\
  forall q, nodes d' !! q = nodes d !! q \/
            (q = p /\ exists m, nodes d !! q = Some (Dir m) /\ nodes d' !! q = Some (Dir mode)).
Proof.
  intros Hd. cbv zeta. unfold set_permissions. apply call_cases; [intros d' e En Eu; cbn; rewrite En; by auto|].
  intros d' En Eu. rewrite (same_nodes_dir d d' p En), Hd.
  destruct (nodes d' !! p) as [[c m|m]|] eqn:Ep; cbn; rewrite ?En; auto. split; [done|]. intros q.
  destruct (decide (p = q)) as [<-|Hne]; [|left; by rewrite lookup_insert_ne].
  right. split; [done|]. exists m. rewrite <- En, Ep, lookup_insert_eq. done.
Qed.

Lemma read_nodes d p : nodes (snd (read d p)) = nodes d /\ umask (snd (read d p)) = umask d.
Proof. unfold read. by apply call_cases; intros. Qed.

Lemma read_to_string_nodes d p : nodes (snd (read_to_string d p)) = nodes d.
Proof. unfold read_to_string. pose proof (read_nodes d p) as [En _]. by destruct (read d p) as [[]]. Qed.

Lemma sync_all_spec d : nodes (snd (sync_all d)) = nodes d /\ umask (snd (sync_all d)) = umask d.
Proof. unfold sync_all. by apply call_cases; intros. Qed.

(** ** A file system without faults *)

Lemma call_quiet {A} d (k : t -> io A * t) : faults d = [] -> call d k = k d.
Proof. intros E. unfold call, tick. by rewrite E. Qed.

Lemma create_dir_quiet d p : faults d = [] -> faults (snd (create_dir d p)) = [].
Proof.
  intros E. unfold create_dir. rewrite call_quiet by done. destruct (exists_ d p); [done|]. by destruct (parent_exists d p).
Qed.

Lemma create_tree_quiet fuel d p : faults d = [] -> faults (snd (create_tree fuel d p)) = [].
Proof.
  revert d p. induction fuel as [|fuel IH]; intros d p E; [done|]. cbn [create_tree].
  destruct (p =s []); [done|]. pose proof (create_dir_quiet d p E) as E1.
  destruct (create_dir d p) as [[[]|e] d1]; [done|]. cbn in E1.
  destruct (kind e); [|by destruct (is_dir d1 p)..]. destruct (parent p) as [q|]; [|done].
  pose proof (IH d1 q E1) as E2. destruct (create_tree fuel d1 q) as [[[]|e2] d2]; [|done]. cbn in E2.
  pose proof (create_dir_quiet d2 p E2) as E3. by destruct (create_dir d2 p) as [[[]|e3] d3].
Qed.

Lemma create_dir_all_ready d dir d1 :
  create_dir_all d dir = (inl tt, d1) -> faults d = [] ->
  is_dir d1 dir = true /\ faults d1 = [] /\
  forall q, (length dir < length q)%nat -> nodes d1 !! q = nodes d !! q.
Proof.
  unfold create_dir_all. intros E Hq.
  pose proof (create_tree_spec (S (length dir)) d dir) as [_ Hdir].
  pose proof (create_tree_quiet (S (length dir)) d dir Hq) as Hq1.
  pose proof (fun q => create_tree_short (S (length dir)) d dir q) as Hshort.
  rewrite E in Hdir, Hq1, Hshort. auto.
Qed.

(** A plain name is a file of the directory it is joined to. *)
Lemma position_absent {A} (f : A -> bool) (s rest : list A) :
  forallb (fun x => negb (f x)) s = true -> position f (s ++ rest) = Nat.add (length s) <$> position f rest.
Proof.
  induction s as [|x s IH]; cbn; [by destruct (position f rest)|]. intros [Hx Hs]%andb_true_iff.
  apply negb_true_iff in Hx. rewrite Hx, IH by done. by destruct (position f rest).
Qed.

Definition plain_name (name : bytes) : bool := negb (name =s []) && forallb (fun b => negb (b =b slash)) name.
Definition plain_dir (dir : bytes) : bool := negb (dir =s []) && negb (ends_with [slash] dir).

Lemma join_plain dir name : plain_dir dir = true -> plain_name name = true -> join dir name = dir ++ [slash] ++ name.
Proof.
  unfold plain_dir, plain_name. rewrite !andb_true_iff, !negb_true_iff. intros [Hd He] [Hn Hs]. unfold join.
  rewrite Hd, He. destruct name as [|b name]; [done|]. cbn in Hs. rewrite andb_true_iff, negb_true_iff in Hs.
  cbn [starts_with]. assert ((slash =b b) = false) as ->; [|done].
  apply byte_eqb_neq. intros <-. destruct Hs as [Hs _]. by rewrite byte_eqb_refl in Hs.
Qed.

Lemma parent_join dir name :
  plain_dir dir = true -> plain_name name = true -> parent (join dir name) = Some dir.
Proof.
  intros Hd Hn. rewrite (join_plain _ _ Hd Hn). unfold plain_dir, plain_name in *.
  rewrite !andb_true_iff, !negb_true_iff in Hd, Hn. destruct Hd as [Hd _], Hn as [Hn Hs].
  unfold parent. destruct dir as [|b dir]; [done|]. cbn [app bytes_eqb orb].
  destruct name as [|c name]; [done|].
  replace ((b =b slash) && (dir ++ slash :: c :: name =s [])) with false by (by destruct dir; rewrite andb_false_r).
  change (b :: dir ++ slash :: c :: name) with ((b :: dir) ++ [slash] ++ (c :: name)).
  assert (position (fun x => x =b slash) (rev ((b :: dir) ++ [slash] ++ c :: name)) = Some (length (c :: name))) as ->.
  { rewrite !rev_app_distr, <- app_assoc, position_absent, length_rev.
    - cbn [rev app position]. rewrite byte_eqb_refl. cbn [fmap option_fmap option_map]. by rewrite Nat.add_0_r.
    - apply forallb_forall. intros x Hx. apply in_rev in Hx. by apply (proj1 (forallb_forall _ _) Hs). }
  replace (length ((b :: dir) ++ [slash] ++ c :: name) - length (c :: name) - 1)%nat with (length (b :: dir))
    by (rewrite !length_app; cbn; lia).
  rewrite take_app_length. done.
Qed.

Lemma set_permissions_quiet d p mode :
  faults d = [] -> is_dir d p = true ->
  fst (set_permissions d p mode) = inl tt /\ faults (snd (set_permissions d p mode)) = [] /\
  is_dir (snd (set_permissions d p mode)) p = true /\
  forall q, q <> p -> nodes (snd (set_permissions d p mode)) !! q = nodes d !! q.
Proof.
  intros Hq Hd. unfold set_permissions. rewrite call_quiet, Hd by done.
  destruct (nodes d !! p) as [[c m|m]|] eqn:Ep; cbn; auto.
  split; [done|]. split; [done|]. split; [by unfold is_dir; cbn; rewrite lookup_insert_eq, orb_true_r|].
  intros q Hne. by rewrite lookup_insert_ne.
Qed.

Lemma exists_longer d d' p : nodes d' !! p = nodes d !! p -> exists_ d' p = exists_ d p.
Proof. intros E. unfold exists_, is_file, is_dir. by rewrite E. Qed.

(** ** Well-formed file systems *)

(** Everything lies in a directory. *)
Definition wf (d : t) : Prop := forall p n, nodes d !! p = Some n -> parent_exists d p = true.

(** Calls that concern some paths at most. *)
Definition only (ps : list bytes) (d d' : t) : Prop := forall q, q ∉ ps -> nodes d' !! q = nodes d !! q.

Lemma only_trans ps d1 d2 d3 : only ps d1 d2 -> only ps d2 d3 -> only ps d1 d3.
Proof. intros H1 H2 q Hq. rewrite H2, H1; done. Qed.

Lemma only_weaken ps qs d d' : only ps d d' -> ps ⊆ qs -> only qs d d'.
Proof. intros Ho Hs q Hq. apply Ho. set_solver. Qed.

Lemma same_nodes_only ps d d' : nodes d' = nodes d -> only ps d d'.
Proof. intros E q _. by rewrite E. Qed.

Lemma open_new_only d p mode : only [p] d (snd (open_new d p mode)).
Proof.
  pose proof (open_new_spec d p mode) as Ho. destruct (open_new d p mode) as [[[]|e] d'].
  - destruct Ho as (_ & _ & E). intros q Hq. cbn. rewrite E, lookup_insert_ne; [done|]. set_solver.
  - destruct Ho as [_ E]. by apply same_nodes_only.
Qed.

Lemma write_all_only d p s : only [p] d (snd (write_all d p s)).
Proof.
  assert (forall ns s, forall q, q ∉ [p] -> append ns p s !! q = ns !! q) as K.
  { intros ns s' q Hq. unfold append. destruct (ns !! p) as [[]|]; [|done..]. rewrite lookup_insert_ne; [done|]. set_solver. }
  unfold write_all. pose proof (tick_nodes d) as [En _]. destruct (tick d) as [[f|] d']; cbn in *;
    intros q Hq; cbn; rewrite K, En; done.
Qed.

Lemma remove_file_only d p : only [p] d (snd (remove_file d p)).
Proof.
  unfold remove_file. apply call_cases; [intros d' e En _; by apply same_nodes_only|]. intros d' En _.
  destruct (nodes d' !! p) as [[]|]; cbn; try by apply same_nodes_only.
  intros q Hq. cbn. rewrite lookup_delete_ne, En; [done|]. set_solver.
Qed.

Lemma remove_dir_only d p : only [p] d (snd (remove_dir d p)).
Proof.
  unfold remove_dir. apply call_cases; [intros d' e En _; by apply same_nodes_only|]. intros d' En _.
  destruct (nodes d' !! p) as [[]|]; [|destruct (children d' p)|]; cbn; try by apply same_nodes_only.
  intros q Hq. cbn. rewrite lookup_delete_ne, En; [done|]. set_solver.
Qed.

Lemma create_dir_only d p : only [p] d (snd (create_dir d p)).
Proof.
  unfold create_dir. apply call_cases; [intros d' e En _; by apply same_nodes_only|]. intros d' En _.
  destruct (exists_ d' p), (parent_exists d' p); cbn; try by apply same_nodes_only.
  intros q Hq. cbn. rewrite lookup_insert_ne, En; [done|]. set_solver.
Qed.

(** A directory that can be created was not there. *)
Lemma create_dir_new d p d' : create_dir d p = (inl tt, d') ->
  exists_ d p = false /\ nodes d' = <[p := Dir (masked d 511)]> (nodes d) /\ umask d' = umask d /\ parent_exists d p = true.
Proof.
  unfold create_dir. apply (call_cases d _ (fun rd => rd = (inl tt, d') -> _)); [by intros d1 e _ _ [=]|].
  intros d1 En Eu. rewrite <- (exists_longer d d1 p) by by rewrite En.
  assert (parent_exists d1 p = parent_exists d p) as <-.
  { unfold parent_exists. destruct (parent p); [|done]. by apply same_nodes_dir. }
  destruct (exists_ d1 p) eqn:Ex; [done|]. destruct (parent_exists d1 p); [|done].
  intros [= <-]. cbn. rewrite En. unfold masked. rewrite Eu. done.
Qed.

(** Nothing lies in a directory that is not there. *)
Lemma wf_absent d p q : wf d -> is_dir d p = false -> parent q = Some p -> nodes d !! q = None.
Proof.
  intros Hwf Hd Hq. destruct (nodes d !! q) as [n|] eqn:E; [|done]. apply Hwf in E. unfold parent_exists in E.
  rewrite Hq in E. congruence.
Qed.

Lemma plain_join dir name : plain_name name = true -> plain_dir (join dir name) = true.
Proof.
  unfold plain_name, plain_dir. rewrite !andb_true_iff, !negb_true_iff. intros [Hn Hs].
  assert (exists pre, join dir name = pre ++ name) as [pre ->].
  { unfold join. repeat case_match; [by exists []|by exists []|by exists dir|exists (dir ++ [slash])].
    by rewrite <- app_assoc. }
  destruct (exists_last (l := name)) as (init & b & ->); [by destruct name|].
  rewrite forallb_app, andb_true_iff in Hs. destruct Hs as [_ Hb]. cbn in Hb. rewrite andb_true_r, negb_true_iff in Hb.
  split; [by destruct pre, init|]. unfold ends_with. rewrite app_assoc, rev_app_distr. cbn [rev app starts_with].
  rewrite andb_true_r. apply byte_eqb_neq. apply byte_eqb_neq in Hb. congruence.
Qed.
End Disk.
