(* ===== verification/Net.v ===== *)
(** * Net: addresses and the types of HTTP.

    The internet addresses of the standard library, with their parsers and
    their text, and the types of the [http] crate, which are a parameter. *)

From S2P Require Import Prelude RustStd.
#[local] Open Scope lens_scope.

(** ** Internet addresses of the standard library

    [str::parse::<IpAddr>] reads with a cursor: every reader returns what it
    read and the rest of the text, or nothing. *)
Module IpAddr.

Inductive t := V4 (a b c d : Z) | V6 (groups : list Z).

(** [Ipv6Addr::from([u8; 16])]. *)
Fixpoint groups (s : bytes) : list Z :=
  match s with a :: b :: r => be_uint [a; b] :: groups r | _ => [] end.

(** [Ipv4Addr::new(address[0], address[1], address[2], address[3])]. *)
Definition ipv4_of (address : bytes) : t :=
  match map byte_val address with
  | a :: b :: c :: d :: _ => V4 a b c d
  | _ => V4 0 0 0 0
  end.

#[global] Instance t_eq_dec : EqDecision t.
Proof. solve_decision. Defined.

(** [IpAddr::is_unspecified]. *)
Definition is_unspecified (a : t) : bool :=
  match a with
  | V4 a b c d => (a =? 0) && (b =? 0) && (c =? 0) && (d =? 0)
  | V6 gs => bool_decide (gs = [0; 0; 0; 0; 0; 0; 0; 0])
  end.
Definition is_ipv4 (a : t) : bool := match a with V4 _ _ _ _ => true | V6 _ => false end.

(** [read_number(radix, Some(max_digits), allow_zero_prefix)] into a value of
    at most [max]. *)
Fixpoint digits (radix : Z) (fuel : nat) (s : bytes) : bytes * bytes :=
  match fuel, s with
  | S n, b :: r =>
      match digit_val radix b with
      | Some _ => let '(ds, rest) := digits radix n r in (b :: ds, rest)
      | None => ([], s)
      end
  | _, _ => ([], s)
  end.

Definition read_number (radix : Z) (max_digits : nat) (max : Z) (zero_prefix : bool) (s : bytes) :
    option (Z * bytes) :=
  let '(ds, rest) := digits radix (S max_digits) s in
  if (length ds =? 0)%nat || (max_digits <? length ds)%nat then None
  else if negb zero_prefix && (starts_with (lit "0") ds && (1 <? length ds)%nat) then None
  else match parse_digits radix 0 ds with
       | Some n => if n <=? max then Some (n, rest) else None
       | None => None
       end.

Definition read_char (c : byte) (s : bytes) : option bytes :=
  match s with b :: r => if b =b c then Some r else None | [] => None end.

(** [read_separator]: a separator before every element but the first. *)
Definition read_separator {A} (sep : byte) (index : nat) (read : bytes -> option (A * bytes)) (s : bytes) :
    option (A * bytes) :=
  match index with
  | O => read s
  | _ => match read_char sep s with Some r => read r | None => None end
  end.

Definition octet (s : bytes) : option (Z * bytes) := read_number 10 3 255 false s.

Definition read_ipv4 (s : bytes) : option ((Z * Z * Z * Z) * bytes) :=
  match octet s with
  | Some (a, s) =>
      match read_separator "."%byte 1 octet s with
      | Some (b, s) =>
          match read_separator "."%byte 2 octet s with
          | Some (c, s) =>
              match read_separator "."%byte 3 octet s with
              | Some (d, s) => Some ((a, b, c, d), s)
              | None => None
              end
          | None => None
          end
      | None => None
      end
  | None => None
  end.

(** [read_groups]: at most [limit] more groups, the [i]-th being next; an IPv4
    address may stand for the last two. *)
Fixpoint read_groups (limit i : nat) (s : bytes) : list Z * bool * bytes :=
  match limit with
  | O => ([], false, s)
  | S n =>
      match (if (0 <? n)%nat then read_separator ":"%byte i read_ipv4 s else None) with
      | Some ((a, b, c, d), rest) => ([a * 256 + b; c * 256 + d], true, rest)
      | None =>
          match read_separator ":"%byte i (read_number 16 4 65535 true) s with
          | Some (g, rest) => let '(gs, v4, rest) := read_groups n (S i) rest in (g :: gs, v4, rest)
          | None => ([], false, s)
          end
      end
  end.

Definition read_ipv6 (s : bytes) : option (list Z * bytes) :=
  let '(front, v4, rest) := read_groups 8 0 s in
  if (length front =? 8)%nat then Some (front, rest)
  else if v4 then None
  else
    match read_char ":"%byte rest with
    | Some rest =>
        match read_char ":"%byte rest with
        | Some rest =>
            let '(back, _, rest) := read_groups (7 - length front) 0 rest in
            Some (front ++ repeat 0 (8 - length front - length back) ++ back, rest)
        | None => None
        end
    | None => None
    end.

Definition parse (s : bytes) : option t :=
  match (match read_ipv4 s with
         | Some ((a, b, c, d), rest) => Some (V4 a b c d, rest)
         | None => match read_ipv6 s with Some (gs, rest) => Some (V6 gs, rest) | None => None end
         end) with
  | Some (address, []) => Some address
  | _ => None
  end.

Definition is_loopback (a : t) : bool :=
  match a with
  | V4 a _ _ _ => a =? 127
  | V6 gs => bool_decide (gs = [0; 0; 0; 0; 0; 0; 0; 1])
  end.

(** *** Text *)

(** [{:x}] of a 16-bit group. *)
Fixpoint hex_go (fuel : nat) (n : Z) : bytes :=
  match fuel with
  | O => []
  | S k => (if n <? 16 then [] else hex_go k (n / 16)) ++ [digit_byte (n mod 16)]
  end.
Definition hex (n : Z) : bytes := hex_go 4 n.

(** The longest run of zero groups, the first of several: its start and length. *)
Fixpoint zero_run (gs : list Z) (i : nat) (current longest : nat * nat) : nat * nat :=
  match gs with
  | [] => longest
  | g :: gs =>
      if g =? 0 then
        let current := (if (snd current =? 0)%nat then i else fst current, S (snd current)) in
        zero_run gs (S i) current (if (snd longest <? snd current)%nat then current else longest)
      else zero_run gs (S i) (0%nat, 0%nat) longest
  end.

Definition subslice (gs : list Z) : bytes := join (lit ":") (map hex gs).

Definition v4_text (a b c d : Z) : bytes := join (lit ".") (map dec [a; b; c; d]).

Definition to_string (a : t) : bytes :=
  match a with
  | V4 a b c d => v4_text a b c d
  | V6 [0; 0; 0; 0; 0; 65535; ab; cd] =>
      lit "::ffff:" ++ v4_text (ab / 256) (ab mod 256) (cd / 256) (cd mod 256)
  | V6 gs =>
      let '(start, len) := zero_run gs 0 (0%nat, 0%nat) (0%nat, 0%nat) in
      if (1 <? len)%nat then subslice (take start gs) ++ lit "::" ++ subslice (drop (start + len) gs)
      else subslice gs
  end.

Example address_texts :
  map to_string [V4 127 0 0 1; V6 [0; 0; 0; 0; 0; 0; 0; 1]; V6 [8193; 3512; 0; 0; 1; 0; 0; 1];
                 V6 [0; 0; 0; 0; 0; 65535; 32512; 1]; V6 [1; 2; 3; 4; 5; 6; 7; 43981]]
  = map lit ["127.0.0.1"; "::1"; "2001:db8::1:0:0:1"; "::ffff:127.0.0.1"; "1:2:3:4:5:6:7:abcd"]%string.
Proof. by vm_compute. Qed.

Example loopback_texts :
  map (fun s => is_loopback <$> parse (lit s))
    ["127.0.0.1"; "127.1.2.3"; "10.0.0.1"; "::1"; "0:0:0:0:0:0:0:1"; "::ffff:127.0.0.1"; "127.0.0.01"; "localhost"]%string
  = [Some true; Some true; Some false; Some true; Some true; Some false; None; None].
Proof. by vm_compute. Qed.
End IpAddr.


(** Socket addresses. *)
Module SocketAddr.

Record t := mk { ip : IpAddr.t; port : Z; scope_id : Z }.
#[global] Instance socket_eq_dec : EqDecision t.
Proof. solve_decision. Defined.

(** A number with any number of digits. *)
Definition number (max : Z) (s : bytes) : option (Z * bytes) := IpAddr.read_number 10 (length s) max true s.

Definition read_v4 (s : bytes) : option (t * bytes) :=
  match IpAddr.read_ipv4 s with
  | Some ((a, b, c, d), s) =>
      match IpAddr.read_char ":"%byte s with
      | Some s => match number u16_max s with
                  | Some (p, s) => Some (mk (IpAddr.V4 a b c d) p 0, s)
                  | None => None
                  end
      | None => None
      end
  | None => None
  end.

Definition read_scope (s : bytes) : Z * bytes :=
  match IpAddr.read_char "%"%byte s with
  | Some r => match number u32_max r with Some (n, r) => (n, r) | None => (0, s) end
  | None => (0, s)
  end.

Definition read_v6 (s : bytes) : option (t * bytes) :=
  match IpAddr.read_char "["%byte s with
  | Some s =>
      match IpAddr.read_ipv6 s with
      | Some (gs, s) =>
          let '(scope, s) := read_scope s in
          match IpAddr.read_char "]"%byte s with
          | Some s =>
              match IpAddr.read_char ":"%byte s with
              | Some s => match number u16_max s with
                          | Some (p, s) => Some (mk (IpAddr.V6 gs) p scope, s)
                          | None => None
                          end
              | None => None
              end
          | None => None
          end
      | None => None
      end
  | None => None
  end.

Definition parse (s : bytes) : option t :=
  match (match read_v4 s with Some r => Some r | None => read_v6 s end) with
  | Some (address, []) => Some address
  | _ => None
  end.

Example socket_texts :
  map parse [lit "127.0.0.1:8888"; lit "[::1]:80"; lit "127.0.0.1"; lit "127.0.0.1:65536"; lit "::1:80"]
  = [Some (mk (IpAddr.V4 127 0 0 1) 8888 0); Some (mk (IpAddr.V6 [0; 0; 0; 0; 0; 0; 0; 1]) 80 0); None; None; None].
Proof. by vm_compute. Qed.
(** [Display] of a [SocketAddr]. *)
Definition to_string (a : t) : bytes :=
  match ip a with
  | IpAddr.V4 _ _ _ _ => IpAddr.to_string (ip a) ++ lit ":" ++ dec (port a)
  | IpAddr.V6 _ =>
      lit "[" ++ IpAddr.to_string (ip a)
      ++ (if scope_id a =? 0 then [] else lit "%" ++ dec (scope_id a))
      ++ lit "]:" ++ dec (port a)
  end.

End SocketAddr.

(** The [http] crate: URIs, authorities (by their text) and
    the validity of methods, names and values. *)
Class Http := {
  uri : Type;
  uri_parse : bytes -> option uri;
  scheme_str : uri -> option bytes;
  authority : uri -> option bytes;
  path_and_query : uri -> option bytes;
  uri_host : uri -> option bytes;
  authority_parse : bytes -> option bytes;
  authority_host : bytes -> bytes;
  authority_port : bytes -> option Z;
  method_ok : bytes -> bool;
  header_name_ok : bytes -> bool;
  header_value_ok : bytes -> bool }.
