(* ===== verification/Core.v ===== *)
(** * Core: the domain model of [crates/lens-core].

    Identifiers, classifications, the event envelope and its builder, flow,
    message and session records, observations, clocks and core errors. *)

From S2P Require Import Prelude RustStd.

(** ** Identifiers

    [SessionId], [FlowId], [MessageId] and [RunId] are newtypes of [u64]; a
    value is its number and [Display] prints it in decimal. *)
Abbreviation SessionId := Z (only parsing).
Abbreviation FlowId := Z (only parsing).
Abbreviation MessageId := Z (only parsing).
Abbreviation RunId := Z (only parsing).

Definition id_display (id : Z) : bytes := dec id.

Record SchemaVersion := mkSchemaVersion { major : Z; minor : Z }.
Definition SchemaVersion_CURRENT : SchemaVersion := mkSchemaVersion 0 1.
Definition SchemaVersion_display (v : SchemaVersion) : bytes :=
  dec (major v) ++ lit "." ++ dec (minor v).

(** ** Classifications *)
Inductive Direction := ClientToServer | ServerToClient.
#[global] Instance Direction_eq_dec : EqDecision Direction.
Proof. solve_decision. Defined.

Definition Direction_display (d : Direction) : bytes :=
  match d with
  | ClientToServer => lit "client_to_server"
  | ServerToClient => lit "server_to_client"
  end.

Inductive Severity := SevInfo | SevWarning | SevError.
Definition Severity_display (s : Severity) : bytes :=
  match s with SevInfo => lit "info" | SevWarning => lit "warning" | SevError => lit "error" end.

Inductive Sensitivity := Public | Redacted | Secret.
#[global] Instance Sensitivity_eq_dec : EqDecision Sensitivity.
Proof. solve_decision. Defined.

Definition Sensitivity_display (s : Sensitivity) : bytes :=
  match s with Public => lit "public" | Redacted => lit "redacted" | Secret => lit "secret" end.

Inductive EventSource :=
| SrcProxy | SrcTls | SrcDecoder | SrcStore | SrcUi | SrcCli | SrcPlugin | SrcBenchmark.
Definition EventSource_display (s : EventSource) : bytes :=
  match s with
  | SrcProxy => lit "proxy" | SrcTls => lit "tls" | SrcDecoder => lit "decoder"
  | SrcStore => lit "store" | SrcUi => lit "ui" | SrcCli => lit "cli"
  | SrcPlugin => lit "plugin" | SrcBenchmark => lit "benchmark"
  end.

(** ** Event envelope *)
Record EventEnvelope := mkEnvelope {
  event_type : bytes;
  schema_version : SchemaVersion;
  run_id : RunId;
  session_id : option SessionId;
  flow_id : option FlowId;
  message_id : option MessageId;
  env_direction : option Direction;
  ts_mono_nanos : Z;
  ts_wall_nanos : Z;
  source : EventSource;
  severity : Severity;
  sensitivity : Sensitivity }.

Module Envelope.
Definition new (event_type : bytes) (run : RunId) (src : EventSource) : EventEnvelope :=
  {| event_type := event_type; schema_version := SchemaVersion_CURRENT; run_id := run;
     session_id := None; flow_id := None; message_id := None; env_direction := None;
     ts_mono_nanos := 0; ts_wall_nanos := 0; source := src;
     severity := SevInfo; sensitivity := Public |}.

Definition with_session_id (e : EventEnvelope) (x : SessionId) : EventEnvelope :=
  mkEnvelope (event_type e) (schema_version e) (run_id e) (Some x) (flow_id e) (message_id e)
    (env_direction e) (ts_mono_nanos e) (ts_wall_nanos e) (source e) (severity e) (sensitivity e).
Definition with_flow_id (e : EventEnvelope) (x : FlowId) : EventEnvelope :=
  mkEnvelope (event_type e) (schema_version e) (run_id e) (session_id e) (Some x) (message_id e)
    (env_direction e) (ts_mono_nanos e) (ts_wall_nanos e) (source e) (severity e) (sensitivity e).
Definition with_message_id (e : EventEnvelope) (x : MessageId) : EventEnvelope :=
  mkEnvelope (event_type e) (schema_version e) (run_id e) (session_id e) (flow_id e) (Some x)
    (env_direction e) (ts_mono_nanos e) (ts_wall_nanos e) (source e) (severity e) (sensitivity e).
Definition with_direction (e : EventEnvelope) (x : Direction) : EventEnvelope :=
  mkEnvelope (event_type e) (schema_version e) (run_id e) (session_id e) (flow_id e) (message_id e)
    (Some x) (ts_mono_nanos e) (ts_wall_nanos e) (source e) (severity e) (sensitivity e).
Definition with_timestamps (e : EventEnvelope) (mono wall : Z) : EventEnvelope :=
  mkEnvelope (event_type e) (schema_version e) (run_id e) (session_id e) (flow_id e) (message_id e)
    (env_direction e) mono wall (source e) (severity e) (sensitivity e).
Definition with_severity (e : EventEnvelope) (x : Severity) : EventEnvelope :=
  mkEnvelope (event_type e) (schema_version e) (run_id e) (session_id e) (flow_id e) (message_id e)
    (env_direction e) (ts_mono_nanos e) (ts_wall_nanos e) (source e) x (sensitivity e).
Definition with_sensitivity (e : EventEnvelope) (x : Sensitivity) : EventEnvelope :=
  mkEnvelope (event_type e) (schema_version e) (run_id e) (session_id e) (flow_id e) (message_id e)
    (env_direction e) (ts_mono_nanos e) (ts_wall_nanos e) (source e) (severity e) x.

Definition default : EventEnvelope := new (lit "event.unknown") 0 SrcCli.
End Envelope.

(** ** Endpoints and identities *)
Record Endpoint := mkEndpoint { host : bytes; port : Z }.
Definition Endpoint_display (e : Endpoint) : bytes := host e ++ lit ":" ++ dec (port e).

Record ServiceIdentity := mkIdentity {
  pid : option Z; process : option bytes; service : option bytes; container : option bytes }.

Module Identity.
Definition new : ServiceIdentity := mkIdentity None None None None.
Definition with_pid (i : ServiceIdentity) (x : Z) : ServiceIdentity :=
  mkIdentity (Some x) (process i) (service i) (container i).
Definition with_process (i : ServiceIdentity) (x : bytes) : ServiceIdentity :=
  mkIdentity (pid i) (Some x) (service i) (container i).
Definition with_service (i : ServiceIdentity) (x : bytes) : ServiceIdentity :=
  mkIdentity (pid i) (process i) (Some x) (container i).
Definition with_container (i : ServiceIdentity) (x : bytes) : ServiceIdentity :=
  mkIdentity (pid i) (process i) (service i) (Some x).
Definition display_name (i : ServiceIdentity) : bytes :=
  match service i with
  | Some s => s
  | None => match process i with Some p => p | None => lit "unknown" end
  end.
End Identity.

(** ** Timestamps and clocks *)
Record TimestampPair := mkTimestamp { mono_nanos : Z; wall_nanos : Z }.
Definition TimestampPair_display (t : TimestampPair) : bytes :=
  lit "mono=" ++ dec (mono_nanos t) ++ lit "ns wall=" ++ dec (wall_nanos t) ++ lit "ns".

(** The [Clock] trait: [now], and the accessors it derives. *)
Class Clock (C : Type) := { now : C -> TimestampPair }.
Definition clock_mono_nanos `{Clock C} (c : C) : Z := mono_nanos (now c).
Definition clock_wall_nanos `{Clock C} (c : C) : Z := wall_nanos (now c).

(** [SystemClock]: its origin and the readings of the two clocks are instants
    in nanoseconds; [as u64] takes the low 64 bits, a time before the epoch is
    none. *)
Record SystemClock := mkSystemClock { origin : Z; instant : Z; system_time : Z }.
#[global] Instance SystemClock_Clock : Clock SystemClock :=
  { now c := mkTimestamp ((instant c - origin c) mod 2 ^ 64) (Z.max 0 (system_time c) mod 2 ^ 64) }.

Record FixedClock := mkFixedClock { fc_mono : Z; fc_wall : Z }.
#[global] Instance FixedClock_Clock : Clock FixedClock :=
  { now c := mkTimestamp (fc_mono c) (fc_wall c) }.

Module FixedClocks.
(** [duration.as_nanos() as u64] keeps the low 64 bits. *)
Definition advance (c : FixedClock) (duration_nanos : Z) : FixedClock :=
  let delta := duration_nanos mod 2 ^ 64 in
  mkFixedClock (sat_add (fc_mono c) delta) (sat_add (fc_wall c) delta).
Definition set (c : FixedClock) (mono wall : Z) : FixedClock := mkFixedClock mono wall.
End FixedClocks.

(** ** Observations *)
Inductive ObservationKind :=
| Opened (client upstream : Endpoint) (protocol : option bytes)
| Identified (identity : ServiceIdentity)
| ProtocolDetected (protocol : bytes)
| Transferred (direction : Direction) (count : Z)
| Data (direction : Direction) (data : bytes)
| ObsClosed
| ObsFailed (reason : bytes).

Record ObservationEvent := mkObservation {
  ev_flow_id : FlowId; ev_timestamp : TimestampPair; ev_kind : ObservationKind }.

(** ** Flows, messages and sessions *)
Inductive FlowState := FlowOpen | FlowClosed | FlowFailed.
#[global] Instance FlowState_eq_dec : EqDecision FlowState.
Proof. solve_decision. Defined.
Definition FlowState_display (s : FlowState) : bytes :=
  match s with FlowOpen => lit "open" | FlowClosed => lit "closed" | FlowFailed => lit "failed" end.

Record FlowRecord := mkFlowRecord {
  flow_envelope : EventEnvelope;
  client : Endpoint;
  upstream : Endpoint;
  identity : option ServiceIdentity;
  protocol_label : option bytes;
  flow_state : FlowState;
  message_ids : list MessageId }.

Module Flow.
Definition new (e : EventEnvelope) (client upstream : Endpoint) : FlowRecord :=
  mkFlowRecord e client upstream None None FlowOpen [].
Definition set_protocol (r : FlowRecord) (p : option bytes) : FlowRecord :=
  mkFlowRecord (flow_envelope r) (client r) (upstream r) (identity r) p (flow_state r) (message_ids r).
Definition with_protocol (r : FlowRecord) (p : bytes) : FlowRecord := set_protocol r (Some p).
Definition with_identity (r : FlowRecord) (i : ServiceIdentity) : FlowRecord :=
  mkFlowRecord (flow_envelope r) (client r) (upstream r) (Some i) (protocol_label r)
    (flow_state r) (message_ids r).
Definition with_state (r : FlowRecord) (s : FlowState) : FlowRecord :=
  mkFlowRecord (flow_envelope r) (client r) (upstream r) (identity r) (protocol_label r) s
    (message_ids r).
Definition push_message_id (r : FlowRecord) (m : MessageId) : FlowRecord :=
  mkFlowRecord (flow_envelope r) (client r) (upstream r) (identity r) (protocol_label r)
    (flow_state r) (message_ids r ++ [m]).
End Flow.

Record MessageRecord := mkMessageRecord {
  msg_envelope : EventEnvelope;
  msg_summary : bytes;
  msg_body : bytes;
  msg_truncated : bool;
  latency_nanos : option Z }.

Module Message.
Definition new (e : EventEnvelope) (summary body : bytes) : MessageRecord :=
  mkMessageRecord e summary body false None.
Definition with_truncated (m : MessageRecord) (t : bool) : MessageRecord :=
  mkMessageRecord (msg_envelope m) (msg_summary m) (msg_body m) t (latency_nanos m).
Definition with_latency_nanos (m : MessageRecord) (l : option Z) : MessageRecord :=
  mkMessageRecord (msg_envelope m) (msg_summary m) (msg_body m) (msg_truncated m) l.
End Message.

Inductive SessionState := SessionOpen | SessionClosed | SessionFailed.
Definition SessionState_display (s : SessionState) : bytes :=
  match s with
  | SessionOpen => lit "open" | SessionClosed => lit "closed" | SessionFailed => lit "failed"
  end.

Record SessionIdentity := mkSessionIdentity {
  si_label : option bytes; si_user : option bytes;
  si_container : option bytes; si_binary_path : option bytes }.

Module SessionIdentities.
Definition new : SessionIdentity := mkSessionIdentity None None None None.
Definition with_label (i : SessionIdentity) (x : bytes) : SessionIdentity :=
  mkSessionIdentity (Some x) (si_user i) (si_container i) (si_binary_path i).
Definition with_user (i : SessionIdentity) (x : bytes) : SessionIdentity :=
  mkSessionIdentity (si_label i) (Some x) (si_container i) (si_binary_path i).
Definition with_container (i : SessionIdentity) (x : bytes) : SessionIdentity :=
  mkSessionIdentity (si_label i) (si_user i) (Some x) (si_binary_path i).
Definition with_binary_path (i : SessionIdentity) (x : bytes) : SessionIdentity :=
  mkSessionIdentity (si_label i) (si_user i) (si_container i) (Some x).
End SessionIdentities.

Record SessionRecord := mkSessionRecord {
  session_envelope : EventEnvelope;
  session_identity : SessionIdentity;
  session_state : SessionState;
  flow_ids : list FlowId }.

Module Session.
Definition new (e : EventEnvelope) (i : SessionIdentity) : SessionRecord :=
  mkSessionRecord e i SessionOpen [].
Definition with_state (r : SessionRecord) (s : SessionState) : SessionRecord :=
  mkSessionRecord (session_envelope r) (session_identity r) s (flow_ids r).
Definition push_flow_id (r : SessionRecord) (f : FlowId) : SessionRecord :=
  mkSessionRecord (session_envelope r) (session_identity r) (session_state r) (flow_ids r ++ [f]).
End Session.

(** ** Errors *)
Inductive ErrorClass := ClassUser | ClassOperational | ClassInternal.
Definition ErrorClass_display (c : ErrorClass) : bytes :=
  match c with
  | ClassUser => lit "user" | ClassOperational => lit "operational" | ClassInternal => lit "internal"
  end.

Inductive CoreError :=
| InvalidArgument (name value expected : bytes)
| NotFound (kind id : bytes)
| OperationFailed (operation cause : bytes)
| Invariant (message : bytes).

Definition CoreError_class (e : CoreError) : ErrorClass :=
  match e with
  | InvalidArgument _ _ _ => ClassUser
  | NotFound _ _ | OperationFailed _ _ => ClassOperational
  | Invariant _ => ClassInternal
  end.

Definition CoreError_display (e : CoreError) : bytes :=
  match e with
  | InvalidArgument name value expected =>
      lit "invalid argument `" ++ name ++ lit "`: got `" ++ value ++ lit "`, expected " ++ expected
  | NotFound kind id => kind ++ lit " not found: " ++ id
  | OperationFailed operation cause => operation ++ lit " failed: " ++ cause
  | Invariant message => lit "invariant violated: " ++ message
  end.
