(* ===== verification/Protocol.v ===== *)
(** * Protocol: the decoder contract of [crates/lens-protocol].

    Decoded messages, decode batches, and the [StreamingDecoder] trait as a
    class; [DecoderLaws] is what the store relies on: a decoder keeps its
    invariant, never returns more of a body than the cap, and does not care
    how the bytes were cut into fragments. *)

From S2P Require Import Prelude RustStd Core.

Record DecodedMessage := mkDecoded {
  direction : Direction;
  start_line : bytes;
  headers : list (bytes * bytes);
  body : bytes;
  truncated : bool }.

Definition summary (m : DecodedMessage) : bytes := start_line m.

Definition render (m : DecodedMessage) : bytes :=
  concat (map (fun '(name, value) => name ++ lit ": " ++ value ++ [x0d; x0a]) (headers m))
  ++ [x0d; x0a] ++ body m.

Record DecodeBatch := mkBatch {
  messages : list DecodedMessage;
  desynchronized : option bytes }.

Definition need_more : DecodeBatch := mkBatch [] None.

(** What the store sees of two consecutive batches of one flow: the messages
    in order, the last desynchronization. *)
Definition batch_app (a b : DecodeBatch) : DecodeBatch :=
  mkBatch (messages a ++ messages b)
    (match desynchronized b with Some r => Some r | None => desynchronized a end).

(** A batch with one message, and one with a desynchronization. *)
Definition one_message (m : DecodedMessage) : DecodeBatch := mkBatch [m] None.
Definition desync (reason : bytes) : DecodeBatch := mkBatch [] (Some reason).
Definition set_desync (b : DecodeBatch) (reason : bytes) : DecodeBatch :=
  mkBatch (messages b) (Some reason).

Lemma batch_app_assoc a b c : batch_app (batch_app a b) c = batch_app a (batch_app b c).
Proof. unfold batch_app; simpl. by destruct (desynchronized c); rewrite app_assoc. Qed.

Lemma batch_app_need_more_l b : batch_app need_more b = b.
Proof. destruct b as [m [r|]]; done. Qed.

Lemma batch_app_need_more_r b : batch_app b need_more = b.
Proof. destruct b as [m [r|]]; unfold batch_app; simpl; by rewrite app_nil_r. Qed.

Lemma batch_app_clean a b :
  desynchronized (batch_app a b) = None ->
  desynchronized a = None /\ desynchronized b = None.
Proof. unfold batch_app; simpl. by destruct (desynchronized b). Qed.

(** The [StreamingDecoder] trait. *)
Class StreamingDecoder (D : Type) := {
  protocol : D -> bytes;
  push : D -> Direction -> bytes -> D * DecodeBatch;
  finish : D -> Direction -> D * DecodeBatch }.

(** ** Decoding loops

    Every decoder has a [loop] that takes the next unit off its buffers and
    extends the batch.  A [Round] is one pass of that loop on the decoder's
    state: what it adds to the batch, and whether the loop goes on. *)

Inductive Round (X : Type) :=
| Continue (x : X) (added : DecodeBatch)
| Break (x : X) (added : DecodeBatch).
Arguments Continue {X} x added.
Arguments Break {X} x added.

Section DecodeLoop.
Context {X : Type} (mu : X -> nat) (round : X -> Round X).

Definition loop_step (st : X * DecodeBatch) : (X * DecodeBatch) + (X * DecodeBatch) :=
  let '(x, batch) := st in
  match round x with
  | Continue x' added => inl (x', batch_app batch added)
  | Break x' added => inr (x', batch_app batch added)
  end.

Definition decode_loop (x : X) : X * DecodeBatch :=
  iterate (fun st => mu (fst st)) loop_step id (x, need_more).

(** Prefix what an earlier round added. *)
Definition after (b : DecodeBatch) (r : X * DecodeBatch) : X * DecodeBatch :=
  (fst r, batch_app b (snd r)).

Lemma after_after a b r : after a (after b r) = after (batch_app a b) r.
Proof. unfold after; simpl. by rewrite batch_app_assoc. Qed.

Lemma after_need_more r : after need_more r = r.
Proof. destruct r. unfold after; simpl. by rewrite batch_app_need_more_l. Qed.

Context (I : X -> Prop)
  (Hdec : forall x x' b, I x -> round x = Continue x' b -> I x' /\ (mu x' < mu x)%nat).

Let J (st : X * DecodeBatch) : Prop := I (fst st).

Lemma loop_step_decreasing : decreasing (fun st => mu (fst st)) loop_step J.
Proof.
  intros [x b] [x' b']; unfold J; simpl. intros Hx.
  destruct (round x) eqn:E; [|done]. intros [= <- <-]. by eapply Hdec.
Qed.

(** The loop returns: its rounds do not run out. *)
Lemma decode_loop_returns x :
  I x -> exists r, loop_fuel loop_step (S (mu x)) (x, need_more) = Some r /\ decode_loop x = r.
Proof.
  intros Hx.
  destruct (loop_fuel_total _ _ J (S (mu x)) (x, need_more) loop_step_decreasing Hx) as [r Hr];
    [simpl; lia|].
  exists r. split; [done|]. unfold decode_loop, iterate. cbn [fst]. by rewrite Hr.
Qed.

Lemma loop_from_batch x b :
  I x -> iterate (fun st => mu (fst st)) loop_step id (x, b) = after b (decode_loop x).
Proof.
  intros Hx. unfold decode_loop.
  enough (forall st c, J st ->
    iterate (fun st => mu (fst st)) loop_step id (fst st, batch_app c (snd st))
    = after c (iterate (fun st => mu (fst st)) loop_step id st)) as H.
  { specialize (H (x, need_more) b Hx). simpl in H. by rewrite batch_app_need_more_r in H. }
  intros st c Hst. revert c.
  pattern st, (iterate (fun st => mu (fst st)) loop_step id st).
  eapply (iterate_ind _ _ J); [apply loop_step_decreasing|..|done]; clear st Hst.
  - intros [y d] r Hy Hr c. rewrite (iterate_unfold _ _ J) by (done || apply loop_step_decreasing).
    simpl in *. destruct (round y); simplify_eq. unfold after; simpl. by rewrite batch_app_assoc.
  - intros [y d] [y' d'] r Hy Hr IH c.
    rewrite (iterate_unfold _ _ J) by (done || apply loop_step_decreasing).
    simpl in *. destruct (round y); simplify_eq. rewrite batch_app_assoc. apply IH.
Qed.

(** The equation of the source's loop. *)
Lemma decode_loop_unfold x :
  I x -> decode_loop x = match round x with
                         | Continue x' b => after b (decode_loop x')
                         | Break x' b => (x', b)
                         end.
Proof.
  intros Hx. unfold decode_loop at 1.
  rewrite (iterate_unfold _ _ J) by (done || apply loop_step_decreasing). simpl.
  destruct (round x) as [x' b|x' b] eqn:E; rewrite batch_app_need_more_l; [|done].
  apply loop_from_batch. by eapply Hdec.
Qed.

Lemma decode_loop_ind (P : X -> X * DecodeBatch -> Prop) :
  (forall x x' b, I x -> round x = Break x' b -> P x (x', b)) ->
  (forall x x' b r, I x -> round x = Continue x' b -> P x' r -> P x (after b r)) ->
  forall x, I x -> P x (decode_loop x).
Proof.
  intros Hb Hc x. induction x as [x IH] using (induction_ltof1 _ mu). intros Hx.
  rewrite decode_loop_unfold by done.
  destruct (round x) as [x' b|x' b] eqn:E; [|by apply Hb].
  destruct (Hdec _ _ _ Hx E). eapply Hc; [done..|]. by apply IH.
Qed.

(** The loop keeps the invariant and emits only messages that satisfy [Q]. *)
Lemma decode_loop_forall (Q : DecodedMessage -> Prop) :
  (forall x x' b, I x -> round x = Continue x' b -> Forall Q (messages b)) ->
  (forall x x' b, I x -> round x = Break x' b -> I x' /\ Forall Q (messages b)) ->
  forall x, I x -> I (fst (decode_loop x)) /\ Forall Q (messages (snd (decode_loop x))).
Proof.
  intros Hc Hb.
  apply (decode_loop_ind (fun _ r => I (fst r) /\ Forall Q (messages (snd r)))); simpl.
  - intros x x' b Hx E. by eapply Hb.
  - intros x x' b [y d] Hx E [H1 H2]. simpl in *. split; [done|].
    apply Forall_app. split; [|done]. exact (Hc _ _ _ Hx E).
Qed.

(** *** Fragments

    [extend x c] is the state with [c] appended to its buffer.  When a round
    that goes on is not disturbed by more input, and a round that breaks can
    be taken up again, decoding [a] and then [c] is decoding both at once. *)
Section Fragments.
Context (extend : X -> X) (Hext : forall x, I x -> I (extend x)).
Context (Hgo : forall x x' b, I x -> round x = Continue x' b -> desynchronized b = None ->
                 round (extend x) = Continue (extend x') b).
Context (Hstop : forall x x' b, I x -> round x = Break x' b -> desynchronized b = None ->
                   decode_loop (extend x) = after b (decode_loop (extend x'))).

Lemma decode_loop_extend x x' b :
  I x -> decode_loop x = (x', b) -> desynchronized b = None ->
  decode_loop (extend x) = after b (decode_loop (extend x')).
Proof.
  intros Hx.
  enough (desynchronized (snd (decode_loop x)) = None ->
          decode_loop (extend x) = after (snd (decode_loop x)) (decode_loop (extend (fst (decode_loop x)))))
    as H by (intros E Hn; rewrite E in H; by apply H).
  pattern x, (decode_loop x). apply decode_loop_ind; [..|done]; clear x Hx x' b; simpl.
  - intros x x' b Hx E Hn. eauto.
  - intros x x' b [y d] Hx E IH Hn. apply batch_app_clean in Hn as [Hb Hd]. simpl in *.
    rewrite decode_loop_unfold by auto. rewrite (Hgo _ _ _ Hx E Hb), IH by done.
    by rewrite after_after.
Qed.
End Fragments.
End DecodeLoop.

(** ** What the store relies on

    [inv] holds of every state a decoder can be in.  [fits d dir s] says that
    the decoder may hold [s] in its buffer for [dir] without overrunning a
    limit.  [push_app]: unless the first fragment desynchronized the decoder,
    pushing two fragments is pushing their concatenation. *)
Class DecoderLaws (D : Type) `{StreamingDecoder D} := {
  inv : D -> Prop;
  fits : D -> Direction -> bytes -> Prop;
  push_inv d dir s : inv d -> inv (fst (push d dir s));
  finish_inv d dir : inv d -> inv (fst (finish d dir));
  push_fits d dir a c d' b :
    inv d -> fits d dir (a ++ c) -> push d dir a = (d', b) -> fits d' dir c;
  push_app d dir a c d' b :
    inv d -> fits d dir (a ++ c) ->
    push d dir a = (d', b) -> desynchronized b = None ->
    push d dir (a ++ c) = after b (push d' dir c) }.

Section Fragmentation.
Context `{DecoderLaws D}.

(** Push the fragments one after the other; the store sees the batches in order. *)
Fixpoint push_all (d : D) (dir : Direction) (fragments : list bytes) : D * DecodeBatch :=
  match fragments with
  | [] => (d, need_more)
  | c :: cs => let '(d', b) := push d dir c in after b (push_all d' dir cs)
  end.

Lemma push_all_concat d dir c cs d' b :
  inv d -> fits d dir (concat (c :: cs)) ->
  push_all d dir (c :: cs) = (d', b) -> desynchronized b = None ->
  push d dir (concat (c :: cs)) = (d', b).
Proof.
  revert d c d' b; induction cs as [|c2 cs IH]; intros d c d' b Hinv Hfit; simpl in *.
  - rewrite app_nil_r. destruct (push d dir c) as [d1 b1].
    unfold after; simpl. rewrite batch_app_need_more_r. by intros [= <- <-].
  - destruct (push d dir c) as [d1 b1] eqn:E1.
    pose proof (push_fits _ _ _ _ _ _ Hinv Hfit E1) as Hfit1.
    pose proof (push_inv d dir c Hinv) as Hinv1. rewrite E1 in Hinv1. simpl in Hinv1.
    specialize (IH d1 c2). destruct (push d1 dir c2) as [d2 b2].
    destruct (push_all d2 dir cs) as [d3 b3]. unfold after at 1 2; simpl.
    intros [= <- <-] [Hb1 Hb23]%batch_app_clean.
    rewrite (push_app _ _ _ _ _ _ Hinv Hfit E1 Hb1).
    by rewrite (IH d3 (batch_app b2 b3)).
Qed.
End Fragmentation.

(** ** Streams of frames

    A decoder whose buffer [l] is all that distinguishes the states [at_ l]
    it goes through, and whose loop [run] takes one frame [enc v] at a time
    off the buffer, decodes a stream of accepted frames exactly, however it is
    cut.  [room l c] is what lets the decoder append [c] to the buffer. *)
Section Streams.
Context `{StreamingDecoder D} {V : Type} (dir : Direction).
Context (enc : V -> bytes) (msg : V -> DecodedMessage) (acc : V -> Prop).
Context (at_ : bytes -> D) (run : bytes -> D * DecodeBatch) (room : bytes -> bytes -> Prop).
Context (Hpush : forall l c, room l c -> push (at_ l) dir c = run (l ++ c))
  (Hnil : run [] = (at_ [], need_more))
  (Hframe : forall v rest, acc v -> run (enc v ++ rest) = after (one_message (msg v)) (run rest))
  (Hpartial : forall v s t, acc v -> enc v = s ++ t -> t <> [] -> run s = (at_ s, need_more))
  (Hne : forall v, acc v -> enc v <> []).

Definition wire (vs : list V) : bytes := concat (map enc vs).

Lemma run_frames vs rest :
  Forall acc vs ->
  run (wire vs ++ rest) = after (mkBatch (map msg vs) None) (run rest).
Proof.
  induction 1 as [|v vs Hv _ IH]; simpl; [by rewrite after_need_more|].
  unfold wire; simpl. rewrite <- app_assoc, Hframe by done. fold (wire vs).
  by rewrite IH, after_after.
Qed.

(** What can be left in the buffer: nothing, or the beginning of a frame. *)
Definition leftover (vs : list V) (l : bytes) : Prop :=
  l = [] \/ exists v, v ∈ vs /\ (length l < length (enc v))%nat.

(** Any prefix of a stream of accepted frames is decoded into the complete
    frames it contains. *)
Lemma run_prefix vs s t :
  Forall acc vs -> wire vs = s ++ t ->
  exists done_ rest_ l, vs = done_ ++ rest_ /\ (t = [] -> rest_ = []) /\ wire rest_ = l ++ t /\
    leftover rest_ l /\ run s = (at_ l, mkBatch (map msg done_) None).
Proof.
  intros Hvs. revert s; induction Hvs as [|v vs Hv Hvs IH]; intros s Hw.
  { symmetry in Hw. apply app_eq_nil in Hw as [-> ->]. exists [], [], []. repeat split; auto.
    by left. }
  unfold wire in Hw; simpl in Hw. destruct (decide (length (enc v) <= length s)%nat) as [Hle|Hgt].
  - assert (Hs : s = enc v ++ drop (length (enc v)) s).
    { apply (f_equal (take (length (enc v)))) in Hw.
      rewrite take_app_length, take_app_le in Hw by done.
      rewrite Hw at 1. by rewrite take_drop. }
    set (s' := drop (length (enc v)) s) in Hs. rewrite Hs, <- app_assoc in Hw.
    apply app_inv_head in Hw.
    destruct (IH s' Hw) as (d & r & l & -> & Ht & Hr & Hl & Hrun).
    exists (v :: d), r, l. repeat split; [done..|]. by rewrite Hs, Hframe, Hrun.
  - exists [], (v :: vs), s. repeat split; [..|done| |].
    { intros ->. apply (f_equal length) in Hw. len. }
    { right. exists v. split; [by left|lia]. }
    apply (Hpartial v s (drop (length s) (enc v))); [done|..].
    + apply (f_equal (take (length s))) in Hw.
      rewrite take_app_length, take_app_le in Hw by lia. by rewrite <- Hw at 1; rewrite take_drop.
    + intros E. apply (f_equal length) in E. rewrite length_drop in E. simpl in E. lia.
Qed.

Lemma push_all_frames vs fragments l :
  Forall acc vs ->
  (forall c l, c ∈ fragments -> leftover vs l -> room l c) ->
  leftover vs l -> (fragments = [] -> vs = []) -> l ++ concat fragments = wire vs ->
  push_all (at_ l) dir fragments = (at_ [], mkBatch (map msg vs) None).
Proof.
  intros Hvs. revert vs Hvs l.
  induction fragments as [|c fs IH]; intros vs Hvs l Hroom Hl Hnil' Hw; simpl.
  - rewrite Hnil' in * by done. rewrite app_nil_r in Hw. change (wire []) with (@nil byte) in Hw.
    by rewrite Hw.
  - simpl in Hw. rewrite app_assoc in Hw. symmetry in Hw.
    destruct (run_prefix vs _ _ Hvs Hw) as (d & rest & l' & -> & Ht & Hr & Hl' & Hrun).
    apply Forall_app in Hvs as [_ Hrest].
    rewrite Hpush, Hrun by (apply Hroom; [by left|done]).
    rewrite (IH rest Hrest l'); [by rewrite map_app|..|done| |done].
    + intros c' l0 Hc' H0. apply Hroom; [by right|].
      destruct H0 as [->|(v & Hv & ?)]; [by left|]. right. exists v.
      rewrite elem_of_app. eauto.
    + intros ->. by apply Ht.
Qed.

(** From an empty buffer. *)
Lemma push_all_stream vs fragments :
  Forall acc vs ->
  (forall c l, c ∈ fragments -> leftover vs l -> room l c) ->
  concat fragments = wire vs ->
  push_all (at_ []) dir fragments = (at_ [], mkBatch (map msg vs) None).
Proof.
  intros Hvs Hroom Hw. apply push_all_frames; auto; [by left|].
  intros ->. destruct Hvs as [|v vs Hv _]; [done|]. unfold wire in Hw; simpl in Hw.
  symmetry in Hw. apply app_eq_nil in Hw as [Hw _]. by destruct (Hne v Hv).
Qed.
End Streams.

(** ** Observed traffic

    What reaches a decoder over the life of a flow: bytes and ends of
    streams, in the order they were observed. *)
Inductive Traffic := Bytes (dir : Direction) (s : bytes) | End (dir : Direction).

Fixpoint observe `{StreamingDecoder D} (d : D) (ts : list Traffic) : D * DecodeBatch :=
  match ts with
  | [] => (d, need_more)
  | Bytes dir s :: ts => let '(d', b) := push d dir s in after b (observe d' ts)
  | End dir :: ts => let '(d', b) := finish d dir in after b (observe d' ts)
  end.
