(* ===== verification/Redis.v ===== *)
(** * Redis: the RESP2/RESP3 decoder of [crates/lens-proto-redis].

    [parse_value] and its helpers, the conversion of values to messages, and
    the streaming decoder with one buffer per direction.  The recursion of the
    parser is bounded by the nesting limit: [room] is [MAX_NESTING - depth]. *)

From S2P Require Import Prelude RustStd Core Protocol.

Set Warnings "-register-all".

Module Redis.

Definition MAX_NESTING : nat := 32.
Definition MAX_AGGREGATE_ITEMS : Z := 4096.
Definition FRAME_OVERHEAD_BUDGET : Z := 64 * 1024.

Inductive RespValue :=
| Simple (v : bytes)
| Error (v : bytes)
| Integer (v : bytes)
| Bulk (v : option bytes)
| Array (v : option (list RespValue))
| Null
| Boolean (v : bool)
| Double (v : bytes)
| BigNumber (v : bytes)
| BulkError (v : bytes)
| Verbatim (v : bytes)
| Map (v : list RespValue)
| RSet (v : list RespValue)
| Push (v : list RespValue)
| Attribute (v : list RespValue)
| Inline (v : list bytes).

Inductive Parse (A : Type) :=
| Complete (value : A) (consumed : nat)
| Incomplete
| Invalid (reason : bytes).
Arguments Complete {A} value consumed.
Arguments Incomplete {A}.
Arguments Invalid {A} reason.

Definition find_crlf (s : bytes) : option nat := find_bytes s crlf.

(** The text between the type byte and the first CRLF, and the bytes up to
    and including that CRLF. *)
Definition line (s : bytes) : option (bytes * nat) :=
  match s with
  | [] => None
  | _ :: r =>
      match find_crlf r with
      | Some i => let end_ := (i + 1)%nat in Some (take i r, (end_ + 2)%nat)
      | None => None
      end
  end.

Definition expect_empty_line (s : bytes) : option bool :=
  if blen s <? 3 then None else Some (take 2 (drop 1 s) =s crlf).

Definition parse_signed (s : bytes) : option Z :=
  match from_utf8 s with Some t => parse_i64 t | None => None end.

Definition parse_line_value (s : bytes) (constructor : bytes -> RespValue) : Parse RespValue :=
  match line s with
  | Some (value, consumed) => Complete (constructor value) consumed
  | None => Incomplete
  end.

Definition parse_boolean (s : bytes) : Parse RespValue :=
  match line s with
  | Some (value, consumed) =>
      if value =s lit "t" then Complete (Boolean true) consumed
      else if value =s lit "f" then Complete (Boolean false) consumed
      else Invalid (lit "invalid RESP3 boolean frame")
  | None => Incomplete
  end.

Definition parse_null (s : bytes) : Parse RespValue :=
  match expect_empty_line s with
  | Some true => Complete Null 3
  | Some false => Invalid (lit "invalid RESP3 null frame")
  | None => Incomplete
  end.

Definition parse_blob (s : bytes) (constructor : bytes -> RespValue) (null : RespValue) :
    Parse RespValue :=
  match line s with
  | None => Incomplete
  | Some (length, header) =>
      match parse_signed length with
      | None => Invalid (lit "invalid Redis blob length")
      | Some length =>
          if length =? -1 then Complete null header
          else if length <? 0 then Invalid (lit "negative Redis blob length")
          else
            match checked_add (Z.of_nat header) length with
            | None => Invalid (lit "Redis blob length overflow")
            | Some end_ =>
                match checked_add end_ 2 with
                | None => Invalid (lit "Redis blob length overflow")
                | Some total =>
                    if blen s <? total then Incomplete
                    else if negb (take 2 (drop (Z.to_nat end_) s) =s crlf) then
                      Invalid (lit "Redis blob is missing its CRLF terminator")
                    else Complete (constructor (take (Z.to_nat length) (drop header s)))
                           (Z.to_nat total)
                end
            end
      end
  end.

(** The loop over the items of an aggregate: [consumed] bytes are behind. *)
Fixpoint parse_items (item : bytes -> Parse RespValue) (n : nat) (s : bytes) (consumed : nat)
    (values : list RespValue) : Parse (list RespValue) :=
  match n with
  | O => Complete values consumed
  | S k =>
      match item (drop consumed s) with
      | Complete value used => parse_items item k s (consumed + used) (values ++ [value])
      | Incomplete => Incomplete
      | Invalid reason => Invalid reason
      end
  end.

Definition parse_aggregate (item : bytes -> Parse RespValue) (s : bytes)
    (constructor : option (list RespValue) -> RespValue) (nullable : bool) : Parse RespValue :=
  match line s with
  | None => Incomplete
  | Some (count, consumed) =>
      match parse_signed count with
      | None => Invalid (lit "invalid Redis aggregate length")
      | Some count =>
          if nullable && (count =? -1) then Complete (constructor None) consumed
          else if count <? 0 then Invalid (lit "negative Redis aggregate length")
          else if MAX_AGGREGATE_ITEMS <? count then
            Invalid (lit "Redis aggregate exceeds the item limit")
          else match parse_items item (Z.to_nat count) s consumed [] with
               | Complete values consumed => Complete (constructor (Some values)) consumed
               | Incomplete => Incomplete
               | Invalid reason => Invalid reason
               end
      end
  end.

Definition parse_flat_aggregate (item : bytes -> Parse RespValue) (s : bytes)
    (constructor : list RespValue -> RespValue) (multiplier : Z) : Parse RespValue :=
  match line s with
  | None => Incomplete
  | Some (count, consumed) =>
      match parse_signed count with
      | None => Invalid (lit "invalid RESP3 aggregate length")
      | Some count =>
          if count <? 0 then Invalid (lit "negative RESP3 aggregate length")
          else match checked_mul count multiplier with
               | None => Invalid (lit "RESP3 aggregate length overflow")
               | Some items =>
                   if MAX_AGGREGATE_ITEMS <? items then
                     Invalid (lit "RESP3 aggregate exceeds the item limit")
                   else match parse_items item (Z.to_nat items) s consumed [] with
                        | Complete values consumed => Complete (constructor values) consumed
                        | Incomplete => Incomplete
                        | Invalid reason => Invalid reason
                        end
               end
      end
  end.

Definition parse_inline (s : bytes) : Parse RespValue :=
  match find_crlf s with
  | None => Incomplete
  | Some end_ =>
      let line := take end_ s in
      if existsb (fun b => is_ascii_control b && negb (b =b x09)) line then
        Invalid (lit "invalid inline Redis command")
      else
        let values := List.filter (fun v => negb (v =s [])) (split_on is_ascii_whitespace line) in
        match values with
        | [] => Invalid (lit "empty inline Redis command")
        | _ => Complete (Inline values) (end_ + 2)
        end
  end.

(** The dispatch on the type byte; [deeper] parses one level further down. *)
Definition dispatch (deeper : bytes -> Parse RespValue) (b : byte) : bytes -> Parse RespValue :=
  fun s =>
  if b =b "+"%byte then parse_line_value s Simple
  else if b =b "-"%byte then parse_line_value s Error
  else if b =b ":"%byte then parse_line_value s Integer
  else if b =b ","%byte then parse_line_value s Double
  else if b =b "("%byte then parse_line_value s BigNumber
  else if b =b "_"%byte then parse_null s
  else if b =b "#"%byte then parse_boolean s
  else if b =b "$"%byte then parse_blob s (fun v => Bulk (Some v)) (Bulk None)
  else if b =b "!"%byte then parse_blob s BulkError (BulkError [])
  else if b =b "="%byte then parse_blob s Verbatim (Verbatim [])
  else if b =b "*"%byte then parse_aggregate deeper s Array true
  else if b =b "%"%byte then parse_flat_aggregate deeper s Map 2
  else if b =b "~"%byte then parse_flat_aggregate deeper s RSet 1
  else if b =b ">"%byte then parse_flat_aggregate deeper s Push 1
  else if b =b "|"%byte then parse_flat_aggregate deeper s Attribute 2
  else parse_inline s.

Fixpoint parse_room (room : nat) (s : bytes) : Parse RespValue :=
  match s with
  | [] => Incomplete
  | b :: _ =>
      match room with
      | O => Invalid (lit "Redis nesting exceeds the decoder limit")
      | S room => dispatch (parse_room room) b s
      end
  end.

Definition parse_value (s : bytes) (depth : nat) : Parse RespValue :=
  parse_room (MAX_NESTING - depth) s.

(** ** Values as messages *)

Definition render_byte (b : byte) : bytes :=
  if in_range 32 126 b && negb (b =b x5c) then [b]
  else if b =b x5c then [x5c; x5c]
  else if b =b x0a then lit "\n"
  else if b =b x0d then lit "\r"
  else if b =b x09 then lit "\t"
  else lit "\x" ++ hex2 b.

Definition render_bytes (v : bytes) : bytes := concat (map render_byte v).

(** [is_char_boundary]: the end of the text, or no continuation byte there. *)
Definition is_char_boundary (s : bytes) (i : nat) : bool :=
  match s !! i with
  | Some b => negb (is_cont b)
  | None => (i =? length s)%nat
  end.

Fixpoint floor_boundary (s : bytes) (i : nat) : nat :=
  match i with
  | O => O
  | S k => if is_char_boundary s i then i else floor_boundary s k
  end.

Definition truncate_utf8 (value : bytes) (max : Z) : bytes :=
  if blen value <=? max then value
  else take (floor_boundary value (Z.to_nat max)) value.

Definition scalar_bytes (v : RespValue) : option bytes :=
  match v with
  | Simple v | Error v | Integer v | Bulk (Some v) | Double v | BigNumber v
  | BulkError v | Verbatim v => Some v
  | _ => None
  end.

Fixpoint filter_map {A B} (f : A -> option B) (l : list A) : list B :=
  match l with
  | [] => []
  | x :: r => match f x with Some y => y :: filter_map f r | None => filter_map f r end
  end.

Definition redis_request_summary (command : bytes) (headers : list (bytes * bytes)) : bytes :=
  let arguments := map snd (List.filter (fun h => fst h =s lit "redis-arg") headers) in
  match arguments with
  | [] => lit "Redis " ++ command
  | _ => lit "Redis " ++ command ++ lit " " ++ join (lit " ") arguments
  end.

(** The loop over the arguments: retained bytes, truncation flag, headers. *)
Definition retain_argument (max_body : Z) (acc : Z * bool * list (bytes * bytes))
    (argument : bytes) : Z * bool * list (bytes * bytes) :=
  let '(retained, truncated, headers) := acc in
  let rendered := render_bytes argument in
  let remaining := sat_sub max_body retained in
  let captured := truncate_utf8 rendered remaining in
  (sat_add retained (blen captured),
   truncated || (blen captured <? blen rendered),
   headers ++ [(lit "redis-arg", captured)]).

Definition request_message (value : RespValue) (max_body : Z) : DecodedMessage :=
  let arguments := match value with
                   | Array (Some values) => filter_map scalar_bytes values
                   | Inline values => values
                   | _ => []
                   end in
  let command := match arguments with
                 | value :: _ => to_ascii_uppercase (from_utf8_lossy value)
                 | [] => lit "UNKNOWN"
                 end in
  let headers := [(lit "lens-protocol", lit "redis");
                  (lit "lens-boundary", lit "request");
                  (lit "redis-command", command)] in
  let '(_, truncated, headers) :=
    fold_left (retain_argument max_body) (drop 1 arguments) (0, false, headers) in
  mkDecoded ClientToServer (redis_request_summary command headers) headers [] truncated.

Definition response_summary (v : RespValue) : bytes * bytes :=
  let items {A} (vs : list A) := dec (blen vs) in
  match v with
  | Simple v => (lit "simple-string", lit "Redis " ++ render_bytes v)
  | Error v => (lit "error", lit "Redis error " ++ render_bytes v)
  | Integer v => (lit "integer", lit "Redis integer " ++ render_bytes v)
  | Bulk (Some v) => (lit "bulk-string", lit "Redis bulk " ++ items v ++ lit " bytes")
  | Bulk None | Null => (lit "null", lit "Redis null")
  | Array (Some vs) => (lit "array", lit "Redis array " ++ items vs ++ lit " items")
  | Array None => (lit "null", lit "Redis null array")
  | Boolean b => (lit "boolean", lit "Redis boolean " ++ bool_text b)
  | Double v => (lit "double", lit "Redis double " ++ render_bytes v)
  | BigNumber v => (lit "big-number", lit "Redis big number " ++ render_bytes v)
  | BulkError v => (lit "bulk-error", lit "Redis bulk error " ++ items v ++ lit " bytes")
  | Verbatim v => (lit "verbatim", lit "Redis verbatim " ++ items v ++ lit " bytes")
  | Map vs => (lit "map", lit "Redis map " ++ dec (blen vs / 2) ++ lit " pairs")
  | RSet vs => (lit "set", lit "Redis set " ++ items vs ++ lit " items")
  | Push vs => (lit "push", lit "Redis push " ++ items vs ++ lit " items")
  | Attribute vs => (lit "attribute", lit "Redis attribute " ++ dec (blen vs / 2) ++ lit " pairs")
  | Inline vs => (lit "inline", lit "Redis inline " ++ items vs ++ lit " items")
  end.

Fixpoint render_value (v : RespValue) : bytes :=
  match v with
  | Simple v | Error v | Integer v | Bulk (Some v) | Double v | BigNumber v
  | BulkError v | Verbatim v => render_bytes v
  | Bulk None | Array None | Null => lit "null"
  | Boolean b => bool_text b
  | Array (Some vs) | Map vs | RSet vs | Push vs | Attribute vs =>
      lit "[" ++ join (lit ", ") (map render_value vs) ++ lit "]"
  | Inline vs => join (lit " ") (map render_bytes vs)
  end.

Definition response_message (value : RespValue) (max_body : Z) : DecodedMessage :=
  let '(kind, summary) := response_summary value in
  let rendered := render_value value in
  let body := take (Z.to_nat (Z.min (blen rendered) max_body)) rendered in
  let headers := [(lit "lens-protocol", lit "redis");
                  (lit "redis-kind", kind);
                  (lit "lens-content", lit "redis-value")]
                 ++ match value with
                    | Push _ => []
                    | _ => [(lit "lens-boundary", lit "response")]
                    end in
  mkDecoded ServerToClient summary headers body (max_body <? blen rendered).

Definition to_message (direction : Direction) (value : RespValue) (max_body : Z) : DecodedMessage :=
  match direction with
  | ClientToServer => request_message value max_body
  | ServerToClient => response_message value max_body
  end.

(** ** The streaming decoder *)

Record RedisDecoder := mkRedis { client : bytes; server : bytes; max_body : Z }.

Definition new (max_body : Z) : RedisDecoder := mkRedis [] [] max_body.

Definition buffer (d : RedisDecoder) (direction : Direction) : bytes :=
  match direction with ClientToServer => client d | ServerToClient => server d end.

Definition set_buffer (d : RedisDecoder) (direction : Direction) (b : bytes) : RedisDecoder :=
  match direction with
  | ClientToServer => mkRedis b (server d) (max_body d)
  | ServerToClient => mkRedis (client d) b (max_body d)
  end.

(** One round of the loop of [decode_available], on the buffer it drains. *)
Definition decode_round (direction : Direction) (max_body : Z) (buffer : bytes) : Round bytes :=
  match buffer with
  | [] => Break buffer need_more
  | _ =>
      match parse_value buffer 0 with
      | Complete value consumed =>
          Continue (drop consumed buffer) (one_message (to_message direction value max_body))
      | Incomplete =>
          if sat_add max_body FRAME_OVERHEAD_BUDGET <? blen buffer then
            Break [] (desync (lit "Redis frame exceeded the bounded observation buffer"))
          else Break buffer need_more
      | Invalid reason => Break [] (desync reason)
      end
  end.

Definition decode_available (d : RedisDecoder) (direction : Direction) : RedisDecoder * DecodeBatch :=
  let '(b, batch) :=
    decode_loop length (decode_round direction (max_body d)) (buffer d direction) in
  (set_buffer d direction b, batch).

Definition redis_push (d : RedisDecoder) (direction : Direction) (s : bytes) :
    RedisDecoder * DecodeBatch :=
  decode_available (set_buffer d direction (buffer d direction ++ s)) direction.

Definition redis_finish (d : RedisDecoder) (direction : Direction) : RedisDecoder * DecodeBatch :=
  let '(d, batch) := decode_available d direction in
  match buffer d direction with
  | [] => (d, batch)
  | _ => (set_buffer d direction [],
          set_desync batch (lit "Redis stream ended inside a RESP frame"))
  end.

#[export] Instance RedisDecoder_streaming : StreamingDecoder RedisDecoder := {
  protocol _ := lit "redis";
  push := redis_push;
  finish := redis_finish }.

(** ** The parser consumes what it reports, and more input does not change an answer *)

Record good {A} (p : bytes -> Parse A) : Prop := {
  good_bound s v n : p s = Complete v n -> (0 < n <= length s)%nat;
  good_complete s t v n : p s = Complete v n -> p (s ++ t) = Complete v n;
  good_invalid s t r : p s = Invalid r -> p (s ++ t) = Invalid r }.

Lemma line_app s t v n : line s = Some (v, n) -> line (s ++ t) = Some (v, n).
Proof.
  destruct s as [|b r]; simpl; [done|]. unfold find_crlf.
  destruct (find_bytes r crlf) as [i|] eqn:E; [|done]. intros [= <- <-].
  rewrite (find_bytes_app _ _ t _ E). apply find_bytes_bound in E. simpl in E.
  by rewrite take_app_le by lia.
Qed.

Lemma line_bound s v n : line s = Some (v, n) -> (0 < n <= length s)%nat.
Proof.
  destruct s as [|b r]; simpl; [done|]. unfold find_crlf.
  destruct (find_bytes r crlf) as [i|] eqn:E; [|done]. intros [= <- <-].
  apply find_bytes_bound in E. simpl in E. lia.
Qed.

Ltac split_line :=
  match goal with
  | |- context [line ?s] =>
      let E := fresh "Eline" in
      destruct (line s) as [[? ?]|] eqn:E; [|done]
  end.

Lemma line_value_good c : good (fun s => parse_line_value s c).
Proof.
  unfold parse_line_value. split.
  - intros s v n. split_line. intros [= <- <-]. by eapply line_bound.
  - intros s t v n. split_line. intros [= <- <-]. by erewrite line_app.
  - intros s t r. by split_line.
Qed.

Lemma boolean_good : good parse_boolean.
Proof.
  unfold parse_boolean. split.
  - intros s v n. split_line. repeat case_match; intros [= <- <-]; by eapply line_bound.
  - intros s t v n. split_line. erewrite line_app by done. by repeat case_match.
  - intros s t r. split_line. erewrite line_app by done. by repeat case_match.
Qed.

Lemma null_good : good parse_null.
Proof.
  assert (Happ : forall s t x, expect_empty_line s = Some x -> expect_empty_line (s ++ t) = Some x).
  { unfold expect_empty_line, blen. intros s t x.
    case_match eqn:E; [done|]. intros [= <-]. rewrite length_app.
    destruct (Z.ltb_spec (Z.of_nat (length s + length t)) 3); [lia|].
    rewrite drop_app_le, take_app_le by (rewrite ?length_drop; lia). done. }
  unfold parse_null. split.
  - intros s v n. unfold expect_empty_line, blen.
    destruct (Z.ltb_spec (Z.of_nat (length s)) 3); [done|].
    destruct (_ =s _); [|done]. intros [= <- <-]. lia.
  - intros s t v n. destruct (expect_empty_line s) as [[]|] eqn:E; simpl; try done.
    by rewrite (Happ _ _ _ E).
  - intros s t v. destruct (expect_empty_line s) as [[]|] eqn:E; simpl; try done.
    by rewrite (Happ _ _ _ E).
Qed.

(** The blob behind a parsed header is within reach once [total] bytes are there. *)
Lemma blob_tail_app (s t : bytes) (header : nat) (len e total : Z) :
  (header <= length s)%nat -> 0 <= len ->
  checked_add (Z.of_nat header) len = Some e -> checked_add e 2 = Some total ->
  total <= blen s ->
  (blen (s ++ t) <? total) = false /\
  take 2 (drop (Z.to_nat e) (s ++ t)) = take 2 (drop (Z.to_nat e) s) /\
  take (Z.to_nat len) (drop header (s ++ t)) = take (Z.to_nat len) (drop header s) /\
  (0 < Z.to_nat total <= length s)%nat.
Proof.
  intros Hh Hl [-> _]%checked_add_Some [-> _]%checked_add_Some Ht.
  unfold blen in *. rewrite length_app.
  rewrite !drop_app_le, !take_app_le by (rewrite ?length_drop; lia).
  split; [apply Z.ltb_ge; lia|]. split_and!; try done; lia.
Qed.

Lemma blob_good c null : good (fun s => parse_blob s c null).
Proof.
  unfold parse_blob.
  enough (forall s t, let p := fun s => parse_blob s c null in
            p s = Incomplete \/
            (p (s ++ t) = p s /\ forall v n, p s = Complete v n -> (0 < n <= length s)%nat)) as H.
  { simpl in H. unfold parse_blob in H. split.
    - intros s v n E. destruct (H s []) as [H'|[_ H']]; [congruence|eauto].
    - intros s t v n E. destruct (H s t) as [H'|[H' _]]; [congruence|by rewrite H'].
    - intros s t r E. destruct (H s t) as [H'|[H' _]]; [congruence|by rewrite H']. }
  intros s t; simpl. unfold parse_blob.
  destruct (line s) as [[text header]|] eqn:Eline; [|by left].
  rewrite (line_app _ t _ _ Eline). apply line_bound in Eline.
  destruct (parse_signed text) as [len|]; [|by right].
  case_match; [right; split; [done|by intros ? ? [= <- <-]]|].
  destruct (Z.ltb_spec len 0); [by right|].
  destruct (checked_add _ len) as [e|] eqn:Ee; [|by right].
  destruct (checked_add e 2) as [total|] eqn:Et; [|by right].
  destruct (Z.ltb_spec (blen s) total) as [|Htot]; [by left|right].
  destruct (blob_tail_app s t header len e total) as (-> & -> & -> & Hb); [done || lia..|].
  split; [done|]. case_match; [done|]. by intros ? ? [= <- <-].
Qed.

Lemma inline_good : good parse_inline.
Proof.
  unfold parse_inline, find_crlf. split.
  - intros s v n. destruct (find_bytes s crlf) as [i|] eqn:E; [|done].
    apply find_bytes_bound in E. simpl in E. repeat case_match; intros [= <- <-]. lia.
  - intros s t v n. destruct (find_bytes s crlf) as [i|] eqn:E; [|done].
    rewrite (find_bytes_app _ _ t _ E). apply find_bytes_bound in E. simpl in E.
    by rewrite take_app_le by lia.
  - intros s t r. destruct (find_bytes s crlf) as [i|] eqn:E; [|done].
    rewrite (find_bytes_app _ _ t _ E). apply find_bytes_bound in E. simpl in E.
    by rewrite take_app_le by lia.
Qed.

Section Items.
Context (item : bytes -> Parse RespValue) (Hitem : good item).

Lemma items_bound n s k vs vs' k' :
  (k <= length s)%nat -> parse_items item n s k vs = Complete vs' k' ->
  (k <= k' <= length s)%nat.
Proof.
  revert k vs; induction n as [|n IH]; intros k vs Hk; simpl.
  - intros [= <- <-]. lia.
  - destruct (item (drop k s)) as [v u| |r] eqn:E; try done.
    apply (good_bound _ Hitem) in E. rewrite length_drop in E.
    intros H. apply IH in H; lia.
Qed.

Lemma items_app n s t k vs :
  (k <= length s)%nat -> parse_items item n s k vs <> Incomplete ->
  parse_items item n (s ++ t) k vs = parse_items item n s k vs.
Proof.
  revert k vs; induction n as [|n IH]; intros k vs Hk; simpl; [done|].
  rewrite drop_app_le by done.
  destruct (item (drop k s)) as [v u| |r] eqn:E; [|done|].
  - rewrite (good_complete _ Hitem _ t _ _ E). apply (good_bound _ Hitem) in E.
    rewrite length_drop in E. apply IH. lia.
  - by rewrite (good_invalid _ Hitem _ t _ E).
Qed.

(** What both aggregate parsers do with the items. *)
Definition collect (c : list RespValue -> RespValue) (p : Parse (list RespValue)) :
    Parse RespValue :=
  match p with
  | Complete values consumed => Complete (c values) consumed
  | Incomplete => Incomplete
  | Invalid reason => Invalid reason
  end.

Lemma collect_bound c n s k v k' :
  (0 < k <= length s)%nat -> collect c (parse_items item n s k []) = Complete v k' ->
  (0 < k' <= length s)%nat.
Proof.
  intros Hk. destruct (parse_items item n s k []) eqn:E; simpl; try done.
  intros [= <- <-]. apply items_bound in E; lia.
Qed.

Lemma collect_app c n s t k p :
  (k <= length s)%nat -> p <> Incomplete -> collect c (parse_items item n s k []) = p ->
  collect c (parse_items item n (s ++ t) k []) = p.
Proof.
  intros Hk Hp H. rewrite items_app; [done..|].
  intros E. rewrite E in H. by subst p.
Qed.

Lemma aggregate_good c nullable : good (fun s => parse_aggregate item s c nullable).
Proof.
  unfold parse_aggregate. split.
  - intros s v n. split_line. apply line_bound in Eline.
    destruct (parse_signed _) as [count|]; [|done].
    repeat (case_match; [by intros [= <- <-]|]).
    apply (collect_bound (fun vs => c (Some vs)) (Z.to_nat count) s). lia.
  - intros s t v n. split_line. erewrite line_app by done. apply line_bound in Eline.
    destruct (parse_signed _) as [count|]; [|done].
    repeat (case_match; [done|]).
    apply (collect_app (fun vs => c (Some vs))); [lia|done].
  - intros s t r. split_line. erewrite line_app by done. apply line_bound in Eline.
    destruct (parse_signed _) as [count|]; [|done].
    repeat (case_match; [done|]).
    apply (collect_app (fun vs => c (Some vs))); [lia|done].
Qed.

Lemma flat_aggregate_good c m : good (fun s => parse_flat_aggregate item s c m).
Proof.
  unfold parse_flat_aggregate. split.
  - intros s v n. split_line. apply line_bound in Eline.
    destruct (parse_signed _) as [count|]; [|done].
    case_match; [done|]. destruct (checked_mul count m); [|done]. case_match; [done|].
    by apply collect_bound.
  - intros s t v n. split_line. erewrite line_app by done. apply line_bound in Eline.
    destruct (parse_signed _) as [count|]; [|done].
    case_match; [done|]. destruct (checked_mul count m); [|done]. case_match; [done|].
    apply collect_app; [lia|done].
  - intros s t r. split_line. erewrite line_app by done. apply line_bound in Eline.
    destruct (parse_signed _) as [count|]; [|done].
    case_match; [done|]. destruct (checked_mul count m); [|done]. case_match; [done|].
    apply collect_app; [lia|done].
Qed.
End Items.

#[local] Hint Resolve line_value_good boolean_good null_good blob_good inline_good
  aggregate_good flat_aggregate_good : lens.

Lemma dispatch_good deeper b : good deeper -> good (dispatch deeper b).
Proof. intros H. unfold dispatch. repeat case_match; auto with lens. Qed.

#[local] Hint Resolve dispatch_good : lens.

Lemma parse_room_good room : good (parse_room room).
Proof.
  induction room as [|room IH]; split.
  1-3: by intros [|b s].
  all: intros [|b s]; simpl; try done; destruct (dispatch_good (parse_room room) b IH) as [H1 H2 H3].
  - apply H1.
  - intros t v n. apply (H2 (b :: s)).
  - intros t r. apply (H3 (b :: s)).
Qed.

Lemma parse_value_good depth : good (fun s => parse_value s depth).
Proof. apply parse_room_good. Qed.

Definition parse_value_bound depth := good_bound _ (parse_value_good depth).
Definition parse_value_complete depth := good_complete _ (parse_value_good depth).
Definition parse_value_invalid depth := good_invalid _ (parse_value_good depth).

(** ** The loop terminates and does not depend on fragment boundaries *)

Section Loop.
Context (dir : Direction) (mb : Z).

#[local] Abbreviation round := (decode_round dir mb).
#[local] Abbreviation run := (decode_loop length round).

Lemma redis_round_decreasing x x' b :
  True -> round x = Continue x' b -> True /\ (length x' < length x)%nat.
Proof.
  intros _. destruct x as [|c x]; simpl; [done|].
  destruct (parse_value (c :: x) 0) as [v n| |r] eqn:E; [|by case_match|done].
  intros [= <- <-]. apply parse_value_bound in E.
  rewrite length_drop. simpl in *. lia.
Qed.

Lemma redis_run_unfold x :
  run x = match round x with Continue x' b => after b (run x') | Break x' b => (x', b) end.
Proof. by apply (decode_loop_unfold _ _ (fun _ => True) redis_round_decreasing). Qed.

Lemma redis_run_extend x c x' b :
  run x = (x', b) -> desynchronized b = None -> run (x ++ c) = after b (run (x' ++ c)).
Proof.
  apply (decode_loop_extend _ _ (fun _ => True) redis_round_decreasing (fun y => y ++ c)); try done;
    clear x x' b.
  - intros [|d x] x' b _; [done|]. simpl.
    destruct (parse_value (d :: x) 0) as [v n| |r] eqn:E; [|by case_match|done].
    intros [= <- <-]. pose proof (parse_value_bound _ _ _ _ E).
    change (d :: x ++ c) with ((d :: x) ++ c).
    rewrite (parse_value_complete _ _ c _ _ E), drop_app_le by (simpl in *; lia). done.
  - intros [|d x] x' b _; simpl; [by intros [= <- <-]; rewrite after_need_more|].
    destruct (parse_value (d :: x) 0) as [v n| |r]; [done| |by intros [= <- <-]].
    case_match; [by intros [= <- <-]|]. intros [= <- <-] _. by rewrite after_need_more.
Qed.

(** What the loop leaves in the buffer stays within the observation bound. *)
Lemma run_bounded x : blen (fst (run x)) <= sat_add mb FRAME_OVERHEAD_BUDGET \/ fst (run x) = [].
Proof.
  pattern x, (run x). apply (decode_loop_ind _ _ (fun _ => True) redis_round_decreasing); try done.
  - intros [|d y] y' b _; simpl; [intros [= <- <-]; by right|].
    destruct (parse_value (d :: y) 0); [done| |intros [= <- <-]; by right].
    case_match eqn:E; intros [= <- <-]; [by right|]. left. simpl. lia.
Qed.
End Loop.

Lemma run_messages dir mb x :
  Forall (fun m => exists v, m = to_message dir v mb)
    (messages (snd (decode_loop length (decode_round dir mb) x))).
Proof.
  pattern x, (decode_loop length (decode_round dir mb) x).
  apply (decode_loop_ind _ _ (fun _ => True) (redis_round_decreasing dir mb)); try done.
  - intros [|d y] y' b _; simpl; [by intros [= <- <-]|].
    destruct (parse_value (d :: y) 0); [done| |by intros [= <- <-]].
    case_match; by intros [= <- <-].
  - intros [|d y] y' b [z c] _; simpl; [done|].
    destruct (parse_value (d :: y) 0) as [v n| |]; [|by case_match|done].
    intros [= <- <-] IH. apply Forall_app; split; [|done].
    constructor; [by exists v|done].
Qed.

(** ** Caps *)

Definition header_arg_bytes (hs : list (bytes * bytes)) : Z :=
  foldr (fun h acc => (if fst h =s lit "redis-arg" then blen (snd h) else 0) + acc) 0 hs.

(** The argument bytes a message retains in its headers. *)
Definition arg_bytes (m : DecodedMessage) : Z := header_arg_bytes (headers m).

Lemma header_arg_bytes_app a b : header_arg_bytes (a ++ b) = header_arg_bytes a + header_arg_bytes b.
Proof. induction a as [|h a IH]; simpl; [done|]. unfold header_arg_bytes in *. lia. Qed.

Lemma floor_boundary_le s i : (floor_boundary s i <= i)%nat.
Proof. induction i as [|i IH]; simpl; [done|]. case_match; lia. Qed.

Lemma truncate_utf8_le v max : 0 <= max -> blen (truncate_utf8 v max) <= max.
Proof.
  intros H. unfold truncate_utf8. destruct (Z.leb_spec (blen v) max); [done|].
  pose proof (floor_boundary_le v (Z.to_nat max)). len.
Qed.

Lemma retain_arguments_capped mb args retained truncated hs :
  0 <= mb <= usize_max -> retained = header_arg_bytes hs -> 0 <= retained <= mb ->
  header_arg_bytes (snd (fold_left (retain_argument mb) args (retained, truncated, hs))) <= mb.
Proof.
  intros Hmb. revert retained truncated hs. induction args as [|a args IH]; intros r t hs Hr Hb.
  - simpl. lia.
  - cbn [fold_left retain_argument]. pose proof (truncate_utf8_le (render_bytes a) (sat_sub mb r)) as Ht.
    set (c := truncate_utf8 (render_bytes a) (sat_sub mb r)) in *. pose proof (blen_nonneg c).
    unfold sat_sub, sat_add, usize_max in *. rewrite Z.max_r in Ht by lia.
    rewrite Z.min_r by lia. apply IH; [|lia].
    rewrite header_arg_bytes_app, Hr. f_equal. unfold header_arg_bytes. cbn [foldr fst snd].
    rewrite bytes_eqb_refl. lia.
Qed.

Lemma to_message_capped dir v mb :
  0 <= mb <= usize_max ->
  blen (body (to_message dir v mb)) <= mb /\ arg_bytes (to_message dir v mb) <= mb /\
  direction (to_message dir v mb) = dir.
Proof.
  intros Hmb. destruct dir; simpl.
  - unfold request_message. set (args := match v with Array _ => _ | _ => _ end).
    set (cmd := match args with [] => _ | _ => _ end).
    pose proof (retain_arguments_capped mb (drop 1 args) 0 false
      [(lit "lens-protocol", lit "redis"); (lit "lens-boundary", lit "request");
       (lit "redis-command", cmd)] Hmb eq_refl) as H.
    destruct (fold_left _ _ _) as [[r t] hs]. simpl in *.
    split; [change (blen []) with 0; lia|]. split; [|done]. apply H. lia.
  - unfold response_message. destruct (response_summary v) as [k sm]. cbn [body direction].
    split; [|split; [|done]].
    + unfold blen. rewrite length_take. lia.
    + unfold arg_bytes. cbn [headers]. rewrite header_arg_bytes_app. destruct v; simpl; lia.
Qed.

Lemma redis_buffer_set_eq d dir b : buffer (set_buffer d dir b) dir = b.
Proof. by destruct dir. Qed.

Lemma redis_set_set_buffer d dir b b' : set_buffer (set_buffer d dir b) dir b' = set_buffer d dir b'.
Proof. by destruct dir. Qed.

Lemma max_body_set d dir b : max_body (set_buffer d dir b) = max_body d.
Proof. by destruct dir. Qed.

(** A push is the loop on the extended buffer. *)
Lemma redis_push_run d dir s :
  redis_push d dir s =
  let '(b, batch) := decode_loop length (decode_round dir (max_body d)) (buffer d dir ++ s) in
  (set_buffer d dir b, batch).
Proof.
  unfold redis_push, decode_available. rewrite redis_buffer_set_eq, max_body_set.
  destruct (decode_loop _ _ _). by rewrite redis_set_set_buffer.
Qed.

Lemma redis_push_app d dir a c d' b :
  redis_push d dir a = (d', b) -> desynchronized b = None ->
  redis_push d dir (a ++ c) = after b (redis_push d' dir c).
Proof.
  rewrite !redis_push_run, app_assoc.
  destruct (decode_loop _ _ (buffer d dir ++ a)) as [x1 b1] eqn:E1. intros [= <- <-] Hb.
  rewrite (redis_run_extend _ _ _ _ _ _ E1 Hb), redis_buffer_set_eq, max_body_set.
  destruct (decode_loop _ _ (x1 ++ c)) as [x2 b2]. unfold after; simpl. by rewrite redis_set_set_buffer.
Qed.

#[export] Program Instance RedisDecoder_laws : DecoderLaws RedisDecoder := {
  inv _ := True;
  fits _ _ _ := True }.
Next Obligation. done. Qed.
Next Obligation. done. Qed.
Next Obligation. done. Qed.
Next Obligation. intros d dir a c d' b _ _. apply redis_push_app. Qed.

(** ** Well-formed frames are decoded *)

(** The wire form of a value, as the protocol defines it. *)
Fixpoint encode (v : RespValue) : bytes :=
  let blob (tag : byte) (s : bytes) := [tag] ++ dec (blen s) ++ crlf ++ s ++ crlf in
  match v with
  | Simple s => ["+"%byte] ++ s ++ crlf
  | Error s => ["-"%byte] ++ s ++ crlf
  | Integer s => [":"%byte] ++ s ++ crlf
  | Double s => [","%byte] ++ s ++ crlf
  | BigNumber s => ["("%byte] ++ s ++ crlf
  | Null => ["_"%byte] ++ crlf
  | Boolean b => ["#"%byte] ++ lit (if b then "t" else "f") ++ crlf
  | Bulk None => ["$"%byte] ++ lit "-1" ++ crlf
  | Bulk (Some s) => blob "$"%byte s
  | BulkError s => blob "!"%byte s
  | Verbatim s => blob "="%byte s
  | Array None => ["*"%byte] ++ lit "-1" ++ crlf
  | Array (Some vs) => ["*"%byte] ++ dec (blen vs) ++ crlf ++ concat (map encode vs)
  | Map vs => ["%"%byte] ++ dec (blen vs / 2) ++ crlf ++ concat (map encode vs)
  | Attribute vs => ["|"%byte] ++ dec (blen vs / 2) ++ crlf ++ concat (map encode vs)
  | RSet vs => ["~"%byte] ++ dec (blen vs) ++ crlf ++ concat (map encode vs)
  | Push vs => [">"%byte] ++ dec (blen vs) ++ crlf ++ concat (map encode vs)
  | Inline ws => join (lit " ") ws ++ crlf
  end.

Definition blob_ok (s : bytes) : bool := blen s + blen (dec (blen s)) + 5 <=? i64_max.
Definition items_ok {A} (s : list A) : bool := blen s <=? MAX_AGGREGATE_ITEMS.
Definition pairs_ok {A} (s : list A) : bool := items_ok s && (blen s mod 2 =? 0).

(** A value the decoder accepts at nesting depth [MAX_NESTING - room]: lines
    without CRLF, blobs of representable size, aggregates within the item
    limit, keys paired with values. *)
Fixpoint wf (room : nat) (v : RespValue) : bool :=
  match room with
  | O => false
  | S r =>
      match v with
      | Simple s | Error s | Integer s | Double s | BigNumber s => line_ok s
      | Null | Boolean _ | Bulk None | Array None => true
      | Bulk (Some s) | BulkError s | Verbatim s => blob_ok s
      | Array (Some vs) | RSet vs | Push vs => items_ok vs && forallb (wf r) vs
      | Map vs | Attribute vs => pairs_ok vs && forallb (wf r) vs
      | Inline _ => false
      end
  end.

Lemma line_spec b t rest :
  line_ok t = true -> line (b :: t ++ crlf ++ rest) = Some (t, (length t + 3)%nat).
Proof.
  intros Ht. unfold line, find_crlf. rewrite find_crlf_line by done.
  rewrite take_app_length. do 2 f_equal. lia.
Qed.

Lemma parse_signed_dec n : 0 <= n <= i64_max -> parse_signed (dec n) = Some n.
Proof.
  intros Hn. unfold parse_signed, from_utf8.
  rewrite ascii_valid by (by apply digits_ascii, dec_digits; lia). by apply parse_i64_dec.
Qed.

Lemma blob_decodes b c null s rest :
  blob_ok s = true ->
  parse_blob ([b] ++ dec (blen s) ++ crlf ++ s ++ crlf ++ rest) c null
  = Complete (c s) (length ([b] ++ dec (blen s) ++ crlf ++ s ++ crlf)).
Proof.
  unfold blob_ok. intros Hs%Z.leb_le.
  pose proof (blen_nonneg s). pose proof (blen_nonneg (dec (blen s))).
  unfold parse_blob. cbn [app]. rewrite line_spec by (by apply dec_line_ok).
  rewrite parse_signed_dec by lia.
  destruct (Z.eqb_spec (blen s) (-1)); [lia|]. destruct (Z.ltb_spec (blen s) 0); [lia|].
  assert (Hm : i64_max + 2 <= usize_max) by (vm_compute; congruence).
  set (h := (length (dec (blen s)) + 3)%nat).
  assert (Hh : Z.of_nat h = blen (dec (blen s)) + 3) by (unfold h, blen; lia).
  unfold checked_add. rewrite Hh.
  destruct (Z.leb_spec (blen (dec (blen s)) + 3 + blen s) usize_max); [|lia].
  destruct (Z.leb_spec (blen (dec (blen s)) + 3 + blen s + 2) usize_max); [|lia].
  set (w := b :: dec (blen s) ++ crlf ++ s ++ crlf ++ rest).
  assert (Hw : w = (b :: dec (blen s) ++ crlf) ++ s ++ crlf ++ rest)
    by (unfold w; simpl; by rewrite <- app_assoc).
  assert (Hpre : length (b :: dec (blen s) ++ crlf) = h) by (simpl; rewrite length_app; simpl; lia).
  assert (Hlen : blen w = blen (dec (blen s)) + 5 + blen s + blen rest).
  { rewrite Hw. len. }
  pose proof (blen_nonneg rest).
  destruct (Z.ltb_spec (blen w) (blen (dec (blen s)) + 3 + blen s + 2)); [lia|].
  assert (Hd : drop h w = s ++ crlf ++ rest) by (rewrite Hw, <- Hpre; apply drop_app_length).
  replace (Z.to_nat (blen (dec (blen s)) + 3 + blen s)) with (h + length s)%nat by (unfold blen in *; lia).
  rewrite <- drop_drop, Hd, drop_app_length. cbn [take app crlf]. rewrite bytes_eqb_refl. cbn [negb].
  replace (Z.to_nat (blen s)) with (length s) by (unfold blen; lia).
  rewrite take_app_length. f_equal. len.
Qed.

Section Items.
Context (item : bytes -> Parse RespValue).

Lemma items_decode vs pre rest acc :
  (forall v r, v ∈ vs -> item (encode v ++ r) = Complete v (length (encode v))) ->
  parse_items item (length vs) (pre ++ concat (map encode vs) ++ rest) (length pre) acc
  = Complete (acc ++ vs) (length (pre ++ concat (map encode vs))).
Proof.
  revert pre acc; induction vs as [|v vs IH]; intros pre acc Hitem; simpl.
  - by rewrite !app_nil_r.
  - rewrite drop_app_length, <- app_assoc, Hitem by left.
    specialize (IH (pre ++ encode v) (acc ++ [v])).
    rewrite <- !app_assoc, length_app in IH. simpl in IH.
    rewrite IH by (intros; apply Hitem; by right). by rewrite !length_app.
Qed.

(** The header of an aggregate in front of its items. *)
Lemma collect_decodes c b vs n rest :
  (forall v r, v ∈ vs -> item (encode v ++ r) = Complete v (length (encode v))) ->
  collect c (parse_items item (length vs)
    (b :: dec n ++ crlf ++ concat (map encode vs) ++ rest) (length (dec n) + 3) [])
  = Complete (c vs) (length (b :: dec n ++ crlf ++ concat (map encode vs))).
Proof.
  intros Hitem. pose proof (items_decode vs (b :: dec n ++ crlf) rest [] Hitem) as H.
  simpl app in H. rewrite <- !app_assoc in H. simpl length in H at 2. rewrite length_app in H.
  replace (length (dec n) + 3)%nat with (S (length (dec n) + length crlf)) by (simpl; lia).
  by rewrite H.
Qed.

Lemma aggregate_decodes b vs rest :
  (forall v r, v ∈ vs -> item (encode v ++ r) = Complete v (length (encode v))) ->
  items_ok vs = true ->
  parse_aggregate item (b :: dec (blen vs) ++ crlf ++ concat (map encode vs) ++ rest) Array true
  = Complete (Array (Some vs)) (length (b :: dec (blen vs) ++ crlf ++ concat (map encode vs))).
Proof.
  unfold items_ok. intros Hitem Hn%Z.leb_le. pose proof (blen_nonneg vs).
  assert (MAX_AGGREGATE_ITEMS <= i64_max) by (vm_compute; congruence).
  unfold parse_aggregate. rewrite line_spec by (by apply dec_line_ok).
  rewrite parse_signed_dec by lia.
  destruct (Z.eqb_spec (blen vs) (-1)); [lia|]. destruct (Z.ltb_spec (blen vs) 0); [lia|].
  destruct (Z.ltb_spec MAX_AGGREGATE_ITEMS (blen vs)); [lia|]. cbn [andb].
  replace (Z.to_nat (blen vs)) with (length vs) by (unfold blen; lia).
  by apply (collect_decodes (fun vs => Array (Some vs))).
Qed.

Lemma flat_aggregate_decodes b c m vs rest :
  (forall v r, v ∈ vs -> item (encode v ++ r) = Complete v (length (encode v))) ->
  items_ok vs = true -> 0 < m -> blen vs / m * m = blen vs ->
  parse_flat_aggregate item
    (b :: dec (blen vs / m) ++ crlf ++ concat (map encode vs) ++ rest) c m
  = Complete (c vs) (length (b :: dec (blen vs / m) ++ crlf ++ concat (map encode vs))).
Proof.
  unfold items_ok. intros Hitem Hn%Z.leb_le Hm Hdiv. pose proof (blen_nonneg vs).
  assert (MAX_AGGREGATE_ITEMS <= i64_max /\ i64_max <= usize_max) as [? ?]
    by (vm_compute; split; congruence).
  assert (0 <= blen vs / m) by (by apply Z.div_pos). assert (blen vs / m <= blen vs) by nia.
  unfold parse_flat_aggregate. rewrite line_spec by (by apply dec_line_ok).
  rewrite parse_signed_dec by lia. destruct (Z.ltb_spec (blen vs / m) 0); [lia|].
  unfold checked_mul. rewrite Hdiv. destruct (Z.leb_spec (blen vs) usize_max); [|lia].
  destruct (Z.ltb_spec MAX_AGGREGATE_ITEMS (blen vs)); [lia|].
  replace (Z.to_nat (blen vs)) with (length vs) by (unfold blen; lia).
  by apply collect_decodes.
Qed.
End Items.

Lemma line_value_decodes b c s rest :
  line_ok s = true ->
  parse_line_value ([b] ++ s ++ crlf ++ rest) c = Complete (c s) (length ([b] ++ s ++ crlf)).
Proof.
  intros Hs. unfold parse_line_value. cbn [app]. rewrite line_spec by done. f_equal. unfold crlf. len.
Qed.

Lemma pairs_ok_spec {A} (vs : list A) :
  pairs_ok vs = true -> items_ok vs = true /\ blen vs / 2 * 2 = blen vs.
Proof.
  unfold pairs_ok. rewrite andb_true_iff. intros [H1 H2]. split; [done|].
  pose proof (Z.div_mod (blen vs) 2). lia.
Qed.

Lemma null_decodes rest : parse_null (["_"%byte] ++ crlf ++ rest) = Complete Null 3.
Proof.
  unfold parse_null, expect_empty_line. destruct (Z.ltb_spec (blen (["_"%byte] ++ crlf ++ rest)) 3).
  - unfold crlf in *. len.
  - done.
Qed.

Lemma parse_room_encode room v rest :
  wf room v = true -> parse_room room (encode v ++ rest) = Complete v (length (encode v)).
Proof.
  revert v rest; induction room as [|room IH]; intros v rest; [done|].
  assert (Hvs : forall vs, forallb (wf room) vs = true ->
            forall w r, w ∈ vs -> parse_room room (encode w ++ r) = Complete w (length (encode w))).
  { intros vs Hvs w r Hw. apply IH. rewrite forallb_forall in Hvs.
    by apply Hvs, list_elem_of_In. }
  destruct v as [s|s|s|[s|]|[vs|]| |[]|s|s|s|s|vs|vs|vs|vs|ws]; cbn [wf encode]; intros Hwf;
    rewrite <- ?app_assoc; try (by apply line_value_decodes); try (by apply blob_decodes);
    try reflexivity; try done; try apply andb_true_iff in Hwf as [Hn Hw].
  - by apply aggregate_decodes; eauto.
  - apply null_decodes.
  - apply pairs_ok_spec in Hn as [??]. apply (flat_aggregate_decodes _ _ Map 2); [by eauto|done|lia|done].
  - rewrite <- (Z.div_1_r (blen vs)). apply (flat_aggregate_decodes _ _ RSet 1); [by eauto|done|lia|].
    by rewrite Z.div_1_r, Z.mul_1_r.
  - rewrite <- (Z.div_1_r (blen vs)). apply (flat_aggregate_decodes _ _ Push 1); [by eauto|done|lia|].
    by rewrite Z.div_1_r, Z.mul_1_r.
  - apply pairs_ok_spec in Hn as [??]. apply (flat_aggregate_decodes _ _ Attribute 2); [by eauto|done|lia|done].
Qed.

(** ** Streams of frames *)

Lemma encode_nonempty room v : wf room v = true -> encode v <> [].
Proof. destruct room; [done|]. by destruct v as [| | |[]|[]| | | | | | | | | | |]. Qed.

Section Streams.
Context (dir : Direction) (mb : Z).
#[local] Abbreviation round := (decode_round dir mb).
#[local] Abbreviation run := (decode_loop length round).
#[local] Abbreviation msg v := (to_message dir v mb).

Definition accepted (v : RespValue) : Prop :=
  wf MAX_NESTING v = true /\ blen (encode v) <= sat_add mb FRAME_OVERHEAD_BUDGET.

Lemma redis_run_frame v rest :
  wf MAX_NESTING v = true -> run (encode v ++ rest) = after (one_message (msg v)) (run rest).
Proof.
  intros Hwf. rewrite redis_run_unfold.
  pose proof (parse_room_encode _ v rest Hwf) as Hp. pose proof (encode_nonempty _ _ Hwf).
  destruct (encode v) as [|b e] eqn:Ee; [done|]. cbn [app decode_round].
  unfold parse_value. rewrite Nat.sub_0_r. cbn [app] in Hp. rewrite Hp.
  by rewrite app_comm_cons, drop_app_length.
Qed.

(** The beginning of an accepted frame waits for the rest of it. *)
Lemma redis_run_partial v s t :
  accepted v -> encode v = s ++ t -> t <> [] -> run s = (s, need_more).
Proof.
  intros [Hwf Hlen] He Ht. rewrite redis_run_unfold.
  pose proof (parse_room_encode _ v [] Hwf) as Hp. rewrite app_nil_r, He in Hp.
  destruct s as [|b s]; [done|]. cbn [decode_round].
  destruct (parse_value (b :: s) 0) as [w n| |r] eqn:E.
  - pose proof (parse_value_bound _ _ _ _ E).
    apply (parse_value_complete _ _ t) in E. unfold parse_value in E.
    rewrite Nat.sub_0_r in E. rewrite E in Hp. simplify_eq. destruct t; [done|len].
  - destruct (Z.ltb_spec (sat_add mb FRAME_OVERHEAD_BUDGET) (blen (b :: s))); [|done].
    rewrite He, blen_app in Hlen. pose proof (blen_nonneg t). lia.
  - apply (parse_value_invalid _ _ t) in E. unfold parse_value in E.
    rewrite Nat.sub_0_r in E. congruence.
Qed.
End Streams.

(** C13. Redis decoding is exact and independent of fragmentation: a stream of
    well-formed frames (nesting, item counts and frame sizes within the
    decoder's limits), cut into fragments anywhere, yields exactly the
    messages of its values in wire order, no desynchronization, and an empty
    buffer. *)
Theorem redis_stream_exact (d : RedisDecoder) (dir : Direction) (vs : list RespValue)
    (fragments : list bytes) :
  buffer d dir = [] ->
  Forall (accepted (max_body d)) vs ->
  concat fragments = wire encode vs ->
  push_all d dir fragments
  = (set_buffer d dir [], mkBatch (map (fun v => to_message dir v (max_body d)) vs) None).
Proof.
  intros Hbuf Hvs Hcat. set (at_ l := set_buffer d dir l).
  assert (Hd : d = at_ []) by (unfold at_; rewrite <- Hbuf; by destruct d, dir).
  rewrite Hd at 1.
  apply (push_all_stream dir encode _ (accepted (max_body d)) at_
    (fun s => let '(x, b) := decode_loop length (decode_round dir (max_body d)) s in (at_ x, b))
    (fun _ _ => True)); try done.
  - intros l c _. cbn [push RedisDecoder_streaming]. rewrite redis_push_run. unfold at_.
    rewrite redis_buffer_set_eq, max_body_set. destruct (decode_loop _ _ _) as [x b].
    by rewrite redis_set_set_buffer.
  - intros v rest [Hwf _]. rewrite redis_run_frame by done. by destruct (decode_loop _ _ rest).
  - intros v s t Hv He Ht. by rewrite (redis_run_partial dir (max_body d) v s t Hv He Ht).
  - intros v [Hwf _]. by eapply encode_nonempty.
Qed.

(** Redis observation is bounded: whatever bytes arrive, a push emits only
    messages of its direction whose body and whose retained arguments are
    within the body cap, and leaves at most the cap plus the frame overhead
    budget in the buffer. *)
Theorem redis_push_bounded (d : RedisDecoder) (dir : Direction) (s : bytes) :
  0 <= max_body d <= usize_max ->
  let '(d', batch) := redis_push d dir s in
  blen (buffer d' dir) <= sat_add (max_body d) FRAME_OVERHEAD_BUDGET /\
  Forall (fun m => direction m = dir /\ blen (body m) <= max_body d /\ arg_bytes m <= max_body d)
    (messages batch).
Proof.
  intros Hmb. rewrite redis_push_run.
  pose proof (run_bounded dir (max_body d) (buffer d dir ++ s)) as Hb.
  pose proof (run_messages dir (max_body d) (buffer d dir ++ s)) as Hm.
  destruct (decode_loop _ _ _) as [x batch]. rewrite redis_buffer_set_eq. simpl in *. split.
  - destruct Hb as [Hb| ->]; [done|].
    apply sat_add_nonneg; [lia|done].
  - eapply List.Forall_impl; [|exact Hm]. intros m [v ->].
    destruct (to_message_capped dir v (max_body d) Hmb) as (?&?&?). done.
Qed.

Lemma redis_push_bounded_witness :
  blen (buffer (fst (redis_push (new 64) ClientToServer (lit "*1"))) ClientToServer) <= 64 + 64 * 1024.
Proof.
  pose proof (redis_push_bounded (new 64) ClientToServer (lit "*1") ltac:(by split)) as H.
  destruct (redis_push _ _ _) as [d' b]. apply H.
Defined.

(** Two pipelined frames, cut inside the first bulk string. *)
Lemma redis_stream_exact_witness :
  let get := Array (Some [Bulk (Some (lit "GET")); Bulk (Some (lit "key"))]) in
  push_all (new 64) ClientToServer
    [take 9 (encode get); drop 9 (encode get) ++ encode (Simple (lit "PING"))]
  = (new 64, mkBatch [to_message ClientToServer get 64;
                      to_message ClientToServer (Simple (lit "PING")) 64] None).
Proof.
  intros get. apply (redis_stream_exact (new 64) ClientToServer [get; Simple (lit "PING")]);
    [reflexivity| |reflexivity].
  apply List.Forall_cons; [by vm_compute|]. apply List.Forall_cons; [by vm_compute|]. constructor.
Defined.

End Redis.
