(* ===== verification/Http1.v ===== *)
(** * Http1: the HTTP/1 decoder of [crates/lens-proto-http1].

    Head parsing, the body states (fixed length, chunked, until EOF), the
    per-direction step and the streaming decoder with its queue of request
    methods.  [&mut self] methods return the new state. *)

From S2P Require Import Prelude RustStd Core Protocol.

Module Http1.

Definition MAX_HEAD_BYTES : Z := 64 * 1024.
Definition MAX_CHUNK_LINE_BYTES : Z := 1024.

Definition crlf2 : bytes := [x0d; x0a; x0d; x0a].

Inductive ChunkPhase :=
| Size
| ChunkData (remaining : Z)
| DataCrlf
| Trailers.

Inductive PendingBody :=
| Fixed (message : DecodedMessage) (remaining : Z)
| Chunked (message : DecodedMessage) (phase : ChunkPhase)
| UntilEof (message : DecodedMessage).

Definition into_message (p : PendingBody) : DecodedMessage :=
  match p with Fixed m _ | Chunked m _ | UntilEof m => m end.

Inductive Step :=
| NeedMore
| Progress
| Message (message : DecodedMessage)
| Desynchronized (reason : bytes).

(** ** Heads *)

Record ParsedHead := mkHead {
  head_line : bytes;
  head_headers : list (bytes * bytes);
  is_response : bool;
  no_body_status : bool;
  content_length : option Z;
  chunked : bool }.

(** [value.split(',').any(|coding| coding.trim().eq_ignore_ascii_case("chunked"))] *)
Definition names_chunked (value : bytes) : bool :=
  existsb (fun coding => eq_ignore_ascii_case (trim coding) (lit "chunked"))
    (split_on (Byte.eqb ","%byte) value).

(** The loop over the header lines. *)
Fixpoint parse_header_lines (lines : list bytes) (headers : list (bytes * bytes))
    (content_length : option Z) (chunked : bool) :
    result (list (bytes * bytes) * option Z * bool) :=
  match lines with
  | [] => Ok (headers, content_length, chunked)
  | line :: lines =>
      match split_once ":"%byte line with
      | None => Err (lit "invalid HTTP header line")
      | Some (name, value) =>
          let name := trim name in
          let value := trim value in
          let? content_length :=
            if eq_ignore_ascii_case name (lit "content-length") then
              match parse_unsigned 10 usize_max value with
              | None => Err (lit "invalid HTTP Content-Length")
              | Some parsed =>
                  match content_length with
                  | Some current =>
                      if current =? parsed then Ok (Some parsed)
                      else Err (lit "conflicting HTTP Content-Length values")
                  | None => Ok (Some parsed)
                  end
              end
            else Ok content_length in
          let chunked :=
            chunked || (eq_ignore_ascii_case name (lit "transfer-encoding") && names_chunked value) in
          parse_header_lines lines (headers ++ [(name, value)]) content_length chunked
      end
  end.

(** The three-part check of a request line. *)
Definition request_line_ok (start_line : bytes) : bool :=
  match split_whitespace start_line with
  | [_; _; version] => starts_with (lit "HTTP/1.") version
  | _ => false
  end.

(** [start_line.split_whitespace().nth(1).and_then(|v| v.parse::<u16>().ok())] *)
Definition status_of (start_line : bytes) : option Z :=
  match split_whitespace start_line !! 1%nat with
  | Some value => parse_unsigned 10 u16_max value
  | None => None
  end.

Definition parse (s : bytes) : result ParsedHead :=
  match from_utf8 s with
  | None => Err (lit "HTTP headers are not valid UTF-8")
  | Some text =>
      let lines := split_crlf text in
      let start_line := trim (default [] (head lines)) in
      if start_line =s [] then Err (lit "HTTP start line is empty")
      else
        let is_response := starts_with (lit "HTTP/1.") start_line in
        if negb is_response && negb (request_line_ok start_line) then
          Err (lit "invalid HTTP/1 request line")
        else
          let? status :=
            if is_response then
              ok_or (status_of start_line) (lit "invalid HTTP/1 status line")
            else Ok 0 in
          let no_body_status :=
            is_response && (((100 <=? status) && (status <? 200)) || (status =? 204) || (status =? 304)) in
          let? '(headers, content_length, chunked) :=
            parse_header_lines (drop 1 lines) [] None false in
          Ok (mkHead start_line headers is_response no_body_status content_length chunked)
  end.

(** ** Bodies *)

Definition with_body (m : DecodedMessage) (b : bytes) (t : bool) : DecodedMessage :=
  mkDecoded (direction m) (start_line m) (headers m) b t.

Definition capture (m : DecodedMessage) (s : bytes) (max_body : Z) : DecodedMessage :=
  let remaining := sat_sub max_body (blen (body m)) in
  let captured := Z.min remaining (blen s) in
  with_body m (body m ++ take (Z.to_nat captured) s) (truncated m || (captured <? blen s)).

(** The bytes of a length-delimited body that are in the buffer: the message
    with them captured, the drained buffer, what is still to come. *)
Definition consume (m : DecodedMessage) (remaining : Z) (buffer : bytes) (max_body : Z) :
    DecodedMessage * bytes * Z :=
  let consumed := Z.min remaining (blen buffer) in
  (capture m (take (Z.to_nat consumed) buffer) max_body,
   drop (Z.to_nat consumed) buffer,
   remaining - consumed).

#[local] Arguments consume : simpl never.

Record DirectionState := mkState { buffer : bytes; pending : option PendingBody }.

(** The state the chunk loop works on. *)
Record ChunkState := mkChunk { cbuffer : bytes; cmessage : DecodedMessage; cphase : ChunkPhase }.

Definition chunk_size (line : bytes) : result Z :=
  match from_utf8 line with
  | None => Err (lit "HTTP chunk-size line is not ASCII")
  | Some line =>
      let size_text := trim (default [] (head (split_on (Byte.eqb ";"%byte) line))) in
      ok_or (parse_unsigned 16 usize_max size_text) (lit "invalid HTTP chunk size")
  end.

(** One round of the chunk loop of [consume_pending]: go on, or return. *)
Definition chunk_step (max_body : Z) (c : ChunkState) : ChunkState + (DirectionState * Step) :=
  let '(mkChunk buffer message phase) := c in
  let wait := inr (mkState buffer (Some (Chunked message phase)), NeedMore) in
  let fail reason := inr (mkState [] None, Desynchronized reason) in
  match phase with
  | Size =>
      match find_bytes buffer crlf with
      | None =>
          if MAX_CHUNK_LINE_BYTES <? blen buffer then
            fail (lit "HTTP chunk-size line exceeds 1024 bytes")
          else wait
      | Some line_end =>
          match chunk_size (take line_end buffer) with
          | Err reason => fail reason
          | Ok size =>
              inl (mkChunk (drop (line_end + 2) buffer) message
                     (if size =? 0 then Trailers else ChunkData size))
          end
      end
  | ChunkData remaining =>
      let '(message, buffer, remaining) := consume message remaining buffer max_body in
      if 0 <? remaining then
        inr (mkState buffer (Some (Chunked message (ChunkData remaining))), NeedMore)
      else inl (mkChunk buffer message DataCrlf)
  | DataCrlf =>
      if blen buffer <? 2 then wait
      else if negb (take 2 buffer =s crlf) then fail (lit "HTTP chunk data is missing CRLF")
      else inl (mkChunk (drop 2 buffer) message Size)
  | Trailers =>
      if starts_with crlf buffer then inr (mkState (drop 2 buffer) None, Message message)
      else
        match find_bytes buffer crlf2 with
        | Some end_ => inr (mkState (drop (end_ + 4) buffer) None, Message message)
        | None =>
            if MAX_HEAD_BYTES <? blen buffer then
              fail (lit "HTTP chunk trailers exceed 65536 bytes")
            else wait
        end
  end.

Definition chunk_measure (c : ChunkState) : nat :=
  2 * length (cbuffer c) + match cphase c with ChunkData _ => 1 | _ => 0 end.

Definition chunk_loop (max_body : Z) (c : ChunkState) : DirectionState * Step :=
  iterate chunk_measure (chunk_step max_body)
    (fun c => (mkState (cbuffer c) (Some (Chunked (cmessage c) (cphase c))), NeedMore)) c.

(** [consume_pending], called with [self.pending] taken. *)
Definition consume_pending (buffer : bytes) (p : PendingBody) (max_body : Z) : DirectionState * Step :=
  match p with
  | Fixed message remaining =>
      let '(message, buffer, remaining) := consume message remaining buffer max_body in
      if remaining =? 0 then (mkState buffer None, Message message)
      else (mkState buffer (Some (Fixed message remaining)), NeedMore)
  | UntilEof message =>
      (mkState [] (Some (UntilEof (capture message buffer max_body))), NeedMore)
  | Chunked message phase => chunk_loop max_body (mkChunk buffer message phase)
  end.

(** What [step] does with a parsed head. *)
Definition begin_body (buffer : bytes) (direction : Direction) (response_to_head : bool)
    (parsed : ParsedHead) : DirectionState * Step :=
  let message := mkDecoded direction (head_line parsed) (head_headers parsed) [] false in
  if response_to_head || no_body_status parsed then (mkState buffer None, Message message)
  else if chunked parsed then (mkState buffer (Some (Chunked message Size)), Progress)
  else match content_length parsed with
       | Some length =>
           if length =? 0 then (mkState buffer None, Message message)
           else (mkState buffer (Some (Fixed message length)), Progress)
       | None =>
           if is_response parsed then (mkState buffer (Some (UntilEof message)), Progress)
           else (mkState buffer None, Message message)
       end.

Definition step (st : DirectionState) (direction : Direction) (max_body : Z)
    (response_to_head : bool) : DirectionState * Step :=
  match pending st with
  | Some p => consume_pending (buffer st) p max_body
  | None =>
      match find_bytes (buffer st) crlf2 with
      | None =>
          if MAX_HEAD_BYTES <? blen (buffer st) then
            (mkState [] None, Desynchronized (lit "HTTP headers exceed 65536 bytes"))
          else (st, NeedMore)
      | Some head_end =>
          match parse (take head_end (buffer st)) with
          | Err reason => (mkState [] None, Desynchronized reason)
          | Ok parsed =>
              begin_body (drop (head_end + 4) (buffer st)) direction response_to_head parsed
          end
      end
  end.

Definition finish_direction (st : DirectionState) : DirectionState * option (DecodedMessage * bool) :=
  match pending st with
  | None => (st, None)
  | Some p =>
      let incomplete := match p with UntilEof _ => false | _ => true end in
      let message := into_message p in
      (mkState [] None,
       Some (with_body message (body message) (truncated message || incomplete), incomplete))
  end.

(** ** The streaming decoder *)

Record Http1Decoder := mkHttp1 {
  max_body : Z;
  client : DirectionState;
  server : DirectionState;
  request_methods : list bytes }.

Definition fresh (max_body : Z) : Http1Decoder :=
  mkHttp1 max_body (mkState [] None) (mkState [] None) [].

(** The constructor asserts a positive cap. *)
Definition new (max_body : Z) : option Http1Decoder := if 0 <? max_body then Some (fresh max_body) else None.

Definition state (d : Http1Decoder) (dir : Direction) : DirectionState :=
  match dir with ClientToServer => client d | ServerToClient => server d end.

Definition set_state (d : Http1Decoder) (dir : Direction) (st : DirectionState) : Http1Decoder :=
  match dir with
  | ClientToServer => mkHttp1 (max_body d) st (server d) (request_methods d)
  | ServerToClient => mkHttp1 (max_body d) (client d) st (request_methods d)
  end.

Definition set_methods (d : Http1Decoder) (methods : list bytes) : Http1Decoder :=
  mkHttp1 (max_body d) (client d) (server d) methods.

Definition track_exchange (d : Http1Decoder) (m : DecodedMessage) : Http1Decoder :=
  match direction m with
  | ClientToServer =>
      match split_whitespace (start_line m) with
      | method :: _ => set_methods d (request_methods d ++ [method])
      | [] => d
      end
  | ServerToClient =>
      match status_of (start_line m) with
      | Some status =>
          if (200 <=? status) || (status =? 101) then set_methods d (drop 1 (request_methods d)) else d
      | None => d
      end
  end.

Definition response_to_head (d : Http1Decoder) (dir : Direction) : bool :=
  match dir, request_methods d with
  | ServerToClient, method :: _ => eq_ignore_ascii_case method (lit "HEAD")
  | _, _ => false
  end.

(** One round of the loop of [process]. *)
Definition process_round (dir : Direction) (d : Http1Decoder) : Round Http1Decoder :=
  let '(st, outcome) := step (state d dir) dir (max_body d) (response_to_head d dir) in
  let d := set_state d dir st in
  match outcome with
  | NeedMore => Break d need_more
  | Progress => Continue d need_more
  | Message message => Continue (track_exchange d message) (one_message message)
  | Desynchronized reason => Break d (desync reason)
  end.

Definition process_measure (dir : Direction) (d : Http1Decoder) : nat :=
  2 * length (buffer (state d dir)) + match pending (state d dir) with Some _ => 1 | None => 0 end.

Definition extend (d : Http1Decoder) (dir : Direction) (s : bytes) : Http1Decoder :=
  set_state d dir (mkState (buffer (state d dir) ++ s) (pending (state d dir))).

Definition http1_push (d : Http1Decoder) (dir : Direction) (s : bytes) : Http1Decoder * DecodeBatch :=
  decode_loop (process_measure dir) (process_round dir) (extend d dir s).

Definition http1_finish (d : Http1Decoder) (dir : Direction) : Http1Decoder * DecodeBatch :=
  let '(st, flushed) := finish_direction (state d dir) in
  let d := set_state d dir st in
  match flushed with
  | None => (d, need_more)
  | Some (message, incomplete) =>
      (track_exchange d message,
       mkBatch [message]
         (if incomplete then Some (lit "HTTP message ended before its declared body") else None))
  end.

#[export] Instance Http1Decoder_streaming : StreamingDecoder Http1Decoder := {
  protocol _ := lit "http1";
  push := http1_push;
  finish := http1_finish }.

(** ** Body capture *)

Lemma decoded_ext (m n : DecodedMessage) :
  direction m = direction n -> start_line m = start_line n -> headers m = headers n ->
  body m = body n -> truncated m = truncated n -> m = n.
Proof. destruct m, n; simpl. by intros -> -> -> -> ->. Qed.

Lemma capture_nil m mb : 0 <= mb -> capture m [] mb = m.
Proof.
  intros. unfold capture. change (blen (@nil byte)) with 0.
  rewrite Z.min_r by apply sat_sub_nonneg.
  apply decoded_ext; try done; simpl; [by rewrite app_nil_r|by rewrite orb_false_r].
Qed.

(** Capturing two fragments is capturing their concatenation. *)
Lemma capture_app m a b mb : 0 <= mb -> capture (capture m a mb) b mb = capture m (a ++ b) mb.
Proof.
  intros Hmb. unfold capture, with_body, sat_sub. simpl. unfold blen.
  rewrite !length_app, length_take. set (n := length (body m)).
  f_equal.
  - rewrite <- app_assoc, take_app. f_equal. f_equal; [|f_equal; lia].
    destruct (Z.le_ge_cases (mb - Z.of_nat n) (Z.of_nat (length a))); [f_equal; lia|].
    by rewrite !take_ge by lia.
  - rewrite <- orb_assoc. f_equal.
    apply eq_true_iff_eq. rewrite orb_true_iff, !Z.ltb_lt. lia.
Qed.

Lemma capture_capped m s mb : blen (body m) <= mb -> blen (body (capture m s mb)) <= mb.
Proof.
  intros H. unfold capture, with_body; simpl. unfold sat_sub. len.
Qed.

(** A body cut in two: a part that falls short can be continued, a part that
    is long enough does not look further. *)
Lemma consume_more m r a t mb m1 b1 r1 :
  0 <= mb -> consume m r a mb = (m1, b1, r1) -> 0 < r1 ->
  b1 = [] /\ consume m r (a ++ t) mb = consume m1 r1 t mb.
Proof.
  intros Hmb [= <- <- <-] Hr. unfold consume, blen in *. rewrite length_app.
  assert (Hmin : Z.min r (Z.of_nat (length a)) = Z.of_nat (length a)) by lia.
  rewrite Hmin, Nat2Z.id, firstn_all, drop_all. split; [done|].
  rewrite capture_app by done.
  replace (Z.to_nat (Z.min r (Z.of_nat (length a + length t))))
    with (length a + Z.to_nat (Z.min (r - Z.of_nat (length a)) (Z.of_nat (length t))))%nat by lia.
  rewrite take_app_add, drop_app_add. f_equal. lia.
Qed.

Lemma consume_enough m r a t mb m1 b1 r1 :
  consume m r a mb = (m1, b1, r1) -> r1 <= 0 -> consume m r (a ++ t) mb = (m1, b1 ++ t, r1).
Proof.
  intros [= <- <- <-] Hr. unfold consume, blen in *. rewrite length_app.
  rewrite !Z.min_l by lia. rewrite take_app_le, drop_app_le by lia. done.
Qed.

(** ** The chunk loop *)

Section Chunks.
Context (mb : Z) (Hmb : 0 <= mb).

Lemma chunk_decreasing : decreasing chunk_measure (chunk_step mb) (fun _ => True).
Proof.
  intros [buf m ph] c' _. unfold chunk_measure. simpl. destruct ph as [|r| |]; simpl.
  - destruct (find_bytes buf crlf) as [i|] eqn:E; [|by case_match].
    apply find_bytes_bound in E. simpl in E.
    destruct (chunk_size _) as [size|]; [|done]. intros [= <-]. simpl.
    rewrite length_drop. split; [done|]. destruct (size =? 0); lia.
  - destruct (consume m r buf mb) as [[m1 b1] r1] eqn:E. case_match; [done|].
    intros [= <-]. simpl. injection E as <- <- <-. rewrite length_drop. split; [done|lia].
  - destruct (Z.ltb_spec (blen buf) 2); [done|]. case_match; [done|]. intros [= <-]. simpl.
    unfold blen in *. rewrite length_drop. split; [done|lia].
  - repeat case_match; done.
Qed.

Lemma chunk_loop_unfold c :
  chunk_loop mb c = match chunk_step mb c with inl c' => chunk_loop mb c' | inr r => r end.
Proof. unfold chunk_loop. by apply (iterate_unfold _ _ (fun _ => True) _ _ chunk_decreasing). Qed.

Definition cext (c : ChunkState) (t : bytes) : ChunkState :=
  mkChunk (cbuffer c ++ t) (cmessage c) (cphase c).
Definition sext (st : DirectionState) (t : bytes) : DirectionState :=
  mkState (buffer st ++ t) (pending st).

Lemma chunk_step_go c c' t : chunk_step mb c = inl c' -> chunk_step mb (cext c t) = inl (cext c' t).
Proof.
  destruct c as [buf m ph]; unfold cext. cbn [chunk_step cbuffer cmessage cphase]. destruct ph as [|r| |].
  - destruct (find_bytes buf crlf) as [i|] eqn:E; [|by case_match].
    rewrite (find_bytes_app _ _ t _ E). apply find_bytes_bound in E. simpl in E.
    rewrite take_app_le by lia. destruct (chunk_size _); [|done]. intros [= <-]. simpl.
    by rewrite drop_app_le by lia.
  - destruct (consume m r buf mb) as [[m1 b1] r1] eqn:E.
    destruct (Z.ltb_spec 0 r1); [done|]. intros [= <-].
    rewrite (consume_enough _ _ _ t _ _ _ _ E) by done. by destruct (Z.ltb_spec 0 r1); [lia|].
  - destruct (Z.ltb_spec (blen buf) 2); [done|].
    destruct (Z.ltb_spec (blen (buf ++ t)) 2); [len|].
    rewrite take_app_le, drop_app_le by len. case_match; [done|]. by intros [= <-].
  - repeat case_match; done.
Qed.

(** What more input [t] does to a loop that has returned. *)
Definition resumes (t : bytes) (c : ChunkState) (r : DirectionState * Step) : Prop :=
  match snd r with
  | Message m => chunk_loop mb (cext c t) = (sext (fst r) t, Message m)
  | NeedMore =>
      exists m ph, pending (fst r) = Some (Chunked m ph) /\
        chunk_loop mb (cext c t) = chunk_loop mb (mkChunk (buffer (fst r) ++ t) m ph)
  | _ => True
  end.

Lemma chunk_step_stop c r t : chunk_step mb c = inr r -> resumes t c r.
Proof.
  destruct c as [buf m ph]; unfold resumes, cext. cbn [chunk_step cbuffer cmessage cphase]. destruct ph as [|rem| |].
  - destruct (find_bytes buf crlf) as [i|] eqn:E; [destruct (chunk_size _); [done|]|case_match];
      intros [= <-]; simpl; eauto.
  - destruct (consume m rem buf mb) as [[m1 b1] r1] eqn:E.
    destruct (Z.ltb_spec 0 r1); [|done]. intros [= <-]; simpl.
    destruct (consume_more _ _ _ t _ _ _ _ Hmb E) as [-> Hc]; [lia|].
    exists m1, (ChunkData r1). split; [done|].
    rewrite (chunk_loop_unfold (mkChunk (buf ++ t) _ _)), (chunk_loop_unfold (mkChunk t _ _)).
    cbn [chunk_step]. by rewrite Hc.
  - destruct (Z.ltb_spec (blen buf) 2); [intros [= <-]; simpl; eauto|].
    case_match; [|done]. by intros [= <-].
  - destruct (starts_with crlf buf) eqn:Es.
    + intros [= <-]; cbn [fst snd buffer pending]. rewrite chunk_loop_unfold; cbn [chunk_step].
      apply starts_with_length in Es as Hl. rewrite (starts_with_app _ _ t Es).
      by rewrite drop_app_le by done.
    + destruct (find_bytes buf crlf2) as [i|] eqn:E; [|case_match; intros [= <-]; simpl; eauto].
      intros [= <-]; cbn [fst snd buffer pending]. rewrite chunk_loop_unfold; cbn [chunk_step].
      rewrite (find_bytes_app _ _ t _ E). apply find_bytes_bound in E. simpl in E.
      rewrite starts_with_short, Es by (simpl; lia). by rewrite drop_app_le by lia.
Qed.

Lemma chunk_loop_extend t c : resumes t c (chunk_loop mb c).
Proof.
  unfold chunk_loop at 1. pattern c, (iterate chunk_measure (chunk_step mb)
    (fun c => (mkState (cbuffer c) (Some (Chunked (cmessage c) (cphase c))), NeedMore)) c).
  apply (iterate_ind _ _ (fun _ => True) _ _ chunk_decreasing); try done; clear c.
  - intros c r _. apply chunk_step_stop.
  - intros c c' r _ E. unfold resumes. rewrite (chunk_loop_unfold (cext c t)).
    by rewrite (chunk_step_go _ _ t E).
Qed.
End Chunks.

(** ** Steps *)

Lemma consume_rest m r a mb m1 b1 r1 :
  consume m r a mb = (m1, b1, r1) -> 0 <= r1 /\ (length b1 <= length a)%nat.
Proof. intros [= <- <- <-]. rewrite length_drop. lia. Qed.

(** The rest of the buffer after the chunk loop, and how it can return. *)
Lemma chunk_loop_rest mb c :
  let r := chunk_loop mb c in
  (length (buffer (fst r)) <= length (cbuffer c))%nat /\
  match snd r with
  | Message _ => pending (fst r) = None
  | Progress => False
  | Desynchronized _ => fst r = mkState [] None
  | NeedMore => True
  end.
Proof.
  simpl. unfold chunk_loop. pattern c, (iterate chunk_measure (chunk_step mb)
    (fun c => (mkState (cbuffer c) (Some (Chunked (cmessage c) (cphase c))), NeedMore)) c).
  apply (iterate_ind _ _ (fun _ => True) _ _ (chunk_decreasing mb)); try done; clear c.
  - intros [buf m ph] [st out] _. destruct ph as [|r| |]; cbn [chunk_step cbuffer fst snd].
    + repeat case_match; intros ?; simplify_eq; simpl; split; done || lia.
    + destruct (consume m r buf mb) as [[m1 b1] r1] eqn:E. apply consume_rest in E.
      case_match; [|done]. intros [= <- <-]; simpl. split; [lia|done].
    + repeat case_match; intros ?; simplify_eq; simpl; split; done || lia.
    + repeat case_match; intros ?; simplify_eq; cbn [buffer fst snd pending]; rewrite ?length_drop;
        split; done || (simpl; lia).
  - intros [buf m ph] c' [st out] _ E [IH1 IH2]. split; [|exact IH2]. etrans; [exact IH1|]. clear IH1 IH2.
    destruct ph as [|r| |]; cbn [chunk_step cbuffer] in *.
    + repeat case_match; simplify_eq; cbn [cbuffer]; rewrite length_drop; lia.
    + destruct (consume m r buf mb) as [[m1 b1] r1] eqn:E1. apply consume_rest in E1.
      case_match; [done|]. injection E as <-. simpl. lia.
    + repeat case_match; simplify_eq; cbn [cbuffer]; rewrite length_drop; lia.
    + repeat case_match; done.
Qed.

Definition step_size (st : DirectionState) : nat :=
  2 * length (buffer st) + match pending st with Some _ => 1 | None => 0 end.

(** A step that does not wait makes progress. *)
Lemma step_decreasing st dir mb rth st' out :
  step st dir mb rth = (st', out) ->
  match out with Progress | Message _ => (step_size st' < step_size st)%nat | _ => True end.
Proof.
  unfold step, step_size. destruct st as [buf [p|]]; cbn [buffer pending].
  - destruct p as [m r|m ph|m]; cbn [consume_pending].
    + destruct (consume m r buf mb) as [[m1 b1] r1] eqn:E. apply consume_rest in E.
      case_match; intros [= <- <-]; cbn [buffer pending]; [lia|done].
    + pose proof (chunk_loop_rest mb (mkChunk buf m ph)) as [H1 H2].
      destruct (chunk_loop mb _) as [st1 o1]. intros [= <- <-]. simpl in *.
      destruct o1; try done. rewrite H2. lia.
    + by intros [= <- <-].
  - destruct (find_bytes buf crlf2) as [i|] eqn:E; [|by case_match; intros [= <- <-]].
    apply find_bytes_bound in E. simpl in E.
    destruct (parse _) as [h|]; [|by intros [= <- <-]]. unfold begin_body.
    repeat case_match; intros ?; simplify_eq; cbn [buffer pending]; rewrite ?length_drop; lia.
Qed.

(** More input behind a step. *)
Lemma step_extend st dir mb rth t st' out :
  0 <= mb -> step st dir mb rth = (st', out) ->
  match out with
  | Progress | Message _ => step (sext st t) dir mb rth = (sext st' t, out)
  | NeedMore => step (sext st t) dir mb rth = step (sext st' t) dir mb rth
  | Desynchronized _ => True
  end.
Proof.
  intros Hmb. unfold step, sext. destruct st as [buf [p|]]; cbn [buffer pending].
  - destruct p as [m r|m ph|m]; cbn [consume_pending].
    + destruct (consume m r buf mb) as [[m1 b1] r1] eqn:E.
      pose proof (consume_rest _ _ _ _ _ _ _ E) as [Hr _].
      destruct (Z.eqb_spec r1 0) as [->|Hne]; intros [= <- <-]; cbn [buffer pending].
      * by rewrite (consume_enough _ _ _ t _ _ _ _ E).
      * destruct (consume_more _ _ _ t _ _ _ _ Hmb E) as [-> ->]; [lia|done].
    + pose proof (chunk_loop_rest mb (mkChunk buf m ph)) as [_ H].
      pose proof (chunk_loop_extend mb Hmb t (mkChunk buf m ph)) as Hext.
      destruct (chunk_loop mb _) as [st1 o1]. intros [= <- <-].
      unfold resumes, sext, cext in Hext; simpl in *. destruct o1; try done.
      destruct Hext as (m' & ph' & Hp & ->). by rewrite Hp.
    + intros [= <- <-]; simpl. by rewrite capture_app.
  - destruct (find_bytes buf crlf2) as [i|] eqn:E.
    + rewrite (find_bytes_app _ _ t _ E). apply find_bytes_bound in E. simpl in E.
      rewrite take_app_le, drop_app_le by lia.
      destruct (parse _) as [h|]; [|by intros [= <- <-]]. unfold begin_body.
      repeat case_match; intros ?; by simplify_eq.
    + case_match; intros ?; by simplify_eq.
Qed.

(** ** Messages stay in their direction and within the cap *)

Section Capped.
Context (dir : Direction) (mb : Z) (Hmb : 0 <= mb).

Definition msg_ok (m : DecodedMessage) : Prop := direction m = dir /\ blen (body m) <= mb.

Definition state_ok (st : DirectionState) : Prop :=
  match pending st with Some p => msg_ok (into_message p) | None => True end.

Definition outcome_ok (r : DirectionState * Step) : Prop :=
  state_ok (fst r) /\ match snd r with Message m => msg_ok m | _ => True end.

Lemma http1_capture_ok m s : msg_ok m -> msg_ok (capture m s mb).
Proof. intros [??]. split; [done|by apply capture_capped]. Qed.

Lemma consume_ok m r s m1 b1 r1 : msg_ok m -> consume m r s mb = (m1, b1, r1) -> msg_ok m1.
Proof. intros Hm [= <- <- <-]. by apply http1_capture_ok. Qed.

Lemma chunk_loop_ok c : msg_ok (cmessage c) -> outcome_ok (chunk_loop mb c).
Proof.
  unfold chunk_loop. apply (iterate_ind _ _ (fun c => msg_ok (cmessage c)) _
    (fun _ r => outcome_ok r)).
  - intros [buf m ph] c' Hm E. split; [|by eapply chunk_decreasing].
    destruct ph as [|r| |]; cbn [chunk_step cmessage] in *.
    2: destruct (consume m r buf mb) as [[m1 b1] r1] eqn:E1;
       pose proof (consume_ok _ _ _ _ _ _ Hm E1).
    all: repeat case_match; by simplify_eq.
  - intros [buf m ph] [st out] Hm E.
    destruct ph as [|r| |]; cbn [chunk_step cmessage] in *.
    2: destruct (consume m r buf mb) as [[m1 b1] r1] eqn:E1;
       pose proof (consume_ok _ _ _ _ _ _ Hm E1).
    all: repeat case_match; by simplify_eq.
  - done.
Qed.

Lemma step_ok st rth : state_ok st -> outcome_ok (step st dir mb rth).
Proof.
  unfold step. destruct st as [buf [p|]]; unfold state_ok at 1; cbn [buffer pending].
  - destruct p as [m r|m ph|m]; cbn [consume_pending into_message]; intros Hm.
    + destruct (consume m r buf mb) as [[m1 b1] r1] eqn:E1.
      pose proof (consume_ok _ _ _ _ _ _ Hm E1). by case_match.
    + by apply chunk_loop_ok.
    + split; [by apply http1_capture_ok|done].
  - intros _. repeat case_match; try done. unfold begin_body.
    repeat case_match; done.
Qed.
End Capped.

(** ** The process loop *)

Lemma state_set_eq d dir st : state (set_state d dir st) dir = st.
Proof. by destruct dir. Qed.

Lemma set_set_state d dir st st' : set_state (set_state d dir st) dir st' = set_state d dir st'.
Proof. by destruct dir. Qed.

Lemma track_exchange_state d m dir : state (track_exchange d m) dir = state d dir.
Proof. unfold track_exchange. repeat case_match; by destruct dir. Qed.

Lemma track_exchange_max d m : max_body (track_exchange d m) = max_body d.
Proof. unfold track_exchange. by repeat case_match. Qed.

Lemma set_state_max d dir st : max_body (set_state d dir st) = max_body d.
Proof. by destruct dir. Qed.

Lemma extend_set d dir st t : extend (set_state d dir st) dir t = set_state d dir (sext st t).
Proof. unfold extend, sext. by rewrite state_set_eq, set_set_state. Qed.

Lemma extend_track d m dir t : extend (track_exchange d m) dir t = track_exchange (extend d dir t) m.
Proof. unfold extend, track_exchange. repeat case_match; by destruct dir. Qed.

Lemma http1_extend_app d dir a c : extend d dir (a ++ c) = extend (extend d dir a) dir c.
Proof. unfold extend. rewrite state_set_eq, set_set_state. simpl. by rewrite app_assoc. Qed.

Section Process.
Context (dir : Direction).

(** The decoder invariant: the bodies being collected are within the cap. *)
Definition sane (d : Http1Decoder) : Prop :=
  0 <= max_body d /\
  forall dir, state_ok dir (max_body d) (state d dir).

Lemma sane_set d st : sane d -> state_ok dir (max_body d) st -> sane (set_state d dir st).
Proof.
  intros [H1 H2] Hst. unfold sane. rewrite set_state_max. split; [done|]. intros dir'.
  destruct (decide (dir' = dir)) as [->|Hne]; [by rewrite state_set_eq|].
  specialize (H2 dir'). by destruct dir, dir'.
Qed.

Lemma sane_track d m : sane d -> sane (track_exchange d m).
Proof.
  intros [H1 H2]. unfold sane. rewrite track_exchange_max. split; [done|].
  intros dir'. by rewrite track_exchange_state.
Qed.

Lemma sane_extend d t : sane d -> sane (extend d dir t).
Proof. intros Hd. unfold extend. apply sane_set; [done|]. apply Hd. Qed.

Lemma sane_step d st out :
  sane d -> step (state d dir) dir (max_body d) (response_to_head d dir) = (st, out) ->
  sane (set_state d dir st) /\ match out with Message m => msg_ok dir (max_body d) m | _ => True end.
Proof.
  intros Hd E. pose proof (step_ok dir (max_body d) (proj1 Hd) (state d dir) (response_to_head d dir)) as H.
  destruct H as [H1 H2]; [apply Hd|]. rewrite E in *. split; [by apply sane_set|done].
Qed.

Lemma process_decreasing d d' b :
  sane d -> process_round dir d = Continue d' b ->
  sane d' /\ (process_measure dir d' < process_measure dir d)%nat.
Proof.
  unfold process_round. intros Hd.
  destruct (step _ dir _ _) as [st out] eqn:E. pose proof (sane_step _ _ _ Hd E) as [Hs _].
  apply step_decreasing in E.
  destruct out as [| |m|r]; try done; intros [= <- <-]; (split; [by try apply sane_track|]);
    unfold process_measure; rewrite ?track_exchange_state, state_set_eq; exact E.
Qed.

(** The round on the extended buffer is the step on the extended state. *)
Definition conclude (d : Http1Decoder) (r : DirectionState * Step) : Round Http1Decoder :=
  let '(st, outcome) := r in
  let d := set_state d dir st in
  match outcome with
  | NeedMore => Break d need_more
  | Progress => Continue d need_more
  | Message message => Continue (track_exchange d message) (one_message message)
  | Desynchronized reason => Break d (desync reason)
  end.

Lemma round_set d st :
  process_round dir (set_state d dir st)
  = conclude d (step st dir (max_body d) (response_to_head d dir)).
Proof.
  unfold process_round. rewrite state_set_eq, set_state_max.
  assert (response_to_head (set_state d dir st) dir = response_to_head d dir) as ->
    by (by destruct dir).
  destruct (step _ _ _ _). unfold conclude. by rewrite set_set_state.
Qed.

Lemma process_go t d d' b :
  sane d -> process_round dir d = Continue d' b ->
  process_round dir (extend d dir t) = Continue (extend d' dir t) b.
Proof.
  unfold extend at 1. rewrite round_set. fold (sext (state d dir) t). unfold process_round.
  intros Hd. destruct (step _ dir _ _) as [st out] eqn:E.
  apply (step_extend _ _ _ _ t) in E; [|apply Hd].
  destruct out as [| |m|r]; try done; intros [= <- <-]; rewrite E; simpl.
  - by rewrite extend_set.
  - by rewrite extend_track, extend_set.
Qed.

Lemma process_stop t d d' b :
  sane d -> process_round dir d = Break d' b -> desynchronized b = None ->
  process_round dir (extend d dir t) = process_round dir (extend d' dir t) /\ b = need_more.
Proof.
  unfold extend at 1. rewrite round_set. fold (sext (state d dir) t). unfold process_round at 1.
  intros Hd. destruct (step _ dir _ _) as [st out] eqn:E.
  apply (step_extend _ _ _ _ t) in E; [|apply Hd].
  destruct out as [| |m|r]; try done; intros [= <- <-]; [|done]. intros _. split; [|done].
  by rewrite extend_set, round_set, E.
Qed.

Lemma process_extend t d d' b :
  sane d -> decode_loop (process_measure dir) (process_round dir) d = (d', b) ->
  desynchronized b = None ->
  decode_loop (process_measure dir) (process_round dir) (extend d dir t)
  = after b (decode_loop (process_measure dir) (process_round dir) (extend d' dir t)).
Proof.
  apply (decode_loop_extend _ _ sane process_decreasing (fun d => extend d dir t)).
  - intros x. apply sane_extend.
  - intros x x' b' Hx E _. by apply process_go.
  - intros x x' b' Hx E Hn. destruct (process_stop t _ _ _ Hx E Hn) as [H ->].
    assert (sane x') as Hx'.
    { unfold process_round in E. destruct (step _ _ _ _) as [st out] eqn:Es.
      apply sane_step in Es as [? _]; [|done]. by destruct out; simplify_eq. }
    rewrite after_need_more.
    rewrite (decode_loop_unfold _ _ sane process_decreasing) by (by apply sane_extend).
    rewrite H. symmetry.
    by apply (decode_loop_unfold _ _ sane process_decreasing), sane_extend.
Qed.

Definition sane_at (mb : Z) (d : Http1Decoder) : Prop := sane d /\ max_body d = mb.

(** A round keeps the invariant and the cap; what it emits is within the cap. *)
Lemma process_round_ok mb d :
  sane_at mb d ->
  match process_round dir d with
  | Continue d' b | Break d' b => sane_at mb d' /\ Forall (msg_ok dir mb) (messages b)
  end.
Proof.
  intros [Hd <-]. unfold process_round, sane_at. destruct (step _ dir _ _) as [st out] eqn:E.
  apply sane_step in E as [Hs Hm]; [|done].
  destruct out; simpl; rewrite ?track_exchange_max, set_state_max; split_and?; try done.
  - by apply sane_track.
  - by constructor.
Qed.

Lemma http1_push_ok d s :
  sane d -> sane (fst (http1_push d dir s)) /\
  Forall (msg_ok dir (max_body d)) (messages (snd (http1_push d dir s))).
Proof.
  intros Hd. unfold http1_push.
  assert (Hx : sane_at (max_body d) (extend d dir s)).
  { split; [by apply sane_extend|]. unfold extend. apply set_state_max. }
  destruct (decode_loop_forall (process_measure dir) (process_round dir) (sane_at (max_body d)))
    with (Q := msg_ok dir (max_body d)) (x := extend d dir s) as [[H1 _] H2]; try done.
  - intros x x' b Hs E. pose proof (process_round_ok _ _ Hs) as H. rewrite E in H.
    split; [apply H|]. apply (process_decreasing _ _ _ (proj1 Hs) E).
  - intros x x' b Hs E. pose proof (process_round_ok _ _ Hs) as H. rewrite E in H. apply H.
  - intros x x' b Hs E. pose proof (process_round_ok _ _ Hs) as H. rewrite E in H. apply H.
Qed.

Lemma http1_finish_ok d :
  sane d -> sane (fst (http1_finish d dir)) /\
  Forall (msg_ok dir (max_body d)) (messages (snd (http1_finish d dir))).
Proof.
  intros Hd. unfold http1_finish, finish_direction. pose proof (proj2 Hd dir) as Hst.
  unfold state_ok in Hst. destruct (pending (state d dir)) as [p|] eqn:Ep; simpl.
  - split; [apply sane_track, sane_set; [done|exact Logic.I]|].
    constructor; [|done]. destruct p; exact Hst.
  - split; [|done]. apply sane_set; [done|]. unfold state_ok. by rewrite Ep.
Qed.
End Process.

#[export] Program Instance Http1Decoder_laws : DecoderLaws Http1Decoder := {
  inv := sane;
  fits _ _ _ := True }.
Next Obligation. intros d dir s Hd. by apply http1_push_ok. Qed.
Next Obligation. intros d dir Hd. by apply http1_finish_ok. Qed.
Next Obligation. done. Qed.
Next Obligation.
  intros d dir a c d' b Hd _. cbn [push Http1Decoder_streaming]. unfold http1_push. intros E Hn.
  rewrite http1_extend_app. eapply process_extend; [|exact E|exact Hn].
  by apply sane_extend.
Qed.

(** ** Framing is exact *)

(** A trailer section: a bare CRLF, or header lines up to the first empty line. *)
Definition trailer_ok (t : bytes) : Prop :=
  t = crlf \/
  (starts_with crlf t = false /\ find_bytes t crlf2 = Some (length t - 4)%nat).

(** [chunked_wire content w]: [w] is a chunked coding of [content] (chunk
    extensions allowed: any line whose size field is right). *)
Inductive chunked_wire : bytes -> bytes -> Prop :=
| chunk_last line t :
    line_ok line = true -> chunk_size line = Ok 0 -> trailer_ok t ->
    chunked_wire [] (line ++ crlf ++ t)
| chunk_more line data content w :
    line_ok line = true -> chunk_size line = Ok (blen data) -> data <> [] ->
    chunked_wire content w ->
    chunked_wire (data ++ content) (line ++ crlf ++ data ++ crlf ++ w).

(** [body_wire rth parsed content w]: after the head [parsed], the bytes [w]
    are a body with the given content, by the rules of the protocol. *)
Inductive body_wire (rth : bool) (parsed : ParsedHead) : bytes -> bytes -> Prop :=
| body_none : rth || no_body_status parsed = true -> body_wire rth parsed [] []
| body_chunked content w :
    rth || no_body_status parsed = false -> chunked parsed = true ->
    chunked_wire content w -> body_wire rth parsed content w
| body_fixed content :
    rth || no_body_status parsed = false -> chunked parsed = false ->
    content_length parsed = Some (blen content) -> body_wire rth parsed content content
| body_request :
    rth || no_body_status parsed = false -> chunked parsed = false ->
    content_length parsed = None -> is_response parsed = false -> body_wire rth parsed [] [].

Lemma consume_exact m data rest mb :
  consume m (blen data) (data ++ rest) mb = (capture m data mb, rest, 0).
Proof.
  unfold consume. rewrite Z.min_l by len. unfold blen. rewrite Nat2Z.id.
  by rewrite take_app_length, drop_app_length, Z.sub_diag.
Qed.

Lemma trailer_step mb m t rest :
  trailer_ok t ->
  chunk_step mb (mkChunk (t ++ rest) m Trailers) = inr (mkState rest None, Message m).
Proof.
  intros [->|[Hs Hf]]; [done|]. cbn [chunk_step].
  rewrite (find_bytes_app _ _ rest _ Hf). apply find_bytes_bound in Hf. simpl in Hf.
  rewrite starts_with_short, Hs by (simpl; lia).
  by rewrite drop_app_length' by lia.
Qed.

Lemma chunk_loop_exact mb content w m rest :
  0 <= mb -> chunked_wire content w ->
  chunk_loop mb (mkChunk (w ++ rest) m Size) = (mkState rest None, Message (capture m content mb)).
Proof.
  intros Hmb Hw. revert m. induction Hw as [line t Hl Hs Ht|line data content w Hl Hs Hd Hw IH];
    intros m; rewrite chunk_loop_unfold; cbn [chunk_step]; rewrite <- !app_assoc, find_crlf_line by done;
    rewrite take_app_length, Hs, drop_app_add, (drop_app_length' crlf) by done.
  - rewrite Z.eqb_refl. by rewrite capture_nil, chunk_loop_unfold, trailer_step.
  - destruct (Z.eqb_spec (blen data) 0); [destruct data; [done|len]|].
    rewrite chunk_loop_unfold; cbn [chunk_step]. rewrite consume_exact, Z.ltb_irrefl.
    rewrite chunk_loop_unfold; cbn [chunk_step].
    destruct (Z.ltb_spec (blen (crlf ++ w ++ rest)) 2); [unfold crlf in *; len|].
    change (take 2 (crlf ++ w ++ rest)) with crlf. rewrite bytes_eqb_refl. cbn [negb].
    change (drop 2 (crlf ++ w ++ rest)) with (w ++ rest). rewrite IH. by rewrite capture_app.
Qed.

Lemma capture_fresh dir line hs content mb :
  0 <= mb ->
  capture (mkDecoded dir line hs [] false) content mb
  = mkDecoded dir line hs (take (Z.to_nat mb) content) (mb <? blen content).
Proof.
  intros Hmb. unfold capture, with_body, sat_sub. simpl. change (blen []) with 0.
  rewrite Z.max_r, Z.sub_0_r by lia. f_equal.
  - destruct (Z.le_ge_cases mb (blen content)); [by rewrite Z.min_l|].
    rewrite Z.min_r by done. by rewrite !take_ge by len.
  - apply eq_true_iff_eq. rewrite !Z.ltb_lt. lia.
Qed.

(** The message a head and a body content stand for. *)
Definition framed (d : Http1Decoder) (dir : Direction) (parsed : ParsedHead) (content : bytes) :
    DecodedMessage :=
  mkDecoded dir (head_line parsed) (head_headers parsed)
    (take (Z.to_nat (max_body d)) content) (max_body d <? blen content).

(** The rounds that take a body off the buffer. *)
Lemma body_rounds d dir parsed content w rest :
  sane d -> body_wire (response_to_head d dir) parsed content w ->
  match conclude dir d (begin_body (w ++ rest) dir (response_to_head d dir) parsed) with
  | Continue d' b => after b (decode_loop (process_measure dir) (process_round dir) d')
  | Break d' b => (d', b)
  end
  = after (one_message (framed d dir parsed content))
      (decode_loop (process_measure dir) (process_round dir)
         (track_exchange (set_state d dir (mkState rest None)) (framed d dir parsed content))).
Proof.
  intros Hd Hw. pose proof (proj1 Hd) as Hmb.
  set (m := mkDecoded dir (head_line parsed) (head_headers parsed) [] false).
  assert (Hnil : framed d dir parsed [] = m).
  { unfold framed. rewrite <- capture_fresh by done. by apply capture_nil. }
  assert (Hm : msg_ok dir (max_body d) m) by done.
  assert (Hround : forall p,
    into_message p = m ->
    consume_pending (w ++ rest) p (max_body d) = (mkState rest None, Message (framed d dir parsed content)) ->
    after need_more (decode_loop (process_measure dir) (process_round dir)
                       (set_state d dir (mkState (w ++ rest) (Some p))))
    = after (one_message (framed d dir parsed content))
        (decode_loop (process_measure dir) (process_round dir)
           (track_exchange (set_state d dir (mkState rest None)) (framed d dir parsed content)))).
  { intros p Hp Hc. rewrite after_need_more, (decode_loop_unfold _ _ sane (process_decreasing dir)).
    - rewrite round_set. unfold step. cbn [buffer pending]. by rewrite Hc.
    - apply sane_set; [done|]. unfold state_ok; simpl. by rewrite Hp. }
  unfold begin_body. fold m.
  destruct Hw as [H0|content w H0 H1 Hw|content H0 H1 H2|H0 H1 H2 H3]; rewrite H0; cbn [conclude].
  - by rewrite Hnil.
  - rewrite H1. cbn [conclude]. apply Hround; [done|]. cbn [consume_pending].
    rewrite (chunk_loop_exact _ content) by done. unfold m. by rewrite capture_fresh.
  - rewrite H1, H2. destruct (Z.eqb_spec (blen content) 0) as [Hz|Hz]; cbn [conclude].
    + destruct content; [by rewrite Hnil|len].
    + apply Hround; [done|]. cbn [consume_pending]. rewrite consume_exact. simpl.
      unfold m. by rewrite capture_fresh.
  - rewrite H1, H2, H3. by rewrite Hnil.
Qed.

(** C14. HTTP/1 framing is exact.  With nothing pending, pushing a head, a body
    coded as the head announces (none, content-length, chunked with
    extensions and trailers, none for HEAD and for 1xx/204/304 responses) and
    whatever follows, emits exactly one message: the parsed start line and
    headers, the content up to the cap, marked truncated iff it was longer;
    and the decoder goes on with exactly the bytes that follow, so capping a
    body does not lose the framing of the messages after it. *)
Theorem http1_message_exact (d : Http1Decoder) (dir : Direction) (head : bytes)
    (parsed : ParsedHead) (content w rest : bytes) :
  inv d -> state d dir = mkState [] None ->
  find_bytes (head ++ crlf2) crlf2 = Some (length head) ->
  parse head = Ok parsed ->
  body_wire (response_to_head d dir) parsed content w ->
  push d dir (head ++ crlf2 ++ w ++ rest)
  = after (one_message (framed d dir parsed content))
      (push (track_exchange d (framed d dir parsed content)) dir rest).
Proof.
  intros Hd Hst Hf Hp Hw. cbn [push Http1Decoder_streaming]. unfold http1_push, extend.
  rewrite track_exchange_state, Hst. cbn [buffer pending app].
  rewrite (decode_loop_unfold _ _ sane (process_decreasing dir)) by (by apply sane_set).
  rewrite round_set. unfold step at 1. cbn [buffer pending].
  apply (find_bytes_app _ _ (w ++ rest)) in Hf. rewrite <- app_assoc in Hf. rewrite Hf.
  rewrite take_app_length, Hp, drop_app_add, (drop_app_length' crlf2) by done.
  rewrite (body_rounds _ _ _ content) by done. do 2 f_equal.
  unfold track_exchange. repeat case_match; by destruct dir.
Qed.

Lemma sane_new mb : 0 <= mb -> sane (fresh mb).
Proof. intros Hmb. split; [done|]. by intros []. Qed.

(** A request with a capped body, followed by the beginning of another. *)
Definition sample_head : bytes := lit "POST / HTTP/1.1" ++ crlf ++ lit "Content-Length: 6".
Definition sample_parsed : ParsedHead :=
  match parse sample_head with Ok p => p | Err _ => mkHead [] [] false false None false end.

Lemma http1_message_exact_witness :
  push (fresh 4) ClientToServer (sample_head ++ crlf2 ++ lit "abcdef" ++ lit "GET")
  = after (one_message (mkDecoded ClientToServer (lit "POST / HTTP/1.1")
                          [(lit "Content-Length", lit "6")] (lit "abcd") true))
      (push (set_methods (fresh 4) [lit "POST"]) ClientToServer (lit "GET")).
Proof.
  refine (http1_message_exact (fresh 4) ClientToServer sample_head sample_parsed
    (lit "abcdef") (lit "abcdef") (lit "GET") _ _ _ _ _).
  - apply sane_new. lia.
  - reflexivity.
  - vm_compute. reflexivity.
  - vm_compute. reflexivity.
  - apply body_fixed; vm_compute; reflexivity.
Defined.

(** HTTP/1 decoding does not depend on fragmentation: when a stream, cut
    into fragments in one way, is decoded without desynchronization, the
    uncut stream yields the same messages in the same order and leaves the
    decoder in the same state. *)
Theorem http1_fragmentation (d d' : Http1Decoder) (dir : Direction) (c : bytes) (cs : list bytes)
    (b : DecodeBatch) :
  inv d -> push_all d dir (c :: cs) = (d', b) -> desynchronized b = None ->
  http1_push d dir (concat (c :: cs)) = (d', b).
Proof. intros Hd E Hn. exact (push_all_concat d dir c cs d' b Hd Logic.I E Hn). Qed.

Lemma http1_fragmentation_witness :
  exists d', http1_push (fresh 64) ClientToServer (concat [lit "GET / HT"; lit "TP/1.1" ++ crlf; crlf])
  = (d', one_message (mkDecoded ClientToServer (lit "GET / HTTP/1.1") [] [] false)).
Proof.
  eexists. eapply (http1_fragmentation (fresh 64)); [apply sane_new; lia|vm_compute; reflexivity|reflexivity].
Defined.

(** HTTP/1 observation is bounded: whatever bytes arrive and whenever the
    stream ends, every message emitted belongs to its direction and holds at
    most the body cap, and the bodies still being collected stay within it. *)
Theorem http1_bounded (d : Http1Decoder) (dir : Direction) (s : bytes) :
  sane d ->
  (sane (fst (http1_push d dir s)) /\
   Forall (fun m => direction m = dir /\ blen (body m) <= max_body d) (messages (snd (http1_push d dir s)))) /\
  (sane (fst (http1_finish d dir)) /\
   Forall (fun m => direction m = dir /\ blen (body m) <= max_body d) (messages (snd (http1_finish d dir)))).
Proof. intros Hd. split; [by apply http1_push_ok|by apply http1_finish_ok]. Qed.

Lemma http1_bounded_witness : sane (fst (http1_push (fresh 64) ClientToServer (lit "GET"))).
Proof. apply (http1_bounded (fresh 64) ClientToServer (lit "GET")). apply sane_new. lia. Defined.

End Http1.
