(* ===== verification/Postgres.v ===== *)
(** * Postgres: the PostgreSQL decoder of [crates/lens-proto-postgres].

    The startup, encryption-negotiation, typed and opaque phases, the decoding
    of frontend and backend messages, and the streaming decoder. *)

From stdpp Require Import relations.
From S2P Require Import Prelude RustStd Core Protocol.

Module Postgres.

Definition MAX_FRAME_BYTES : Z := 16 * 1024 * 1024.
Definition SSL_REQUEST_CODE : Z := 80877103.
Definition CANCEL_REQUEST_CODE : Z := 80877102.
Definition GSSENC_REQUEST_CODE : Z := 80877104.

Inductive Phase := Startup | AwaitingEncryptionResponse | Typed | Opaque.
#[export] Instance Phase_eq_dec : EqDecision Phase.
Proof. solve_decision. Defined.

Inductive Step :=
| NeedMore
| Message (m : DecodedMessage)
| MessageAndPhase (m : DecodedMessage) (phase : Phase)
| Desynchronized (reason : bytes).

(** ** Messages *)

Definition message (dir : Direction) (start_line : bytes) : DecodedMessage :=
  mkDecoded dir start_line [(lit "lens-protocol", lit "postgres")] [] false.

Definition add_header (m : DecodedMessage) (name value : bytes) : DecodedMessage :=
  mkDecoded (direction m) (start_line m) (headers m ++ [(name, value)]) (body m) (truncated m).

Definition with_kind (m : DecodedMessage) (kind : bytes) : DecodedMessage :=
  add_header m (lit "lens-kind") kind.

Definition with_boundary (m : DecodedMessage) (boundary : bytes) : DecodedMessage :=
  add_header m (lit "lens-boundary") boundary.

Definition capture (m : DecodedMessage) (s : bytes) (max_body : Z) : DecodedMessage :=
  let captured := Z.min (blen s) max_body in
  mkDecoded (direction m) (start_line m) (headers m) (body m ++ take (Z.to_nat captured) s)
    (captured <? blen s).

(** ** Strings on the wire *)

Definition take_cstring (payload : bytes) : result (bytes * bytes) :=
  match position (Byte.eqb x00) payload with
  | Some end_ => Ok (take end_ payload, drop (end_ + 1) payload)
  | None => Err (lit "unterminated PostgreSQL string")
  end.

Definition first_cstring (payload : bytes) : result bytes :=
  let? '(value, _) := take_cstring payload in Ok value.

(** The loop of [cstrings]; every round takes at least a terminator off. *)
Fixpoint cstrings_go (fuel : nat) (payload : bytes) (values : list bytes) : result (list bytes) :=
  match fuel with
  | O => Ok values
  | S f =>
      if payload =s [] then Ok values
      else if payload =s [x00] then Ok values
      else let? '(value, rest) := take_cstring payload in cstrings_go f rest (values ++ [value])
  end.
Definition cstrings (payload : bytes) : result (list bytes) :=
  cstrings_go (S (length payload)) payload [].

Fixpoint error_fields_go (fuel : nat) (payload : bytes) (fields : list (byte * bytes)) :
    result (list (byte * bytes)) :=
  match fuel with
  | O => Err (lit "unterminated PostgreSQL error fields")
  | S f =>
      match payload with
      | [] => Err (lit "unterminated PostgreSQL error fields")
      | code :: rest =>
          if code =b x00 then Ok fields
          else let? '(value, remaining) := take_cstring rest in
               error_fields_go f remaining (fields ++ [(code, value)])
      end
  end.
Definition error_fields (payload : bytes) : result (list (byte * bytes)) :=
  error_fields_go (S (length payload)) payload [].

Definition display_name (value : bytes) : bytes :=
  if value =s [] then lit "<unnamed>" else from_utf8_lossy value.

Definition is_startup_secret (name : bytes) : bool :=
  existsb (fun secret => to_ascii_lowercase name =s secret)
    [lit "password"; lit "passfile"; lit "sslpassword"; lit "token"; lit "secret"; lit "options"].

Definition authentication_name (code : Z) : bytes :=
  if code =? 0 then lit "Ok"
  else if code =? 2 then lit "KerberosV5"
  else if code =? 3 then lit "CleartextPassword"
  else if code =? 5 then lit "MD5Password"
  else if code =? 6 then lit "SCMCredential"
  else if code =? 7 then lit "GSS"
  else if code =? 8 then lit "GSSContinue"
  else if code =? 9 then lit "SSPI"
  else if code =? 10 then lit "SASL"
  else if code =? 11 then lit "SASLContinue"
  else if code =? 12 then lit "SASLFinal"
  else lit "Unknown".

(** [fields.chunks_exact(2)], turned into headers. *)
Fixpoint startup_headers (fields : list bytes) (m : DecodedMessage) : DecodedMessage :=
  match fields with
  | k :: v :: rest =>
      let name := from_utf8_lossy k in
      let value := if is_startup_secret name then lit "[REDACTED]" else from_utf8_lossy v in
      startup_headers rest (add_header m name value)
  | _ => m
  end.

Definition startup_message (version : Z) (payload : bytes) : result DecodedMessage :=
  let major := Z.shiftr version 16 in
  let minor := Z.land version 65535 in
  if negb (major =? 3) then
    Err (lit "unsupported PostgreSQL protocol version " ++ dec major ++ lit "." ++ dec minor)
  else
    let? fields := cstrings payload in
    if negb (blen fields mod 2 =? 0) then
      Err (lit "PostgreSQL startup parameters are not key/value pairs")
    else
      Ok (startup_headers fields
            (with_kind (message ClientToServer
               (lit "StartupMessage protocol=" ++ dec major ++ lit "." ++ dec minor))
               (lit "startup"))).

(** ** Frontend messages *)

Definition c2s (start_line kind : bytes) : DecodedMessage :=
  with_kind (message ClientToServer start_line) kind.

Definition decode_query (payload : bytes) (max_body : Z) : result DecodedMessage :=
  let? sql := first_cstring payload in
  let m := with_boundary (c2s (lit "Query") (lit "query")) (lit "request") in
  Ok (add_header (capture m sql max_body) (lit "lens-content") (lit "sql")).

Definition decode_parse (payload : bytes) (max_body : Z) : result DecodedMessage :=
  let? '(name, rest) := take_cstring payload in
  let? '(sql, _) := take_cstring rest in
  let m := c2s (lit "Parse statement=" ++ display_name name) (lit "parse") in
  Ok (add_header (capture m sql max_body) (lit "lens-content") (lit "sql")).

Definition decode_bind (payload : bytes) : result DecodedMessage :=
  let? '(portal, rest) := take_cstring payload in
  let? '(statement, rest) := take_cstring rest in
  if blen rest <? 2 then Err (lit "truncated PostgreSQL Bind message")
  else
    let format_count := be_uint (take 2 rest) in
    let? formats_bytes :=
      ok_or (match checked_mul format_count 2 with Some v => checked_add v 2 | None => None end)
        (lit "invalid PostgreSQL Bind format count") in
    if blen rest <? formats_bytes + 2 then Err (lit "truncated PostgreSQL Bind formats")
    else
      let parameter_count := be_uint (take 2 (drop (Z.to_nat formats_bytes) rest)) in
      Ok (c2s (lit "Bind portal=" ++ display_name portal ++ lit " statement="
               ++ display_name statement ++ lit " parameters=" ++ dec parameter_count
               ++ lit " (values omitted)") (lit "bind")).

Definition decode_execute (payload : bytes) : result DecodedMessage :=
  let? '(portal, rest) := take_cstring payload in
  if negb (blen rest =? 4) then Err (lit "invalid PostgreSQL Execute message")
  else
    let max_rows := be_uint rest in
    Ok (with_boundary (c2s (lit "Execute portal=" ++ display_name portal ++ lit " max_rows="
                             ++ dec max_rows) (lit "execute")) (lit "request")).

Definition wire_bytes (payload : bytes) (m : DecodedMessage) : DecodedMessage :=
  add_header m (lit "wire-bytes") (dec (blen payload + 5)).

Definition decode_frontend (tag : byte) (payload : bytes) (max_body : Z) : result DecodedMessage :=
  let? m :=
    if tag =b "Q"%byte then decode_query payload max_body
    else if tag =b "P"%byte then decode_parse payload max_body
    else if tag =b "B"%byte then decode_bind payload
    else if tag =b "E"%byte then decode_execute payload
    else Ok (
      if tag =b "p"%byte then
        c2s (lit "AuthenticationResponse (credentials omitted)") (lit "authentication-response")
      else if tag =b "C"%byte then c2s (lit "Close") (lit "close")
      else if tag =b "D"%byte then c2s (lit "Describe") (lit "describe")
      else if tag =b "F"%byte then c2s (lit "FunctionCall (arguments omitted)") (lit "function-call")
      else if tag =b "d"%byte then c2s (lit "CopyData (payload omitted)") (lit "copy-data")
      else if tag =b "c"%byte then c2s (lit "CopyDone") (lit "copy-done")
      else if tag =b "f"%byte then c2s (lit "CopyFail (detail omitted)") (lit "copy-fail")
      else if tag =b "H"%byte then c2s (lit "Flush") (lit "flush")
      else if tag =b "S"%byte then c2s (lit "Sync") (lit "sync")
      else if tag =b "X"%byte then c2s (lit "Terminate") (lit "terminate")
      else c2s (lit "FrontendMessage tag=0x" ++ hex2 tag ++ lit " bytes=" ++ dec (blen payload))
             (lit "unknown")) in
  Ok (wire_bytes payload m).

(** ** Backend messages *)

Definition s2c (start_line kind : bytes) : DecodedMessage :=
  with_kind (message ServerToClient start_line) kind.

Definition decode_authentication (payload : bytes) : result DecodedMessage :=
  if blen payload <? 4 then Err (lit "truncated PostgreSQL Authentication message")
  else Ok (s2c (lit "Authentication " ++ authentication_name (be_uint (take 4 payload)))
             (lit "authentication")).

Definition decode_parameter_status (payload : bytes) : result DecodedMessage :=
  let? fields := cstrings payload in
  match fields with
  | f0 :: f1 :: _ =>
      let name := from_utf8_lossy f0 in
      let value := if is_startup_secret name then lit "[REDACTED]" else from_utf8_lossy f1 in
      Ok (add_header (s2c (lit "ParameterStatus") (lit "parameter-status")) name value)
  | _ => Err (lit "invalid PostgreSQL ParameterStatus")
  end.

(** [byte as char], in UTF-8. *)
Definition byte_char (b : byte) : bytes :=
  if byte_val b <? 128 then [b]
  else [byte_of (192 + byte_val b / 64); byte_of (128 + byte_val b mod 64)].

Definition decode_ready (payload : bytes) : DecodedMessage :=
  let status := match payload with b :: _ => b | [] => "?"%byte end in
  s2c (lit "ReadyForQuery status=" ++ byte_char status) (lit "ready").

Definition decode_complete (payload : bytes) : result DecodedMessage :=
  let? tag := first_cstring payload in
  Ok (with_boundary (s2c (lit "CommandComplete " ++ from_utf8_lossy tag) (lit "command-complete"))
        (lit "response")).

Definition error_field_name (code : byte) : option bytes :=
  if (code =b "S"%byte) || (code =b "V"%byte) then Some (lit "severity")
  else if code =b "C"%byte then Some (lit "sqlstate")
  else if code =b "M"%byte then Some (lit "message")
  else if code =b "D"%byte then Some (lit "detail")
  else if code =b "H"%byte then Some (lit "hint")
  else if code =b "W"%byte then Some (lit "where")
  else None.

Definition add_error_field (max_body : Z) (m : DecodedMessage) (field : byte * bytes) : DecodedMessage :=
  match error_field_name (fst field) with
  | None => m
  | Some name =>
      let value := snd field in
      let over := max_body <? blen value in
      let value := if over then take (Z.to_nat max_body) value else value in
      mkDecoded (direction m) (start_line m) (headers m ++ [(name, from_utf8_lossy value)]) (body m)
        (truncated m || over)
  end.

Definition decode_error (tag : byte) (payload : bytes) (max_body : Z) : result DecodedMessage :=
  let error := tag =b "E"%byte in
  let m := s2c (lit (if error then "ErrorResponse" else "NoticeResponse"))
             (lit (if error then "error" else "notice")) in
  let? fields := error_fields payload in
  let m := fold_left (add_error_field max_body) fields m in
  Ok (if error then with_boundary m (lit "response") else m).

(** The loop over the columns. *)
Fixpoint row_columns (n : nat) (rest : bytes) (names : list bytes) : result (list bytes) :=
  match n with
  | O => Ok names
  | S k =>
      let? '(name, after_name) := take_cstring rest in
      if blen after_name <? 18 then Err (lit "truncated PostgreSQL RowDescription field")
      else
        row_columns k (drop 18 after_name)
          (if blen names <? 32 then names ++ [from_utf8_lossy name] else names)
  end.

Definition row_description (payload : bytes) : result DecodedMessage :=
  if blen payload <? 2 then Err (lit "truncated PostgreSQL RowDescription")
  else
    let columns := be_uint (take 2 payload) in
    let? names := row_columns (Z.to_nat columns) (drop 2 payload) [] in
    let m := s2c (lit "RowDescription columns=" ++ dec columns) (lit "row-description") in
    Ok (match names with [] => m | _ => add_header m (lit "columns") (join (lit ",") names) end).

Definition decode_data_row (payload : bytes) : result DecodedMessage :=
  if blen payload <? 2 then Err (lit "truncated PostgreSQL DataRow")
  else Ok (s2c (lit "DataRow columns=" ++ dec (be_uint (take 2 payload)) ++ lit " (values omitted)")
             (lit "data-row")).

Definition decode_backend (tag : byte) (payload : bytes) (max_body : Z) : result DecodedMessage :=
  let? m :=
    if tag =b "R"%byte then decode_authentication payload
    else if tag =b "S"%byte then decode_parameter_status payload
    else if tag =b "K"%byte then
      Ok (s2c (lit "BackendKeyData (key material omitted)") (lit "backend-key-data"))
    else if tag =b "Z"%byte then Ok (decode_ready payload)
    else if tag =b "C"%byte then decode_complete payload
    else if (tag =b "E"%byte) || (tag =b "N"%byte) then decode_error tag payload max_body
    else if tag =b "T"%byte then row_description payload
    else if tag =b "D"%byte then decode_data_row payload
    else Ok (
      if tag =b "1"%byte then s2c (lit "ParseComplete") (lit "parse-complete")
      else if tag =b "2"%byte then s2c (lit "BindComplete") (lit "bind-complete")
      else if tag =b "3"%byte then s2c (lit "CloseComplete") (lit "close-complete")
      else if tag =b "n"%byte then s2c (lit "NoData") (lit "no-data")
      else if tag =b "s"%byte then
        with_boundary (s2c (lit "PortalSuspended") (lit "portal-suspended")) (lit "response")
      else if tag =b "I"%byte then
        with_boundary (s2c (lit "EmptyQueryResponse") (lit "empty-query")) (lit "response")
      else if tag =b "A"%byte then
        s2c (lit "NotificationResponse (payload omitted)") (lit "notification")
      else if (tag =b "G"%byte) || (tag =b "H"%byte) || (tag =b "W"%byte) then
        s2c (lit "CopyResponse") (lit "copy-response")
      else if tag =b "d"%byte then s2c (lit "CopyData (payload omitted)") (lit "copy-data")
      else if tag =b "c"%byte then
        with_boundary (s2c (lit "CopyDone") (lit "copy-done")) (lit "response")
      else s2c (lit "BackendMessage tag=0x" ++ hex2 tag ++ lit " bytes=" ++ dec (blen payload))
             (lit "unknown")) in
  Ok (wire_bytes payload m).

Definition decode_typed (dir : Direction) (tag : byte) (payload : bytes) (max_body : Z) :
    result DecodedMessage :=
  match dir with
  | ClientToServer => decode_frontend tag payload max_body
  | ServerToClient => decode_backend tag payload max_body
  end.

(** ** The streaming decoder *)

Record PostgresDecoder := mkPostgres {
  max_body : Z; client : bytes; server : bytes; phase : Phase }.

Definition fresh (max_body : Z) : PostgresDecoder := mkPostgres max_body [] [] Startup.

(** The constructor asserts a positive cap. *)
Definition new (max_body : Z) : option PostgresDecoder := if 0 <? max_body then Some (fresh max_body) else None.

Definition buffer (d : PostgresDecoder) (dir : Direction) : bytes :=
  match dir with ClientToServer => client d | ServerToClient => server d end.

Definition set_buffer (d : PostgresDecoder) (dir : Direction) (b : bytes) : PostgresDecoder :=
  match dir with
  | ClientToServer => mkPostgres (max_body d) b (server d) (phase d)
  | ServerToClient => mkPostgres (max_body d) (client d) b (phase d)
  end.

Definition set_phase (d : PostgresDecoder) (p : Phase) : PostgresDecoder :=
  mkPostgres (max_body d) (client d) (server d) p.

Definition close (d : PostgresDecoder) : PostgresDecoder := mkPostgres (max_body d) [] [] Opaque.

Definition step_startup (d : PostgresDecoder) : PostgresDecoder * Step :=
  if blen (client d) <? 4 then (d, NeedMore)
  else
    let length := be_uint (take 4 (client d)) in
    if negb ((8 <=? length) && (length <=? MAX_FRAME_BYTES)) then
      (d, Desynchronized (lit "invalid PostgreSQL startup frame length " ++ dec length))
    else if blen (client d) <? length then (d, NeedMore)
    else
      let frame := take (Z.to_nat length) (client d) in
      let d := set_buffer d ClientToServer (drop (Z.to_nat length) (client d)) in
      let code := be_uint (take 4 (drop 4 frame)) in
      (d,
       if code =? SSL_REQUEST_CODE then
         MessageAndPhase (message ClientToServer (lit "SSLRequest")) AwaitingEncryptionResponse
       else if code =? GSSENC_REQUEST_CODE then
         MessageAndPhase (message ClientToServer (lit "GSSENCRequest")) AwaitingEncryptionResponse
       else if code =? CANCEL_REQUEST_CODE then
         MessageAndPhase (message ClientToServer (lit "CancelRequest (key material omitted)")) Opaque
       else match startup_message code (drop 8 frame) with
            | Ok m => MessageAndPhase m Typed
            | Err reason => Desynchronized reason
            end).

Definition step_encryption_response (d : PostgresDecoder) : PostgresDecoder * Step :=
  match server d with
  | [] => (d, NeedMore)
  | response :: rest =>
      (set_buffer d ServerToClient rest,
       if (response =b "S"%byte) || (response =b "G"%byte) then
         MessageAndPhase
           (message ServerToClient
              (lit (if response =b "S"%byte then "EncryptionResponse accepted (traffic opaque)"
                    else "GSSENCResponse accepted (traffic opaque)"))) Opaque
       else if response =b "N"%byte then
         MessageAndPhase (message ServerToClient (lit "EncryptionResponse rejected")) Startup
       else Desynchronized (lit "invalid PostgreSQL encryption response"))
  end.

Definition step_typed (d : PostgresDecoder) (dir : Direction) : PostgresDecoder * Step :=
  match buffer d dir with
  | tag :: rest =>
      if blen (buffer d dir) <? 5 then (d, NeedMore)
      else
        let length := be_uint (take 4 rest) in
        if negb ((4 <=? length) && (length <=? MAX_FRAME_BYTES)) then
          (d, Desynchronized (lit "invalid PostgreSQL message length " ++ dec length
                              ++ lit " for tag 0x" ++ hex2 tag))
        else
          let total := sat_add length 1 in
          if blen (buffer d dir) <? total then (d, NeedMore)
          else
            let payload := drop 5 (take (Z.to_nat total) (buffer d dir)) in
            (set_buffer d dir (drop (Z.to_nat total) (buffer d dir)),
             match decode_typed dir tag payload (max_body d) with
             | Ok m => Message m
             | Err reason => Desynchronized reason
             end)
  | [] => (d, NeedMore)
  end.

Definition step (d : PostgresDecoder) (dir : Direction) : PostgresDecoder * Step :=
  match phase d, dir with
  | Startup, ClientToServer => step_startup d
  | AwaitingEncryptionResponse, ServerToClient => step_encryption_response d
  | Typed, _ => step_typed d dir
  | _, _ => (d, NeedMore)
  end.

(** One round of the loop of [process]. *)
Definition process_round (dir : Direction) (d : PostgresDecoder) : Round PostgresDecoder :=
  let '(d, outcome) := step d dir in
  match outcome with
  | NeedMore => Break d need_more
  | Message m => Continue d (one_message m)
  | MessageAndPhase m p =>
      if decide (p = Opaque) then Break (close d) (one_message m)
      else Continue (set_phase d p) (one_message m)
  | Desynchronized reason => Break (close d) (desync reason)
  end.

Definition postgres_push (d : PostgresDecoder) (dir : Direction) (s : bytes) :
    PostgresDecoder * DecodeBatch :=
  if decide (phase d = Opaque) then (d, need_more)
  else
    let d := set_buffer d dir (buffer d dir ++ s) in
    if MAX_FRAME_BYTES + 5 <? blen (buffer d dir) then
      (close d, desync (lit "PostgreSQL buffered data exceeds 16777221 bytes"))
    else decode_loop (fun d => length (buffer d dir)) (process_round dir) d.

Definition postgres_finish (d : PostgresDecoder) (dir : Direction) : PostgresDecoder * DecodeBatch :=
  let remaining := blen (buffer d dir) in
  let d := set_buffer d dir [] in
  if (remaining =? 0) || bool_decide (phase d = Opaque) then (d, need_more)
  else (d, desync (lit "PostgreSQL stream ended with " ++ dec remaining ++ lit " incomplete bytes")).

#[export] Instance PostgresDecoder_streaming : StreamingDecoder PostgresDecoder := {
  protocol _ := lit "postgres";
  push := postgres_push;
  finish := postgres_finish }.


(** ** Strings on the wire *)

Lemma take_cstring_spec p v rest :
  take_cstring p = Ok (v, rest) -> p = v ++ x00 :: rest.
Proof.
  unfold take_cstring. revert v; induction p as [|b p IH]; intros v; cbn [position]; [done|].
  destruct (Byte.eqb x00 b) eqn:E; [apply byte_eqb_eq in E as <-; by intros [= <- <-]|].
  destruct (position (Byte.eqb x00) p) as [i|]; simpl; [|done].
  intros [= <- <-]. simpl. f_equal. by apply (IH (take i p)).
Qed.

(** A C string has no zero byte in it. *)
Definition cstring_ok (v : bytes) : bool := forallb (fun b => negb (Byte.eqb x00 b)) v.

Lemma take_cstring_app v rest :
  cstring_ok v = true -> take_cstring (v ++ x00 :: rest) = Ok (v, rest).
Proof.
  intros Hv.
  assert (Hp : position (Byte.eqb x00) (v ++ x00 :: rest) = Some (length v)).
  { induction v as [|b v IH]; simpl in *; [done|].
    apply andb_true_iff in Hv as [Hb Hv]. apply negb_true_iff in Hb.
    rewrite Hb, (IH Hv). done. }
  unfold take_cstring. rewrite Hp, take_app_length.
  change (v ++ x00 :: rest) with (v ++ ([x00] ++ rest)). rewrite app_assoc.
  rewrite drop_app_length' by len. done.
Qed.

(** The loop of [cstrings] never runs out of rounds. *)
Lemma cstrings_go_fuel fuel p values :
  (length p < fuel)%nat -> cstrings_go fuel p values = cstrings_go (S (length p)) p values.
Proof.
  revert p values; induction fuel as [fuel IH] using lt_wf_ind; intros p values Hlt.
  destruct fuel as [|f]; [lia|]. cbn [cstrings_go].
  destruct (p =s []); [done|]. destruct (p =s [x00]); [done|].
  destruct (take_cstring p) as [[v rest]|r] eqn:E; [|done].
  apply take_cstring_spec in E. assert (length rest < length p)%nat by (subst p; len).
  rewrite (IH f) by lia. symmetry. destruct (decide (length p < S f)%nat); [|lia].
  rewrite (IH (length p)) by lia. done.
Qed.

Lemma cstrings_step v rest values fuel :
  cstring_ok v = true -> rest <> [] -> (length (v ++ x00 :: rest) < fuel)%nat ->
  cstrings_go fuel (v ++ x00 :: rest) values = cstrings_go (S (length rest)) rest (values ++ [v]).
Proof.
  intros Hv Hr Hf. destruct fuel as [|f]; [lia|]. cbn [cstrings_go].
  destruct ((v ++ x00 :: rest) =s []) eqn:E1.
  { apply bytes_eqb_eq in E1. by destruct v. }
  destruct ((v ++ x00 :: rest) =s [x00]) eqn:E2.
  { apply bytes_eqb_eq in E2. apply (f_equal length) in E2. destruct rest; [done|len]. }
  rewrite take_cstring_app by done. apply cstrings_go_fuel. len.
Qed.

(** A list of C strings with the final terminator decodes into the list. *)
Definition wire_cstrings (vs : list bytes) : bytes := concat (map (fun v => v ++ [x00]) vs) ++ [x00].

Lemma wire_cstrings_cons v vs : wire_cstrings (v :: vs) = v ++ x00 :: wire_cstrings vs.
Proof. unfold wire_cstrings. simpl. by rewrite <- !app_assoc. Qed.

Lemma cstrings_wire vs :
  forallb cstring_ok vs = true -> cstrings (wire_cstrings vs) = Ok vs.
Proof.
  unfold cstrings.
  enough (forall acc, forallb cstring_ok vs = true ->
    cstrings_go (S (length (wire_cstrings vs))) (wire_cstrings vs) acc = Ok (acc ++ vs)) by auto.
  induction vs as [|v vs IH]; intros acc Hv.
  - by rewrite app_nil_r.
  - simpl in Hv. apply andb_true_iff in Hv as [Hv Hvs]. rewrite wire_cstrings_cons.
    rewrite cstrings_step; [|done|by unfold wire_cstrings; destruct (concat _)|lia].
    rewrite IH by done. by rewrite <- app_assoc.
Qed.

(** ** Buffers *)

Lemma postgres_buffer_set_eq d dir b : buffer (set_buffer d dir b) dir = b.
Proof. by destruct dir. Qed.

Lemma postgres_set_set_buffer d dir b b' : set_buffer (set_buffer d dir b) dir b' = set_buffer d dir b'.
Proof. by destruct dir. Qed.

Lemma set_buffer_id d dir : set_buffer d dir (buffer d dir) = d.
Proof. by destruct d, dir. Qed.

Lemma phase_set_buffer d dir b : phase (set_buffer d dir b) = phase d.
Proof. by destruct dir. Qed.

Lemma max_body_set_buffer d dir b : max_body (set_buffer d dir b) = max_body d.
Proof. by destruct dir. Qed.

Lemma close_set_buffer d dir b : close (set_buffer d dir b) = close d.
Proof. by destruct dir. Qed.

Create Rewrite HintDb pgbuf.
#[local] Hint Rewrite postgres_buffer_set_eq postgres_set_set_buffer phase_set_buffer max_body_set_buffer
  close_set_buffer : pgbuf.

(** ** One step *)

(** What a step may do to the buffer [b0] of its direction. *)
Definition takes (b0 b : bytes) (out : Step) : Prop :=
  match out with
  | Message _ | MessageAndPhase _ _ => (length b < length b0)%nat
  | NeedMore => b = b0
  | Desynchronized _ => True
  end.

Lemma takes_outcome {A} b0 b (r : result A) (k : A -> Step) :
  (length b < length b0)%nat ->
  (forall a, takes b0 b (k a)) ->
  takes b0 b (match r with Ok a => k a | Err reason => Desynchronized reason end).
Proof. by destruct r. Qed.

Lemma step_startup_takes d d' out :
  step_startup d = (d', out) -> exists b, d' = set_buffer d ClientToServer b /\ takes (client d) b out.
Proof.
  unfold step_startup.
  destruct (Z.ltb_spec (blen (client d)) 4); [intros [= <- <-]; exists (client d); by destruct d|].
  set (n := be_uint _).
  destruct (Z.leb_spec 8 n), (Z.leb_spec n MAX_FRAME_BYTES); cbn [andb negb];
    [|intros [= <- <-]; exists (client d); by destruct d..].
  destruct (Z.ltb_spec (blen (client d)) n); [intros [= <- <-]; exists (client d); by destruct d|].
  intros [<- <-]%pair_equal_spec. eexists; split; [done|].
  assert (length (drop (Z.to_nat n) (client d)) < length (client d))%nat by len.
  repeat case_match; done.
Qed.

Lemma step_encryption_takes d d' out :
  step_encryption_response d = (d', out) ->
  exists b, d' = set_buffer d ServerToClient b /\ takes (server d) b out.
Proof.
  unfold step_encryption_response. destruct (server d) as [|r rest] eqn:E.
  - intros [= <- <-]. exists []. split; [|done]. rewrite <- E. by destruct d.
  - intros [= <- <-]. eexists; split; [done|]. repeat case_match; simpl; lia || done.
Qed.

Lemma step_typed_takes d dir d' out :
  step_typed d dir = (d', out) -> exists b, d' = set_buffer d dir b /\ takes (buffer d dir) b out.
Proof.
  intros H. assert (Hid : forall o, takes (buffer d dir) (buffer d dir) o -> (d, o) = (d', out) ->
    exists b, d' = set_buffer d dir b /\ takes (buffer d dir) b out).
  { intros o Ho [= <- <-]. eexists. by rewrite set_buffer_id. }
  revert H. unfold step_typed. destruct (buffer d dir) as [|tag rest] eqn:E; [by apply Hid|].
  destruct (Z.ltb_spec (blen (tag :: rest)) 5); [by apply Hid|].
  set (n := be_uint _).
  destruct (Z.leb_spec 4 n), (Z.leb_spec n MAX_FRAME_BYTES); cbn [andb negb]; [|by apply Hid..].
  destruct (Z.ltb_spec (blen (tag :: rest)) (sat_add n 1)); [by apply Hid|].
  intros [= <- <-]. eexists; split; [done|]. apply takes_outcome; simpl; intros;
    rewrite length_drop; unfold sat_add, u64_max, MAX_FRAME_BYTES in *; len.
Qed.

(** A step takes bytes off the buffer of its direction, at least one when it
    yields a message, and leaves the phase and the cap alone. *)
Lemma step_takes d dir d' out :
  step d dir = (d', out) -> exists b, d' = set_buffer d dir b /\ takes (buffer d dir) b out.
Proof.
  unfold step.
  destruct (phase d), dir;
    try (intros [= <- <-]; eexists; by rewrite set_buffer_id);
    eauto using step_startup_takes, step_encryption_takes, step_typed_takes.
Qed.

(** More input behind an unfinished or a finished unit changes nothing. *)
Lemma step_startup_more d d' out t :
  step_startup d = (d', out) -> out <> NeedMore ->
  step_startup (set_buffer d ClientToServer (client d ++ t))
  = (set_buffer d' ClientToServer (client d' ++ t), out).
Proof.
  unfold step_startup. cbn [client set_buffer].
  destruct (Z.ltb_spec (blen (client d)) 4); [by intros [= <- <-]|].
  destruct (Z.ltb_spec (blen (client d ++ t)) 4); [len|].
  rewrite take_app_le by len. set (n := be_uint _).
  destruct (negb _); [by intros [= <- <-]|].
  destruct (Z.ltb_spec (blen (client d)) n); [by intros [= <- <-]|].
  destruct (Z.ltb_spec (blen (client d ++ t)) n); [len|].
  rewrite take_app_le, drop_app_le by len. by intros [<- <-]%pair_equal_spec.
Qed.

Lemma step_encryption_more d d' out t :
  step_encryption_response d = (d', out) -> out <> NeedMore ->
  step_encryption_response (set_buffer d ServerToClient (server d ++ t))
  = (set_buffer d' ServerToClient (server d' ++ t), out).
Proof.
  unfold step_encryption_response. cbn [server set_buffer].
  destruct (server d) as [|r rest]; [by intros [= <- <-]|]. by intros [= <- <-].
Qed.

Lemma step_typed_more d dir d' out t :
  step_typed d dir = (d', out) -> out <> NeedMore ->
  step_typed (set_buffer d dir (buffer d dir ++ t)) dir
  = (set_buffer d' dir (buffer d' dir ++ t), out).
Proof.
  unfold step_typed. rewrite postgres_buffer_set_eq, max_body_set_buffer.
  destruct (buffer d dir) as [|tag rest] eqn:E; [by intros [= <- <-]|].
  destruct (Z.ltb_spec (blen (tag :: rest)) 5); [by intros [= <- <-]|].
  rewrite <- app_comm_cons. destruct (Z.ltb_spec (blen (tag :: rest ++ t)) 5); [len|].
  rewrite (take_app_le rest) by len. set (n := be_uint _).
  destruct (negb _); [intros [= <- <-]; by rewrite E|].
  destruct (Z.ltb_spec (blen (tag :: rest)) (sat_add n 1)); [by intros [= <- <-]|].
  rewrite (app_comm_cons rest t tag).
  destruct (Z.ltb_spec (blen ((tag :: rest) ++ t)) (sat_add n 1)); [len|].
  rewrite take_app_le, drop_app_le by len. intros [= <- <-] _.
  by rewrite postgres_buffer_set_eq, !postgres_set_set_buffer.
Qed.

Lemma step_more d dir d' out t :
  step d dir = (d', out) -> out <> NeedMore ->
  step (set_buffer d dir (buffer d dir ++ t)) dir = (set_buffer d' dir (buffer d' dir ++ t), out).
Proof.
  unfold step. rewrite phase_set_buffer. destruct (phase d), dir; try (by intros [= <- <-]);
    eauto using step_startup_more, step_encryption_more, step_typed_more.
Qed.

(** ** The process loop *)

Section Process.
Context (dir : Direction).
#[local] Abbreviation run := (decode_loop (fun d => length (buffer d dir)) (process_round dir)).

Definition extend (t : bytes) (d : PostgresDecoder) : PostgresDecoder :=
  if decide (phase d = Opaque) then d else set_buffer d dir (buffer d dir ++ t).

Lemma postgres_round_decreasing d d' b :
  True -> process_round dir d = Continue d' b ->
  True /\ (length (buffer d' dir) < length (buffer d dir))%nat.
Proof.
  intros _. unfold process_round. destruct (step d dir) as [d1 out] eqn:E.
  apply step_takes in E as (b1 & -> & Ht).
  destruct out as [|m|m p|r]; simpl in Ht; try done.
  - intros [= <- <-]. by rewrite postgres_buffer_set_eq.
  - case_decide; [done|]. intros [= <- <-]. by destruct dir.
Qed.

Lemma postgres_run_unfold d :
  run d = match process_round dir d with
          | Continue d' b => after b (run d')
          | Break d' b => (d', b)
          end.
Proof. by apply (decode_loop_unfold _ _ (fun _ => True) postgres_round_decreasing). Qed.

Lemma run_opaque d : phase d = Opaque -> run d = (d, need_more).
Proof. intros Hp. rewrite postgres_run_unfold. unfold process_round, step. by rewrite Hp; destruct dir. Qed.

Lemma step_opaque d : phase d = Opaque -> step d dir = (d, NeedMore).
Proof. unfold step. intros ->. by destruct dir. Qed.

Lemma round_go t d d' b :
  True -> process_round dir d = Continue d' b ->
  process_round dir (extend t d) = Continue (extend t d') b.
Proof.
  intros _. unfold extend at 1. case_decide as Hp.
  { unfold process_round. by rewrite step_opaque. }
  unfold process_round. destruct (step d dir) as [d1 out] eqn:E.
  pose proof (step_takes _ _ _ _ E) as (b1 & -> & _).
  destruct out as [|m|m p|r]; [done| | |done];
    apply (step_more _ _ _ _ t) in E as ->; try done.
  - intros [= <- <-]. unfold extend. rewrite phase_set_buffer. by case_decide.
  - case_decide; [done|]. intros [= <- <-]. unfold extend. simpl.
    case_decide; [done|]. by destruct dir.
Qed.

Lemma round_stop t d d' b :
  True -> process_round dir d = Break d' b -> desynchronized b = None ->
  run (extend t d) = after b (run (extend t d')).
Proof.
  intros _. unfold process_round. destruct (step d dir) as [d1 out] eqn:E.
  pose proof (step_takes _ _ _ _ E) as (b1 & -> & Ht).
  destruct out as [|m|m p|r]; simpl in Ht; try done.
  - intros [= <- <-] _. subst b1. by rewrite set_buffer_id, after_need_more.
  - case_decide as Hp; [|done]. intros [= <- <-] _.
    unfold extend at 1. case_decide; [by rewrite step_opaque in E|].
    rewrite postgres_run_unfold. unfold process_round.
    apply (step_more _ _ _ _ t) in E as ->; [|done]. rewrite decide_True by done.
    unfold extend. rewrite decide_True by done. rewrite run_opaque by done.
    rewrite !close_set_buffer. done.
  - by intros [= <- <-].
Qed.

Lemma postgres_run_extend t d d' b :
  run d = (d', b) -> desynchronized b = None -> run (extend t d) = after b (run (extend t d')).
Proof.
  by apply (decode_loop_extend _ _ (fun _ => True) postgres_round_decreasing (extend t)
    ltac:(done) (fun x x' b' Hx E _ => round_go t x x' b' Hx E) (round_stop t)).
Qed.

(** The loop ends with no more bytes than it started with; once it is
    opaque nothing is buffered. *)
Lemma run_shrinks d d' b :
  run d = (d', b) -> (length (buffer d' dir) <= length (buffer d dir))%nat.
Proof.
  enough (length (buffer (fst (run d)) dir) <= length (buffer d dir))%nat as H
    by (intros E; by rewrite E in H).
  apply (decode_loop_ind _ _ _ postgres_round_decreasing
    (fun d r => (length (buffer (fst r) dir) <= length (buffer d dir))%nat)); [| |done]; simpl.
  - intros x x' c _. unfold process_round. destruct (step x dir) as [x1 out] eqn:E.
    apply step_takes in E as (b1 & -> & Ht).
    destruct out as [|m|m p|r]; simpl in Ht; try done; try case_decide; intros [= <- <-];
      rewrite ?postgres_buffer_set_eq; subst; try (by destruct dir; simpl; lia).
  - intros x x' c r Hx E IH. destruct (postgres_round_decreasing _ _ _ Hx E). unfold after; simpl. lia.
Qed.
End Process.

Lemma postgres_push_run d dir s :
  postgres_push d dir s
  = if decide (phase d = Opaque) then (d, need_more)
    else if MAX_FRAME_BYTES + 5 <? blen (buffer d dir ++ s) then
      (close d, desync (lit "PostgreSQL buffered data exceeds 16777221 bytes"))
    else decode_loop (fun d => length (buffer d dir)) (process_round dir) (extend dir s d).
Proof.
  unfold postgres_push, extend. case_decide; [done|]. rewrite postgres_buffer_set_eq, close_set_buffer.
  done.
Qed.

(** What a decoder may hold for one direction. *)
Definition room (d : PostgresDecoder) (dir : Direction) (s : bytes) : Prop :=
  blen (buffer d dir) + blen s <= MAX_FRAME_BYTES + 5.

Lemma postgres_push_room d dir a c d' b :
  room d dir (a ++ c) -> postgres_push d dir a = (d', b) -> room d' dir c.
Proof.
  unfold room. rewrite blen_app, postgres_push_run. intros Hr. pose proof (blen_nonneg a).
  case_decide; [intros [= <- <-]; lia|].
  destruct (Z.ltb_spec (MAX_FRAME_BYTES + 5) (blen (buffer d dir ++ a))).
  { rewrite blen_app in *. pose proof (blen_nonneg c). lia. }
  intros E. apply run_shrinks in E. unfold extend in E. rewrite decide_False in E by done.
  rewrite postgres_buffer_set_eq in E. len.
Qed.

Lemma postgres_extend_app dir a c d : extend dir (a ++ c) d = extend dir c (extend dir a d).
Proof.
  unfold extend. case_decide as Hp; [by rewrite decide_True|].
  rewrite phase_set_buffer, decide_False by done.
  by rewrite postgres_buffer_set_eq, postgres_set_set_buffer, app_assoc.
Qed.

Lemma postgres_push_app d dir a c d' b :
  room d dir (a ++ c) -> postgres_push d dir a = (d', b) -> desynchronized b = None ->
  postgres_push d dir (a ++ c) = after b (postgres_push d' dir c).
Proof.
  intros Hr E Hn. pose proof (postgres_push_room _ _ _ _ _ _ Hr E) as Hr'. revert E.
  unfold room in *. pose proof (blen_nonneg c). rewrite blen_app in Hr.
  rewrite !postgres_push_run. case_decide as Hp.
  { intros [= <- <-]. by rewrite decide_True, after_need_more. }
  destruct (Z.ltb_spec (MAX_FRAME_BYTES + 5) (blen (buffer d dir ++ a))); [rewrite blen_app in *; lia|].
  destruct (Z.ltb_spec (MAX_FRAME_BYTES + 5) (blen (buffer d dir ++ a ++ c)));
    [rewrite !blen_app in *; lia|].
  intros E. rewrite postgres_extend_app, (postgres_run_extend _ c _ _ _ E Hn). f_equal. case_decide as Hp'.
  - unfold extend. by rewrite decide_True, run_opaque.
  - destruct (Z.ltb_spec (MAX_FRAME_BYTES + 5) (blen (buffer d' dir ++ c))); [|done].
    rewrite blen_app in *. lia.
Qed.

(** The decoder invariant: nothing beyond one frame is kept, and nothing at
    all once the stream is opaque. *)
Definition tidy (d : PostgresDecoder) : Prop :=
  0 <= max_body d /\ (forall dir, blen (buffer d dir) <= MAX_FRAME_BYTES + 5) /\
  (phase d = Opaque -> client d = [] /\ server d = []).

Lemma tidy_close d : tidy d -> tidy (close d).
Proof. intros [H _]. repeat split; try done. by intros []. Qed.

Lemma tidy_shrink d dir b :
  tidy d -> (phase d <> Opaque) -> blen b <= MAX_FRAME_BYTES + 5 -> tidy (set_buffer d dir b).
Proof.
  intros (H1 & H2 & H3) Hp Hb. unfold tidy. rewrite max_body_set_buffer, phase_set_buffer.
  repeat split; try done. intros dir'. specialize (H2 dir'). by destruct dir, dir'.
Qed.

(** ** Messages stay in their direction and within the cap *)

Section Capped.
Context (dir : Direction) (mb : Z) (Hmb : 0 <= mb).

Definition msg_ok (m : DecodedMessage) : Prop := direction m = dir /\ blen (body m) <= mb.
Definition res_ok (r : result DecodedMessage) : Prop :=
  match r with Ok m => msg_ok m | Err _ => True end.

Lemma add_header_ok m k v : msg_ok m -> msg_ok (add_header m k v).
Proof. done. Qed.

Lemma message_ok line : msg_ok (message dir line).
Proof. done. Qed.

Lemma postgres_capture_ok m s : direction m = dir -> body m = [] -> msg_ok (capture m s mb).
Proof. intros Hd Hb. unfold msg_ok, capture; simpl. rewrite Hb. split; [done|]. len. Qed.

Lemma error_field_ok m f : msg_ok m -> msg_ok (add_error_field mb m f).
Proof. unfold add_error_field. by case_match. Qed.

Lemma fold_fields_ok fs m : msg_ok m -> msg_ok (fold_left (add_error_field mb) fs m).
Proof. revert m; induction fs; simpl; auto using error_field_ok. Qed.

Lemma startup_headers_ok n fields m :
  (length fields <= n)%nat -> msg_ok m -> msg_ok (startup_headers fields m).
Proof.
  revert fields m; induction n as [|n IH]; intros [|k [|v fields]] m Hn Hm; simpl in *; try done; try lia.
  apply IH; [lia|done].
Qed.
End Capped.

Lemma decode_typed_ok dir tag payload mb :
  0 <= mb -> res_ok dir mb (decode_typed dir tag payload mb).
Proof.
  intros Hmb. destruct dir; unfold decode_typed.
  - enough (forall r, res_ok ClientToServer mb r ->
      res_ok ClientToServer mb (let? m := r in Ok (wire_bytes payload m))) as H.
    { apply H. unfold decode_query, decode_parse, decode_bind, decode_execute.
      repeat (case_match; try done); simplify_eq; simpl; by apply add_header_ok, postgres_capture_ok. }
    by intros [m|].
  - enough (forall r, res_ok ServerToClient mb r ->
      res_ok ServerToClient mb (let? m := r in Ok (wire_bytes payload m))) as H.
    { apply H.
      unfold decode_authentication, decode_parameter_status, decode_complete, decode_error,
        row_description, decode_data_row.
      repeat (case_match; try done); simplify_eq; simpl; try apply add_header_ok;
        by apply fold_fields_ok. }
    by intros [m|].
Qed.

Lemma startup_message_ok code payload mb : 0 <= mb -> res_ok ClientToServer mb (startup_message code payload).
Proof.
  intros Hmb. unfold startup_message. repeat (case_match; try done). simplify_eq. simpl.
  by eapply startup_headers_ok.
Qed.

(** ** The phases

    The phases a stream can go through: nothing leaves [Opaque], and a typed
    stream never negotiates again. *)
Inductive phase_step : Phase -> Phase -> Prop :=
| ask_encryption : phase_step Startup AwaitingEncryptionResponse
| encryption_refused : phase_step AwaitingEncryptionResponse Startup
| started : phase_step Startup Typed
| closed p : phase_step p Opaque.

Definition step_sound (dir : Direction) (mb : Z) (p : Phase) (out : Step) : Prop :=
  match out with
  | Message m => msg_ok dir mb m /\ p <> Opaque
  | MessageAndPhase m p' => msg_ok dir mb m /\ phase_step p p' /\ p <> Opaque
  | _ => True
  end.

Lemma step_is_sound d dir d' out :
  0 <= max_body d -> step d dir = (d', out) -> step_sound dir (max_body d) (phase d) out.
Proof.
  intros Hmb. unfold step. destruct (phase d), dir; try (by intros [= <- <-]).
  - unfold step_startup. repeat case_match; intros [= <- <-]; simpl; repeat split; try done;
      try constructor.
    all: match goal with H : startup_message ?c ?p = _ |- _ =>
           pose proof (startup_message_ok c p _ Hmb) as Hok; rewrite H in Hok end; apply Hok.
  - unfold step_encryption_response. repeat case_match; intros [= <- <-]; simpl; repeat split; try done;
      constructor.
  - unfold step_typed. repeat case_match; intros [= <- <-]; simpl; try done.
    match goal with H : decode_typed ?a ?b ?c ?e = _ |- _ =>
      pose proof (decode_typed_ok a b c e Hmb) as Hok; rewrite H in Hok end. done.
  - unfold step_typed. repeat case_match; intros [= <- <-]; simpl; try done.
    match goal with H : decode_typed ?a ?b ?c ?e = _ |- _ =>
      pose proof (decode_typed_ok a b c e Hmb) as Hok; rewrite H in Hok end. done.
Qed.

(** What every stretch of decoding keeps. *)
Definition sound (dir : Direction) (d d' : PostgresDecoder) (b : DecodeBatch) : Prop :=
  tidy d' /\ max_body d' = max_body d /\ rtc phase_step (phase d) (phase d') /\
  Forall (msg_ok dir (max_body d)) (messages b).

Lemma sound_refl dir d : tidy d -> sound dir d d need_more.
Proof. intros Ht. split; [done|]. split; [done|]. split; [done|]. constructor. Qed.

Lemma sound_trans dir d1 d2 d3 b c :
  sound dir d1 d2 b -> sound dir d2 d3 c -> sound dir d1 d3 (batch_app b c).
Proof.
  intros (T1 & M1 & P1 & F1) (T2 & M2 & P2 & F2). rewrite M1 in *.
  split; [done|]. split; [by rewrite M2|]. split; [by etrans|]. simpl. by apply Forall_app.
Qed.

Lemma sound_close dir d ms r :
  tidy d -> Forall (msg_ok dir (max_body d)) ms -> sound dir d (close d) (mkBatch ms r).
Proof.
  intros Ht Hm. split; [by apply tidy_close|]. split; [done|].
  split; [by apply rtc_once; constructor|done].
Qed.

Lemma round_sound dir d :
  tidy d -> match process_round dir d with Continue d' b | Break d' b => sound dir d d' b end.
Proof.
  intros Ht. unfold process_round. destruct (step d dir) as [d1 out] eqn:E.
  pose proof (step_is_sound _ _ _ _ (proj1 Ht) E) as Hs.
  apply step_takes in E as (b1 & -> & Hb).
  assert (Hsh : (length b1 < length (buffer d dir))%nat -> blen b1 <= MAX_FRAME_BYTES + 5).
  { destruct Ht as (_ & Hl & _). specialize (Hl dir). unfold blen in *. lia. }
  destruct out as [|m|m p|r]; simpl in Hb, Hs.
  - subst. rewrite set_buffer_id. by apply sound_refl.
  - destruct Hs as [Hm Hp]. split; [by apply tidy_shrink; auto|].
    rewrite max_body_set_buffer, phase_set_buffer. repeat split; [done|]. by repeat constructor; apply Hm.
  - destruct Hs as (Hm & Hstep & Hp). case_decide.
    + rewrite close_set_buffer. apply sound_close; [done|]. by repeat constructor; apply Hm.
    + destruct (tidy_shrink d dir b1 Ht Hp (Hsh Hb)) as (T1 & T2 & T3).
      unfold sound. split.
      { split; [done|]. split; [|done]. intros dir'. specialize (T2 dir'). by destruct dir'. }
      simpl. rewrite max_body_set_buffer. repeat split; [by apply rtc_once|].
      by repeat constructor; apply Hm.
  - rewrite close_set_buffer. by apply sound_close.
Qed.

Lemma run_sound dir d :
  tidy d ->
  sound dir d (fst (decode_loop (fun d => length (buffer d dir)) (process_round dir) d))
    (snd (decode_loop (fun d => length (buffer d dir)) (process_round dir) d)).
Proof.
  enough (forall d, True -> tidy d -> sound dir d
    (fst (decode_loop (fun d => length (buffer d dir)) (process_round dir) d))
    (snd (decode_loop (fun d => length (buffer d dir)) (process_round dir) d))) as H by auto.
  apply (decode_loop_ind _ _ _ (postgres_round_decreasing dir) (fun d r => tidy d -> sound dir d (fst r) (snd r))).
  - intros x x' b _ E Ht. pose proof (round_sound dir x Ht) as H. by rewrite E in H.
  - intros x x' b [y c] _ E IH Ht. pose proof (round_sound dir x Ht) as H. rewrite E in H.
    simpl in *. eapply sound_trans; [exact H|]. apply IH, H.
Qed.

Lemma postgres_push_sound d dir s :
  tidy d -> sound dir d (fst (postgres_push d dir s)) (snd (postgres_push d dir s)).
Proof.
  intros Ht. rewrite postgres_push_run. case_decide; [by apply sound_refl|].
  destruct (Z.ltb_spec (MAX_FRAME_BYTES + 5) (blen (buffer d dir ++ s))).
  - by apply sound_close.
  - unfold extend. rewrite decide_False by done.
    pose proof (run_sound dir _ (tidy_shrink d dir _ Ht ltac:(done) ltac:(eassumption))) as Hs.
    unfold sound in *. by rewrite max_body_set_buffer, phase_set_buffer in Hs.
Qed.

Lemma postgres_finish_sound d dir :
  tidy d -> sound dir d (fst (postgres_finish d dir)) (snd (postgres_finish d dir)) /\
            phase (fst (postgres_finish d dir)) = phase d.
Proof.
  intros (H1 & H2 & H3).
  assert (sound dir d (set_buffer d dir []) need_more).
  { unfold sound, tidy. rewrite max_body_set_buffer, phase_set_buffer.
    split; [split; [done|split]|done].
    - intros dir'. specialize (H2 dir'). by destruct dir, dir'.
    - intros Hp. destruct (H3 Hp). by destruct dir. }
  unfold postgres_finish. case_match; simpl; rewrite phase_set_buffer; done.
Qed.

#[export] Program Instance PostgresDecoder_laws : DecoderLaws PostgresDecoder := {
  inv := tidy;
  fits := room;
  push_inv := _; finish_inv := _; push_fits := _; push_app := _ }.
Next Obligation. intros d dir s Ht. apply (postgres_push_sound d dir s Ht). Qed.
Next Obligation. intros d dir Ht. apply (postgres_finish_sound d dir Ht). Qed.
Next Obligation. intros d dir a c d' b _. apply postgres_push_room. Qed.
Next Obligation. intros d dir a c d' b _. apply postgres_push_app. Qed.

(** ** Streams of typed messages *)

(** A typed message on the wire. *)
Definition frame (f : byte * bytes) : bytes := fst f :: be_bytes 4 (blen (snd f) + 4) ++ snd f.

Lemma length_frame f : length (frame f) = (5 + length (snd f))%nat.
Proof. unfold frame. rewrite length_cons, length_app, length_be_bytes. lia. Qed.

Section Typed.
Context (d : PostgresDecoder) (dir : Direction) (Hp : phase d = Typed).
#[local] Abbreviation run := (decode_loop (fun d => length (buffer d dir)) (process_round dir)).
#[local] Abbreviation at_ l := (set_buffer d dir l).

Definition readable (f : byte * bytes) : bool :=
  (blen (snd f) + 4 <=? MAX_FRAME_BYTES) &&
  is_ok (decode_typed dir (fst f) (snd f) (max_body d)).

Definition meaning (f : byte * bytes) : DecodedMessage :=
  match decode_typed dir (fst f) (snd f) (max_body d) with Ok m => m | Err _ => message dir [] end.

Definition sized (f : byte * bytes) : Prop := blen (snd f) + 4 <= MAX_FRAME_BYTES.

Lemma readable_sized f : readable f = true -> sized f.
Proof. unfold readable. by rewrite andb_true_iff, Z.leb_le; intros []. Qed.

Lemma frame_length_field f rest :
  sized f -> be_uint (take 4 (drop 1 (frame f ++ rest))) = blen (snd f) + 4.
Proof.
  unfold sized. intros Hl.
  unfold frame. cbn [app drop]. rewrite drop_0, <- app_assoc, take_app_length' by (by rewrite length_be_bytes).
  apply be_uint_be_bytes. pose proof (blen_nonneg (snd f)).
  unfold MAX_FRAME_BYTES in Hl. change (256 ^ Z.of_nat 4) with 4294967296. lia.
Qed.

(** A message of the right size is taken off whole, whatever it says. *)
Lemma step_typed_sized f rest :
  sized f ->
  step_typed (at_ (frame f ++ rest)) dir
  = (at_ rest, match decode_typed dir (fst f) (snd f) (max_body d) with
               | Ok m => Message m
               | Err reason => Desynchronized reason
               end).
Proof.
  intros Hf. pose proof (frame_length_field f rest Hf) as Hn.
  assert (Hlen : blen (frame f ++ rest) = 5 + blen (snd f) + blen rest)
    by (rewrite blen_app; unfold blen; rewrite length_frame; lia).
  unfold sized in Hf. unfold step_typed. rewrite postgres_buffer_set_eq, max_body_set_buffer.
  remember (frame f ++ rest) as w eqn:Ew. destruct w as [|tag w]; [by apply (f_equal length) in Ew|].
  assert (tag = fst f) as -> by (by injection Ew).
  cbn [drop] in Hn. rewrite drop_0 in Hn. rewrite Hn, Hlen. pose proof (blen_nonneg (snd f)).
  pose proof (blen_nonneg rest). unfold MAX_FRAME_BYTES in *.
  destruct (Z.ltb_spec (5 + blen (snd f) + blen rest) 5); [lia|].
  destruct (Z.leb_spec 4 (blen (snd f) + 4)); [|lia].
  destruct (Z.leb_spec (blen (snd f) + 4) (16 * 1024 * 1024)); [|lia]. cbn [andb negb].
  rewrite sat_add_exact by (unfold u64_max; lia).
  destruct (Z.ltb_spec (5 + blen (snd f) + blen rest) (blen (snd f) + 4 + 1)); [lia|].
  assert (Hto : Z.to_nat (blen (snd f) + 4 + 1) = length (frame f)) by (rewrite length_frame; len).
  rewrite Ew, Hto, take_app_length, drop_app_length, postgres_set_set_buffer. unfold frame at 1. cbn [drop].
  by rewrite drop_app_length' by (by rewrite length_be_bytes).
Qed.

Lemma step_typed_frame f rest :
  readable f = true -> step_typed (at_ (frame f ++ rest)) dir = (at_ rest, Message (meaning f)).
Proof.
  intros Hf. rewrite step_typed_sized by (by apply readable_sized).
  unfold readable in Hf. apply andb_true_iff in Hf as [_ Hok].
  unfold meaning. by destruct (decode_typed _ _ _ _).
Qed.

Lemma run_typed_sized f rest :
  sized f ->
  run (at_ (frame f ++ rest))
  = match decode_typed dir (fst f) (snd f) (max_body d) with
    | Ok m => after (one_message m) (run (at_ rest))
    | Err reason => (close d, desync reason)
    end.
Proof.
  intros Hf. rewrite postgres_run_unfold. unfold process_round at 1, step. rewrite phase_set_buffer, Hp.
  pose proof (step_typed_sized f rest Hf) as E.
  destruct dir; rewrite E; destruct (decode_typed _ _ _ _); by rewrite ?close_set_buffer.
Qed.

Lemma run_typed_frame f rest :
  readable f = true -> run (at_ (frame f ++ rest)) = after (one_message (meaning f)) (run (at_ rest)).
Proof.
  intros Hf. rewrite run_typed_sized by (by apply readable_sized).
  unfold readable in Hf. apply andb_true_iff in Hf as [_ Hok].
  unfold meaning. by destruct (decode_typed _ _ _ _).
Qed.

Lemma run_typed_partial f s t :
  readable f = true -> frame f = s ++ t -> t <> [] -> run (at_ s) = (at_ s, need_more).
Proof.
  intros Hf He Ht. rewrite postgres_run_unfold. unfold process_round.
  destruct (step (at_ s) dir) as [d1 out] eqn:E.
  pose proof (step_takes _ _ _ _ E) as (b1 & -> & Hb). rewrite postgres_set_set_buffer in *.
  assert (out = NeedMore \/ out <> NeedMore) as [->|Hne] by (destruct out; auto).
  { simpl in Hb. rewrite postgres_buffer_set_eq in Hb. by subst. }
  apply (step_more _ _ _ _ t) in E; [|done].
  rewrite !postgres_buffer_set_eq, !postgres_set_set_buffer, <- He in E.
  pose proof (step_typed_frame f [] Hf) as Hs. rewrite app_nil_r in Hs.
  unfold step in E. rewrite phase_set_buffer, Hp in E.
  assert ((at_ [], Message (meaning f)) = (at_ (b1 ++ t), out)) as [= Hd <-].
  { rewrite <- E, <- Hs. by destruct dir. }
  apply (f_equal (fun d => buffer d dir)) in Hd. rewrite !postgres_buffer_set_eq in Hd.
  symmetry in Hd. apply app_eq_nil in Hd as [_ ->]. done.
Qed.
End Typed.

(** C15. PostgreSQL decoding is exact and independent of fragmentation.  Once
    a stream is typed, a sequence of messages that the decoder can read, cut
    into fragments anywhere, yields exactly their decodings in wire order, no
    desynchronization, and an empty buffer - for streams of any length, as
    long as a fragment fits beside an unfinished message. *)
Theorem postgres_stream_exact (d : PostgresDecoder) (dir : Direction) (fs : list (byte * bytes))
    (fragments : list bytes) :
  phase d = Typed -> buffer d dir = [] ->
  Forall (fun f => readable d dir f = true) fs ->
  Forall (fun c => Forall (fun f => blen c + blen (frame f) <= MAX_FRAME_BYTES + 6) fs /\
                   blen c <= MAX_FRAME_BYTES + 5) fragments ->
  concat fragments = wire frame fs ->
  push_all d dir fragments = (d, mkBatch (map (meaning d dir) fs) None).
Proof.
  intros Hp Hbuf Hfs Hfrag Hcat. set (at_ l := set_buffer d dir l).
  assert (Hd : d = at_ []) by (unfold at_; by rewrite <- Hbuf, set_buffer_id).
  transitivity (at_ [], mkBatch (map (meaning d dir) fs) None); [|by rewrite <- Hd].
  rewrite Hd at 1.
  apply (push_all_stream dir frame _ (fun f => readable d dir f = true) at_
    (fun s => decode_loop (fun d => length (buffer d dir)) (process_round dir) (at_ s))
    (fun l c => blen (l ++ c) <= MAX_FRAME_BYTES + 5)); try done.
  - intros l c Hl. cbn [push PostgresDecoder_streaming]. rewrite postgres_push_run. unfold at_, extend.
    rewrite phase_set_buffer, Hp, !decide_False by done. rewrite postgres_buffer_set_eq, postgres_set_set_buffer.
    destruct (Z.ltb_spec (MAX_FRAME_BYTES + 5) (blen (l ++ c))); [lia|done].
  - rewrite postgres_run_unfold. unfold process_round, step, at_. rewrite phase_set_buffer, Hp.
    unfold step_typed. rewrite postgres_buffer_set_eq. by destruct dir.
  - intros v rest Hv. by apply run_typed_frame.
  - intros v s t. by apply run_typed_partial.
  - intros c l Hc [->|(f & Hf & Hl)];
      apply list_elem_of_In in Hc; rewrite Forall_forall in Hfrag;
      destruct (Hfrag c Hc) as [Hc1 Hc2]; [done|].
    apply list_elem_of_In in Hf. rewrite Forall_forall in Hc1. specialize (Hc1 f Hf). len.
Qed.

(** ** What is never shown *)

(** The fixed part of a Bind message, before its parameter values. *)
Definition bind_prefix (portal statement : bytes) (formats : list Z) (parameters : Z) : bytes :=
  portal ++ x00 :: statement ++ x00 ::
  be_bytes 2 (blen formats) ++ concat (map (be_bytes 2) formats) ++ be_bytes 2 parameters.

(** Two payloads of a message that differ only in its values: passwords, key
    material, function arguments, COPY data, notification payloads, bound
    parameters, column values, authentication data. *)
Inductive same_but_values : Direction -> byte -> bytes -> bytes -> Prop :=
| same_frontend tag p q :
    In tag (lit "pFdf") -> length p = length q -> same_but_values ClientToServer tag p q
| same_backend tag p q :
    In tag (lit "KAd") -> length p = length q -> same_but_values ServerToClient tag p q
| same_bind portal statement formats parameters v w :
    cstring_ok portal = true -> cstring_ok statement = true -> blen formats <= u16_max ->
    length v = length w ->
    same_but_values ClientToServer "B"%byte
      (bind_prefix portal statement formats parameters ++ v)
      (bind_prefix portal statement formats parameters ++ w)
| same_row columns v w :
    length v = length w ->
    same_but_values ServerToClient "D"%byte (be_bytes 2 columns ++ v) (be_bytes 2 columns ++ w)
| same_authentication code v w :
    length v = length w ->
    same_but_values ServerToClient "R"%byte (be_bytes 4 code ++ v) (be_bytes 4 code ++ w).

Lemma length_formats formats :
  length (concat (map (be_bytes 2) formats)) = (2 * length formats)%nat.
Proof.
  induction formats as [|f fs IH]; [done|]. cbn [concat map].
  rewrite length_app, length_be_bytes, IH. simpl. lia.
Qed.

Lemma decode_bind_exact portal statement formats parameters v :
  cstring_ok portal = true -> cstring_ok statement = true -> blen formats <= u16_max ->
  decode_bind (bind_prefix portal statement formats parameters ++ v)
  = Ok (c2s (lit "Bind portal=" ++ display_name portal ++ lit " statement="
             ++ display_name statement ++ lit " parameters=" ++ dec (be_uint (be_bytes 2 parameters))
             ++ lit " (values omitted)") (lit "bind")).
Proof.
  intros Hp Hs Hf. unfold decode_bind, bind_prefix.
  rewrite <- app_assoc, <- app_comm_cons, <- app_assoc, <- app_comm_cons, <- !app_assoc.
  rewrite !take_cstring_app by done. pose proof (blen_nonneg formats). unfold u16_max in Hf.
  set (tl := _ ++ be_bytes 2 parameters ++ v).
  assert (Htl : blen tl = 2 * blen formats + 2 + blen v).
  { unfold tl, blen. rewrite !length_app, length_formats, length_be_bytes. lia. }
  assert (Hall : blen (be_bytes 2 (blen formats) ++ tl) = 2 + blen tl).
  { rewrite blen_app. unfold blen at 1. by rewrite length_be_bytes. }
  pose proof (blen_nonneg v). rewrite Hall.
  destruct (Z.ltb_spec (2 + blen tl) 2); [lia|].
  rewrite take_app_length' by (by rewrite length_be_bytes).
  rewrite be_uint_be_bytes by (change (256 ^ Z.of_nat 2) with 65536; lia).
  unfold checked_mul, checked_add, usize_max, u64_max.
  destruct (Z.leb_spec (blen formats * 2) (2 ^ 64 - 1)); [|lia].
  destruct (Z.leb_spec (blen formats * 2 + 2) (2 ^ 64 - 1)); [|lia]. cbn [ok_or].
  destruct (Z.ltb_spec (2 + blen tl) (blen formats * 2 + 2 + 2)); [lia|].
  unfold tl. rewrite (app_assoc (be_bytes 2 (blen formats))), drop_app_length'.
  - by rewrite take_app_length' by (by rewrite length_be_bytes).
  - rewrite length_app, length_be_bytes, length_formats. len.
Qed.

Lemma decode_data_row_exact columns v :
  decode_data_row (be_bytes 2 columns ++ v)
  = Ok (s2c (lit "DataRow columns=" ++ dec (be_uint (be_bytes 2 columns)) ++ lit " (values omitted)")
          (lit "data-row")).
Proof.
  unfold decode_data_row. rewrite take_app_length' by (by rewrite length_be_bytes).
  destruct (Z.ltb_spec (blen (be_bytes 2 columns ++ v)) 2) as [H|]; [|done].
  unfold blen in H. rewrite length_app, length_be_bytes in H. lia.
Qed.

Lemma decode_authentication_exact code v :
  decode_authentication (be_bytes 4 code ++ v)
  = Ok (s2c (lit "Authentication " ++ authentication_name (be_uint (be_bytes 4 code)))
          (lit "authentication")).
Proof.
  unfold decode_authentication. rewrite take_app_length' by (by rewrite length_be_bytes).
  destruct (Z.ltb_spec (blen (be_bytes 4 code ++ v)) 4) as [H|]; [|done].
  unfold blen in H. rewrite length_app, length_be_bytes in H. lia.
Qed.

Lemma decode_typed_values dir tag p q mb :
  same_but_values dir tag p q ->
  length p = length q /\ decode_typed dir tag p mb = decode_typed dir tag q mb.
Proof.
  assert (Hw : forall p q m, length p = length q -> wire_bytes p m = wire_bytes q m).
  { intros p' q' m Hl. unfold wire_bytes, blen. by rewrite Hl. }
  intros [tag' p' q' Hin Hl|tag' p' q' Hin Hl|portal st fo n v w H1 H2 H3 Hl|n v w Hl|n v w Hl].
  - split; [done|]. simpl in Hin. destruct_or! Hin; subst; try done;
      unfold decode_typed, decode_frontend; simpl; by rewrite (Hw p' q').
  - split; [done|]. simpl in Hin. destruct_or! Hin; subst; try done;
      unfold decode_typed, decode_backend; simpl; by rewrite (Hw p' q').
  - split; [len|].
    change (decode_typed ClientToServer "B"%byte ?p mb) with (let? m := decode_bind p in Ok (wire_bytes p m)).
    rewrite !decode_bind_exact by done. f_equal. apply Hw. len.
  - split; [len|].
    change (decode_typed ServerToClient "D"%byte ?p mb) with (let? m := decode_data_row p in Ok (wire_bytes p m)).
    rewrite !decode_data_row_exact. f_equal. apply Hw. len.
  - split; [len|].
    change (decode_typed ServerToClient "R"%byte ?p mb)
      with (let? m := decode_authentication p in Ok (wire_bytes p m)).
    rewrite !decode_authentication_exact. f_equal. apply Hw. len.
Qed.

(** Two messages of which the observer may see no difference. *)
Definition same_message (dir : Direction) (f g : byte * bytes) : Prop :=
  f = g \/ (fst f = fst g /\ same_but_values dir (fst f) (snd f) (snd g)).

Lemma same_message_decodes dir f g mb :
  same_message dir f g ->
  fst f = fst g /\ length (snd f) = length (snd g) /\
  decode_typed dir (fst f) (snd f) mb = decode_typed dir (fst g) (snd g) mb.
Proof.
  intros [->|[Ht Hs]]; [done|]. rewrite <- Ht. by destruct (decode_typed_values _ _ _ _ mb Hs).
Qed.

Lemma same_wire_length dir fs gs :
  Forall2 (same_message dir) fs gs -> length (wire frame fs) = length (wire frame gs).
Proof.
  induction 1 as [|f g fs gs Hfg _ IH]; [done|]. unfold wire in *. cbn [map concat].
  destruct (same_message_decodes _ _ _ 0 Hfg) as (_ & Hl & _).
  rewrite !length_app, !length_frame. lia.
Qed.

Lemma run_same_messages d dir fs gs :
  phase d = Typed -> Forall sized fs -> Forall2 (same_message dir) fs gs ->
  decode_loop (fun d => length (buffer d dir)) (process_round dir) (set_buffer d dir (wire frame fs))
  = decode_loop (fun d => length (buffer d dir)) (process_round dir) (set_buffer d dir (wire frame gs)).
Proof.
  intros Hp Hs Hfg. induction Hfg as [|f g fs gs Hfg _ IH]; [done|].
  apply Forall_cons_iff in Hs as [Hf Hs]. specialize (IH Hs).
  destruct (same_message_decodes _ _ _ (max_body d) Hfg) as (_ & Hl & Hdec).
  assert (Hg : sized g) by (unfold sized, blen in *; lia).
  unfold wire in *. cbn [map concat]. rewrite !run_typed_sized, Hdec by done.
  destruct (decode_typed _ (fst g) _ _); by rewrite ?IH.
Qed.

(** C17. PostgreSQL values are never shown.  Two typed streams whose messages
    differ only in passwords, key material, function arguments, COPY data,
    notification payloads, bound parameters, column values or authentication
    data leave the decoder in the same state and produce the same messages:
    nothing an observer sees depends on those values, only on their sizes. *)
Theorem postgres_values_omitted (d : PostgresDecoder) (dir : Direction) (fs gs : list (byte * bytes)) :
  phase d = Typed -> buffer d dir = [] ->
  Forall sized fs -> Forall2 (same_message dir) fs gs ->
  postgres_push d dir (wire frame fs) = postgres_push d dir (wire frame gs).
Proof.
  intros Hp Hbuf Hs Hfg. rewrite !postgres_push_run, Hbuf, Hp. cbn [app].
  rewrite !decide_False by done. unfold blen. rewrite <- (same_wire_length _ _ _ Hfg).
  case_match; [done|]. unfold extend. rewrite Hp, Hbuf, !decide_False by done.
  by apply run_same_messages.
Qed.

(** Two COPY sessions with different data. *)
Lemma postgres_values_omitted_witness :
  postgres_push (mkPostgres 64 [] [] Typed) ClientToServer (wire frame [("d"%byte, lit "alice"); ("c"%byte, [])])
  = postgres_push (mkPostgres 64 [] [] Typed) ClientToServer (wire frame [("d"%byte, lit "carol"); ("c"%byte, [])]).
Proof.
  apply (postgres_values_omitted (mkPostgres 64 [] [] Typed) ClientToServer
    [("d"%byte, lit "alice"); ("c"%byte, [])] [("d"%byte, lit "carol"); ("c"%byte, [])]);
    [reflexivity|reflexivity|repeat constructor; by vm_compute|].
  constructor; [right; split; [done|]; apply same_frontend; [simpl; tauto|done]|].
  constructor; [by left|constructor].
Defined.

(** ** Startup *)

Definition flat_params (params : list (bytes * bytes)) : list bytes :=
  concat (map (fun '(k, v) => [k; v]) params).

(** A startup message of protocol 3.[minor]. *)
Definition startup_frame (minor : Z) (params : list (bytes * bytes)) : bytes :=
  let payload := wire_cstrings (flat_params params) in
  be_bytes 4 (8 + blen payload) ++ be_bytes 4 (3 * 65536 + minor) ++ payload.

(** What is shown of a startup parameter. *)
Definition shown_param (p : bytes * bytes) : bytes * bytes :=
  (from_utf8_lossy (fst p),
   if is_startup_secret (from_utf8_lossy (fst p)) then lit "[REDACTED]" else from_utf8_lossy (snd p)).

Definition startup_decoded (minor : Z) (params : list (bytes * bytes)) : DecodedMessage :=
  mkDecoded ClientToServer (lit "StartupMessage protocol=3." ++ dec minor)
    ([(lit "lens-protocol", lit "postgres"); (lit "lens-kind", lit "startup")]
     ++ map shown_param params) [] false.

Lemma startup_headers_flat params m :
  startup_headers (flat_params params) m
  = mkDecoded (direction m) (start_line m) (headers m ++ map shown_param params) (body m) (truncated m).
Proof.
  revert m; induction params as [|[k v] params IH]; intros m.
  - simpl. rewrite app_nil_r. by destruct m.
  - change (flat_params ((k, v) :: params)) with (k :: v :: flat_params params).
    cbn [startup_headers map]. rewrite IH. simpl. by rewrite <- app_assoc.
Qed.

Lemma length_flat_params params : length (flat_params params) = (2 * length params)%nat.
Proof. unfold flat_params. induction params as [|[k v] params IH]; simpl; lia. Qed.

Lemma startup_message_exact minor params :
  0 <= minor <= u16_max -> forallb cstring_ok (flat_params params) = true ->
  startup_message (3 * 65536 + minor) (wire_cstrings (flat_params params))
  = Ok (startup_decoded minor params).
Proof.
  intros Hm Hok. unfold startup_message, u16_max in *.
  assert (Z.shiftr (3 * 65536 + minor) 16 = 3) as ->.
  { rewrite Z.shiftr_div_pow2 by lia. change (2 ^ 16) with 65536.
    rewrite Z.add_comm, Z.div_add, Z.div_small by lia. lia. }
  assert (Z.land (3 * 65536 + minor) 65535 = minor) as ->.
  { change 65535 with (Z.ones 16). rewrite Z.land_ones by lia. change (2 ^ 16) with 65536.
    rewrite Z.add_comm, Z.mod_add, Z.mod_small by lia. lia. }
  change (3 =? 3) with true. cbn [negb]. rewrite cstrings_wire by done.
  unfold blen. rewrite length_flat_params, Nat2Z.inj_mul, Z.mul_comm, Z.mod_mul by done.
  change (0 =? 0) with true. cbn [negb]. by rewrite startup_headers_flat.
Qed.

Lemma step_startup_frame mb minor params rest s :
  0 <= minor <= u16_max -> forallb cstring_ok (flat_params params) = true ->
  blen (startup_frame minor params) <= MAX_FRAME_BYTES ->
  step_startup (mkPostgres mb (startup_frame minor params ++ rest) s Startup)
  = (mkPostgres mb rest s Startup, MessageAndPhase (startup_decoded minor params) Typed).
Proof.
  intros Hm Hok Hsz. unfold step_startup. cbn [client set_buffer max_body server phase].
  set (payload := wire_cstrings (flat_params params)) in *.
  assert (Hlen : blen (startup_frame minor params) = 8 + blen payload).
  { unfold startup_frame, blen. rewrite !length_app, !length_be_bytes. fold payload. lia. }
  assert (Hn : be_uint (take 4 (startup_frame minor params ++ rest)) = 8 + blen payload).
  { unfold startup_frame. fold payload. rewrite <- !app_assoc, take_app_length' by (by rewrite length_be_bytes).
    apply be_uint_be_bytes. change (256 ^ Z.of_nat 4) with 4294967296.
    pose proof (blen_nonneg payload). unfold MAX_FRAME_BYTES in *. lia. }
  pose proof (blen_nonneg payload). pose proof (blen_nonneg rest).
  rewrite Hn, <- Hlen. rewrite blen_app.
  destruct (Z.ltb_spec (blen (startup_frame minor params) + blen rest) 4); [lia|].
  destruct (Z.leb_spec 8 (blen (startup_frame minor params))); [|lia].
  destruct (Z.leb_spec (blen (startup_frame minor params)) MAX_FRAME_BYTES); [|lia]. cbn [andb negb].
  destruct (Z.ltb_spec (blen (startup_frame minor params) + blen rest) (blen (startup_frame minor params))); [lia|].
  replace (Z.to_nat (blen (startup_frame minor params))) with (length (startup_frame minor params)) by len.
  rewrite take_app_length, drop_app_length. f_equal.
  assert (Hcode : be_uint (take 4 (drop 4 (startup_frame minor params))) = 3 * 65536 + minor).
  { unfold startup_frame. rewrite drop_app_length' by (by rewrite length_be_bytes).
    rewrite take_app_length' by (by rewrite length_be_bytes). apply be_uint_be_bytes.
    unfold u16_max in Hm. change (256 ^ Z.of_nat 4) with 4294967296. lia. }
  rewrite Hcode. unfold u16_max, SSL_REQUEST_CODE, GSSENC_REQUEST_CODE, CANCEL_REQUEST_CODE in *.
  repeat (rewrite (proj2 (Z.eqb_neq _ _)) by lia).
  unfold startup_frame. rewrite app_assoc, drop_app_length' by (by rewrite length_app, !length_be_bytes).
  fold payload. unfold payload. by rewrite startup_message_exact.
Qed.

(** PostgreSQL startup: the first message of a client yields one startup
    message with its parameters in wire order, those whose name is a startup
    secret shown as [REDACTED], and the bytes that follow are decoded as
    typed messages. *)
Theorem postgres_startup_exact (mb minor : Z) (params : list (bytes * bytes)) (rest : bytes) :
  0 <= minor <= u16_max -> forallb cstring_ok (flat_params params) = true ->
  blen (startup_frame minor params) <= MAX_FRAME_BYTES ->
  blen (startup_frame minor params ++ rest) <= MAX_FRAME_BYTES + 5 ->
  postgres_push (fresh mb) ClientToServer (startup_frame minor params ++ rest)
  = after (one_message (startup_decoded minor params))
      (postgres_push (mkPostgres mb [] [] Typed) ClientToServer rest).
Proof.
  intros Hm Hok Hsz Hfit. rewrite !postgres_push_run. unfold extend, fresh. cbn [phase].
  rewrite !decide_False by done.
  change (buffer (mkPostgres mb [] [] _) ClientToServer) with (@nil byte). cbn [app].
  change (set_buffer (mkPostgres mb [] [] ?p) ClientToServer ?x) with (mkPostgres mb x [] p).
  destruct (Z.ltb_spec (MAX_FRAME_BYTES + 5) (blen (startup_frame minor params ++ rest))); [lia|].
  destruct (Z.ltb_spec (MAX_FRAME_BYTES + 5) (blen rest)); [len|].
  rewrite postgres_run_unfold. unfold process_round at 1, step. cbn [phase].
  by rewrite step_startup_frame.
Qed.

(** A session that gives its database password at startup. *)
Lemma postgres_startup_exact_witness :
  postgres_push (fresh 64) ClientToServer
    (startup_frame 0 [(lit "user", lit "app"); (lit "password", lit "hunter2")])
  = (mkPostgres 64 [] [] Typed, one_message
       (mkDecoded ClientToServer (lit "StartupMessage protocol=3.0")
          [(lit "lens-protocol", lit "postgres"); (lit "lens-kind", lit "startup");
           (lit "user", lit "app"); (lit "password", lit "[REDACTED]")] [] false)).
Proof.
  pose proof (postgres_startup_exact 64 0 [(lit "user", lit "app"); (lit "password", lit "hunter2")] []) as H.
  rewrite app_nil_r in H. rewrite H; [reflexivity|by split|reflexivity|by vm_compute|by vm_compute].
Defined.

(** ** Encryption *)

(** An [SSLRequest] or a [GSSENCRequest], and the byte that accepts it. *)
Definition encryption_request (gss : bool) : bytes :=
  be_bytes 4 8 ++ be_bytes 4 (if gss then GSSENC_REQUEST_CODE else SSL_REQUEST_CODE).
Definition encryption_accept (gss : bool) : byte := if gss then "G"%byte else "S"%byte.

Lemma observe_opaque mb ts :
  observe (mkPostgres mb [] [] Opaque) ts = (mkPostgres mb [] [] Opaque, need_more).
Proof.
  induction ts as [|[dir s|dir] ts IH]; [done|..]; cbn [observe push finish PostgresDecoder_streaming].
  - rewrite postgres_push_run. by rewrite decide_True, IH.
  - replace (postgres_finish (mkPostgres mb [] [] Opaque) dir)
      with (mkPostgres mb [] [] Opaque, need_more) by (by destruct dir).
    by rewrite IH, after_need_more.
Qed.

Lemma push_encryption_request mb gss :
  postgres_push (fresh mb) ClientToServer (encryption_request gss)
  = (mkPostgres mb [] [] AwaitingEncryptionResponse,
     one_message (message ClientToServer (lit (if gss then "GSSENCRequest" else "SSLRequest")))).
Proof. by destruct gss; vm_compute. Qed.

Lemma push_encryption_accept mb gss s :
  blen s < MAX_FRAME_BYTES + 5 ->
  postgres_push (mkPostgres mb [] [] AwaitingEncryptionResponse) ServerToClient (encryption_accept gss :: s)
  = (mkPostgres mb [] [] Opaque,
     one_message (message ServerToClient
       (lit (if gss then "GSSENCResponse accepted (traffic opaque)"
             else "EncryptionResponse accepted (traffic opaque)")))).
Proof.
  intros Hs. rewrite postgres_push_run, decide_False by done.
  destruct (Z.ltb_spec (MAX_FRAME_BYTES + 5)
    (blen (buffer (mkPostgres mb [] [] AwaitingEncryptionResponse) ServerToClient ++ encryption_accept gss :: s)));
    [cbn [buffer server app] in *; len|].
  unfold extend. rewrite decide_False by done. rewrite postgres_run_unfold. by destruct gss.
Qed.

(** Encrypted PostgreSQL traffic is never decoded.  Once a server accepts
    a client's request for encryption, nothing observed afterwards - bytes in
    either direction, the rest of the accepting fragment, ends of streams, in
    any order - produces a message or a desynchronization, or is kept. *)
Theorem postgres_encrypted_opaque (mb : Z) (gss : bool) (s : bytes) (ts : list Traffic) :
  blen s < MAX_FRAME_BYTES + 5 ->
  observe (fresh mb) (Bytes ClientToServer (encryption_request gss)
                    :: Bytes ServerToClient (encryption_accept gss :: s) :: ts)
  = (mkPostgres mb [] [] Opaque,
     mkBatch [message ClientToServer (lit (if gss then "GSSENCRequest" else "SSLRequest"));
              message ServerToClient
                (lit (if gss then "GSSENCResponse accepted (traffic opaque)"
                      else "EncryptionResponse accepted (traffic opaque)"))] None).
Proof.
  intros Hs. cbn [observe push PostgresDecoder_streaming].
  by rewrite push_encryption_request, push_encryption_accept, observe_opaque.
Qed.

Lemma postgres_encrypted_opaque_witness :
  snd (observe (fresh 64) (Bytes ClientToServer (encryption_request false)
                    :: Bytes ServerToClient (encryption_accept false :: lit "Q")
                    :: [Bytes ClientToServer (frame ("Q"%byte, lit "SELECT 1" ++ [x00])); End ClientToServer]))
  = mkBatch [message ClientToServer (lit "SSLRequest");
             message ServerToClient (lit "EncryptionResponse accepted (traffic opaque)")] None.
Proof.
  rewrite (postgres_encrypted_opaque 64 false (lit "Q")
    [Bytes ClientToServer (frame ("Q"%byte, lit "SELECT 1" ++ [x00])); End ClientToServer]);
    [reflexivity|by vm_compute].
Defined.

(** PostgreSQL observation is bounded and its phases are sound: whatever
    bytes arrive, a push keeps the decoder's invariant (at most one maximal
    frame buffered per direction, nothing once opaque), moves only along the
    protocol's phase transitions, and emits only messages of its direction
    whose body is within the cap. *)
Theorem postgres_push_bounded (d : PostgresDecoder) (dir : Direction) (s : bytes) :
  tidy d ->
  let '(d', batch) := postgres_push d dir s in
  tidy d' /\ max_body d' = max_body d /\ rtc phase_step (phase d) (phase d') /\
  Forall (fun m => direction m = dir /\ blen (body m) <= max_body d) (messages batch).
Proof.
  intros Ht. pose proof (postgres_push_sound d dir s Ht) as H.
  by destruct (postgres_push d dir s) as [d' b].
Qed.

Lemma tidy_new mb : 0 <= mb -> tidy (fresh mb).
Proof. intros Hmb. split; [done|]. split; [by intros []|done]. Qed.

Lemma postgres_push_bounded_witness :
  tidy (fst (postgres_push (fresh 64) ClientToServer (lit "garbage!"))).
Proof.
  pose proof (postgres_push_bounded (fresh 64) ClientToServer (lit "garbage!") (tidy_new 64 ltac:(done))) as H.
  destruct (postgres_push _ _ _) as [d' b]. apply H.
Defined.

(** A query, and a terminate, split inside the length field. *)
Lemma postgres_stream_exact_witness :
  push_all (mkPostgres 64 [] [] Typed) ClientToServer
    [take 3 (frame ("Q"%byte, lit "SELECT 1" ++ [x00]));
     drop 3 (frame ("Q"%byte, lit "SELECT 1" ++ [x00])) ++ frame ("X"%byte, [])]
  = (mkPostgres 64 [] [] Typed,
     mkBatch (map (meaning (mkPostgres 64 [] [] Typed) ClientToServer)
                [("Q"%byte, lit "SELECT 1" ++ [x00]); ("X"%byte, [])]) None).
Proof.
  apply postgres_stream_exact; [reflexivity|reflexivity|by repeat constructor| |reflexivity].
  repeat constructor; by vm_compute.
Defined.

End Postgres.
