(* ===== verification/Redact.v ===== *)
(** * Redact: the redaction policy of [crates/lens-redact].

    What is removed from a decoded message before it is stored: sensitive
    headers and query parameters, SQL literals and comments, Redis arguments
    and values, protobuf bodies, JSON secrets.  The regular expression for
    JSON secrets is matched by the [regex] crate, a parameter of the model. *)

From S2P Require Import Prelude RustStd Core Protocol.

Module Redact.

Definition REPLACEMENT : bytes := lit "[REDACTED]".

Record RedactionOutcome := mkOutcome { message : DecodedMessage; redacted : bool }.

(** The compiled [json_secret] expression: whether it matches a text, and
    [replace_all], which puts the closure's result in the place of each match
    (the closure sees the first capture group). *)
Class JsonSecret := {
  is_match : bytes -> bool;
  replace_all : bytes -> (bytes -> bytes) -> bytes }.

Record Redactor := mkRedactor { reveal : bool }.

Definition new (reveal : bool) : Redactor := mkRedactor reveal.
Definition default : Redactor := new false.

(** ** Sensitive names *)

Definition sensitive_names : list bytes :=
  [lit "authorization"; lit "proxy-authorization"; lit "cookie"; lit "set-cookie"; lit "x-api-key";
   lit "x-auth-token"; lit "password"; lit "passwd"; lit "token"; lit "secret"; lit "api_key";
   lit "api-key"; lit "apikey"; lit "access_token"; lit "access-token"; lit "refresh_token";
   lit "refresh-token"; lit "client_secret"; lit "client-secret"; lit "private_key";
   lit "private-key"; lit "session_id"; lit "session-id"; lit "jwt"; lit "grpc-message"].

Definition sensitive_suffixes : list bytes :=
  [lit "_password"; lit "-password"; lit "_token"; lit "-token"; lit "_secret"; lit "-secret";
   lit "_api_key"; lit "-api-key"; lit "_private_key"; lit "-private-key"].

Definition is_sensitive_name (name : bytes) : bool :=
  let name := to_ascii_lowercase (trim name) in
  existsb (bytes_eqb name) sensitive_names
  || existsb (fun suffix => ends_with suffix name) sensitive_suffixes.

(** ** Percent-encoded names and pairs *)

Definition hex (b : byte) : option Z :=
  if in_range 48 57 b then Some (byte_val b - 48)
  else if in_range 97 102 b then Some (byte_val b - 97 + 10)
  else if in_range 65 70 b then Some (byte_val b - 65 + 10)
  else None.

(** The loop of [percent_decode_name], before the lossy conversion. *)
Fixpoint percent_decode (s : bytes) : bytes :=
  match s with
  | [] => []
  | b :: r =>
      let plain := (if b =b "+"%byte then " "%byte else b) :: percent_decode r in
      if b =b "%"%byte then
        match r with
        | h :: l :: r' =>
            match hex h, hex l with
            | Some high, Some low => byte_of (high * 16 + low) :: percent_decode r'
            | _, _ => plain
            end
        | _ => plain
        end
      else plain
  end.

Definition percent_decode_name (value : bytes) : bytes := from_utf8_lossy (percent_decode value).

(** One pair of [redact_pairs]: what it becomes, and whether it was sensitive. *)
Definition redact_pair (pair : bytes) : bytes * bool :=
  let '(name, value) := match split_once "="%byte pair with Some nv => nv | None => (pair, []) end in
  if is_sensitive_name (percent_decode_name name) then (name ++ lit "=" ++ REPLACEMENT, true)
  else if contains (lit "=") pair then (name ++ lit "=" ++ value, false)
  else (name, false).

Definition redact_pairs (value : bytes) (separator : byte) : bytes * bool :=
  let pairs := map redact_pair (split_on (Byte.eqb separator) value) in
  (join [separator] (map fst pairs), existsb snd pairs).

Definition redact_start_line (start_line : bytes) : bytes * bool :=
  match split_whitespace start_line with
  | method :: target :: version :: _ =>
      if starts_with (lit "HTTP/") method || negb (starts_with (lit "HTTP/") version) then
        (start_line, false)
      else
        match split_once "?"%byte target with
        | None => (start_line, false)
        | Some (path, query) =>
            let '(query, fragment) :=
              match split_once "#"%byte query with
              | Some (query, fragment) => (query, Some fragment)
              | None => (query, None)
              end in
            let '(safe, changed) := redact_pairs query "&"%byte in
            if changed then
              (method ++ lit " " ++ path ++ lit "?" ++ safe
               ++ match fragment with Some f => lit "#" ++ f | None => [] end
               ++ lit " " ++ version, true)
            else (start_line, false)
        end
  | _ => (start_line, false)
  end.

(** ** SQL literals *)

(** How many bytes a quoted run takes behind its opening quote: up to the
    closing quote, doubled quotes inside, or to the end of the text. *)
Fixpoint quoted_len (q : byte) (s : bytes) : nat :=
  match s with
  | [] => 0
  | c :: r =>
      if c =b q then
        match r with
        | d :: r' => if d =b q then S (S (quoted_len q r')) else 1
        | [] => 1
        end
      else S (quoted_len q r)
  end.

(** [dollar_delimiter_end]: the loop over the bytes behind the first. *)
Fixpoint delimiter_tail (offset : nat) (s : bytes) : option nat :=
  match s with
  | [] => None
  | b :: r =>
      if b =b "$"%byte then Some (offset + 1)%nat
      else if negb (is_ascii_alphanumeric b) && negb (b =b "_"%byte) then None
      else delimiter_tail (S offset) r
  end.
Definition dollar_delimiter_end (s : bytes) : option nat :=
  match s with
  | b :: r => if b =b "$"%byte then delimiter_tail 1 r else None
  | [] => None
  end.

Definition number_byte (b : byte) : bool :=
  is_ascii_digit b || (b =b "."%byte) || (b =b "e"%byte) || (b =b "E"%byte)
  || (b =b "+"%byte) || (b =b "-"%byte).

Fixpoint number_len (s : bytes) : nat :=
  match s with
  | b :: r => if number_byte b then S (number_len r) else 0
  | [] => 0
  end.

(** [is_number_start(bytes, index)], given the byte before [index] and the
    bytes from it on. *)
Definition is_number_start (previous : option byte) (s : bytes) : bool :=
  match s with
  | [] => false
  | c :: r =>
      is_ascii_digit c
      && negb (match previous with
               | Some b => is_ascii_alphanumeric b || (b =b "_"%byte) || (b =b "$"%byte)
               | None => false
               end)
      && negb (match r with
               | b :: _ => is_ascii_alphabetic b || (b =b "_"%byte) || (b =b "$"%byte)
               | [] => false
               end)
  end.

(** The bytes of the next character of a valid text. *)
Definition char_len (s : bytes) : nat := match utf8_next s with Valid n => n | Invalid _ => 1 end.

(** One round of the loop of [redact_sql_literals] at a non-empty [s]: the
    bytes it moves past, the text it pushes, and whether it changed it. *)
Definition sql_token (previous : option byte) (s : bytes) : nat * bytes * bool :=
  let otherwise :=
    if is_number_start previous s then (S (number_len (drop 1 s)), lit "?", true)
    else (char_len s, take (char_len s) s, false) in
  match s with
  | [] => (0%nat, [], false)
  | c :: r =>
      if c =b x22 then
        let n := S (quoted_len x22 r) in (n, take n s, false)
      else if c =b "'"%byte then (S (quoted_len "'"%byte r), lit "'?'", true)
      else if starts_with (lit "--") s then
        match position (Byte.eqb x0a) s with
        | Some offset => (S offset, lit "-- [REDACTED]" ++ [x0a], true)
        | None => (length s, lit "-- [REDACTED]", true)
        end
      else if starts_with (lit "/*") s then
        (match find_bytes (drop 2 s) (lit "*/") with
         | Some offset => (2 + offset + 2)%nat
         | None => length s
         end, lit "/* [REDACTED] */", true)
      else if c =b "$"%byte then
        match dollar_delimiter_end s with
        | Some n =>
            match find_bytes (drop n s) (take n s) with
            | Some content => ((n + content + n)%nat, take n s ++ lit "?" ++ take n s, true)
            | None => otherwise
            end
        | None => otherwise
        end
      else otherwise
  end.

(** The loop: the byte behind the cursor, the rest of the text, the output. *)
Record SqlScan := mkScan { previous : option byte; rest : bytes; safe : bytes; changed : bool }.

Definition sql_step (st : SqlScan) : SqlScan + (bytes * bool) :=
  match rest st with
  | [] => inr (safe st, changed st)
  | _ =>
      let '(n, out, ch) := sql_token (previous st) (rest st) in
      inl (mkScan (rest st !! (n - 1)%nat) (drop n (rest st)) (safe st ++ out) (changed st || ch))
  end.

Definition redact_sql_literals (sql : bytes) : bytes * bool :=
  iterate (fun st => length (rest st)) sql_step (fun st => (safe st, changed st))
    (mkScan None sql [] false).

(** ** Redis *)

Definition arg_at (arguments : list bytes) (i : nat) : bytes :=
  match arguments !! i with Some v => v | None => [] end.

(** [matches!(command, ...)] on string literals. *)
Definition among (s : bytes) (names : list string) : bool := existsb (fun n => s =s lit n) names.

Definition value_is (v : option bytes) (w : string) : bool :=
  match v with Some v => eq_ignore_ascii_case v (lit w) | None => false end.

Definition redis_argument_is_sensitive (command : bytes) (position : nat) (arguments : list bytes) :
    bool :=
  if among command ["AUTH"%string] then true
  else if among command ["HELLO"%string] then
    (0 <? position)%nat && value_is (arguments !! (position - 2)%nat) "AUTH"
  else if among command ["SET"; "SETNX"; "GETSET"; "APPEND"; "SETRANGE"; "SETEX"; "PSETEX"]%string then
    (0 <? position)%nat
  else if among command ["MSET"; "MSETNX"]%string then (position mod 2 =? 1)%nat
  else if among command ["HSET"; "HSETNX"; "HMSET"]%string then
    (2 <=? position)%nat && (position mod 2 =? 0)%nat
  else if among command ["JSON.SET"%string] then (2 <=? position)%nat
  else if among command ["EVAL"; "EVALSHA"; "FCALL"; "FCALL_RO"]%string then true
  else if among command ["CONFIG"%string] then
    value_is (arguments !! 0%nat) "SET" && (2 <=? position)%nat
  else if among command ["ACL"%string] then
    value_is (arguments !! 0%nat) "SETUSER" &&
    match arguments !! position with
    | Some (b :: _) => (b =b ">"%byte) || (b =b "#"%byte) || (b =b "<"%byte)
    | _ => false
    end
  else
    let current := arg_at arguments position in
    let previous := match position with O => [] | S i => arg_at arguments i end in
    is_sensitive_name current || is_sensitive_name previous
    || among (to_ascii_uppercase previous) ["AUTH"; "AUTH2"]%string.

Definition name_is (n : string) (header : bytes * bytes) : bool :=
  eq_ignore_ascii_case (fst header) (lit n).

(** The values of the [redis-arg] headers, in order. *)
Definition redis_args (headers : list (bytes * bytes)) : list bytes :=
  map snd (List.filter (name_is "redis-arg") headers).

(** The loop over the [redis-arg] headers; [arguments] is the snapshot taken
    before it and [position] counts the arguments passed. *)
Fixpoint redact_args (command : bytes) (arguments : list bytes) (position : nat)
    (headers : list (bytes * bytes)) : list (bytes * bytes) * bool :=
  match headers with
  | [] => ([], false)
  | (name, value) :: rest =>
      if name_is "redis-arg" (name, value) then
        let '(rest', changed) := redact_args command arguments (S position) rest in
        if redis_argument_is_sensitive command position arguments && negb (value =s REPLACEMENT)
        then ((name, REPLACEMENT) :: rest', true)
        else ((name, value) :: rest', changed)
      else
        let '(rest', changed) := redact_args command arguments position rest in
        ((name, value) :: rest', changed)
  end.

Definition with_headers (m : DecodedMessage) (line : bytes) (hs : list (bytes * bytes)) :
    DecodedMessage :=
  mkDecoded (direction m) line hs (body m) (truncated m).

Definition with_body (m : DecodedMessage) (b : bytes) : DecodedMessage :=
  mkDecoded (direction m) (start_line m) (headers m) b (truncated m).

Definition redact_redis (m : DecodedMessage) : DecodedMessage * bool :=
  match List.find (name_is "redis-command") (headers m) with
  | None => (m, false)
  | Some (_, value) =>
      let command := to_ascii_uppercase value in
      let '(hs, changed) := redact_args command (redis_args (headers m)) 0 (headers m) in
      let safe_arguments := redis_args hs in
      let line := match safe_arguments with
                  | [] => lit "Redis " ++ command
                  | _ => lit "Redis " ++ command ++ lit " " ++ join (lit " ") safe_arguments
                  end in
      (with_headers m line hs, changed)
  end.

(** ** The policy *)

(** [headers.iter().any(|(name, value)| ...)] on a name and a value. *)
Definition has_header (m : DecodedMessage) (n v : string) : bool :=
  existsb (fun '(name, value) => eq_ignore_ascii_case name (lit n) && eq_ignore_ascii_case value (lit v))
    (headers m).

Definition is_error_text (name : bytes) : bool :=
  existsb (bytes_eqb (to_ascii_lowercase name))
    [lit "message"; lit "detail"; lit "hint"; lit "where"].

(** The body of the loop over the headers. *)
Definition redact_header (postgres : bool) (header : bytes * bytes) : (bytes * bytes) * bool :=
  let '(name, value) := header in
  if is_sensitive_name name && negb (value =s REPLACEMENT) then ((name, REPLACEMENT), true)
  else if postgres && is_error_text name then
    let '(safe, changed) := redact_sql_literals value in
    if changed then ((name, safe), true) else ((name, value), false)
  else ((name, value), false).

(** A body that is text, put through a text redaction. *)
Definition redact_text_body (f : bytes -> bytes * bool) (m : DecodedMessage) (redacted : bool) :
    RedactionOutcome :=
  match from_utf8 (body m) with
  | Some text =>
      let '(safe, changed) := f text in
      if changed then mkOutcome (with_body m safe) true else mkOutcome m redacted
  | None => mkOutcome m redacted
  end.

Section Policy.
Context `{JsonSecret}.

Definition redact_json (text : bytes) : bytes * bool :=
  if is_match text then
    (replace_all text (fun capture => capture ++ [x22] ++ REPLACEMENT ++ [x22]), true)
  else (text, false).

(** The last part of [redact]: the body, by the protocol and content type. *)
Definition redact_body (m : DecodedMessage) (redacted postgres redis grpc sql_body : bool) :
    RedactionOutcome :=
  if sql_body then redact_text_body redact_sql_literals m redacted
  else if redis then
    if has_header m "lens-content" "redis-value" && negb (body m =s []) then
      mkOutcome (with_body m REPLACEMENT) true
    else mkOutcome m redacted
  else if grpc && has_header m "lens-content" "protobuf" && negb (body m =s []) then
    mkOutcome (with_body m REPLACEMENT) true
  else
    let content_type :=
      match List.find (name_is "content-type") (headers m) with
      | Some (_, value) => to_ascii_lowercase value
      | None => []
      end in
    if contains (lit "application/x-www-form-urlencoded") content_type then
      redact_text_body (fun text => redact_pairs text "&"%byte) m redacted
    else if contains (lit "json") content_type
            || match body m with b :: _ => (b =b "{"%byte) || (b =b "["%byte) | [] => false end then
      redact_text_body redact_json m redacted
    else mkOutcome m redacted.

Definition redact (r : Redactor) (m : DecodedMessage) : RedactionOutcome :=
  if reveal r then mkOutcome m false
  else
    let postgres := has_header m "lens-protocol" "postgres" in
    let redis := has_header m "lens-protocol" "redis" in
    let grpc := has_header m "lens-protocol" "grpc" in
    let sql_body := postgres && has_header m "lens-content" "sql" in
    let '(m, redacted) :=
      if redis then redact_redis m
      else let '(line, changed) := redact_start_line (start_line m) in
           (with_headers m line (headers m), changed) in
    let hs := map (redact_header postgres) (headers m) in
    let m := with_headers m (start_line m) (map fst hs) in
    redact_body m (redacted || existsb snd hs) postgres redis grpc sql_body.
End Policy.

(** ** The SQL scanner *)

Lemma utf8_next_pos s n : utf8_next s = Valid n -> (0 < n)%nat.
Proof. unfold utf8_next. repeat case_match; intros [= <-]; lia. Qed.

Lemma redact_char_len_pos s : (0 < char_len s)%nat.
Proof. unfold char_len. destruct (utf8_next s) eqn:E; [by eapply utf8_next_pos|lia]. Qed.

(** Every round of the scanner moves on. *)
Lemma sql_token_pos p c s n out ch : sql_token p (c :: s) = (n, out, ch) -> (0 < n)%nat.
Proof.
  assert (forall n out ch,
    (if is_number_start p (c :: s) then (S (number_len (drop 1 (c :: s))), lit "?", true)
     else (char_len (c :: s), take (char_len (c :: s)) (c :: s), false)) = (n, out, ch) -> (0 < n)%nat) as Hother.
  { intros n' out' ch'. case_match; intros [= <- <- <-]; [lia|apply redact_char_len_pos]. }
  unfold sql_token. destruct (c =b x22); [intros [= <- <- <-]; lia|].
  destruct (c =b "'"%byte); [intros [= <- <- <-]; lia|].
  destruct (starts_with (lit "--") (c :: s)).
  { destruct (position _ _); intros [= <- <- <-]; simpl; lia. }
  destruct (starts_with (lit "/*") (c :: s)).
  { destruct (find_bytes _ _); intros [= <- <- <-]; simpl; lia. }
  destruct (c =b "$"%byte); [|by apply Hother].
  destruct (dollar_delimiter_end (c :: s)) as [k|] eqn:Ed; [|by apply Hother].
  destruct (find_bytes _ _); [|by apply Hother]. intros [= <- <- <-].
  enough (0 < k)%nat by lia. unfold dollar_delimiter_end in Ed. destruct (c =b "$"%byte); [|done].
  clear -Ed. revert Ed. generalize 1%nat as i. induction s as [|b s IH]; intros i; simpl; [done|].
  destruct (b =b "$"%byte); [intros [= <-]; lia|]. case_match; [done|]. apply IH.
Qed.

#[local] Abbreviation scan st :=
  (iterate (fun x => length (rest x)) sql_step (fun x => (safe x, changed x)) st).

Lemma sql_decreasing : decreasing (fun st => length (rest st)) sql_step (fun _ => True).
Proof.
  intros [p s o c] st' _. unfold sql_step. cbn [rest previous safe changed].
  destruct s as [|b s]; [done|]. destruct (sql_token p (b :: s)) as [[n out] ch] eqn:E.
  intros [= <-]. apply sql_token_pos in E. split; [done|]. cbn [rest]. rewrite length_drop.
  simpl. lia.
Qed.

Lemma scan_unfold st :
  scan st = match sql_step st with inl st' => scan st' | inr r => r end.
Proof. by apply (iterate_unfold _ _ (fun _ => True)); [apply sql_decreasing|]. Qed.

(** What the scanner says of a text behind a given byte. *)
Definition sql_scan (p : option byte) (s : bytes) : bytes * bool := scan (mkScan p s [] false).

Lemma scan_output p s o c :
  scan (mkScan p s o c) = (o ++ fst (sql_scan p s), c || snd (sql_scan p s)).
Proof.
  unfold sql_scan. revert p o c.
  induction s as [s IH] using (induction_ltof1 _ (@length byte)); unfold ltof in IH; intros p o c.
  rewrite !scan_unfold. unfold sql_step. cbn [rest previous safe changed].
  destruct s as [|b s]; [cbn; by rewrite app_nil_r, orb_false_r|].
  destruct (sql_token p (b :: s)) as [[n out] ch] eqn:E. apply sql_token_pos in E.
  assert (length (drop n (b :: s)) < length (b :: s))%nat by (rewrite length_drop; simpl; lia).
  rewrite (IH _ H _ (o ++ out)), (IH _ H _ ([] ++ out)). simpl.
  by rewrite <- app_assoc, orb_assoc.
Qed.

(** The equation of the scanner's loop. *)
Lemma sql_scan_unfold p s :
  sql_scan p s = match s with
                 | [] => ([], false)
                 | _ => let '(n, out, ch) := sql_token p s in
                        let r := sql_scan (s !! (n - 1)%nat) (drop n s) in
                        (out ++ fst r, ch || snd r)
                 end.
Proof.
  unfold sql_scan at 1. rewrite scan_unfold. unfold sql_step. cbn [rest previous safe changed].
  destruct s as [|b s]; [done|]. destruct (sql_token p (b :: s)) as [[n out] ch].
  by rewrite scan_output.
Qed.

(** *** The lexical structure of a SQL text *)

Inductive Segment :=
| Plain (c : byte)                     (** a character outside literals *)
| Ident (content : bytes)              (** a double-quoted identifier *)
| Literal (content : bytes)            (** a string literal, quotes doubled *)
| LineComment (content : bytes)        (** up to and with the line feed *)
| BlockComment (content : bytes)
| DollarQuoted (tag content : bytes)
| Number (first : byte) (more : bytes).

(** A text with its quotes doubled. *)
Definition doubled (q : byte) (s : bytes) : bytes :=
  concat (map (fun b => if b =b q then [q; q] else [b]) s).

Definition delimiter (tag : bytes) : bytes := lit "$" ++ tag ++ lit "$".

(** The text of a segment in the query, and what is left of it. *)
Definition segment_text (g : Segment) : bytes :=
  match g with
  | Plain c => [c]
  | Ident content => [x22] ++ doubled x22 content ++ [x22]
  | Literal content => lit "'" ++ doubled "'"%byte content ++ lit "'"
  | LineComment content => lit "--" ++ content ++ [x0a]
  | BlockComment content => lit "/*" ++ content ++ lit "*/"
  | DollarQuoted tag content => delimiter tag ++ content ++ delimiter tag
  | Number first more => first :: more
  end.

Definition segment_shown (g : Segment) : bytes :=
  match g with
  | Plain _ | Ident _ => segment_text g
  | Literal _ => lit "'?'"
  | LineComment _ => lit "-- [REDACTED]" ++ [x0a]
  | BlockComment _ => lit "/* [REDACTED] */"
  | DollarQuoted tag _ => delimiter tag ++ lit "?" ++ delimiter tag
  | Number _ _ => lit "?"
  end.

Definition segment_hidden (g : Segment) : bool :=
  match g with Plain _ | Ident _ => false | _ => true end.

Definition head_is (f : byte -> bool) (s : bytes) : bool :=
  match s with b :: _ => f b | [] => false end.

Definition word_byte (b : byte) : bool := is_ascii_alphanumeric b || (b =b "_"%byte).

(** Whether a segment stands for itself between the byte [p] and the text
    [tail]: it opens nothing else, and nothing after it extends it. *)
Definition segment_ok (p : option byte) (g : Segment) (tail : bytes) : bool :=
  let in_word := match p with Some b => word_byte b || (b =b "$"%byte) | None => false end in
  match g with
  | Plain c =>
      (byte_val c <? 128) && negb (c =b x22) && negb (c =b "'"%byte)
      && negb ((c =b "-"%byte) && head_is (Byte.eqb "-"%byte) tail)
      && negb ((c =b "/"%byte) && head_is (Byte.eqb "*"%byte) tail)
      && (negb (c =b "$"%byte) || negb (bool_decide (is_Some (delimiter_tail 1 tail))))
      && (negb (is_ascii_digit c) || in_word)
  | Ident _ => negb (head_is (Byte.eqb x22) tail)
  | Literal _ => negb (head_is (Byte.eqb "'"%byte) tail)
  | LineComment content => negb (existsb (Byte.eqb x0a) content)
  | BlockComment content =>
      bool_decide (find_bytes (content ++ lit "*/") (lit "*/") = Some (length content))
  | DollarQuoted tag content =>
      forallb word_byte tag &&
      bool_decide (find_bytes (content ++ delimiter tag) (delimiter tag) = Some (length content))
  | Number first more =>
      is_ascii_digit first && forallb number_byte more && negb in_word
      && negb (head_is (fun b => is_ascii_alphabetic b || (b =b "_"%byte) || (b =b "$"%byte)) (more ++ tail))
      && negb (head_is number_byte tail)
  end.

Definition sql_text (gs : list Segment) : bytes := concat (map segment_text gs).

Fixpoint segments_ok (p : option byte) (gs : list Segment) : bool :=
  match gs with
  | [] => true
  | g :: gs =>
      segment_ok p g (sql_text gs)
      && segments_ok (segment_text g !! (length (segment_text g) - 1)%nat) gs
  end.

(** The scanner takes a quoted run, doubled quotes and all. *)
Lemma quoted_len_doubled q content tail :
  head_is (Byte.eqb q) tail = false ->
  quoted_len q (doubled q content ++ q :: tail) = S (length (doubled q content)).
Proof.
  intros Ht. unfold doubled. induction content as [|b content IH]; cbn [map concat app length].
  - cbn [quoted_len]. rewrite byte_eqb_refl. destruct tail as [|d tail]; [done|]. simpl in Ht.
    destruct (d =b q) eqn:E; [|done]. apply byte_eqb_eq in E as ->. by rewrite byte_eqb_refl in Ht.
  - destruct (b =b q) eqn:E; cbn [app quoted_len].
    + rewrite !byte_eqb_refl. by rewrite IH.
    + rewrite E. by rewrite IH.
Qed.

Lemma delimiter_tail_word offset tag tail :
  forallb word_byte tag = true ->
  delimiter_tail offset (tag ++ lit "$" ++ tail) = Some (offset + length tag + 1)%nat.
Proof.
  revert offset; induction tag as [|b tag IH]; intros offset Hw; cbn [app delimiter_tail length].
  - cbn. f_equal. lia.
  - simpl in Hw. apply andb_true_iff in Hw as [Hb Hw].
    destruct (b =b "$"%byte) eqn:E.
    { apply byte_eqb_eq in E as ->. by vm_compute in Hb. }
    unfold word_byte in Hb. rewrite IH by done.
    destruct (is_ascii_alphanumeric b), (b =b "_"%byte); try done; f_equal; lia.
Qed.

Lemma number_len_all more tail :
  forallb number_byte more = true -> head_is number_byte tail = false ->
  number_len (more ++ tail) = length more.
Proof.
  intros Hm Ht. induction more as [|b more IH]; simpl in *.
  - destruct tail as [|b tail]; [done|]. simpl in *. by rewrite Ht.
  - apply andb_true_iff in Hm as [-> Hm]. by rewrite IH.
Qed.

Lemma existsb_position content tail :
  existsb (Byte.eqb x0a) content = false ->
  position (Byte.eqb x0a) (content ++ x0a :: tail) = Some (length content).
Proof.
  induction content as [|b content IH]; [done|]. cbn [existsb app position]. intros Hc.
  apply orb_false_iff in Hc as [-> Hc]. by rewrite IH.
Qed.

Lemma char_len_ascii c s : (byte_val c <? 128) = true -> char_len (c :: s) = 1%nat.
Proof. intros Hc. unfold char_len, utf8_next. by rewrite Hc. Qed.

(** The scanner's round on a character that stands for itself. *)
Lemma plain_token p c tail :
  segment_ok p (Plain c) tail = true -> sql_token p (c :: tail) = (1%nat, [c], false).
Proof.
  cbn [segment_ok]. rewrite !andb_true_iff, !negb_true_iff.
  intros ((((((H128 & Hdq) & Hq) & Hdash) & Hslash) & Hdollar) & Hdigit).
  assert (Hother :
    (if is_number_start p (c :: tail) then (S (number_len (drop 1 (c :: tail))), lit "?", true)
     else (char_len (c :: tail), take (char_len (c :: tail)) (c :: tail), false)) = (1%nat, [c], false)).
  { rewrite char_len_ascii by done. destruct (is_number_start p (c :: tail)) eqn:E; [|done].
    unfold is_number_start in E. rewrite !andb_true_iff, !negb_true_iff in E.
    destruct E as [[Hd Hp] _]. rewrite Hd in Hdigit. simpl in Hdigit. unfold word_byte in Hdigit.
    by rewrite Hdigit in Hp. }
  unfold sql_token. rewrite Hdq, Hq.
  destruct (starts_with (lit "--") (c :: tail)) eqn:E1.
  { change (starts_with _ _) with (("-"%byte =b c) && starts_with (lit "-") tail) in E1.
    apply andb_true_iff in E1 as [Hc Ht]. apply byte_eqb_eq in Hc as <-.
    destruct tail as [|d tail]; [done|]. cbn in Ht, Hdash. rewrite andb_true_r in Ht. congruence. }
  destruct (starts_with (lit "/*") (c :: tail)) eqn:E2.
  { change (starts_with _ _) with (("/"%byte =b c) && starts_with (lit "*") tail) in E2.
    apply andb_true_iff in E2 as [Hc Ht]. apply byte_eqb_eq in Hc as <-.
    destruct tail as [|d tail]; [done|]. cbn in Ht, Hslash. rewrite andb_true_r in Ht. congruence. }
  destruct (c =b "$"%byte) eqn:E3; [|exact Hother].
  unfold dollar_delimiter_end. rewrite E3. simpl in Hdollar.
  apply negb_true_iff, bool_decide_eq_false in Hdollar.
  destruct (delimiter_tail 1 tail); [by destruct Hdollar|exact Hother].
Qed.

(** The scanner's round on a number. *)
Lemma number_token p first more tail :
  segment_ok p (Number first more) tail = true ->
  sql_token p ((first :: more) ++ tail) = (S (length more), lit "?", true).
Proof.
  cbn [segment_ok app]. rewrite !andb_true_iff, !negb_true_iff.
  intros ((((Hd & Hm) & Hp) & Hn) & Ht).
  assert (Hns : is_number_start p (first :: more ++ tail) = true).
  { unfold is_number_start. rewrite Hd. unfold word_byte in Hp.
    rewrite Hp. unfold head_is in Hn. by rewrite Hn. }
  assert (Hc : forall b, is_ascii_digit first = true -> is_ascii_digit b = false -> (first =b b) = false).
  { intros b H1 H2. apply byte_eqb_neq. intros ->. congruence. }
  unfold sql_token. rewrite !Hc by done.
  assert (E1 : starts_with (lit "--") (first :: more ++ tail) = false).
  { change (starts_with _ _) with (("-"%byte =b first) && starts_with (lit "-") (more ++ tail)).
    apply andb_false_iff. left. apply byte_eqb_neq. intros <-. by vm_compute in Hd. }
  assert (E2 : starts_with (lit "/*") (first :: more ++ tail) = false).
  { change (starts_with _ _) with (("/"%byte =b first) && starts_with (lit "*") (more ++ tail)).
    apply andb_false_iff. left. apply byte_eqb_neq. intros <-. by vm_compute in Hd. }
  rewrite E1, E2, Hns. cbn [drop]. by rewrite drop_0, number_len_all.
Qed.

Lemma quoted_text q content tail :
  ([q] ++ doubled q content ++ [q]) ++ tail = q :: doubled q content ++ q :: tail.
Proof. cbn [app]. by rewrite <- app_assoc. Qed.

Lemma quoted_length q content : length ([q] ++ doubled q content ++ [q]) = S (S (length (doubled q content))).
Proof. len. Qed.

Lemma sql_token_line p r k :
  position (Byte.eqb x0a) ("-"%byte :: "-"%byte :: r) = Some k ->
  sql_token p ("-"%byte :: "-"%byte :: r) = (S k, lit "-- [REDACTED]" ++ [x0a], true).
Proof.
  intros Hp. unfold sql_token.
  change (starts_with (lit "--") ("-"%byte :: "-"%byte :: r)) with true.
  change ("-"%byte =b x22) with false. change ("-"%byte =b "'"%byte) with false. cbv iota.
  by rewrite Hp.
Qed.

Lemma sql_token_block p r k :
  find_bytes r (lit "*/") = Some k ->
  sql_token p ("/"%byte :: "*"%byte :: r) = ((2 + k + 2)%nat, lit "/* [REDACTED] */", true).
Proof.
  intros Hf. unfold sql_token.
  change (starts_with (lit "--") ("/"%byte :: "*"%byte :: r)) with false.
  change (starts_with (lit "/*") ("/"%byte :: "*"%byte :: r)) with true.
  change ("/"%byte =b x22) with false. change ("/"%byte =b "'"%byte) with false. cbv iota.
  cbn [drop]. by rewrite drop_0, Hf.
Qed.

Lemma sql_token_dollar p r n k :
  dollar_delimiter_end ("$"%byte :: r) = Some n ->
  find_bytes (drop n ("$"%byte :: r)) (take n ("$"%byte :: r)) = Some k ->
  sql_token p ("$"%byte :: r)
  = ((n + k + n)%nat, take n ("$"%byte :: r) ++ lit "?" ++ take n ("$"%byte :: r), true).
Proof.
  intros Hd Hf. unfold sql_token.
  change (starts_with (lit "--") ("$"%byte :: r)) with false.
  change (starts_with (lit "/*") ("$"%byte :: r)) with false.
  change ("$"%byte =b x22) with false. change ("$"%byte =b "'"%byte) with false.
  change ("$"%byte =b "$"%byte) with true. cbv iota. by rewrite Hd, Hf.
Qed.

Lemma dollar_token p tag content tail :
  segment_ok p (DollarQuoted tag content) tail = true ->
  sql_token p ((delimiter tag ++ content ++ delimiter tag) ++ tail)
  = (length (delimiter tag ++ content ++ delimiter tag),
     delimiter tag ++ lit "?" ++ delimiter tag, true).
Proof.
  cbn [segment_ok]. rewrite andb_true_iff, bool_decide_eq_true. intros [Hw Hf].
  set (s := (delimiter tag ++ content ++ delimiter tag) ++ tail).
  assert (Hs : s = "$"%byte :: tag ++ lit "$" ++ content ++ delimiter tag ++ tail)
    by (unfold s, delimiter; by rewrite <- !app_assoc).
  assert (Hend : dollar_delimiter_end s = Some (length (delimiter tag))).
  { rewrite Hs. unfold dollar_delimiter_end. rewrite byte_eqb_refl, delimiter_tail_word by done.
    unfold delimiter. f_equal. rewrite !length_app. cbn. lia. }
  assert (Hfind : find_bytes (drop (length (delimiter tag)) s) (take (length (delimiter tag)) s)
                  = Some (length content)).
  { unfold s. rewrite <- app_assoc, take_app_length, drop_app_length. by apply find_bytes_app. }
  rewrite Hs in *. rewrite (sql_token_dollar _ _ _ _ Hend Hfind), <- Hs. unfold s.
  rewrite <- app_assoc, take_app_length. do 2 f_equal. len.
Qed.

(** Each segment is one round, and what is pushed is what may be shown. *)
Lemma segment_token p g tail :
  segment_ok p g tail = true ->
  sql_token p (segment_text g ++ tail)
  = (length (segment_text g), segment_shown g, segment_hidden g).
Proof.
  destruct g as [c|content|content|content|content|tag content|first more].
  - intros Hok. by apply plain_token.
  - cbn [segment_ok segment_text segment_shown segment_hidden]. rewrite negb_true_iff. intros Ht.
    rewrite quoted_text. unfold sql_token. rewrite byte_eqb_refl, quoted_len_doubled by done.
    rewrite <- quoted_text, <- quoted_length. by rewrite take_app_length.
  - cbn [segment_ok segment_text segment_shown segment_hidden]. rewrite negb_true_iff. intros Ht.
    change (lit "'") with ["'"%byte]. rewrite quoted_text, quoted_length. unfold sql_token.
    change ("'"%byte =b x22) with false. by rewrite byte_eqb_refl, quoted_len_doubled.
  - cbn [segment_ok segment_text segment_shown segment_hidden]. rewrite negb_true_iff. intros Hc.
    rewrite <- !app_assoc. change (lit "--" ++ ?x) with ("-"%byte :: "-"%byte :: x).
    rewrite (sql_token_line _ _ (S (S (length content)))) by (cbn; by rewrite existsb_position).
    do 2 f_equal. len.
  - cbn [segment_ok segment_text segment_shown segment_hidden]. rewrite bool_decide_eq_true. intros Hf.
    apply (find_bytes_app _ _ tail) in Hf. rewrite <- !app_assoc in *.
    change (lit "/*" ++ ?x) with ("/"%byte :: "*"%byte :: x).
    rewrite (sql_token_block _ _ _ Hf). do 2 f_equal. cbn. rewrite length_app. cbn. lia.
  - apply dollar_token.
  - apply number_token.
Qed.

Lemma segment_text_pos g : (0 < length (segment_text g))%nat.
Proof. destruct g; cbn; lia. Qed.

Lemma sql_scan_segments p gs :
  segments_ok p gs = true ->
  sql_scan p (sql_text gs) = (concat (map segment_shown gs), existsb segment_hidden gs).
Proof.
  revert p; induction gs as [|g gs IH]; intros p Hok; [done|].
  cbn [segments_ok] in Hok. apply andb_true_iff in Hok as [Hg Hok].
  unfold sql_text in *. cbn [map concat existsb]. rewrite sql_scan_unfold, segment_token by done.
  pose proof (segment_text_pos g).
  rewrite lookup_app_l by lia. rewrite drop_app_length, IH by done.
  destruct (segment_text g); [simpl in *; lia|done].
Qed.

(** C16. SQL redaction is exact on the lexical structure of a query: string
    literals, dollar-quoted strings, numbers and comments are replaced by
    placeholders whatever they contain, quoted identifiers and everything
    else are kept as they are, and the result says whether anything was
    replaced. *)
Theorem redact_sql_exact (gs : list Segment) :
  segments_ok None gs = true ->
  redact_sql_literals (sql_text gs) = (concat (map segment_shown gs), existsb segment_hidden gs).
Proof. apply (sql_scan_segments None). Qed.

(** [WHERE n='it''s me' AND x>42 -- why] *)
Definition sample_sql : list Segment :=
  map Plain (lit "WHERE n=") ++ [Literal (lit "it's me")] ++ map Plain (lit " AND t1>")
  ++ [Number "4"%byte (lit "2.5"); Plain " "%byte; LineComment (lit " why")].

Lemma redact_sql_exact_witness :
  redact_sql_literals (sql_text sample_sql)
  = (lit "WHERE n='?' AND t1>? -- [REDACTED]" ++ [x0a], true).
Proof. rewrite (redact_sql_exact sample_sql); vm_compute; reflexivity. Defined.

(** ** Sensitive names do not depend on letter case *)

Lemma nth_is_lower f s i :
  (forall b, f (lower_byte b) = f b) -> nth_is f (to_ascii_lowercase s) i = nth_is f s i.
Proof.
  intros Hf. unfold nth_is, to_ascii_lowercase. rewrite list_lookup_fmap.
  destruct (s !! i); simpl; [apply Hf|done].
Qed.

Lemma byte_fun_eq (f g : byte -> bool) :
  forallb (fun b => Bool.eqb (f b) (g b)) (map (fun n => byte_of (Z.of_nat n)) (seq 0 256)) = true ->
  forall b, f b = g b.
Proof. intros H b. apply eqb_prop. exact (byte_all (fun b => Bool.eqb (f b) (g b)) H b). Qed.

(** White space is the same in a text and its lower-case form. *)
Lemma ws_len_lower s : ws_len (to_ascii_lowercase s) = ws_len s.
Proof.
  destruct s as [|b r]; [done|]. unfold ws_len. cbn [to_ascii_lowercase map]. fold (to_ascii_lowercase r).
  rewrite !(nth_is_lower _ r) by (apply byte_fun_eq; by vm_compute).
  rewrite (byte_fun_eq (fun b => in_range 9 13 (lower_byte b) || (lower_byte b =b x20))
             (fun b => in_range 9 13 b || (b =b x20)) ltac:(by vm_compute) b).
  rewrite (byte_fun_eq (fun b => lower_byte b =b xc2) (fun b => b =b xc2) ltac:(by vm_compute) b).
  rewrite (byte_fun_eq (fun b => lower_byte b =b xe1) (fun b => b =b xe1) ltac:(by vm_compute) b).
  rewrite (byte_fun_eq (fun b => lower_byte b =b xe2) (fun b => b =b xe2) ltac:(by vm_compute) b).
  by rewrite (byte_fun_eq (fun b => lower_byte b =b xe3) (fun b => b =b xe3) ltac:(by vm_compute) b).
Qed.

Lemma trim_start_lower s : trim_start (to_ascii_lowercase s) = to_ascii_lowercase (trim_start s).
Proof.
  unfold trim_start. generalize O as k. induction s as [|b s IH]; intros k; [done|].
  cbn [to_ascii_lowercase map trim_start_go]. destruct k; [|apply IH].
  change (lower_byte b :: map lower_byte s) with (to_ascii_lowercase (b :: s)). rewrite ws_len_lower.
  destruct (ws_len (b :: s)); [done|apply IH].
Qed.

Lemma trim_end_lower s : trim_end (to_ascii_lowercase s) = to_ascii_lowercase (trim_end s).
Proof.
  induction s as [|b s IH]; [done|].
  assert (Hw : all_ws (to_ascii_lowercase (b :: s)) = all_ws (b :: s)).
  { unfold all_ws. rewrite trim_start_lower. by destruct (trim_start (b :: s)). }
  cbn [to_ascii_lowercase map trim_end] in *. fold (to_ascii_lowercase s) in *.
  rewrite Hw. destruct (all_ws (b :: s)); [done|]. by rewrite IH.
Qed.

Lemma is_sensitive_name_case a b :
  eq_ignore_ascii_case a b = true -> is_sensitive_name a = is_sensitive_name b.
Proof.
  unfold eq_ignore_ascii_case. rewrite bytes_eqb_eq. intros Hab. unfold is_sensitive_name, trim.
  by rewrite <- !trim_end_lower, <- !trim_start_lower, Hab.
Qed.

Lemma is_error_text_case a b :
  eq_ignore_ascii_case a b = true -> is_error_text a = is_error_text b.
Proof. unfold eq_ignore_ascii_case, is_error_text. rewrite bytes_eqb_eq. by intros ->. Qed.

(** ** Headers *)

Lemma redact_header_name pg h : fst (fst (redact_header pg h)) = fst h.
Proof. destruct h as [n v]. unfold redact_header. repeat case_match; done. Qed.

Lemma redact_header_sensitive pg h :
  is_sensitive_name (fst h) = true -> snd (fst (redact_header pg h)) = REPLACEMENT \/ is_error_text (fst h) = true.
Proof.
  destruct h as [n v]. unfold redact_header. cbn [fst snd]. intros ->. cbn [andb].
  destruct (v =s REPLACEMENT) eqn:E; cbn [negb]; [|by left].
  apply bytes_eqb_eq in E as ->. destruct (is_error_text n); [by right|]. rewrite andb_false_r. by left.
Qed.

(** No error field of PostgreSQL has a sensitive name. *)
Lemma error_text_not_sensitive n : is_error_text n = true -> is_sensitive_name n = false.
Proof.
  unfold is_error_text. rewrite existsb_exists. intros (w & Hw & He). apply bytes_eqb_eq in He.
  assert (Hc : eq_ignore_ascii_case n w = true).
  { unfold eq_ignore_ascii_case. apply bytes_eqb_eq. rewrite He. simpl in Hw.
    by destruct_or! Hw; subst. }
  rewrite (is_sensitive_name_case _ _ Hc). simpl in Hw. by destruct_or! Hw; subst.
Qed.

Lemma redact_args_names command arguments i hs :
  map fst (fst (redact_args command arguments i hs)) = map fst hs.
Proof.
  revert i; induction hs as [|[n v] hs IH]; intros i; [done|]. cbn [redact_args].
  destruct (name_is _ _); [specialize (IH (S i))|specialize (IH i)];
    destruct (redact_args _ _ _ hs) as [hs' ch]; cbn [fst] in IH; [case_match|]; cbn; by rewrite IH.
Qed.

Lemma redact_redis_names m : map fst (headers (fst (redact_redis m))) = map fst (headers m).
Proof.
  unfold redact_redis. destruct (List.find _ _) as [[n v]|]; [|done].
  pose proof (redact_args_names (to_ascii_uppercase v) (redis_args (headers m)) 0 (headers m)) as H.
  by destruct (redact_args _ _ _ _).
Qed.

Section Outcomes.
Context `{JsonSecret}.

Lemma redact_text_body_headers f m b : headers (message (redact_text_body f m b)) = headers m.
Proof. unfold redact_text_body. by repeat case_match. Qed.

Lemma redact_body_headers m b pg rd gr sq : headers (message (redact_body m b pg rd gr sq)) = headers m.
Proof. unfold redact_body. repeat case_match; by rewrite ?redact_text_body_headers. Qed.

(** Names are kept, sensitive values are not. *)
Lemma redact_headers_hidden (r : Redactor) (m : DecodedMessage) :
  reveal r = false ->
  map fst (headers (message (redact r m))) = map fst (headers m) /\
  Forall (fun '(name, value) => is_sensitive_name name = true -> value = REPLACEMENT)
    (headers (message (redact r m))).
Proof.
  intros Hr. unfold redact. rewrite Hr.
  assert (Hn : map fst (headers (fst (if has_header m "lens-protocol" "redis" then redact_redis m
      else let '(line, changed) := redact_start_line (start_line m) in
           (with_headers m line (headers m), changed)))) = map fst (headers m)).
  { destruct (has_header m "lens-protocol" "redis"); [apply redact_redis_names|].
    by destruct (redact_start_line _). }
  destruct (if has_header m "lens-protocol" "redis" then _ else _) as [m1 red] eqn:E. cbn [fst] in Hn.
  rewrite redact_body_headers. cbn [with_headers headers]. split.
  - rewrite <- Hn, !map_map. apply map_ext. intros h. apply redact_header_name.
  - rewrite List.Forall_map, List.Forall_map. apply Forall_true. intros h.
    pose proof (redact_header_name (has_header m "lens-protocol" "postgres") h) as Hname.
    pose proof (redact_header_sensitive (has_header m "lens-protocol" "postgres") h) as Hs.
    destruct (fst (redact_header _ h)) as [n v]. cbn [fst snd] in *. subst n. intros Hsens.
    destruct (Hs Hsens) as [->|He]; [done|]. apply error_text_not_sensitive in He. congruence.
Qed.

(** Sensitive headers never survive: unless reveal mode is on, every
    header of a redacted message whose name is sensitive (in any letter case,
    with white space around it) has the value [REDACTED], and no header is
    added, dropped, renamed or moved. *)
Theorem redact_headers_safe (r : Redactor) (m : DecodedMessage) :
  reveal r = false ->
  map fst (headers (message (redact r m))) = map fst (headers m) /\
  Forall (fun '(name, value) => is_sensitive_name name = true -> value = REPLACEMENT)
    (headers (message (redact r m))).
Proof. apply redact_headers_hidden. Qed.
End Outcomes.

(** A regular expression that never matches, for the examples below. *)
Definition no_json_secret : JsonSecret := {| is_match _ := false; replace_all s _ := s |}.

Lemma redact_headers_safe_witness :
  map snd (headers (message (@redact no_json_secret (new false)
    (mkDecoded ClientToServer (lit "GET / HTTP/1.1")
       [(lit "Host", lit "a"); (lit " AUTHORIZATION ", lit "Bearer x")] [] false))))
  = [lit "a"; REPLACEMENT].
Proof.
  pose proof (@redact_headers_safe no_json_secret (new false)
    (mkDecoded ClientToServer (lit "GET / HTTP/1.1")
       [(lit "Host", lit "a"); (lit " AUTHORIZATION ", lit "Bearer x")] [] false) eq_refl) as [_ H].
  vm_compute. reflexivity.
Defined.

(** ** Redis commands *)

(** The headers the Redis decoder gives a command. *)
Definition command_headers (command : bytes) (args : list bytes) : list (bytes * bytes) :=
  [(lit "lens-protocol", lit "redis"); (lit "lens-boundary", lit "request");
   (lit "redis-command", command)] ++ map (fun a => (lit "redis-arg", a)) args.

(** The arguments that may be shown. *)
Definition mask (command : bytes) (args : list bytes) : list bytes :=
  imap (fun i a => if redis_argument_is_sensitive command i args then REPLACEMENT else a) args.

Definition command_line (command : bytes) (args : list bytes) : bytes :=
  match args with
  | [] => lit "Redis " ++ command
  | _ => lit "Redis " ++ command ++ lit " " ++ join (lit " ") args
  end.

Lemma redis_args_of command args : redis_args (command_headers command args) = args.
Proof.
  change (redis_args (map (fun a => (lit "redis-arg", a)) args) = args).
  induction args as [|a args IH]; [done|]. by rewrite <- IH at 2.
Qed.

Lemma redact_args_mask command all i args :
  fst (redact_args command all i (map (fun a => (lit "redis-arg", a)) args))
  = map (fun a => (lit "redis-arg", a))
      (imap (fun j a => if redis_argument_is_sensitive command (i + j) all then REPLACEMENT else a) args).
Proof.
  revert i; induction args as [|a args IH]; intros i; [done|].
  cbn [map redact_args imap]. change (name_is "redis-arg" (lit "redis-arg", a)) with true. cbv iota.
  specialize (IH (S i)). destruct (redact_args _ _ _ _) as [hs ch]. cbn [fst] in IH. subst hs.
  rewrite Nat.add_0_r.
  assert (Hs : imap (fun j a => if redis_argument_is_sensitive command (S i + j) all then REPLACEMENT else a) args
    = imap ((fun j a => if redis_argument_is_sensitive command (i + j) all then REPLACEMENT else a) ∘ S) args).
  { apply imap_ext. intros j x _. simpl. by replace (i + S j)%nat with (S (i + j)) by lia. }
  rewrite Hs. destruct (redis_argument_is_sensitive command i all); cbn [andb]; [|done].
  destruct (a =s REPLACEMENT) eqn:E; [|done]. by apply bytes_eqb_eq in E as ->.
Qed.

Lemma redact_redis_command m command args :
  headers m = command_headers command args ->
  fst (redact_redis m)
  = with_headers m (command_line (to_ascii_uppercase command) (mask (to_ascii_uppercase command) args))
      (command_headers command (mask (to_ascii_uppercase command) args)).
Proof.
  intros Hm. unfold redact_redis. rewrite Hm, redis_args_of.
  change (List.find (name_is "redis-command") (command_headers command args))
    with (Some (lit "redis-command", command)). cbv iota.
  pose proof (redact_args_mask (to_ascii_uppercase command) args 0 args) as Ha.
  unfold command_headers at 1. cbn [app redact_args].
  change (name_is "redis-arg" (lit "lens-protocol", _)) with false.
  change (name_is "redis-arg" (lit "lens-boundary", _)) with false.
  change (name_is "redis-arg" (lit "redis-command", _)) with false. cbv iota.
  destruct (redact_args _ _ _ _) as [hs ch]. cbn [fst] in Ha. subst hs. cbn [fst].
  change (map (fun a => (lit "redis-arg", a)) (imap _ args))
    with (map (fun a : bytes => (lit "redis-arg", a)) (mask (to_ascii_uppercase command) args)).
  change ((lit "lens-protocol", lit "redis") :: (lit "lens-boundary", lit "request")
          :: (lit "redis-command", command) :: map ?f ?l)
    with (command_headers command l).
  by rewrite redis_args_of.
Qed.

Lemma command_has_header m command args n v :
  headers m = command_headers command args ->
  eq_ignore_ascii_case (lit "redis-arg") (lit n) = false ->
  eq_ignore_ascii_case (lit "redis-command") (lit n) = false ->
  has_header m n v
  = has_header (with_headers m [] [(lit "lens-protocol", lit "redis"); (lit "lens-boundary", lit "request")]) n v.
Proof.
  intros Hm Ha Hc. unfold has_header. rewrite Hm. unfold command_headers. cbn [headers with_headers].
  rewrite existsb_app. cbn [existsb]. rewrite Hc. cbn [andb orb]. rewrite !orb_false_r.
  assert (existsb (fun '(name, value) => eq_ignore_ascii_case name (lit n) && eq_ignore_ascii_case value (lit v))
    (map (fun a : bytes => (lit "redis-arg", a)) args) = false) as ->.
  { clear Hm. induction args as [|a args IH]; [done|]. cbn [map existsb]. by rewrite Ha, IH. }
  by rewrite orb_false_r.
Qed.

Section RedisOutcomes.
Context `{JsonSecret}.

Lemma redact_headers_other hs :
  forallb (fun h => negb (is_sensitive_name (fst h))) hs = true ->
  map fst (map (redact_header false) hs) = hs.
Proof.
  rewrite map_map. induction hs as [|[n v] hs IH]; [done|]. cbn [forallb fst]. intros Hok.
  apply andb_true_iff in Hok as [Hn Hok]. apply negb_true_iff in Hn. cbn [map]. f_equal; [|by apply IH].
  unfold redact_header. by rewrite Hn.
Qed.

Lemma redact_command_headers command args :
  map fst (map (redact_header false) (command_headers command args)) = command_headers command args.
Proof.
  apply redact_headers_other. unfold command_headers. rewrite forallb_app.
  apply andb_true_iff. split; [by vm_compute|].
  induction args as [|a args IH]; [done|]. cbn [map forallb]. rewrite IH. by vm_compute.
Qed.

Lemma redact_command (r : Redactor) (m : DecodedMessage) (command : bytes) (args : list bytes) :
  reveal r = false -> headers m = command_headers command args ->
  let shown := mask (to_ascii_uppercase command) args in
  message (redact r m)
  = mkDecoded (direction m) (command_line (to_ascii_uppercase command) shown)
      (command_headers command shown) (body m) (truncated m).
Proof.
  intros Hr Hm shown. unfold redact. rewrite Hr.
  rewrite !(command_has_header m command args) by done.
  change (has_header (with_headers m [] _) "lens-protocol" "redis") with true.
  change (has_header (with_headers m [] _) "lens-protocol" "postgres") with false.
  change (has_header (with_headers m [] _) "lens-protocol" "grpc") with false.
  pose proof (redact_redis_command m command args Hm) as Hrr. fold shown in Hrr.
  destruct (redact_redis m) as [m1 red]. cbn [fst] in Hrr. subst m1.
  cbn [with_headers headers start_line andb]. rewrite redact_command_headers.
  unfold redact_body. cbn [headers body].
  rewrite (command_has_header _ command shown) by done.
  by change (has_header (with_headers _ [] _) "lens-content" "redis-value") with false.
Qed.

(** Redis commands are redacted exactly: unless reveal mode is on, of a
    decoded command only the arguments that are not sensitive for that
    command, at their position, are left; the others read [REDACTED] in the
    headers and in the start line, which is rebuilt from what is left. *)
Theorem redact_redis_exact (r : Redactor) (m : DecodedMessage) (command : bytes) (args : list bytes) :
  reveal r = false -> headers m = command_headers command args ->
  let shown := mask (to_ascii_uppercase command) args in
  message (redact r m)
  = mkDecoded (direction m) (command_line (to_ascii_uppercase command) shown)
      (command_headers command shown) (body m) (truncated m).
Proof. apply redact_command. Qed.
End RedisOutcomes.

(** [HELLO 3 AUTH default hunter2] keeps the user name and hides the password. *)
Lemma redact_redis_exact_witness :
  start_line (message (@redact no_json_secret (new false)
    (mkDecoded ClientToServer []
       (command_headers (lit "HELLO") [lit "3"; lit "AUTH"; lit "default"; lit "hunter2"]) [] false)))
  = lit "Redis HELLO 3 AUTH default [REDACTED]".
Proof.
  rewrite (@redact_redis_exact no_json_secret (new false)
    (mkDecoded ClientToServer []
       (command_headers (lit "HELLO") [lit "3"; lit "AUTH"; lit "default"; lit "hunter2"]) [] false)
    (lit "HELLO") [lit "3"; lit "AUTH"; lit "default"; lit "hunter2"] eq_refl eq_refl).
  vm_compute. reflexivity.
Defined.

(** ** Bodies of values *)

Section BodyOutcomes.
Context `{JsonSecret}.

Lemma redact_args_keeps command arguments i hs h :
  In h hs -> name_is "redis-arg" h = false -> In h (fst (redact_args command arguments i hs)).
Proof.
  revert i; induction hs as [|[n v] hs IH]; intros i; [done|]. cbn [redact_args].
  intros Hin Hn. destruct (name_is "redis-arg" (n, v)) eqn:E.
  - destruct Hin as [Heq|Hin]; [subst h; congruence|]. specialize (IH (S i) Hin Hn).
    destruct (redact_args _ _ _ hs) as [hs' ch]. case_match; by right.
  - destruct Hin as [->|Hin]; [destruct (redact_args _ _ _ hs); by left|]. specialize (IH i Hin Hn).
    destruct (redact_args _ _ _ hs) as [hs' ch]. by right.
Qed.

(** Markers of the decoders pass through the redaction of the headers. *)
Lemma redact_header_keeps pg n v w :
  eq_ignore_ascii_case n w = true -> is_sensitive_name w = false -> is_error_text w = false ->
  fst (redact_header pg (n, v)) = (n, v).
Proof.
  intros Hn Hs He. unfold redact_header.
  rewrite (is_sensitive_name_case _ _ Hn), Hs, (is_error_text_case _ _ Hn), He.
  by rewrite andb_false_r.
Qed.

Lemma has_header_In m n v :
  has_header m n v = true <->
  exists a b, In (a, b) (headers m) /\ eq_ignore_ascii_case a (lit n) = true /\
    eq_ignore_ascii_case b (lit v) = true.
Proof.
  unfold has_header. rewrite existsb_exists. split.
  - intros ([a b] & Hin & Hab). apply andb_true_iff in Hab as []. eauto.
  - intros (a & b & Hin & Ha & Hb). exists (a, b). by rewrite Ha, Hb.
Qed.

Lemma has_header_after m line hs n v pg :
  has_header m n v = true ->
  is_sensitive_name (lit n) = false -> is_error_text (lit n) = false ->
  (forall a b, In (a, b) (headers m) -> eq_ignore_ascii_case a (lit n) = true -> In (a, b) hs) ->
  has_header (with_headers m line (map fst (map (redact_header pg) hs))) n v = true.
Proof.
  rewrite !has_header_In. intros (a & b & Hin & Ha & Hb) Hs He Hkeep. exists a, b.
  split; [|done]. cbn [headers with_headers]. rewrite map_map. apply in_map_iff. exists (a, b).
  split; [by eapply redact_header_keeps|by apply Hkeep].
Qed.

(** Values never survive: unless reveal mode is on, the body of a Redis
    value reads [REDACTED] after redaction, and so does the body of a gRPC
    protobuf message. *)
Theorem redact_values_hidden (r : Redactor) (m : DecodedMessage) :
  reveal r = false -> has_header m "lens-protocol" "postgres" = false ->
  (has_header m "lens-protocol" "redis" = true /\ has_header m "lens-content" "redis-value" = true) \/
  (has_header m "lens-protocol" "redis" = false /\ has_header m "lens-protocol" "grpc" = true /\
   has_header m "lens-content" "protobuf" = true) ->
  body m <> [] -> body (message (redact r m)) = REPLACEMENT.
Proof.
  intros Hr Hpg Hcase Hb. apply bytes_eqb_neq in Hb. unfold redact. rewrite Hr, Hpg. cbn [andb].
  destruct Hcase as [[Hrd Hc]|(Hrd & Hg & Hc)]; rewrite Hrd.
  - assert (Hkeep : forall a b, In (a, b) (headers m) -> eq_ignore_ascii_case a (lit "lens-content") = true ->
      In (a, b) (headers (fst (redact_redis m)))).
    { intros a b Hin Ha. unfold redact_redis. destruct (List.find _ _) as [[n v]|]; [|done].
      pose proof (redact_args_keeps (to_ascii_uppercase v) (redis_args (headers m)) 0 (headers m) (a, b) Hin) as H1.
      destruct (redact_args _ _ _ _). apply H1. unfold name_is, eq_ignore_ascii_case in *. cbn [fst].
      apply bytes_eqb_eq in Ha. by rewrite Ha. }
    assert (Hm1 : body (fst (redact_redis m)) = body m).
    { unfold redact_redis. destruct (List.find _ _) as [[n v]|]; [|done]. by destruct (redact_args _ _ _ _). }
    destruct (redact_redis m) as [m1 red]. cbn [fst] in Hkeep, Hm1.
    unfold redact_body.
    change (has_header (with_headers m1 ?l ?h) ?n ?v) with (has_header (with_headers m l h) n v).
    rewrite (has_header_after m) by done. cbn [with_headers body]. by rewrite Hm1, Hb.
  - rewrite Hg. destruct (redact_start_line _) as [line ch].
    unfold redact_body.
    change (has_header (with_headers (with_headers m ?k ?g) ?l ?h) ?n ?v) with (has_header (with_headers m l h) n v).
    rewrite (has_header_after m) by done. cbn [with_headers body]. by rewrite Hb.
Qed.
End BodyOutcomes.

Lemma redact_values_hidden_witness :
  body (message (@redact no_json_secret (new false)
    (mkDecoded ServerToClient (lit "Redis bulk string")
       [(lit "lens-protocol", lit "redis"); (lit "Lens-Content", lit "redis-value")]
       (lit "hunter2") false))) = REPLACEMENT.
Proof.
  apply (@redact_values_hidden no_json_secret (new false)); [reflexivity|reflexivity| |done].
  left. split; reflexivity.
Defined.

(** ** Query strings and forms *)

(** Whether a byte does not occur. *)
Definition lacks (b : byte) (s : bytes) : bool := forallb (fun c => negb (Byte.eqb b c)) s.

Lemma split_on_lacks sep s : lacks sep s = true -> split_on (Byte.eqb sep) s = [s].
Proof.
  induction s as [|b s IH]; [done|]. cbn [lacks forallb split_on]. intros H.
  apply andb_true_iff in H as [Hb Hs]. apply negb_true_iff in Hb. rewrite Hb. by rewrite IH.
Qed.

Lemma split_on_app sep s t :
  lacks sep s = true -> split_on (Byte.eqb sep) (s ++ [sep] ++ t) = s :: split_on (Byte.eqb sep) t.
Proof.
  induction s as [|b s IH]; cbn [app lacks forallb split_on].
  - by rewrite byte_eqb_refl.
  - intros H. apply andb_true_iff in H as [Hb Hs]. apply negb_true_iff in Hb. rewrite Hb.
    cbn [app] in IH. by rewrite IH.
Qed.

Lemma split_on_join sep ws :
  ws <> [] -> forallb (lacks sep) ws = true -> split_on (Byte.eqb sep) (join [sep] ws) = ws.
Proof.
  induction ws as [|w ws IH]; [done|]. cbn [forallb]. intros _ H. apply andb_true_iff in H as [Hw Hws].
  destruct ws as [|w' ws]; [by apply split_on_lacks|].
  change (join [sep] (w :: w' :: ws)) with (w ++ [sep] ++ join [sep] (w' :: ws)).
  by rewrite split_on_app, IH.
Qed.

Lemma split_once_app sep s t : lacks sep s = true -> split_once sep (s ++ [sep] ++ t) = Some (s, t).
Proof.
  induction s as [|b s IH]; cbn [app lacks forallb split_once].
  - by rewrite byte_eqb_refl.
  - intros H. apply andb_true_iff in H as [Hb Hs]. apply negb_true_iff, byte_eqb_neq in Hb.
    rewrite (proj2 (byte_eqb_neq b sep)) by done. cbn [app] in IH. by rewrite IH.
Qed.

Lemma split_once_none sep s : lacks sep s = true -> split_once sep s = None.
Proof.
  induction s as [|b s IH]; cbn [lacks forallb split_once]; [done|].
  intros H. apply andb_true_iff in H as [Hb Hs]. apply negb_true_iff, byte_eqb_neq in Hb.
  rewrite (proj2 (byte_eqb_neq b sep)) by done. by rewrite IH.
Qed.

Lemma contains_one b s : contains [b] s = negb (lacks b s).
Proof.
  unfold contains, lacks. induction s as [|c s IH]; [done|].
  cbn [find_bytes starts_with forallb]. rewrite andb_true_r. destruct (Byte.eqb b c); [done|].
  cbn [negb andb]. rewrite <- IH. by destruct (find_bytes s [b]).
Qed.

(** A parameter of a query string or a form: a name, with a value or not. *)
Definition param_text (p : bytes * option bytes) : bytes :=
  match snd p with Some v => fst p ++ lit "=" ++ v | None => fst p end.

Definition param_sensitive (p : bytes * option bytes) : bool :=
  is_sensitive_name (percent_decode_name (fst p)).

Definition param_shown (p : bytes * option bytes) : bytes :=
  if param_sensitive p then fst p ++ lit "=" ++ REPLACEMENT else param_text p.

Definition param_ok (p : bytes * option bytes) : bool :=
  lacks "="%byte (fst p) && lacks "&"%byte (param_text p).

Lemma redact_pair_exact p :
  param_ok p = true -> redact_pair (param_text p) = (param_shown p, param_sensitive p).
Proof.
  unfold param_ok. rewrite andb_true_iff. intros [Hn _].
  destruct p as [n [v|]]; unfold redact_pair, param_shown, param_sensitive, param_text; cbn [fst snd] in *.
  - change (n ++ lit "=" ++ v) with (n ++ ["="%byte] ++ v). rewrite split_once_app by done.
    destruct (is_sensitive_name _); [done|]. change (lit "=") with ["="%byte]. rewrite contains_one.
    assert (lacks "="%byte (n ++ ["="%byte] ++ v) = false) as ->; [|done].
    unfold lacks. rewrite forallb_app. cbn. by rewrite andb_false_r.
  - rewrite split_once_none by done. destruct (is_sensitive_name _); [done|].
    change (lit "=") with ["="%byte]. by rewrite contains_one, Hn.
Qed.

Lemma redact_pairs_params ps :
  ps <> [] -> forallb param_ok ps = true ->
  redact_pairs (join (lit "&") (map param_text ps)) "&"%byte
  = (join (lit "&") (map param_shown ps), existsb param_sensitive ps).
Proof.
  intros Hne Hok. unfold redact_pairs. change (lit "&") with ["&"%byte]. rewrite split_on_join.
  - assert (Hmap : map redact_pair (map param_text ps) = map (fun p => (param_shown p, param_sensitive p)) ps).
    { clear Hne. induction ps as [|p ps IH]; [done|]. cbn [forallb] in Hok.
      apply andb_true_iff in Hok as [Hp Hok]. cbn [map]. by rewrite redact_pair_exact, IH. }
    rewrite Hmap, map_map. cbn [fst]. f_equal.
    clear. induction ps as [|p ps IH]; [done|]. cbn [map existsb snd]. by rewrite IH.
  - by destruct ps.
  - clear Hne. induction ps as [|p ps IH]; [done|]. cbn [map forallb] in *.
    apply andb_true_iff in Hok as [Hp Hok]. apply andb_true_iff in Hp as [_ Hp]. by rewrite Hp, IH.
Qed.

(** A word of a start line: visible ASCII. *)
Definition visible (s : bytes) : bool := forallb (in_range 33 126) s.

Lemma ws_len_visible b r : in_range 33 126 b = true -> ws_len (b :: r) = 0%nat.
Proof.
  intros Hb. unfold ws_len.
  assert (Hne : forall c, in_range 33 126 c = false -> (b =b c) = false).
  { intros c Hc. apply byte_eqb_neq. intros ->. congruence. }
  rewrite !Hne by (by vm_compute).
  unfold in_range in *. apply andb_true_iff in Hb as [H1 H2].
  rewrite (proj2 (Z.leb_gt (byte_val b) 13)) by lia. by rewrite andb_false_r.
Qed.

Lemma split_ws_word cur w s :
  visible w = true -> split_ws_go 0 cur (w ++ s) = split_ws_go 0 (cur ++ w) s.
Proof.
  revert cur; induction w as [|b w IH]; intros cur; [by rewrite app_nil_r|].
  cbn [visible forallb app]. intros H. apply andb_true_iff in H as [Hb Hw].
  cbn [split_ws_go]. rewrite ws_len_visible by done. rewrite IH by done. by rewrite <- app_assoc.
Qed.

Lemma split_whitespace_three a b c :
  visible a = true -> visible b = true -> visible c = true -> a <> [] -> b <> [] -> c <> [] ->
  split_whitespace (a ++ lit " " ++ b ++ lit " " ++ c) = [a; b; c].
Proof.
  intros Ha Hb Hc Na Nb Nc. unfold split_whitespace. rewrite split_ws_word by done. cbn [app].
  change (lit " " ++ b ++ lit " " ++ c) with (" "%byte :: b ++ lit " " ++ c). cbn [split_ws_go].
  change (ws_len (" "%byte :: _)) with 1%nat. cbv iota. rewrite split_ws_word by done. cbn [app].
  change (lit " " ++ c) with (" "%byte :: c).
  cbn [split_ws_go]. change (ws_len (" "%byte :: _)) with 1%nat. cbv iota.
  rewrite <- (app_nil_r c) at 1. rewrite split_ws_word by done. cbn [app split_ws_go].
  by destruct a, b, c.
Qed.

Lemma redact_start_line_line (method path version : bytes) (ps : list (bytes * option bytes))
    (fragment : option bytes) :
  let tail := match fragment with Some f => lit "#" ++ f | None => [] end in
  let line query := method ++ lit " " ++ (path ++ lit "?" ++ query ++ tail) ++ lit " " ++ version in
  let query := join (lit "&") (map param_text ps) in
  visible method = true -> method <> [] -> starts_with (lit "HTTP/") method = false ->
  visible path = true -> lacks "?"%byte path = true ->
  visible version = true -> starts_with (lit "HTTP/") version = true ->
  ps <> [] -> forallb param_ok ps = true -> visible query = true -> lacks "#"%byte query = true ->
  visible tail = true ->
  redact_start_line (line query)
  = (if existsb param_sensitive ps then line (join (lit "&") (map param_shown ps)) else line query,
     existsb param_sensitive ps).
Proof.
  intros tail line query Hm Nm Hmh Hp Hpq Hv Hvh Nps Hps Hq Hqh Ht.
  assert (Htarget : visible (path ++ lit "?" ++ query ++ tail) = true).
  { unfold visible in *. by rewrite !forallb_app, Hp, Hq, Ht. }
  assert (Nv : version <> []) by (intros ->; by vm_compute in Hvh).
  unfold redact_start_line at 1, line at 1. rewrite split_whitespace_three; try done; [|by destruct path].
  rewrite Hmh, Hvh. cbn [negb orb].
  change (path ++ lit "?" ++ query ++ tail) with (path ++ ["?"%byte] ++ query ++ tail).
  rewrite split_once_app by done.
  assert (Hfrag : match split_once "#"%byte (query ++ tail) with
                  | Some (q, f) => (q, Some f) | None => (query ++ tail, None) end = (query, fragment)).
  { unfold tail. destruct fragment as [f|].
    - change (lit "#" ++ f) with (["#"%byte] ++ f). by rewrite split_once_app.
    - rewrite app_nil_r. by rewrite split_once_none. }
  rewrite Hfrag. unfold query at 1. rewrite redact_pairs_params by done.
  destruct (existsb param_sensitive ps); [|done].
  unfold line, tail. rewrite <- !app_assoc. done.
Qed.

(** Query secrets never survive: of a request line with a query string,
    the parameters whose (percent-decoded) name is sensitive read
    [name=REDACTED], every other parameter, the path and the fragment are
    kept as they are, and the result says whether anything was replaced. *)
Theorem redact_start_line_exact (method path version : bytes) (ps : list (bytes * option bytes))
    (fragment : option bytes) :
  let tail := match fragment with Some f => lit "#" ++ f | None => [] end in
  let line query := method ++ lit " " ++ (path ++ lit "?" ++ query ++ tail) ++ lit " " ++ version in
  let query := join (lit "&") (map param_text ps) in
  visible method = true -> method <> [] -> starts_with (lit "HTTP/") method = false ->
  visible path = true -> lacks "?"%byte path = true ->
  visible version = true -> starts_with (lit "HTTP/") version = true ->
  ps <> [] -> forallb param_ok ps = true -> visible query = true -> lacks "#"%byte query = true ->
  visible tail = true ->
  redact_start_line (line query)
  = (if existsb param_sensitive ps then line (join (lit "&") (map param_shown ps)) else line query,
     existsb param_sensitive ps).
Proof. apply redact_start_line_line. Qed.

Lemma redact_start_line_exact_witness :
  redact_start_line (lit "GET /a?user=x&api%5Fkey=12#top HTTP/1.1")
  = (lit "GET /a?user=x&api%5Fkey=[REDACTED]#top HTTP/1.1", true).
Proof.
  exact (redact_start_line_exact (lit "GET") (lit "/a") (lit "HTTP/1.1")
    [(lit "user", Some (lit "x")); (lit "api%5Fkey", Some (lit "12"))] (Some (lit "top"))
    eq_refl ltac:(done) eq_refl eq_refl eq_refl eq_refl eq_refl ltac:(done) eq_refl eq_refl eq_refl eq_refl).
Defined.

(** A name in which some characters are percent-encoded. *)
Definition percent_encoded (cs : list (byte * bool)) : bytes :=
  concat (map (fun '(b, encoded) => if (encoded : bool) then lit "%" ++ hex2 b else [b]) cs).

Lemma hex_hex2 b r :
  percent_decode (lit "%" ++ hex2 b ++ r) = b :: percent_decode r.
Proof.
  assert (Hb : match hex2 b with
               | [h; l] => match hex h, hex l with Some x, Some y => byte_of (x * 16 + y) =b b | _, _ => false end
               | _ => false end = true).
  { revert b. apply byte_all. by vm_compute. }
  unfold hex2 in *. cbn [app]. change (lit "%" ++ ?x) with ("%"%byte :: x). cbn [percent_decode].
  destruct (hex (digit_byte (byte_val b / 16))) as [x|]; [|done].
  destruct (hex (digit_byte (byte_val b mod 16))) as [y|]; [|done].
  apply byte_eqb_eq in Hb. change (Byte.eqb "%"%byte "%"%byte) with true. cbv iota. by rewrite Hb.
Qed.

(** Percent-encoding does not evade redaction: however the characters of
    a name are percent-encoded, the name that is tested is the decoded one. *)
Theorem percent_encoding_transparent (cs : list (byte * bool)) :
  forallb (fun '(b, encoded) => (encoded : bool) || (negb (b =b "%"%byte) && negb (b =b "+"%byte))) cs = true ->
  percent_decode_name (percent_encoded cs) = from_utf8_lossy (map fst cs).
Proof.
  intros Hok. unfold percent_decode_name. f_equal. unfold percent_encoded.
  induction cs as [|[b e] cs IH]; [done|]. cbn [forallb] in Hok. apply andb_true_iff in Hok as [Hb Hok].
  cbn [map concat fst]. destruct e.
  - rewrite <- app_assoc, hex_hex2, IH by done. done.
  - cbn [orb] in Hb. apply andb_true_iff in Hb as [H1 H2]. apply negb_true_iff in H1, H2.
    cbn [app percent_decode]. by rewrite H1, H2, IH.
Qed.

Lemma percent_encoding_transparent_witness :
  is_sensitive_name (percent_decode_name (percent_encoded [("j"%byte, false); ("w"%byte, true); ("T"%byte, true)]))
  = true.
Proof.
  rewrite (percent_encoding_transparent [("j"%byte, false); ("w"%byte, true); ("T"%byte, true)]);
    vm_compute; reflexivity.
Defined.

(** ** Gaps of the SQL scanner *)

Lemma segments_ok_letters p s :
  forallb is_ascii_alphabetic s = true -> segments_ok p (map Plain s) = true.
Proof.
  revert p; induction s as [|b s IH]; intros p; [done|]. cbn [map forallb]. intros H.
  apply andb_true_iff in H as [Hb Hs].
  assert (Hl : segment_ok p (Plain b) (sql_text (map Plain s)) = true).
  { assert (Hne : forall c, is_ascii_alphabetic c = false -> (b =b c) = false).
    { intros c Hc. apply byte_eqb_neq. intros ->. congruence. }
    cbn [segment_ok]. rewrite !Hne by (by vm_compute). cbn [negb andb orb].
    assert ((byte_val b <? 128) && negb (is_ascii_digit b) = true) as Hd.
    { pose proof (byte_all (fun b => negb (is_ascii_alphabetic b) || ((byte_val b <? 128) && negb (is_ascii_digit b)))
        ltac:(by vm_compute) b) as Ha. cbn in Ha. by rewrite Hb in Ha. }
    apply andb_true_iff in Hd as [-> Hd]. by rewrite Hd. }
  cbn [segments_ok]. by rewrite Hl, IH.
Qed.

Lemma sql_text_plain s : sql_text (map Plain s) = s.
Proof. unfold sql_text. induction s as [|b s IH]; [done|]. cbn. by rewrite IH. Qed.

Lemma shown_plain s : concat (map segment_shown (map Plain s)) = s.
Proof. induction s as [|b s IH]; [done|]. cbn. by rewrite IH. Qed.

(** Where SQL redaction stops short: the scanner takes the dashes behind
    a number for a part of it, so the text of a comment that follows a number
    directly is shown; it does not know the escapes of [E] strings, so what
    follows an escaped quote is shown; it does not take a number in
    scientific notation for a number; and an unterminated dollar-quoted
    string (a query cut at the body cap) is shown. *)
Theorem redact_sql_gaps (comment : bytes) :
  (forallb is_ascii_alphabetic comment = true ->
   head_is number_byte comment = false ->
   redact_sql_literals (lit "SELECT 1--" ++ comment) = (lit "SELECT ?" ++ comment, true)) /\
  redact_sql_literals (lit "SELECT E'\'hunter2'") = (lit "SELECT E'?'hunter2'?'", true) /\
  redact_sql_literals (lit "SELECT 4111e5") = (lit "SELECT ?", true) /\
  redact_sql_literals (lit "SELECT 4e15") = (lit "SELECT 4e15", false) /\
  redact_sql_literals (lit "SELECT $$hunter") = (lit "SELECT $$hunter", false).
Proof.
  split; [|vm_compute; repeat split].
  intros Hc Hh. set (gs := map Plain (lit "SELECT ") ++ [Number "1"%byte (lit "--")] ++ map Plain comment).
  assert (Ht : lit "SELECT 1--" ++ comment = sql_text gs).
  { unfold gs, sql_text. rewrite !map_app, !concat_app. by rewrite (sql_text_plain comment : concat _ = _). }
  rewrite Ht. unfold redact_sql_literals. change (scan (mkScan None ?s [] false)) with (sql_scan None s).
  rewrite sql_scan_segments.
  - unfold gs. rewrite !map_app, !concat_app, !shown_plain. done.
  - change (segments_ok None gs)
      with (segment_ok (Some " "%byte) (Number "1"%byte (lit "--")) (sql_text (map Plain comment))
            && segments_ok (Some "-"%byte) (map Plain comment)).
    rewrite segments_ok_letters, sql_text_plain, andb_true_r by done.
    unfold segment_ok. by rewrite Hh.
Qed.

Lemma redact_sql_gaps_witness :
  redact_sql_literals (lit "SELECT 1--" ++ lit "hunter") = (lit "SELECT ?hunter", true).
Proof. by apply (redact_sql_gaps (lit "hunter")). Defined.

End Redact.
