(* ===== verification/RedactFacts.v ===== *)
(** * RedactFacts: what the redaction policy hides.

    Two decoded messages are alike when they differ in nothing but secrets:
    credentials in headers, query parameters and forms, literals of SQL texts,
    arguments that Redis commands write, Redis replies and protobuf payloads.
    Redaction makes alike messages equal, so that nothing of a secret is left
    ([redact_alike]).  What is secret is stated here on its own, not by the
    functions of the policy.  JSON members are found by a regular expression
    of the [regex] crate and are not covered. *)

From S2P Require Import Prelude RustStd Core Protocol Redact.
Import Redact.
#[local] Open Scope lens_scope.

Module RedactFacts.

(** ** Names that carry credentials *)

Definition credential_names : list bytes :=
  map lit
    ["authorization"; "proxy-authorization"; "cookie"; "set-cookie"; "x-api-key"; "x-auth-token"; "password";
     "passwd"; "token"; "secret"; "jwt"; "api_key"; "api-key"; "apikey"; "access_token"; "access-token";
     "refresh_token"; "refresh-token"; "client_secret"; "client-secret"; "private_key"; "private-key";
     "session_id"; "session-id"; "grpc-message"]%string.

Definition credential_suffixes : list bytes :=
  map lit
    ["_password"; "-password"; "_token"; "-token"; "_secret"; "-secret"; "_api_key"; "-api-key";
     "_private_key"; "-private-key"]%string.

(** In any letter case, with white space around it. *)
Definition credential (name : bytes) : Prop :=
  let n := to_ascii_lowercase (trim name) in
  In n credential_names \/ exists p s, In s credential_suffixes /\ n = p ++ s.

Lemma ends_with_app p s : ends_with s (p ++ s) = true.
Proof. unfold ends_with. rewrite rev_app_distr. apply starts_with_spec. eauto. Qed.

(** The policy knows every such name, and no other. *)
Lemma credential_sensitive name : credential name <-> is_sensitive_name name = true.
Proof.
  unfold credential, is_sensitive_name. set (n := to_ascii_lowercase (trim name)).
  rewrite orb_true_iff, !existsb_exists. split.
  - intros [Hn|(p & s & Hs & ->)]; [left|right].
    + exists n. split; [|apply bytes_eqb_refl]. unfold credential_names, sensitive_names in *. cbn [map In] in *. tauto.
    + exists s. split; [exact Hs|apply ends_with_app].
  - intros [(w & Hw & E)|(s & Hs & E)]; [left|right].
    + apply bytes_eqb_eq in E as ->. unfold credential_names, sensitive_names in *. cbn [map In] in *. tauto.
    + unfold ends_with in E. apply starts_with_spec in E as [r E]. exists (rev r), s. split; [exact Hs|].
      by rewrite <- (rev_involutive n), E, rev_app_distr, rev_involutive.
Qed.

(** ** Parameters of queries and forms *)

(** The same name, and the same value unless the decoded name carries a credential. *)
Definition param_alike (p p' : bytes * option bytes) : Prop :=
  p = p' \/ fst p = fst p' /\ credential (percent_decode_name (fst p)).

Definition params_text (ps : list (bytes * option bytes)) : bytes := join (lit "&") (map param_text ps).

Definition params_alike (ps ps' : list (bytes * option bytes)) : Prop :=
  ps <> [] /\ forallb param_ok ps = true /\ forallb param_ok ps' = true /\ Forall2 param_alike ps ps'.

Lemma params_alike_shown ps ps' :
  Forall2 param_alike ps ps' ->
  map param_shown ps = map param_shown ps' /\ existsb param_sensitive ps = existsb param_sensitive ps' /\
  (existsb param_sensitive ps = false -> ps = ps').
Proof.
  induction 1 as [|p p' ps ps' Hp _ (IH1 & IH2 & IH3)]; [done|]. cbn [map existsb]. rewrite IH1, IH2.
  assert (param_shown p = param_shown p' /\ param_sensitive p = param_sensitive p' /\ (param_sensitive p = false -> p = p'))
    as (-> & -> & H3).
  { destruct Hp as [->|[Hn Hc]]; [done|]. unfold param_shown, param_sensitive. rewrite <- Hn.
    apply credential_sensitive in Hc. by rewrite Hc. }
  split; [done|]. split; [done|]. rewrite orb_false_iff. intros [E1 E2]. rewrite IH2 in IH3. by rewrite H3, IH3.
Qed.

(** What is shown of a text that a redaction function changes or leaves. *)
Definition shown (f : bytes -> bytes * bool) (s : bytes) : bytes := let '(safe, changed) := f s in if changed then safe else s.

Lemma params_alike_hidden ps ps' :
  params_alike ps ps' ->
  shown (fun s => redact_pairs s "&"%byte) (params_text ps) = shown (fun s => redact_pairs s "&"%byte) (params_text ps').
Proof.
  intros (Hne & Ho & Ho' & Ha). assert (ps' <> []) as Hne' by (by inversion Ha; subst).
  destruct (params_alike_shown ps ps' Ha) as (Hs & Hc & Heq). unfold shown, params_text.
  rewrite !redact_pairs_params by done. rewrite <- Hs, <- Hc. destruct (existsb _ ps); [done|]. by rewrite Heq.
Qed.

(** ** Request lines *)

Definition query_line (method path version : bytes) (fragment : option bytes) (ps : list (bytes * option bytes)) : bytes :=
  method ++ lit " " ++ (path ++ lit "?" ++ params_text ps
    ++ match fragment with Some f => lit "#" ++ f | None => [] end) ++ lit " " ++ version.

(** The parts of a request line, each visible ASCII and without the separators
    of the others. *)
Definition query_line_ok (method path version : bytes) (fragment : option bytes) (ps : list (bytes * option bytes)) : Prop :=
  visible method = true /\ method <> [] /\ starts_with (lit "HTTP/") method = false /\
  visible path = true /\ lacks "?"%byte path = true /\
  visible version = true /\ starts_with (lit "HTTP/") version = true /\
  visible (params_text ps) = true /\ lacks "#"%byte (params_text ps) = true /\
  visible (match fragment with Some f => lit "#" ++ f | None => [] end) = true.

Inductive line_alike : bytes -> bytes -> Prop :=
| line_same l : line_alike l l
| line_query method path version fragment ps ps' :
    params_alike ps ps' -> query_line_ok method path version fragment ps -> query_line_ok method path version fragment ps' ->
    line_alike (query_line method path version fragment ps) (query_line method path version fragment ps').

Lemma line_alike_hidden l l' : line_alike l l' -> fst (redact_start_line l) = fst (redact_start_line l').
Proof.
  intros [|method path version fragment ps ps' (Hne & Ho & Ho' & Ha) Hq Hq']; [done|].
  assert (ps' <> []) as Hne' by (by inversion Ha; subst).
  destruct Hq as (? & ? & ? & ? & ? & ? & ? & Hv & Hl & ?), Hq' as (_ & _ & _ & _ & _ & _ & _ & Hv' & Hl' & _).
  destruct (params_alike_shown ps ps' Ha) as (Hs & Hc & Heq).
  unfold query_line, params_text in *. rewrite !redact_start_line_line by done. cbn [fst].
  rewrite <- Hs, <- Hc. destruct (existsb _ ps); [done|]. by rewrite Heq.
Qed.

(** ** SQL texts *)

(** The same kind of segment, and the same text unless it is a literal, a
    number or a comment. *)
Inductive segment_alike : Segment -> Segment -> Prop :=
| segment_same g : segment_alike g g
| segment_literal a b : segment_alike (Literal a) (Literal b)
| segment_line a b : segment_alike (LineComment a) (LineComment b)
| segment_block a b : segment_alike (BlockComment a) (BlockComment b)
| segment_dollar tag a b : segment_alike (DollarQuoted tag a) (DollarQuoted tag b)
| segment_number c s d t : segment_alike (Number c s) (Number d t).

Inductive sql_alike : bytes -> bytes -> Prop :=
| sql_same s : sql_alike s s
| sql_segments gs gs' :
    segments_ok None gs = true -> segments_ok None gs' = true -> Forall2 segment_alike gs gs' ->
    sql_alike (sql_text gs) (sql_text gs').

Lemma sql_alike_hidden s s' : sql_alike s s' -> shown redact_sql_literals s = shown redact_sql_literals s'.
Proof.
  intros [|gs gs' Ho Ho' Ha]; [done|]. unfold shown.
  assert (forall hs, segments_ok None hs = true ->
    redact_sql_literals (sql_text hs) = (concat (map segment_shown hs), existsb segment_hidden hs)) as K
    by exact (sql_scan_segments None).
  rewrite !K by done.
  clear Ho Ho'. assert (map segment_shown gs = map segment_shown gs' /\ existsb segment_hidden gs = existsb segment_hidden gs' /\
    (existsb segment_hidden gs = false -> gs = gs')) as (<- & <- & Heq).
  { induction Ha as [|g g' gs gs' Hg _ (IH1 & IH2 & IH3)]; [done|]. cbn [map existsb]. rewrite IH1, IH2.
    destruct Hg; cbn [segment_hidden orb segment_shown]; (split; [done|]); (split; [done|]); try done.
    rewrite orb_false_iff, <- IH2. intros [_ E]. by rewrite IH3. }
  destruct (existsb _ gs); [done|]. by rewrite Heq.
Qed.

(** ** Headers *)

(** A marker of the decoders, in any letter case. *)
Definition marked (m : DecodedMessage) (n v : string) : Prop :=
  exists a b, In (a, b) (headers m) /\ to_ascii_lowercase a = lit n /\ to_ascii_lowercase b = lit v.

Lemma marked_has m n v :
  to_ascii_lowercase (lit n) = lit n -> to_ascii_lowercase (lit v) = lit v -> has_header m n v = true <-> marked m n v.
Proof.
  intros Hn Hv. rewrite has_header_In. unfold marked, eq_ignore_ascii_case.
  setoid_rewrite bytes_eqb_eq. by rewrite Hn, Hv.
Qed.

(** The text fields of a PostgreSQL error. *)
Definition error_field (name : bytes) : Prop :=
  In (to_ascii_lowercase name) (map lit ["message"; "detail"; "hint"; "where"]%string).

Lemma error_field_text name : error_field name <-> is_error_text name = true.
Proof.
  unfold error_field, is_error_text. cbn [map In existsb]. rewrite !orb_true_iff, !bytes_eqb_eq. intuition congruence.
Qed.

(** The same name, and the same value unless it is a credential or, in a
    PostgreSQL message, the text of an error. *)
Definition header_alike (postgres : bool) (h h' : bytes * bytes) : Prop :=
  fst h = fst h' /\
  (snd h = snd h' \/ credential (fst h) \/ postgres = true /\ error_field (fst h) /\ sql_alike (snd h) (snd h')).

Definition shown_header (postgres : bool) (h : bytes * bytes) : bytes * bytes := fst (redact_header postgres h).

Lemma shown_header_cases pg n v :
  shown_header pg (n, v)
  = (n, if is_sensitive_name n then REPLACEMENT
        else if pg && is_error_text n then shown redact_sql_literals v else v).
Proof.
  unfold shown_header, redact_header, shown. destruct (is_sensitive_name n) eqn:Es; cbn [andb].
  - destruct (v =s REPLACEMENT) eqn:E; cbn [negb]; [|done]. apply bytes_eqb_eq in E as ->.
    destruct (is_error_text n) eqn:Ee; [by rewrite (error_text_not_sensitive n Ee) in Es|]. by rewrite andb_false_r.
  - destruct (pg && is_error_text n); [|done]. destruct (redact_sql_literals v) as [safe []]; done.
Qed.

Lemma header_alike_hidden pg h h' : header_alike pg h h' -> shown_header pg h = shown_header pg h'.
Proof.
  destruct h as [n v], h' as [n' v']. unfold header_alike. cbn [fst snd]. intros [<- Hv]. rewrite !shown_header_cases.
  destruct Hv as [->|[Hc|(-> & He & Hs)]]; [done| |].
  - apply credential_sensitive in Hc. by rewrite Hc.
  - apply error_field_text in He. rewrite (error_text_not_sensitive n He), He. cbn [andb].
    by rewrite (sql_alike_hidden v v' Hs).
Qed.

(** Markers are neither credentials nor error texts: alike messages have the
    same ones, and redaction keeps them. *)
Definition marker (n : string) : Prop := is_sensitive_name (lit n) = false /\ is_error_text (lit n) = false.

Lemma marker_alike pg h h' n : marker n -> header_alike pg h h' -> name_is n h = true -> h = h'.
Proof.
  intros [Hs He] [Hn Hv] Hname. destruct h as [a v], h' as [a' v']. cbn [fst snd] in *. subst a'.
  unfold name_is in Hname. cbn [fst] in Hname.
  destruct Hv as [->|[Hc|(_ & Hf & _)]]; [done| |].
  - apply credential_sensitive in Hc. rewrite (is_sensitive_name_case _ _ Hname) in Hc. congruence.
  - apply error_field_text in Hf. rewrite (is_error_text_case _ _ Hname) in Hf. congruence.
Qed.

Lemma name_is_alike pg h h' n : header_alike pg h h' -> name_is n h' = name_is n h.
Proof. intros [Hn _]. unfold name_is. by rewrite Hn. Qed.

Lemma find_alike pg n hs hs' :
  marker n -> Forall2 (header_alike pg) hs hs' -> List.find (name_is n) hs = List.find (name_is n) hs'.
Proof.
  intros Hm. induction 1 as [|h h' hs hs' Hh _ IH]; [done|]. cbn [List.find]. rewrite (name_is_alike _ _ _ _ Hh).
  destruct (name_is n h) eqn:E; [|done]. by rewrite (marker_alike pg h h' n Hm Hh E).
Qed.

Lemma has_header_alike pg m m' n v :
  marker n -> Forall2 (header_alike pg) (headers m) (headers m') -> has_header m n v = has_header m' n v.
Proof.
  intros Hm. unfold has_header. induction 1 as [|h h' hs hs' Hh _ IH]; [done|]. cbn [existsb]. rewrite IH. f_equal.
  pose proof (name_is_alike pg h h' n Hh) as Hn. destruct h as [a x], h' as [a' x'].
  unfold name_is in Hn. cbn [fst] in Hn. rewrite Hn.
  destruct (eq_ignore_ascii_case a (lit n)) eqn:E; [|done]. by injection (marker_alike pg _ _ n Hm Hh E) as <- <-.
Qed.

(** A header and what is shown of it. *)
Lemma header_alike_shown pg h : marker "content-type" ->
  name_is "content-type" h = true -> shown_header pg h = h.
Proof.
  intros [Hs He] Hn. destruct h as [n v]. unfold name_is in Hn. cbn [fst] in Hn. rewrite shown_header_cases.
  rewrite (is_sensitive_name_case _ _ Hn), Hs, (is_error_text_case _ _ Hn), He. by rewrite andb_false_r.
Qed.

Lemma find_shown pg hs :
  List.find (name_is "content-type") (map (shown_header pg) hs) = List.find (name_is "content-type") hs.
Proof.
  induction hs as [|h hs IH]; [done|]. cbn [map List.find].
  assert (name_is "content-type" (shown_header pg h) = name_is "content-type" h) as ->.
  { destruct h as [n v]. by rewrite shown_header_cases. }
  destruct (name_is "content-type" h) eqn:E; [|done]. by rewrite header_alike_shown.
Qed.

(** ** Messages *)

(** The body is the same unless it is a SQL text, a Redis reply, a protobuf
    payload or a form, which differ in their secrets only. *)
Inductive body_alike (m m' : DecodedMessage) : Prop :=
| body_same : body m = body m' -> body_alike m m'
| body_sql :
    marked m "lens-protocol" "postgres" -> marked m "lens-content" "sql" ->
    utf8_valid (body m) = true -> utf8_valid (body m') = true -> sql_alike (body m) (body m') -> body_alike m m'
| body_reply :
    ~ marked m "lens-protocol" "postgres" -> marked m "lens-protocol" "redis" -> marked m "lens-content" "redis-value" ->
    body m <> [] -> body m' <> [] -> body_alike m m'
| body_protobuf :
    ~ marked m "lens-protocol" "postgres" -> ~ marked m "lens-protocol" "redis" ->
    marked m "lens-protocol" "grpc" -> marked m "lens-content" "protobuf" ->
    body m <> [] -> body m' <> [] -> body_alike m m'
| body_form n v ps ps' :
    ~ marked m "lens-protocol" "postgres" -> ~ marked m "lens-protocol" "redis" -> ~ marked m "lens-protocol" "grpc" ->
    List.find (name_is "content-type") (headers m) = Some (n, v) ->
    contains (lit "application/x-www-form-urlencoded") (to_ascii_lowercase v) = true ->
    params_alike ps ps' -> body m = params_text ps -> body m' = params_text ps' ->
    utf8_valid (body m) = true -> utf8_valid (body m') = true -> body_alike m m'.

(** The arguments that a Redis command writes, by its name and the position. *)
Definition positional (command : bytes) : Prop :=
  In command (map lit
    ["AUTH"; "SET"; "SETNX"; "GETSET"; "APPEND"; "SETRANGE"; "SETEX"; "PSETEX"; "MSET"; "MSETNX"; "HSET"; "HSETNX";
     "HMSET"; "JSON.SET"; "EVAL"; "EVALSHA"; "FCALL"; "FCALL_RO"; "CONFIG"]%string).

Definition written (command : bytes) (args : list bytes) (i : nat) : Prop :=
  In command (map lit ["AUTH"; "EVAL"; "EVALSHA"; "FCALL"; "FCALL_RO"]%string) \/
  In command (map lit ["SET"; "SETNX"; "GETSET"; "APPEND"; "SETRANGE"; "SETEX"; "PSETEX"]%string) /\ (1 <= i)%nat \/
  In command (map lit ["MSET"; "MSETNX"]%string) /\ Nat.Odd i \/
  In command (map lit ["HSET"; "HSETNX"; "HMSET"]%string) /\ (2 <= i)%nat /\ Nat.Even i \/
  In command (map lit ["JSON.SET"%string]) /\ (2 <= i)%nat \/
  In command (map lit ["CONFIG"%string]) /\ (2 <= i)%nat /\ exists a, args !! 0%nat = Some a /\ to_ascii_lowercase a = lit "set".

(** As many arguments, the same where they are not written. *)
Definition args_alike (command : bytes) (args args' : list bytes) : Prop :=
  length args = length args' /\ forall i, args !! i = args' !! i \/ written command args i.

Definition has_command (m : DecodedMessage) : Prop := List.find (name_is "redis-command") (headers m) <> None.

(** Messages that differ in nothing but secrets. *)
Inductive alike (m m' : DecodedMessage) : Prop :=
| alike_command command args args' :
    direction m = direction m' -> truncated m = truncated m' -> body m = body m' ->
    headers m = command_headers command args -> headers m' = command_headers command args' ->
    positional (to_ascii_uppercase command) -> args_alike (to_ascii_uppercase command) args args' -> alike m m'
| alike_message pg :
    direction m = direction m' -> truncated m = truncated m' -> ~ has_command m ->
    line_alike (start_line m) (start_line m') ->
    (marked m "lens-protocol" "redis" -> start_line m = start_line m') ->
    (pg = true -> marked m "lens-protocol" "postgres") -> Forall2 (header_alike pg) (headers m) (headers m') ->
    body_alike m m' -> alike m m'.

(** *** Redis commands *)

Lemma among_spec s names : among s names = true <-> In s (map lit names).
Proof.
  unfold among. rewrite existsb_exists, in_map_iff. split.
  - intros (n & Hn & E). apply bytes_eqb_eq in E. eauto.
  - intros (n & <- & Hn). exists n. split; [done|apply bytes_eqb_refl].
Qed.

Lemma value_set (args : list bytes) : value_is (args !! 0%nat) "SET" = true <-> exists a, args !! 0%nat = Some a /\ to_ascii_lowercase a = lit "set".
Proof.
  unfold value_is, eq_ignore_ascii_case. destruct (args !! 0%nat) as [a|].
  - rewrite bytes_eqb_eq. split; [eauto|]. by intros (b & [= <-] & Hb).
  - split; [done|]. by intros (? & [=] & _).
Qed.

Ltac decide_among :=
  repeat match goal with |- context [among ?c ?l] => let b := eval vm_compute in (among c l) in change (among c l) with b end.

Lemma written_spec command args i :
  positional command -> redis_argument_is_sensitive command i args = true <-> written command args i.
Proof.
  intros Hp. unfold written. rewrite <- !among_spec, <- value_set, <- Nat.odd_spec, <- Nat.even_spec.
  assert ((i mod 2 =? 1)%nat = Nat.odd i /\ (i mod 2 =? 0)%nat = Nat.even i) as [Eo Ee].
  { rewrite <- Nat.bit0_mod, <- Nat.negb_odd, <- Nat.bit0_odd. by destruct (Nat.testbit i 0). }
  unfold redis_argument_is_sensitive. rewrite Eo, Ee.
  unfold positional in Hp. cbn [map In] in Hp.
  repeat (destruct Hp as [<-|Hp]; [decide_among; cbv iota; rewrite ?andb_true_iff, ?Nat.ltb_lt, ?Nat.leb_le; intuition lia|]). done.
Qed.

Lemma written_alike command args args' i : args_alike command args args' -> written command args i -> written command args' i.
Proof.
  intros [_ Ha]. unfold written. assert (forall c, c = args !! 0%nat -> (2 <= i)%nat -> In command (map lit ["CONFIG"%string]) ->
    args' !! 0%nat = c) as K.
  { intros c -> _ [<-|[]]. destruct (Ha 0%nat) as [E|E]; [done|]. exfalso. unfold written in E. rewrite <- !among_spec in E.
    revert E. decide_among. naive_solver lia. }
  destruct 1 as [?|[?|[?|[?|[?|(Hc & H2 & a & Ea & Eu)]]]]]; [tauto..|].
  do 5 right. split; [done|]. split; [done|]. exists a. split; [by apply K|done].
Qed.

Lemma args_alike_sym command args args' : args_alike command args args' -> args_alike command args' args.
Proof.
  intros Ha. pose proof (written_alike command args args') as K. destruct Ha as [Hl Ha]. split; [done|]. intros i.
  destruct (Ha i) as [->|Hw]; [by left|right]. by apply K.
Qed.

Lemma args_alike_hidden command args args' :
  positional command -> args_alike command args args' -> mask command args = mask command args'.
Proof.
  intros Hp Ha. unfold mask. apply list_eq. intros i. rewrite !list_lookup_imap.
  assert (redis_argument_is_sensitive command i args = redis_argument_is_sensitive command i args') as <-.
  { apply eq_true_iff_eq. rewrite !written_spec by done. split; apply written_alike; [done|by apply args_alike_sym]. }
  destruct Ha as [Hl Ha]. destruct (Ha i) as [->|Hw]; [done|]. apply written_spec in Hw; [|done]. rewrite Hw.
  destruct (args !! i) as [a|] eqn:E; cbn.
  - destruct (lookup_lt_is_Some_2 args' i) as [a' ->]; [|done]. rewrite <- Hl. by eapply lookup_lt_Some.
  - apply lookup_ge_None in E. by rewrite (lookup_ge_None_2 args' i) by lia.
Qed.

(** *** Redaction of whole messages *)

Section Messages.
Context `{JsonSecret}.

Lemma redact_text_message f m b : message (redact_text_body f m b) = if utf8_valid (body m) then with_body m (shown f (body m)) else m.
Proof.
  unfold redact_text_body, from_utf8, shown. destruct (utf8_valid (body m)); [|done].
  destruct (f (body m)) as [safe []]; [done|]. by destruct m.
Qed.

Lemma redact_body_flag m b pg rd gr sq : message (redact_body m b pg rd gr sq) = message (redact_body m false pg rd gr sq).
Proof. unfold redact_body. repeat case_match; by rewrite ?redact_text_message. Qed.

Definition has (m : DecodedMessage) (v : string) : bool := has_header m "lens-protocol" v.

Definition shown_line (m : DecodedMessage) : bytes :=
  if has m "redis" then start_line m else fst (redact_start_line (start_line m)).

(** Redaction of anything but a Redis command. *)
Lemma redact_message (r : Redactor) m :
  reveal r = false -> ~ has_command m ->
  message (redact r m)
  = message (redact_body (with_headers m (shown_line m) (map (shown_header (has m "postgres")) (headers m))) false
      (has m "postgres") (has m "redis") (has m "grpc") (has m "postgres" && has_header m "lens-content" "sql")).
Proof.
  intros Hr Hc. unfold redact, shown_line, has. rewrite Hr.
  assert (redact_redis m = (m, false)) as ->.
  { unfold redact_redis. unfold has_command in Hc. destruct (List.find _ _); [by destruct Hc|done]. }
  destruct (has_header m "lens-protocol" "redis"); [|destruct (redact_start_line (start_line m)) as [line ch]];
    rewrite redact_body_flag, map_map; by destruct m.
Qed.

Lemma has_header_shown m x line pg n v :
  marker n -> has_header m n v = true -> has_header (with_headers x line (map (shown_header pg) (headers m))) n v = true.
Proof.
  intros [Hs He] Hh. assert (map (shown_header pg) (headers m) = map fst (map (redact_header pg) (headers m))) as -> by (by rewrite map_map).
  exact (has_header_after m line (headers m) n v pg Hh Hs He (fun _ _ Hin _ => Hin)).
Qed.

(** The parts of a message that its body is redacted by. *)
Definition with_line_headers (m x : DecodedMessage) (pg : bool) : DecodedMessage :=
  with_headers x (shown_line m) (map (shown_header pg) (headers m)).

Definition protocols (m : DecodedMessage) : Prop :=
  forall v, In v ["postgres"; "redis"; "grpc"]%string -> has m v = true <-> marked m "lens-protocol" v.

Lemma has_marked m : protocols m.
Proof. intros v Hv. cbn in Hv. destruct_or! Hv; try done; subst v; by apply marked_has. Qed.

Lemma has_not m v : In v ["postgres"; "redis"; "grpc"]%string -> ~ marked m "lens-protocol" v -> has m v = false.
Proof. intros Hv Hn. apply not_true_iff_false. by rewrite (has_marked m v Hv). Qed.

Lemma has_yes m v : In v ["postgres"; "redis"; "grpc"]%string -> marked m "lens-protocol" v -> has m v = true.
Proof. intros Hv Hn. by apply has_marked. Qed.

Lemma body_alike_hidden m m' :
  let pg := has m "postgres" in
  direction m = direction m' -> truncated m = truncated m' -> body_alike m m' ->
  message (redact_body (with_line_headers m m pg) false pg (has m "redis") (has m "grpc")
    (pg && has_header m "lens-content" "sql"))
  = message (redact_body (with_line_headers m m' pg) false pg (has m "redis") (has m "grpc")
    (pg && has_header m "lens-content" "sql")).
Proof.
  intros pg Ed Et Hb. subst pg.
  assert (forall v x pg, to_ascii_lowercase (lit v) = lit v -> marked m "lens-content" v ->
    has_header (with_line_headers m x pg) "lens-content" v = true) as Hc
    by (intros v x pg Hv Hm; apply has_header_shown; [done|by apply marked_has]).
  destruct Hb as [E|H1 H2 U U' Hs|H1 H2 H3 N N'|H1 H2 H3 H4 N N'|n v ps ps' H1 H2 H3 Hf Hv Ha E E' U U'].
  - unfold with_line_headers, with_headers. by rewrite Ed, Et, E.
  - rewrite (has_yes m) by (done || by left). rewrite (proj2 (marked_has m "lens-content" "sql" eq_refl eq_refl) H2).
    unfold redact_body. cbn [andb]. rewrite !redact_text_message. cbn [with_line_headers with_headers body].
    rewrite U, U', (sql_alike_hidden _ _ Hs). unfold with_body. cbn. by rewrite Ed, Et.
  - rewrite (has_not m "postgres"), (has_yes m "redis") by (done || (cbn; tauto)). unfold redact_body. cbn [andb].
    rewrite !Hc by done. cbn [with_line_headers with_headers body andb].
    rewrite (proj2 (bytes_eqb_neq _ _) N), (proj2 (bytes_eqb_neq _ _) N'). cbn. unfold with_body. cbn. by rewrite Ed, Et.
  - rewrite (has_not m "postgres"), (has_not m "redis"), (has_yes m "grpc") by (done || (cbn; tauto)). unfold redact_body. cbn [andb].
    rewrite !Hc by done. cbn [with_line_headers with_headers body andb].
    rewrite (proj2 (bytes_eqb_neq _ _) N), (proj2 (bytes_eqb_neq _ _) N'). cbn. unfold with_body. cbn. by rewrite Ed, Et.
  - rewrite (has_not m "postgres"), (has_not m "redis"), (has_not m "grpc") by (done || (cbn; tauto)). unfold redact_body. cbn [andb].
    cbn [with_line_headers with_headers body headers]. rewrite find_shown, Hf, Hv. rewrite !redact_text_message. cbn [with_line_headers with_headers body].
    rewrite U, U', E, E', (params_alike_hidden _ _ Ha). unfold with_body. cbn. by rewrite Ed, Et.
Qed.

(** Redaction leaves nothing of a secret: messages that differ in nothing but
    secrets are redacted to the same message. *)
Lemma redact_alike (r : Redactor) m m' : reveal r = false -> alike m m' -> message (redact r m) = message (redact r m').
Proof.
  intros Hr [command args args' Ed Et Eb Eh Eh' Hp Ha|pg Ed Et Hc Hl Hrl Hpg Hh Hb].
  - assert (forall x xs, headers x = command_headers command xs ->
      message (redact r x)
      = mkDecoded (direction x) (command_line (to_ascii_uppercase command) (mask (to_ascii_uppercase command) xs))
          (command_headers command (mask (to_ascii_uppercase command) xs)) (body x) (truncated x)) as K
      by (intros x xs; by apply redact_command).
    by rewrite (K m args), (K m' args'), Ed, Et, Eb, (args_alike_hidden _ _ _ Hp Ha).
  - assert (~ has_command m') as Hc' by (unfold has_command in *; by rewrite <- (find_alike pg _ (headers m) (headers m'))).
    rewrite !redact_message by done.
    assert (forall n v, marker n -> has_header m' n v = has_header m n v) as Em
      by (intros n v Hn; symmetry; by eapply has_header_alike).
    assert (forall v, has m' v = has m v) as Ev by (intros v; by apply Em).
    assert (shown_line m' = shown_line m) as El.
    { unfold shown_line. rewrite Ev. destruct (has m "redis") eqn:E; [|symmetry; by apply line_alike_hidden].
      symmetry. apply Hrl, has_marked; [cbn; tauto|done]. }
    assert (map (shown_header (has m "postgres")) (headers m') = map (shown_header (has m "postgres")) (headers m)) as Es.
    { assert (pg = true -> has m "postgres" = true) as Hpg' by (intros E; apply has_yes; [by left|by apply Hpg]).
      clear - Hh Hpg'. induction Hh as [|h h' hs hs' Hx _ IH]; [done|]. cbn [map]. rewrite IH. f_equal. symmetry.
      apply header_alike_hidden. destruct Hx as [Hn Hv]. split; [done|]. intuition. }
    rewrite !Ev, Em, El, Es by done. by apply body_alike_hidden.
Qed.
End Messages.

End RedactFacts.
