(* ===== verification/Plugin.v ===== *)
(** * Plugin: manifests and the plugin host of [crates/lens-plugin].

    The manifest format and its validation, the ABI check, and the host that
    runs every installed plugin on one redacted event.  WebAssembly is run by
    the [wasmtime] crate and digests are computed by [sha2]: the class
    [Wasm] is what the host uses of them. *)

From S2P Require Import Prelude RustStd.
#[local] Open Scope lens_scope.

Module Plugin.

Definition ABI_VERSION : Z := 1.
Definition MAX_MODULE_BYTES : Z := 4 * 1024 * 1024.
Definition MAX_INPUT_BYTES : Z := 256 * 1024.
Definition MAX_OUTPUT_BYTES : Z := 4 * 1024.
Definition MODULE_FILE : bytes := lit "plugin.wasm".

(** ** Errors *)

Inductive PluginError :=
| InvalidManifest (detail : bytes)
| Io (path detail : bytes)
| Limit (detail : bytes)
| InvalidModule (detail : bytes)
| ForbiddenImport (name : bytes)
| MissingExport (name : bytes)
| UnsupportedAbi (version : Z)
| Integrity (name : bytes)
| Runtime (detail : bytes)
| InvalidOutput (detail : bytes).

Definition PluginError_display (e : PluginError) : bytes :=
  match e with
  | InvalidManifest detail => lit "invalid plugin metadata: " ++ detail
  | Io path detail => lit "plugin file " ++ path ++ lit ": " ++ detail
  | Limit detail => lit "plugin resource limit: " ++ detail
  | InvalidModule detail => lit "invalid WebAssembly module: " ++ detail
  | ForbiddenImport name => lit "plugin import " ++ name ++ lit " is forbidden; ABI v1 has no imports"
  | MissingExport name => lit "plugin is missing ABI export " ++ name
  | UnsupportedAbi version =>
      lit "plugin ABI " ++ dec version ++ lit " is unsupported; host requires " ++ dec ABI_VERSION
  | Integrity name => lit "plugin " ++ name ++ lit " failed SHA-256 verification"
  | Runtime detail => lit "plugin execution failed: " ++ detail
  | InvalidOutput detail => lit "plugin returned invalid output: " ++ detail
  end.

(** [Result<A, PluginError>]. *)
Abbreviation outcome A := (A + PluginError)%type.

Notation "'try!' x := e 'in' k" :=
  (match e with inl x => k | inr error => inr error end)
  (at level 10, x name, e at level 200, k at level 200).

Definition map_err {A} (r : result A) (f : bytes -> PluginError) : outcome A :=
  match r with Ok a => inl a | Err reason => inr (f reason) end.

(** ** Manifests *)

Record PluginManifest := mkManifest {
  name : bytes; version : bytes; abi_version : Z; sha256 : bytes }.

Definition validate_name (value : bytes) : outcome unit :=
  if (value =s []) || (64 <? blen value)
     || negb (forallb (fun b => is_ascii_alphanumeric b || (b =b "-"%byte) || (b =b "_"%byte)) value)
  then inr (InvalidManifest (lit "name must be 1-64 ASCII letters, digits, '-' or '_'"))
  else inl tt.

Definition validate_version (value : bytes) : outcome unit :=
  if (value =s []) || (64 <? blen value)
     || (any_control value || existsb (fun b => b =b "="%byte) value)
  then inr (InvalidManifest (lit "version must be 1-64 printable characters without '='"))
  else inl tt.

Definition render (m : PluginManifest) : bytes :=
  lit "name=" ++ name m ++ [x0a] ++ lit "version=" ++ version m ++ [x0a]
  ++ lit "abi=" ++ dec (abi_version m) ++ [x0a] ++ lit "sha256=" ++ sha256 m ++ [x0a]
  ++ lit "module=" ++ MODULE_FILE ++ [x0a].

(** [lines().find_map(|line| line.strip_prefix(...))]. *)
Fixpoint find_value (key : bytes) (ls : list bytes) : option bytes :=
  match ls with
  | [] => None
  | l :: ls => match strip_prefix (key ++ lit "=") l with Some v => Some v | None => find_value key ls end
  end.

Definition value (contents : bytes) (key : string) : outcome bytes :=
  match find_value (lit key) (lines contents) with
  | Some v => inl v
  | None => inr (InvalidManifest (lit "missing " ++ lit key))
  end.

Definition parse (contents : bytes) : outcome PluginManifest :=
  try! name := value contents "name" in
  try! _u := validate_name name in
  try! version := value contents "version" in
  try! _u := validate_version version in
  try! abi := value contents "abi" in
  match parse_unsigned 10 u32_max abi with
  | None => inr (InvalidManifest (lit "abi is not an integer"))
  | Some abi_version =>
      try! sha := value contents "sha256" in
      if negb (blen sha =? 64) || negb (forallb is_ascii_hexdigit sha) then
        inr (InvalidManifest (lit "sha256 must contain 64 hexadecimal characters"))
      else
        try! module := value contents "module" in
        if negb (module =s MODULE_FILE) then
          inr (InvalidManifest (lit "module must be plugin.wasm"))
        else inl (mkManifest name version abi_version (to_ascii_lowercase sha))
  end.

(** ** The runtime

    A compiled module, a limited store with an instance in it, the typed
    exports an instance may have, and its linear memory.  A call returns the
    store it leaves behind, also when it traps or runs out of fuel. *)
Class Wasm := {
  wasm_module : Type;
  wasm_store : Type;
  module_new : bytes -> result wasm_module;
  first_import : wasm_module -> option (bytes * bytes);
  instantiate : wasm_module -> result wasm_store;
  abi_func : wasm_store -> option (wasm_store -> wasm_store * result Z);
  has_memory : wasm_store -> bool;
  alloc_func : wasm_store -> option (wasm_store -> Z -> wasm_store * result Z);
  process_func : wasm_store -> option (wasm_store -> Z -> Z -> wasm_store * result Z);
  memory_write : wasm_store -> Z -> bytes -> result wasm_store;
  memory_read : wasm_store -> Z -> Z -> result bytes }.

Section Host.
Context `{Wasm}.

(** Instantiation and the checks of the ABI that [validate_abi] and [invoke]
    share: the store after the version call, and the two functions. *)
Definition open_abi (m : wasm_module) :
    outcome (wasm_store * (wasm_store -> Z -> wasm_store * result Z)
             * (wasm_store -> Z -> Z -> wasm_store * result Z)) :=
  try! store := map_err (instantiate m) Runtime in
  match abi_func store with
  | None => inr (MissingExport (lit "lens_abi_version"))
  | Some abi =>
      let '(store, answer) := abi store in
      try! guest_abi := map_err answer Runtime in
      if negb (guest_abi =? ABI_VERSION) then inr (UnsupportedAbi (Z.max guest_abi 0))
      else if negb (has_memory store) then inr (MissingExport (lit "memory"))
      else match alloc_func store, process_func store with
           | None, _ => inr (MissingExport (lit "lens_alloc"))
           | _, None => inr (MissingExport (lit "lens_process"))
           | Some allocate, Some process => inl (store, allocate, process)
           end
  end.

Definition validate_abi (m : wasm_module) : outcome unit :=
  try! _u := open_abi m in inl tt.

Definition compile (s : bytes) : outcome wasm_module :=
  if MAX_MODULE_BYTES <? blen s then inr (Limit (lit "module exceeds 4 MiB"))
  else
    try! m := map_err (module_new s) InvalidModule in
    match first_import m with
    | Some (module, name) => inr (ForbiddenImport (module ++ lit "::" ++ name))
    | None => try! _u := validate_abi m in inl m
    end.

Record LoadedPlugin := mkLoaded { manifest : PluginManifest; module : wasm_module }.
Record PluginHost := mkHost { plugins : list LoadedPlugin }.

Definition len (h : PluginHost) : nat := length (plugins h).
Definition is_empty (h : PluginHost) : bool := match plugins h with [] => true | _ => false end.

Definition invoke (plugin : LoadedPlugin) (input : bytes) : outcome bytes :=
  match open_abi (module plugin) with
  | inr error => inr error
  | inl (store, allocate, process) =>
      if 2 ^ 31 - 1 <? blen input then inr (Limit (lit "plugin input is too large"))
      else
        let input_len := blen input in
        let '(store, answer) := allocate store input_len in
        try! input_ptr := map_err answer Runtime in
        if input_ptr <? 0 then inr (InvalidOutput (lit "negative input pointer"))
        else
          try! store := map_err (memory_write store input_ptr input) Runtime in
          let '(store, answer) := process store input_ptr input_len in
          try! result := map_err answer Runtime in
          let packed := result mod 2 ^ 64 in
          let output_ptr := Z.shiftr packed 32 in
          let output_len := Z.land packed u32_max in
          if MAX_OUTPUT_BYTES <? output_len then
            inr (Limit (lit "plugin output exceeds the 4 KiB limit"))
          else
            try! output := map_err (memory_read store output_ptr output_len) InvalidOutput in
            match from_utf8 output with
            | Some text => inl text
            | None => inr (InvalidOutput (lit "output is not UTF-8"))
            end
  end.

Record PluginAnnotation := mkAnnotation { plugin : bytes; annotation : bytes }.
Record PluginRunReport := mkReport {
  annotations : list PluginAnnotation; failures : list (bytes * bytes) }.

Definition report_default : PluginRunReport := mkReport [] [].

(** What one plugin adds to the report. *)
Definition run_plugin (input : bytes) (report : PluginRunReport) (p : LoadedPlugin) : PluginRunReport :=
  match invoke p input with
  | inl [] => report
  | inl value => mkReport (annotations report ++ [mkAnnotation (name (manifest p)) value]) (failures report)
  | inr error =>
      mkReport (annotations report) (failures report ++ [(name (manifest p), PluginError_display error)])
  end.

Definition host_process (h : PluginHost) (redacted_json : bytes) : PluginRunReport :=
  if MAX_INPUT_BYTES <? blen redacted_json then
    mkReport [] [(lit "host", lit "redacted event exceeds the 256 KiB plugin input limit")]
  else fold_left (run_plugin redacted_json) (plugins h) report_default.
End Host.

(** ** Manifests round trip *)

Definition lower_hexdigit b : bool := is_ascii_digit b || in_range 97 102 b.

Record valid_manifest (m : PluginManifest) : Prop := {
  valid_name : validate_name (name m) = inl tt;
  valid_version : validate_version (version m) = inl tt;
  valid_abi : 0 <= abi_version m <= u32_max;
  valid_sha_length : blen (sha256 m) = 64;
  valid_sha : forallb lower_hexdigit (sha256 m) = true }.

(** A property of bytes carries over to the texts made of them. *)
Lemma forallb_bytes (f g : byte -> bool) s :
  (forall b, implb (f b) (g b) = true) -> forallb f s = true -> forallb g s = true.
Proof.
  intros Hfg. rewrite !forallb_forall. intros Hf b Hb. specialize (Hfg b). rewrite (Hf b Hb) in Hfg. done.
Qed.

Lemma name_no_break n : validate_name n = inl tt -> no_break n = true.
Proof.
  unfold validate_name. destruct (_ || _) eqn:E; [done|]. intros _.
  rewrite !orb_false_iff, negb_false_iff in E. destruct E as [_ E]. revert E.
  apply forallb_bytes, byte_all. by vm_compute.
Qed.

Lemma version_no_break v : validate_version v = inl tt -> no_break v = true.
Proof.
  unfold validate_version. destruct (_ || _) eqn:E; [done|]. intros _.
  rewrite !orb_false_iff in E. destruct E as [_ [E _]]. revert E.
  unfold no_break. induction v as [|b v IH]; [done|]. cbn [any_control forallb].
  rewrite !orb_false_iff. intros [[Hb _] Hv]. rewrite IH, andb_true_r by done. revert Hb.
  rewrite <- negb_true_iff. apply implb_true_iff. revert b. apply byte_all. by vm_compute.
Qed.

Lemma sha_facts s :
  forallb lower_hexdigit s = true ->
  no_break s = true /\ forallb is_ascii_hexdigit s = true /\ to_ascii_lowercase s = s.
Proof.
  intros Hs. split; [|split].
  - revert Hs. apply forallb_bytes, byte_all. by vm_compute.
  - revert Hs. apply forallb_bytes, byte_all. by vm_compute.
  - unfold to_ascii_lowercase. induction s as [|b s IH]; [done|]. cbn in *.
    rewrite andb_true_iff in Hs. destruct Hs as [Hb Hs]. rewrite IH by done. f_equal.
    assert (implb (lower_hexdigit b) (lower_byte b =b b) = true) as K.
    { clear. revert b. apply byte_all. by vm_compute. }
    rewrite Hb in K. by apply byte_eqb_eq.
Qed.

Lemma no_break_app a b : no_break (a ++ b) = no_break a && no_break b.
Proof. unfold no_break. apply forallb_app. Qed.

Lemma lines_entry key s rest :
  no_break (lit key) = true -> no_break s = true ->
  lines (lit key ++ s ++ [x0a] ++ rest) = (lit key ++ s) :: lines rest.
Proof.
  intros Hk Hs. rewrite app_assoc. apply lines_cons. by rewrite no_break_app, Hk, Hs.
Qed.

Lemma render_lines m :
  valid_manifest m ->
  lines (render m)
  = [lit "name=" ++ name m; lit "version=" ++ version m; lit "abi=" ++ dec (abi_version m);
     lit "sha256=" ++ sha256 m; lit "module=" ++ MODULE_FILE].
Proof.
  intros [Hn Hv Ha Hl Hs]. unfold render.
  rewrite lines_entry by (done || by apply name_no_break).
  rewrite lines_entry by (done || by apply version_no_break).
  rewrite lines_entry by (done || (apply digits_no_break, dec_digits; lia)).
  rewrite lines_entry by (done || by apply sha_facts).
  by rewrite (lines_entry "module=" MODULE_FILE [] eq_refl eq_refl : lines (lit "module=" ++ MODULE_FILE ++ [x0a]) = _).
Qed.

(** Manifests round trip: every manifest that the installer can write is
    read back as itself. *)
Theorem manifest_roundtrip (m : PluginManifest) : valid_manifest m -> parse (render m) = inl m.
Proof.
  intros Hm. pose proof Hm as [Hn Hv Ha Hl Hs]. destruct (sha_facts _ Hs) as (_ & Hhex & Hlow).
  unfold parse, value. rewrite (render_lines m Hm). cbn [find_value].
  assert (forall k l v, strip_prefix (lit k ++ lit "=") (lit l ++ v)
     = if starts_with (lit k ++ lit "=") (lit l ++ v) then Some (drop (length (lit k ++ lit "=")) (lit l ++ v)) else None) as K
    by done.
  rewrite !K. cbn -[parse_unsigned validate_name validate_version dec blen to_ascii_lowercase u32_max]. rewrite !drop_0, Hn, Hv, parse_unsigned_dec by done. rewrite Hl, Hhex. cbn.
  rewrite Hlow. by destruct m.
Qed.

Lemma manifest_roundtrip_witness :
  parse (render (mkManifest (lit "trace-id") (lit "1.2.0") 1 (concat (repeat (lit "0f") 32))))
  = inl (mkManifest (lit "trace-id") (lit "1.2.0") 1 (concat (repeat (lit "0f") 32))).
Proof. apply manifest_roundtrip. by split; vm_compute. Defined.

(** ** Containment *)

Section Containment.
Context `{Wasm}.

(** What one plugin has to say about an event, on its own. *)
Definition speaks (input : bytes) (p : LoadedPlugin) : option PluginAnnotation :=
  match invoke p input with
  | inl [] | inr _ => None
  | inl value => Some (mkAnnotation (name (manifest p)) value)
  end.

Definition fails (input : bytes) (p : LoadedPlugin) : option (bytes * bytes) :=
  match invoke p input with
  | inl _ => None
  | inr error => Some (name (manifest p), PluginError_display error)
  end.

Lemma run_plugins input ps report :
  fold_left (run_plugin input) ps report
  = mkReport (annotations report ++ omap (speaks input) ps) (failures report ++ omap (fails input) ps).
Proof.
  revert report; induction ps as [|p ps IH]; intros report; cbn [fold_left].
  { cbn. rewrite !app_nil_r. by destruct report. }
  rewrite IH. unfold run_plugin. cbn [omap list_omap]. unfold speaks, fails.
  destruct (invoke p input) as [[|b v]|e]; cbn [annotations failures]; by rewrite <- ?app_assoc.
Qed.

(** What an invocation returns is text of at most 4 KiB. *)
Lemma invoke_bounded p input v :
  (forall st ptr n out, memory_read st ptr n = Ok out -> blen out = n) ->
  invoke p input = inl v -> utf8_valid v = true /\ blen v <= MAX_OUTPUT_BYTES.
Proof.
  intros Hread. unfold invoke. destruct (open_abi (module p)) as [[[st al] pr]|]; [|done].
  destruct (_ <? blen input); [done|]. destruct (al st (blen input)) as [st1 [ptr|]]; [|done]. cbn [map_err].
  destruct (ptr <? 0); [done|]. destruct (memory_write st1 ptr input) as [st2|]; [|done]. cbn [map_err].
  destruct (pr st2 ptr (blen input)) as [st3 [packed|]]; [|done]. cbn [map_err].
  set (n := Z.land _ u32_max). set (q := Z.shiftr _ 32).
  destruct (Z.ltb_spec MAX_OUTPUT_BYTES n) as [|Hn]; [done|].
  destruct (memory_read st3 q n) as [out|] eqn:E; [|done]. cbn [map_err].
  unfold from_utf8. destruct (utf8_valid out) eqn:Eu; [|done]. intros [= <-]. split; [done|].
  by rewrite (Hread _ _ _ _ E).
Qed.

(** C22. Plugins are contained: an event over the input limit reaches no
    plugin; otherwise every plugin contributes exactly what it returns on its
    own, whatever the others do, an error being confined to its own entry; and
    every annotation is non-empty UTF-8 text of at most 4 KiB, given that the
    runtime reads as many bytes as it is asked for. *)
Theorem plugins_contained (h : PluginHost) (input : bytes) :
  (forall st ptr n out, memory_read st ptr n = Ok out -> blen out = n) ->
  (MAX_INPUT_BYTES < blen input -> annotations (host_process h input) = []) /\
  (blen input <= MAX_INPUT_BYTES ->
     host_process h input = mkReport (omap (speaks input) (plugins h)) (omap (fails input) (plugins h))) /\
  Forall (fun a => annotation a <> [] /\ utf8_valid (annotation a) = true /\
                   blen (annotation a) <= MAX_OUTPUT_BYTES) (annotations (host_process h input)).
Proof.
  intros Hread. unfold host_process. destruct (Z.ltb_spec MAX_INPUT_BYTES (blen input)) as [Hl|Hl].
  { split; [done|]. split; [lia|constructor]. }
  rewrite run_plugins. split; [lia|]. split; [done|]. cbn [annotations report_default app].
  apply Forall_forall. intros a Ha. apply list_elem_of_In, list_elem_of_omap in Ha as (p & _ & Hp).
  unfold speaks in Hp. destruct (invoke p input) as [[|b v]|e] eqn:E; try done. injection Hp as <-. cbn [annotation].
  destruct (invoke_bounded p input _ Hread E). done.
Qed.
End Containment.

(** A runtime of one-page memories for the examples: a module is the bytes it
    answers with, and one without bytes traps. *)
Definition echo_wasm : Wasm := {|
  wasm_module := bytes;
  wasm_store := bytes;
  module_new := Ok;
  first_import _ := None;
  instantiate := Ok;
  abi_func _ := Some (fun st => (st, Ok 1));
  has_memory _ := true;
  alloc_func _ := Some (fun st _ => (st, Ok 0));
  process_func _ := Some (fun st _ _ => (st, match st with [] => Err (lit "trap") | _ => Ok (blen st) end));
  memory_write st _ _ := Ok st;
  memory_read st _ n := if blen (take (Z.to_nat n) st) =? n then Ok (take (Z.to_nat n) st)
                        else Err (lit "out of bounds memory access") |}.

Definition loaded (n : string) (m : bytes) : @LoadedPlugin echo_wasm :=
  @mkLoaded echo_wasm (mkManifest (lit n) (lit "1") 1 []) m.

Lemma plugins_contained_witness :
  let h := @mkHost echo_wasm [loaded "a" []; loaded "b" (lit "seen")] in
  host_process h (lit "{}")
  = mkReport [mkAnnotation (lit "b") (lit "seen")] [(lit "a", lit "plugin execution failed: trap")].
Proof.
  refine (eq_trans (proj1 (proj2 (plugins_contained (@mkHost echo_wasm [loaded "a" []; loaded "b" (lit "seen")])
    (lit "{}") _)) _) _).
  - intros st ptr n out. cbn. destruct (Z.eqb_spec (blen (take (Z.to_nat n) st)) n); [|done]. by intros [= <-].
  - done.
  - by vm_compute.
Defined.
End Plugin.
