(* ===== verification/Http2.v ===== *)
(** * Http2: the HTTP/2 and gRPC decoder of [crates/lens-proto-http2].

    Frames, header blocks, multiplexed streams and the gRPC envelope, with the
    bounds on what is retained.  HPACK is decoded by the [httlib_hpack] crate,
    a parameter of the model: a state, and a decoding step that may fail. *)

From stdpp Require Import gmap.
From S2P Require Import Prelude RustStd Core Protocol.

Module Http2.

Definition CLIENT_PREFACE : bytes :=
  lit "PRI * HTTP/2.0" ++ crlf ++ crlf ++ lit "SM" ++ crlf ++ crlf.
Definition FRAME_HEADER_BYTES : Z := 9.
Definition MAX_OBSERVED_FRAME_PAYLOAD : Z := 1024 * 1024.
Definition MAX_HEADER_BLOCK : Z := 64 * 1024.
Definition MAX_DECODED_HEADERS : Z := 128 * 1024.
Definition MAX_TRACKED_STREAMS : Z := 256.
Definition MAX_INFLIGHT_CAPTURE : Z := 4 * 1024 * 1024.

Definition FRAME_DATA : Z := 0.
Definition FRAME_HEADERS : Z := 1.
Definition FRAME_RST_STREAM : Z := 3.
Definition FRAME_CONTINUATION : Z := 9.
Definition FLAG_END_STREAM : Z := 1.
Definition FLAG_END_HEADERS : Z := 4.
Definition FLAG_PADDED : Z := 8.
Definition FLAG_PRIORITY : Z := 32.

(** The HPACK decoder of one direction: its dynamic table, and [decode], which
    may change the table also when it fails. *)
Class Hpack := {
  hpack_state : Type;
  with_dynamic_size : Z -> hpack_state;
  hpack_decode : hpack_state -> bytes -> hpack_state * result (list (bytes * bytes)) }.

(** ** Frames *)

Record Frame := mkFrame { kind : Z; flags : Z; stream_id : Z; payload : bytes }.

Definition has_flag (f : Frame) (flag : Z) : bool := negb (Z.land (flags f) flag =? 0).

Definition header_fragment (f : Frame) : result bytes :=
  let? '(start, end_) :=
    if has_flag f FLAG_PADDED then
      match payload f with
      | [] => Err (lit "padded HTTP/2 HEADERS frame was empty")
      | padding :: _ =>
          let? end_ := ok_or (checked_sub (blen (payload f)) (byte_val padding))
                         (lit "HTTP/2 HEADERS padding exceeded its payload") in
          Ok (1, end_)
      end
    else Ok (0, blen (payload f)) in
  let start := if has_flag f FLAG_PRIORITY then start + 5 else start in
  if end_ <? start then Err (lit "HTTP/2 HEADERS metadata exceeded its payload")
  else Ok (drop (Z.to_nat start) (take (Z.to_nat end_) (payload f))).

Definition data_fragment (f : Frame) : result bytes :=
  if negb (has_flag f FLAG_PADDED) then Ok (payload f)
  else
    match payload f with
    | [] => Err (lit "padded HTTP/2 DATA frame was empty")
    | padding :: _ =>
        let? end_ := ok_or (checked_sub (blen (payload f)) (byte_val padding))
                       (lit "HTTP/2 DATA padding exceeded its payload") in
        if end_ <? 1 then Err (lit "HTTP/2 DATA padding consumed its length byte")
        else Ok (drop 1 (take (Z.to_nat end_) (payload f)))
    end.

Record HeaderBlock := mkBlock {
  block_stream : Z; end_stream : bool; block_bytes : bytes; exceeded : bool }.

Definition block_extend (b : HeaderBlock) (fragment : bytes) : HeaderBlock :=
  let remaining := sat_sub MAX_HEADER_BLOCK (blen (block_bytes b)) in
  let captured := Z.min remaining (blen fragment) in
  mkBlock (block_stream b) (end_stream b) (block_bytes b ++ take (Z.to_nat captured) fragment)
    (exceeded b || (captured <? blen fragment)).

(** ** The gRPC envelope *)

Record GrpcPayload := mkPayload {
  compressed : bool; plength : Z; remaining : Z; pbody : bytes; pmax_body : Z }.

Definition payload_finish (p : GrpcPayload) (dir : Direction) (stream_id : Z) (path : bytes) :
    DecodedMessage :=
  let role := match dir with ClientToServer => lit "request" | ServerToClient => lit "response" end in
  mkDecoded dir (lit "gRPC " ++ role ++ lit " " ++ path ++ lit " message " ++ dec (plength p) ++ lit " bytes")
    [(lit "lens-protocol", lit "grpc"); (lit "lens-content", lit "protobuf");
     (lit "lens-stream-id", dec stream_id); (lit "grpc-compressed", bool_text (compressed p));
     (lit "grpc-message-bytes", dec (plength p))]
    (pbody p) (pmax_body p <? plength p).

Record GrpcParser := mkGrpc { prefix : bytes; gpending : option GrpcPayload }.
Definition grpc_default : GrpcParser := mkGrpc [] None.

Definition has_incomplete (g : GrpcParser) : bool :=
  negb (prefix g =s []) || match gpending g with Some _ => true | None => false end.

Definition grpc_retained (g : GrpcParser) : Z :=
  match gpending g with Some p => blen (pbody p) | None => 0 end.

(** The state of the loop of [GrpcParser::push]. *)
Record GrpcLoop := mkLoop { parser : GrpcParser; input : bytes; output : list DecodedMessage }.

Section GrpcPush.
Context (dir : Direction) (stream_id : Z) (path : bytes) (max_body : Z).

Definition grpc_step (st : GrpcLoop) : GrpcLoop + (GrpcParser * result (list DecodedMessage)) :=
  match input st with
  | [] => inr (parser st, Ok (output st))
  | _ =>
      match gpending (parser st) with
      | Some p =>
          let consumed := Z.min (remaining p) (blen (input st)) in
          let captured := Z.min (sat_sub max_body (blen (pbody p))) consumed in
          let p := mkPayload (compressed p) (plength p) (remaining p - consumed)
                     (pbody p ++ take (Z.to_nat captured) (input st)) (pmax_body p) in
          let rest := drop (Z.to_nat consumed) (input st) in
          if remaining p =? 0 then
            inl (mkLoop (mkGrpc (prefix (parser st)) None) rest
                   (output st ++ [payload_finish p dir stream_id path]))
          else inl (mkLoop (mkGrpc (prefix (parser st)) (Some p)) rest (output st))
      | None =>
          let needed := 5 - blen (prefix (parser st)) in
          let consumed := Z.min needed (blen (input st)) in
          let prefix' := prefix (parser st) ++ take (Z.to_nat consumed) (input st) in
          let rest := drop (Z.to_nat consumed) (input st) in
          match prefix' with
          | flag :: b1 :: b2 :: b3 :: b4 :: _ =>
              if negb ((flag =b x00) || (flag =b x01)) then
                inr (mkGrpc [] None, Err (lit "invalid gRPC compressed-message flag"))
              else
                let length := be_uint [b1; b2; b3; b4] in
                let p := mkPayload (flag =b x01) length length [] max_body in
                if length =? 0 then
                  inl (mkLoop (mkGrpc [] None) rest (output st ++ [payload_finish p dir stream_id path]))
                else inl (mkLoop (mkGrpc [] (Some p)) rest (output st))
          | _ => inr (mkGrpc prefix' None, Ok (output st))
          end
      end
  end.

Definition grpc_push (g : GrpcParser) (s : bytes) : GrpcParser * result (list DecodedMessage) :=
  iterate (fun st => length (input st)) grpc_step (fun st => (parser st, Ok (output st)))
    (mkLoop g s []).
End GrpcPush.

(** ** Streams *)

(** A message whose body is being collected; its [finish] is the message. *)
Definition PendingMessage : Type := DecodedMessage.

Record StreamState := mkStream {
  request : option PendingMessage; response : option PendingMessage; grpc : bool;
  path : option bytes; grpc_request : GrpcParser; grpc_response : GrpcParser }.

Definition stream_default : StreamState :=
  mkStream None None false None grpc_default grpc_default.

Definition pending (s : StreamState) (dir : Direction) : option PendingMessage :=
  match dir with ClientToServer => request s | ServerToClient => response s end.

Definition set_pending (s : StreamState) (dir : Direction) (p : option PendingMessage) : StreamState :=
  match dir with
  | ClientToServer => mkStream p (response s) (grpc s) (path s) (grpc_request s) (grpc_response s)
  | ServerToClient => mkStream (request s) p (grpc s) (path s) (grpc_request s) (grpc_response s)
  end.

Definition grpc_of (s : StreamState) (dir : Direction) : GrpcParser :=
  match dir with ClientToServer => grpc_request s | ServerToClient => grpc_response s end.

Definition set_grpc (s : StreamState) (dir : Direction) (g : GrpcParser) : StreamState :=
  match dir with
  | ClientToServer => mkStream (request s) (response s) (grpc s) (path s) g (grpc_response s)
  | ServerToClient => mkStream (request s) (response s) (grpc s) (path s) (grpc_request s) g
  end.

Definition pending_bytes (p : option PendingMessage) : Z :=
  match p with Some m => blen (body m) | None => 0 end.

Definition stream_retained (s : StreamState) : Z :=
  pending_bytes (request s) + pending_bytes (response s)
  + grpc_retained (grpc_request s) + grpc_retained (grpc_response s).

Definition header (hs : list (bytes * bytes)) (name : string) : option bytes :=
  snd <$> List.find (fun h => eq_ignore_ascii_case (fst h) (lit name)) hs.

Definition boundary (dir : Direction) : bytes :=
  match dir with ClientToServer => lit "request" | ServerToClient => lit "response" end.

Definition add_http2_metadata (m : DecodedMessage) (stream_id : Z) (dir : Direction) : DecodedMessage :=
  mkDecoded (direction m) (start_line m)
    (headers m ++ [(lit "lens-protocol", lit "http2"); (lit "lens-stream-id", dec stream_id);
                   (lit "lens-boundary", boundary dir)])
    (body m) (truncated m).

(** ** The decoder *)

Section Decoder.
Context `{Hpack}.

Record DirectionState := mkState {
  buffer : bytes; expect_client_preface : bool; hpack : hpack_state;
  continuation : option HeaderBlock; skip_payload : Z }.

Definition direction_new (expect_client_preface : bool) : DirectionState :=
  mkState [] expect_client_preface (with_dynamic_size 4096) None 0.

Record Http2Decoder := mkHttp2 {
  client : DirectionState; server : DirectionState; streams : gmap Z StreamState;
  max_body : Z; retained_body_bytes : Z }.

Definition new (max_body : Z) : Http2Decoder :=
  mkHttp2 (direction_new true) (direction_new false) ∅ max_body 0.

Definition state (d : Http2Decoder) (dir : Direction) : DirectionState :=
  match dir with ClientToServer => client d | ServerToClient => server d end.

Definition set_state (d : Http2Decoder) (dir : Direction) (st : DirectionState) : Http2Decoder :=
  match dir with
  | ClientToServer => mkHttp2 st (server d) (streams d) (max_body d) (retained_body_bytes d)
  | ServerToClient => mkHttp2 (client d) st (streams d) (max_body d) (retained_body_bytes d)
  end.

Definition set_continuation (d : Http2Decoder) (dir : Direction) (b : option HeaderBlock) :
    Http2Decoder :=
  let st := state d dir in
  set_state d dir (mkState (buffer st) (expect_client_preface st) (hpack st) b (skip_payload st)).

Definition set_hpack (d : Http2Decoder) (dir : Direction) (h : hpack_state) : Http2Decoder :=
  let st := state d dir in
  set_state d dir (mkState (buffer st) (expect_client_preface st) h (continuation st) (skip_payload st)).

Definition set_streams (d : Http2Decoder) (ss : gmap Z StreamState) (retained : Z) : Http2Decoder :=
  mkHttp2 (client d) (server d) ss (max_body d) retained.

Definition set_stream (d : Http2Decoder) (id : Z) (s : StreamState) : Http2Decoder :=
  set_streams d (<[id := s]> (streams d)) (retained_body_bytes d).

Definition remove_stream (d : Http2Decoder) (id : Z) : Http2Decoder :=
  match streams d !! id with
  | Some s => set_streams d (delete id (streams d)) (sat_sub (retained_body_bytes d) (stream_retained s))
  | None => d
  end.

(** *** Taking frames off the buffer *)

Inductive NextFrame :=
| GotFrame (f : Frame)
| Skipped (reason : bytes)
| NeedMore
| Invalid (reason : bytes).

(** The part of [next_frame] behind the preface and the skipped payload. *)
Definition read_frame (st : DirectionState) : DirectionState * NextFrame :=
  let with_buffer b skip := mkState b (expect_client_preface st) (hpack st) (continuation st) skip in
  match buffer st with
  | b0 :: b1 :: b2 :: b3 :: b4 :: b5 :: b6 :: b7 :: b8 :: rest =>
      let length := Z.lor (Z.lor (Z.shiftl (byte_val b0) 16) (Z.shiftl (byte_val b1) 8)) (byte_val b2) in
      let id := be_uint [byte_of (Z.land (byte_val b5) 127); b6; b7; b8] in
      if MAX_OBSERVED_FRAME_PAYLOAD <? length then
        let consumed := Z.min length (blen rest) in
        (with_buffer (drop (Z.to_nat consumed) rest) (length - consumed),
         Skipped (lit "HTTP/2 frame payload of " ++ dec length
                  ++ lit " bytes exceeded the 1 MiB observation cap"))
      else if blen (buffer st) <? FRAME_HEADER_BYTES + length then (st, NeedMore)
      else (with_buffer (drop (Z.to_nat length) rest) (skip_payload st),
            GotFrame (mkFrame (byte_val b3) (byte_val b4) id (take (Z.to_nat length) rest)))
  | _ => (st, NeedMore)
  end.

(** The part of [next_frame] that skips the rest of an oversized frame. *)
Definition skip_frame (st : DirectionState) : DirectionState * NextFrame :=
  if 0 <? skip_payload st then
    let consumed := Z.min (skip_payload st) (blen (buffer st)) in
    let st := mkState (drop (Z.to_nat consumed) (buffer st)) (expect_client_preface st) (hpack st)
                (continuation st) (skip_payload st - consumed) in
    if 0 <? skip_payload st then (st, NeedMore) else read_frame st
  else read_frame st.

Definition next_frame (st : DirectionState) : DirectionState * NextFrame :=
  if expect_client_preface st then
    let compared := Nat.min (length (buffer st)) (length CLIENT_PREFACE) in
    if negb (take compared (buffer st) =s take compared CLIENT_PREFACE) then
      (mkState [] true (hpack st) (continuation st) (skip_payload st),
       Invalid (lit "invalid HTTP/2 client connection preface"))
    else if (length (buffer st) <? length CLIENT_PREFACE)%nat then (st, NeedMore)
    else skip_frame (mkState (drop (length CLIENT_PREFACE) (buffer st)) false (hpack st)
                       (continuation st) (skip_payload st))
  else skip_frame st.

(** *** Headers *)

Abbreviation Outcome := (Http2Decoder * result (list DecodedMessage))%type.

(** A gRPC stream: every header block is a message. *)
Definition grpc_headers (d : Http2Decoder) (dir : Direction) (id : Z) (end_stream : bool)
    (hs : list (bytes * bytes)) (s : StreamState) : Outcome :=
  let hs' := hs ++ [(lit "lens-protocol", lit "grpc"); (lit "lens-stream-id", dec id)] in
  let '(line, hs') :=
    match header hs ":method", header hs ":status" with
    | Some method, _ =>
        (lit "gRPC " ++ method ++ lit " "
         ++ match header hs ":path", path s with
            | Some p, _ => p
            | None, Some p => p
            | None, None => lit "/unknown"
            end,
         hs' ++ [(lit "lens-boundary", lit "request")])
    | None, Some status => (lit "gRPC response HTTP " ++ status, hs')
    | None, None =>
        let hs' := match dir with
                   | ServerToClient => hs' ++ [(lit "lens-boundary", lit "response")]
                   | ClientToServer => hs'
                   end in
        (lit "gRPC trailers status="
         ++ match header hs' "grpc-status" with Some v => v | None => lit "unknown" end, hs')
    end in
  (match end_stream, dir with true, ServerToClient => remove_stream d id | _, _ => d end,
   Ok [mkDecoded dir line hs' [] false]).

(** Trailers of a plain HTTP/2 message. *)
Definition trailers (d : Http2Decoder) (dir : Direction) (id : Z) (end_stream : bool)
    (hs : list (bytes * bytes)) (s : StreamState) : Outcome :=
  match pending s dir with
  | None => (d, Err (lit "HTTP/2 trailers arrived before initial headers"))
  | Some p =>
      let p := mkDecoded (direction p) (start_line p) (headers p ++ hs) (body p) (truncated p) in
      if end_stream then
        let d := set_stream d id (set_pending s dir None) in
        let d := set_streams d (streams d) (sat_sub (retained_body_bytes d) (blen (body p))) in
        (match dir with ServerToClient => remove_stream d id | ClientToServer => d end,
         Ok [add_http2_metadata p id dir])
      else (set_stream d id (set_pending s dir (Some p)), Ok [])
  end.

(** Initial headers of a plain HTTP/2 message. *)
Definition initial_headers (d : Http2Decoder) (dir : Direction) (id : Z) (end_stream : bool)
    (hs : list (bytes * bytes)) (s : StreamState) (line : bytes) : Outcome :=
  let p := mkDecoded dir line hs [] false in
  if end_stream then
    (set_stream d id (set_pending s dir None), Ok [add_http2_metadata p id dir])
  else (set_stream d id (set_pending s dir (Some p)), Ok []).

Definition apply_headers (d : Http2Decoder) (dir : Direction) (id : Z) (end_stream : bool)
    (hs : list (bytes * bytes)) : Outcome :=
  if match streams d !! id with None => true | Some _ => false end
     && (MAX_TRACKED_STREAMS <=? Z.of_nat (size (streams d))) then
    (d, Err (lit "HTTP/2 connection exceeded 256 tracked streams"))
  else
    let s := default stream_default (streams d !! id) in
    let content_type := default [] (header hs "content-type") in
    let s := mkStream (request s) (response s)
               (grpc s || starts_with (lit "application/grpc") (to_ascii_lowercase content_type))
               (match header hs ":path" with Some p => Some p | None => path s end)
               (grpc_request s) (grpc_response s) in
    let d := set_stream d id s in
    if grpc s then grpc_headers d dir id end_stream hs s
    else
      match header hs ":method", header hs ":status" with
      | Some method, _ =>
          initial_headers d dir id end_stream hs s
            (method ++ lit " " ++ default (lit "/") (header hs ":path") ++ lit " HTTP/2")
      | None, Some status => initial_headers d dir id end_stream hs s (lit "HTTP/2 " ++ status)
      | None, None => trailers d dir id end_stream hs s
      end.

(** [try_fold] with [checked_add] over the decoded fields. *)
Definition decoded_size (fields : list (bytes * bytes)) : option Z :=
  fold_left (fun total '(name, value) =>
      match total with
      | None => None
      | Some t => match checked_add t (blen name) with
                  | Some t => checked_add t (blen value)
                  | None => None
                  end
      end) fields (Some 0).

Definition complete_header_block (d : Http2Decoder) (dir : Direction) (b : HeaderBlock) : Outcome :=
  if exceeded b then (d, Err (lit "HTTP/2 header block exceeded 64 KiB and was skipped"))
  else
    let '(h, decoded) := hpack_decode (hpack (state d dir)) (block_bytes b) in
    let d := set_hpack d dir h in
    match decoded with
    | Err error => (d, Err (lit "HPACK decode failed: " ++ error))
    | Ok fields =>
        if match decoded_size fields with Some size => MAX_DECODED_HEADERS <? size | None => true end then
          (d, Err (lit "decoded HTTP/2 headers exceeded 128 KiB"))
        else
          apply_headers d dir (block_stream b) (end_stream b)
            (map (fun '(name, value) => (from_utf8_lossy name, from_utf8_lossy value)) fields)
    end.

Definition handle_headers (d : Http2Decoder) (dir : Direction) (f : Frame) : Outcome :=
  if stream_id f =? 0 then (d, Err (lit "HTTP/2 HEADERS frame used stream 0"))
  else
    match header_fragment f with
    | Err reason => (d, Err reason)
    | Ok fragment =>
        let b := block_extend (mkBlock (stream_id f) (has_flag f FLAG_END_STREAM) [] false) fragment in
        if has_flag f FLAG_END_HEADERS then complete_header_block d dir b
        else (set_continuation d dir (Some b), Ok [])
    end.

Definition handle_continuation (d : Http2Decoder) (dir : Direction) (f : Frame) : Outcome :=
  match continuation (state d dir) with
  | None => (d, Err (lit "unexpected HTTP/2 CONTINUATION frame"))
  | Some b =>
      let d := set_continuation d dir None in
      if negb (stream_id f =? block_stream b) then
        (d, Err (lit "HTTP/2 CONTINUATION changed stream identifiers"))
      else
        let b := block_extend b (payload f) in
        if has_flag f FLAG_END_HEADERS then complete_header_block d dir b
        else (set_continuation d dir (Some b), Ok [])
  end.

(** *** Data *)

Definition missing_trailers (dir : Direction) (id : Z) : DecodedMessage :=
  mkDecoded dir (lit "gRPC stream ended without trailers")
    [(lit "lens-protocol", lit "grpc"); (lit "lens-stream-id", dec id);
     (lit "lens-boundary", lit "response"); (lit "grpc-status", lit "missing")] [] true.

Definition grpc_data (d : Http2Decoder) (dir : Direction) (f : Frame) (s : StreamState)
    (data : bytes) : Outcome :=
  let global_remaining := sat_sub MAX_INFLIGHT_CAPTURE (retained_body_bytes d) in
  let id := stream_id f in
  let retained_before := grpc_retained (grpc_of s dir) in
  let capture_limit := Z.min (max_body d) (sat_add retained_before global_remaining) in
  let '(g, outcome) :=
    grpc_push dir id (default (lit "/unknown") (path s)) capture_limit (grpc_of s dir) data in
  let s := set_grpc s dir g in
  match outcome with
  | Err reason => (set_stream d id s, Err reason)
  | Ok messages =>
      let d := set_streams d (<[id := s]> (streams d))
                 (sat_add (sat_sub (retained_body_bytes d) retained_before) (grpc_retained g)) in
      if has_flag f FLAG_END_STREAM then
        if has_incomplete g then (d, Err (lit "gRPC stream ended inside a message envelope"))
        else match dir with
             | ServerToClient => (remove_stream d id, Ok (messages ++ [missing_trailers dir id]))
             | ClientToServer => (d, Ok messages)
             end
      else (d, Ok messages)
  end.

Definition plain_data (d : Http2Decoder) (dir : Direction) (f : Frame) (s : StreamState)
    (data : bytes) : Outcome :=
  let global_remaining := sat_sub MAX_INFLIGHT_CAPTURE (retained_body_bytes d) in
  let id := stream_id f in
  match pending s dir with
  | None => (d, Err (lit "HTTP/2 DATA arrived without message headers"))
  | Some p =>
      let remaining := Z.min (sat_sub (max_body d) (blen (body p))) global_remaining in
      let captured := Z.min remaining (blen data) in
      let p := mkDecoded (direction p) (start_line p) (headers p)
                 (body p ++ take (Z.to_nat captured) data)
                 (truncated p || (captured <? blen data)) in
      let retained := sat_add (retained_body_bytes d) captured in
      if has_flag f FLAG_END_STREAM then
        let d := set_streams d (<[id := set_pending s dir None]> (streams d))
                   (sat_sub retained (blen (body p))) in
        (match dir with ServerToClient => remove_stream d id | ClientToServer => d end,
         Ok [add_http2_metadata p id dir])
      else (set_streams d (<[id := set_pending s dir (Some p)]> (streams d)) retained, Ok [])
  end.

Definition handle_data (d : Http2Decoder) (dir : Direction) (f : Frame) : Outcome :=
  if stream_id f =? 0 then (d, Err (lit "HTTP/2 DATA frame used stream 0"))
  else
    match data_fragment f with
    | Err reason => (d, Err reason)
    | Ok data =>
        match streams d !! stream_id f with
        | None => (d, Err (lit "HTTP/2 DATA arrived before HEADERS"))
        | Some s => if grpc s then grpc_data d dir f s data else plain_data d dir f s data
        end
    end.

Definition handle_frame (d : Http2Decoder) (dir : Direction) (f : Frame) : Outcome :=
  if match continuation (state d dir) with Some _ => negb (kind f =? FRAME_CONTINUATION) | None => false end
  then (set_continuation d dir None,
        Err (lit "HTTP/2 header block was interrupted before END_HEADERS"))
  else if kind f =? FRAME_HEADERS then handle_headers d dir f
  else if kind f =? FRAME_CONTINUATION then handle_continuation d dir f
  else if kind f =? FRAME_DATA then handle_data d dir f
  else if kind f =? FRAME_RST_STREAM then
    (set_streams d (delete (stream_id f) (streams d)) (retained_body_bytes d), Ok [])
  else (d, Ok []).

(** *** The loop *)

Definition decode_round (dir : Direction) (d : Http2Decoder) : Round Http2Decoder :=
  let '(st, next) := next_frame (state d dir) in
  let d := set_state d dir st in
  match next with
  | GotFrame f =>
      let '(d, outcome) := handle_frame d dir f in
      match outcome with
      | Ok messages => Continue d (mkBatch messages None)
      | Err reason => Continue (set_continuation d dir None) (desync reason)
      end
  | Skipped reason => Continue d (desync reason)
  | NeedMore => Break d need_more
  | Invalid reason => Break d (desync reason)
  end.

Definition decode_available (dir : Direction) (d : Http2Decoder) : Http2Decoder * DecodeBatch :=
  decode_loop (fun d => length (buffer (state d dir))) (decode_round dir) d.

Definition set_buffer (st : DirectionState) (b : bytes) : DirectionState :=
  mkState b (expect_client_preface st) (hpack st) (continuation st) (skip_payload st).

Definition http2_push (d : Http2Decoder) (dir : Direction) (s : bytes) : Http2Decoder * DecodeBatch :=
  decode_available dir (set_state d dir (set_buffer (state d dir) (buffer (state d dir) ++ s))).

Definition http2_finish (d : Http2Decoder) (dir : Direction) : Http2Decoder * DecodeBatch :=
  let '(d, batch) := decode_available dir d in
  let st := state d dir in
  if negb (buffer st =s []) || match continuation st with Some _ => true | None => false end
     || (0 <? skip_payload st) then
    (set_state d dir (mkState [] (expect_client_preface st) (hpack st) None 0),
     set_desync batch (lit "HTTP/2 stream ended inside a frame"))
  else (d, batch).

#[export] Instance Http2Decoder_streaming : StreamingDecoder Http2Decoder := {
  protocol _ := lit "http2";
  push := http2_push;
  finish := http2_finish }.
End Decoder.

(** ** Frames and fragments *)

Section Frames.
Context `{Hpack}.

(** What taking a frame off the buffer does to the rest of the state. *)
Definition frame_taken (st st' : DirectionState) (next : NextFrame) : Prop :=
  hpack st' = hpack st /\ continuation st' = continuation st /\
  match next with
  | GotFrame f => (length (buffer st') < length (buffer st))%nat /\
                  blen (payload f) <= MAX_OBSERVED_FRAME_PAYLOAD
  | Skipped _ => (length (buffer st') < length (buffer st))%nat
  | _ => (length (buffer st') <= length (buffer st))%nat
  end.

Lemma frame_taken_after st0 st st' next :
  hpack st = hpack st0 -> continuation st = continuation st0 ->
  (length (buffer st) <= length (buffer st0))%nat ->
  frame_taken st st' next -> frame_taken st0 st' next.
Proof.
  intros H1 H2 H3 (H4 & H5 & H6). split; [congruence|]. split; [congruence|].
  destruct next; simpl in *; destruct_and?; split_and?; lia.
Qed.

Lemma read_frame_taken st st' next : read_frame st = (st', next) -> frame_taken st st' next.
Proof.
  unfold read_frame.
  destruct (buffer st) as [|b0 [|b1 [|b2 [|b3 [|b4 [|b5 [|b6 [|b7 [|b8 rest]]]]]]]]] eqn:Eb;
    try (intros [= <- <-]; repeat split; simpl; by rewrite Eb).
  set (n := Z.lor _ _). destruct (Z.ltb_spec MAX_OBSERVED_FRAME_PAYLOAD n).
  { intros [= <- <-]. repeat split. cbn [buffer]. rewrite Eb, length_drop. simpl. lia. }
  destruct (Z.ltb_spec (blen (b0 :: b1 :: b2 :: b3 :: b4 :: b5 :: b6 :: b7 :: b8 :: rest)) (FRAME_HEADER_BYTES + n)).
  { intros [= <- <-]. repeat split. simpl. lia. }
  intros [= <- <-]. repeat split; cbn [buffer payload].
  - rewrite Eb, length_drop. simpl. lia.
  - unfold blen. rewrite length_take. unfold MAX_OBSERVED_FRAME_PAYLOAD in *. lia.
Qed.

Lemma skip_frame_taken st st' next : skip_frame st = (st', next) -> frame_taken st st' next.
Proof.
  unfold skip_frame. destruct (0 <? skip_payload st); [|apply read_frame_taken].
  set (st1 := mkState _ _ _ _ _).
  assert (length (buffer st1) <= length (buffer st))%nat by (cbn [st1 buffer]; rewrite length_drop; lia).
  destruct (0 <? skip_payload st1).
  - intros [= <- <-]. by repeat split.
  - intros E. apply read_frame_taken in E. by eapply frame_taken_after; [..|exact E].
Qed.

Lemma next_frame_taken st st' next : next_frame st = (st', next) -> frame_taken st st' next.
Proof.
  unfold next_frame. destruct (expect_client_preface st); [|apply skip_frame_taken].
  destruct (negb _); [intros [= <- <-]; repeat split; simpl; lia|].
  case_match; [intros [= <- <-]; repeat split; lia|].
  intros E. apply skip_frame_taken in E. eapply frame_taken_after; [..|exact E]; try done.
  cbn [buffer]. rewrite length_drop. lia.
Qed.

(** More input behind a frame changes nothing; waiting for input can be taken
    up again. *)
Definition ext (st : DirectionState) (t : bytes) : DirectionState := set_buffer st (buffer st ++ t).

Definition resumes (next : DirectionState -> DirectionState * NextFrame) (st : DirectionState) : Prop :=
  forall st' out t, next st = (st', out) ->
  match out with
  | GotFrame _ => next (ext st t) = (ext st' t, out)
  | NeedMore => next (ext st t) = next (ext st' t)
  | _ => True
  end.

Lemma read_frame_resumes st : resumes read_frame st.
Proof.
  intros st' out t. unfold read_frame at 1.
  destruct (buffer st) as [|b0 [|b1 [|b2 [|b3 [|b4 [|b5 [|b6 [|b7 [|b8 rest]]]]]]]]] eqn:Eb;
    try (by intros [= <- <-]).
  set (n := Z.lor _ _). destruct (Z.ltb_spec MAX_OBSERVED_FRAME_PAYLOAD n) as [|Hn]; [by intros [= <- <-]|].
  destruct (Z.ltb_spec (blen (b0 :: b1 :: b2 :: b3 :: b4 :: b5 :: b6 :: b7 :: b8 :: rest)) (FRAME_HEADER_BYTES + n))
    as [|Hb]; [by intros [= <- <-]|].
  intros [= <- <-]. unfold read_frame, ext, set_buffer. cbn [buffer]. rewrite Eb. cbn [app]. fold n.
  destruct (Z.ltb_spec MAX_OBSERVED_FRAME_PAYLOAD n); [lia|].
  unfold FRAME_HEADER_BYTES in *.
  destruct (Z.ltb_spec (blen (b0 :: b1 :: b2 :: b3 :: b4 :: b5 :: b6 :: b7 :: b8 :: rest ++ t)) (9 + n)); [len|].
  cbn [expect_client_preface hpack continuation skip_payload].
  by rewrite take_app_le, drop_app_le by len.
Qed.

Lemma read_frame_waits st st' : read_frame st = (st', NeedMore) -> st' = st.
Proof. unfold read_frame. repeat case_match; intros ?; by simplify_eq. Qed.

Lemma skip_frame_resumes st : resumes skip_frame st.
Proof.
  intros st' out t. destruct (Z.ltb_spec 0 (skip_payload st)) as [Hs|Hs].
  - unfold skip_frame. cbn [ext set_buffer skip_payload buffer].
    rewrite (proj2 (Z.ltb_lt 0 (skip_payload st))) by done.
    destruct (Z.le_gt_cases (skip_payload st) (blen (buffer st))) as [Hl|Hl].
    + rewrite (Z.min_l _ (blen (buffer st))) by done.
      rewrite (Z.min_l _ (blen (buffer st ++ t))) by (rewrite blen_app; pose proof (blen_nonneg t); lia).
      rewrite Z.sub_diag, drop_app_le by len. cbn [skip_payload].
      change (0 <? 0) with false. cbv iota.
      set (st1 := mkState _ _ _ _ 0) at 1. intros E.
      pose proof (read_frame_resumes st1 st' out t E) as Hr. destruct out; try done.
      apply read_frame_waits in E as ->. done.
    + rewrite (Z.min_r _ (blen (buffer st))) by lia. cbn [skip_payload].
      destruct (Z.ltb_spec 0 (skip_payload st - blen (buffer st))); [|lia].
      intros [= <- <-]. cbn [skip_payload buffer expect_client_preface hpack continuation].
      destruct (Z.ltb_spec 0 (skip_payload st - blen (buffer st))); [|lia].
      assert (Hd : drop (Z.to_nat (blen (buffer st))) (buffer st) = []) by (apply drop_ge; len).
      rewrite Hd. cbn [app].
      replace (Z.min (skip_payload st) (blen (buffer st ++ t)))
        with (blen (buffer st) + Z.min (skip_payload st - blen (buffer st)) (blen t)) by (rewrite blen_app; lia).
      rewrite Z2Nat.inj_add by (pose proof (blen_nonneg t); pose proof (blen_nonneg (buffer st)); lia).
      replace (Z.to_nat (blen (buffer st))) with (length (buffer st)) by len.
      rewrite drop_app_add. by rewrite Z.sub_add_distr.
  - assert (Hrd : forall b, skip_frame (set_buffer st b) = read_frame (set_buffer st b)).
    { intros b. unfold skip_frame. cbn [set_buffer skip_payload].
      by rewrite (proj2 (Z.ltb_ge 0 (skip_payload st))). }
    assert (Hst : skip_frame st = read_frame st) by (specialize (Hrd (buffer st)); by destruct st).
    rewrite Hst. unfold ext at 1 3. rewrite Hrd. intros E.
    pose proof (read_frame_resumes st st' out t E) as Hr. destruct out; try done.
    apply read_frame_waits in E as ->. unfold ext in *. by rewrite Hrd.
Qed.

Lemma next_frame_resumes st : resumes next_frame st.
Proof.
  intros st' out t. destruct (expect_client_preface st) eqn:Ep.
  - unfold next_frame at 1. rewrite Ep.
    destruct (negb (take (Nat.min (length (buffer st)) (length CLIENT_PREFACE)) (buffer st)
      =s take (Nat.min (length (buffer st)) (length CLIENT_PREFACE)) CLIENT_PREFACE)) eqn:En;
      [by intros [= <- <-]|].
    destruct (Nat.ltb_spec (length (buffer st)) (length CLIENT_PREFACE)) as [|Hl]; [by intros [= <- <-]|].
    rewrite Nat.min_r in En by done.
    set (st1 := mkState _ _ _ _ _). intros E.
    assert (Hn : next_frame (ext st t) = skip_frame (ext st1 t)).
    { unfold next_frame, ext, set_buffer. cbn [expect_client_preface buffer st1]. rewrite Ep.
      rewrite length_app, Nat.min_r by lia. rewrite take_app_le by done. rewrite En.
      destruct (Nat.ltb_spec (length (buffer st) + length t) (length CLIENT_PREFACE)); [lia|].
      by rewrite drop_app_le by done. }
    rewrite Hn. pose proof (skip_frame_resumes st1 st' out t E) as Hr. destruct out; try done.
    rewrite Hr. assert (Hx : expect_client_preface st' = false).
    { unfold skip_frame in E. repeat case_match; simplify_eq; try done;
        apply read_frame_waits in E; by subst. }
    unfold next_frame, ext, set_buffer. cbn [expect_client_preface]. by rewrite Hx.
  - assert (Hrd : forall st, expect_client_preface st = false -> next_frame st = skip_frame st).
    { intros s Hs. unfold next_frame. by rewrite Hs. }
    rewrite Hrd by done. rewrite (Hrd (ext st t)) by done. intros E.
    pose proof (skip_frame_resumes st st' out t E) as Hr. destruct out; try done.
    rewrite Hr, Hrd; [done|]. unfold skip_frame in E. repeat case_match; simplify_eq; try done;
        apply read_frame_waits in E; by subst.
Qed.
End Frames.

(** ** The gRPC parser *)

(** Between two pushes a parser holds less than an envelope header, or a
    payload with bytes missing; [mb] bounds what it has captured of it. *)
Definition grpc_ok (mb : Z) (g : GrpcParser) : Prop :=
  match gpending g with
  | Some p => prefix g = [] /\ 0 < remaining p /\ blen (pbody p) <= mb
  | None => blen (prefix g) < 5
  end.

Section GrpcFacts.
Context (dir : Direction) (id : Z) (path : bytes) (limit : Z).
#[local] Abbreviation step := (grpc_step dir id path limit).

Lemma be4_bounds b1 b2 b3 b4 : 0 <= be_uint [b1; b2; b3; b4] < 256 ^ 4.
Proof. apply (be_uint_bounds [b1; b2; b3; b4]). Qed.

(** Everything a round does: it keeps the parser in order, takes input, and
    emits only messages of this direction. *)
Definition round_ok (mb : Z) (st : GrpcLoop) (next : GrpcLoop + (GrpcParser * result (list DecodedMessage))) :
    Prop :=
  match next with
  | inl st' =>
      grpc_ok mb (parser st') /\ (length (input st') < length (input st))%nat /\
      exists ms, output st' = output st ++ ms /\
        Forall (fun m => direction m = dir /\ blen (body m) <= mb) ms
  | inr (g, Ok out) => grpc_ok mb g /\ out = output st
  | inr (g, Err _) => g = grpc_default
  end.

Lemma grpc_step_ok mb st :
  0 <= limit <= mb -> grpc_ok mb (parser st) -> round_ok mb st (step st).
Proof.
  intros Hlim Hg. unfold grpc_step. destruct (input st) as [|b s] eqn:Ei; [by split|].
  set (w := b :: s). assert (Hw : 0 < blen w) by (unfold w; len).
  unfold grpc_ok in Hg. destruct (gpending (parser st)) as [p|].
  - destruct Hg as (Hpre & Hrem & Hbody).
    set (consumed := Z.min (remaining p) (blen w)).
    set (captured := Z.min (sat_sub limit (blen (pbody p))) consumed).
    assert (Hcap : blen (pbody p ++ take (Z.to_nat captured) w) <= mb).
    { rewrite blen_app. unfold blen at 2. rewrite length_take. unfold captured, sat_sub in *. lia. }
    assert (Hlt : (length (drop (Z.to_nat consumed) w) < length w)%nat).
    { rewrite length_drop. unfold consumed, blen in *. lia. }
    cbn [remaining]. destruct (Z.eqb_spec (remaining p - consumed) 0); cbn [round_ok parser input output].
    + split; [unfold grpc_ok; cbn [gpending prefix]; rewrite Hpre; done|]. split; [by rewrite Ei|].
      eexists; split; [done|]. constructor; [|done]. done.
    + split; [|split; [by rewrite Ei|]].
      { unfold grpc_ok. cbn [gpending prefix remaining pbody]. split; [done|]. split; [|done].
        unfold consumed in *. lia. }
      exists []. by rewrite app_nil_r.
  - set (consumed := Z.min (5 - blen (prefix (parser st))) (blen w)).
    set (pre := prefix (parser st) ++ take (Z.to_nat consumed) w).
    assert (Hlt : (length (drop (Z.to_nat consumed) w) < length w)%nat).
    { rewrite length_drop. unfold consumed, blen in *. lia. }
    destruct pre as [|flag [|b1 [|b2 [|b3 [|b4 tl]]]]] eqn:Epre; try (by split).
    destruct (negb _); [done|]. pose proof (be4_bounds b1 b2 b3 b4) as Hn.
    destruct (Z.eqb_spec (be_uint [b1; b2; b3; b4]) 0); cbn [round_ok parser input output].
    + split; [done|]. split; [by rewrite Ei|]. eexists; split; [done|]. constructor; [|done].
      split; [done|]. change (0 <= mb). lia.
    + split; [|split; [by rewrite Ei|]].
      { unfold grpc_ok. cbn [gpending prefix remaining pbody]. split; [done|]. split; [lia|].
        change (blen []) with 0. lia. }
      exists []. by rewrite app_nil_r.
Qed.

Lemma grpc_decreasing mb :
  0 <= limit <= mb ->
  decreasing (fun st => length (input st)) step (fun st => grpc_ok mb (parser st)).
Proof.
  intros Hlim st st' Hg E. pose proof (grpc_step_ok mb st Hlim Hg) as Hr. rewrite E in Hr. by destruct Hr as (?&?&_).
Qed.

(** What a push promises. *)
Lemma grpc_push_ok mb g s :
  0 <= limit <= mb -> grpc_ok mb g ->
  match grpc_push dir id path limit g s with
  | (g', Ok ms) => grpc_ok mb g' /\ Forall (fun m => direction m = dir /\ blen (body m) <= mb) ms
  | (g', Err _) => g' = grpc_default
  end.
Proof.
  intros Hlim Hg. unfold grpc_push.
  enough (forall st, grpc_ok mb (parser st) ->
    Forall (fun m => direction m = dir /\ blen (body m) <= mb) (output st) ->
    match iterate (fun st => length (input st)) step (fun st => (parser st, Ok (output st))) st with
    | (g', Ok ms) => grpc_ok mb g' /\ Forall (fun m => direction m = dir /\ blen (body m) <= mb) ms
    | (g', Err _) => g' = grpc_default
    end) as Hall by (by apply Hall).
  intros st Hst. revert Hst.
  apply (iterate_ind _ _ (fun st => grpc_ok mb (parser st)) _
    (fun st r => Forall (fun m => direction m = dir /\ blen (body m) <= mb) (output st) ->
      match r with
      | (g', Ok ms) => grpc_ok mb g' /\ Forall (fun m => direction m = dir /\ blen (body m) <= mb) ms
      | (g', Err _) => g' = grpc_default
      end)); [by apply grpc_decreasing|..].
  - intros x [g' [ms|r]] Hx E Ho; pose proof (grpc_step_ok mb x Hlim Hx) as Hr; rewrite E in Hr; [|done].
    by destruct Hr as [? ->].
  - intros x x' r Hx E IH Ho. apply IH. pose proof (grpc_step_ok mb x Hlim Hx) as Hr. rewrite E in Hr.
    destruct Hr as (_ & _ & ms & -> & Hms). by apply Forall_app.
Qed.
End GrpcFacts.

(** A parser in order under a bound is in order under what it holds. *)
Lemma grpc_ok_retained mb g : grpc_ok mb g -> 0 <= mb -> 0 <= grpc_retained g <= mb.
Proof.
  unfold grpc_ok, grpc_retained. destruct (gpending g) as [p|]; [|lia].
  intros (_&_&?) ?. pose proof (blen_nonneg (pbody p)). lia.
Qed.

Lemma grpc_ok_weaken a b g : a <= b -> grpc_ok a g -> grpc_ok b g.
Proof. unfold grpc_ok. destruct (gpending g); [|done]. intros ? (?&?&?). split_and!; try done; lia. Qed.

Lemma grpc_ok_tight mb k g : grpc_ok mb g -> grpc_retained g <= k -> grpc_ok k g.
Proof. unfold grpc_ok, grpc_retained. destruct (gpending g); [|done]. by intros (?&?&?) ?. Qed.

(** *** Fragments and exactness of the envelope *)

Section GrpcExact.
Context (dir : Direction) (id : Z) (path : bytes) (limit : Z) (Hlimit : 0 <= limit).
#[local] Abbreviation step := (grpc_step dir id path limit).
#[local] Abbreviation run l :=
  (iterate (fun x => length (input x)) step (fun x => (parser x, Ok (output x))) l).

(** The captured body is bounded by what the parser holds and the limit. *)
Definition grpc_bound (g : GrpcParser) : Z := Z.max limit (grpc_retained g).

Definition grpc_fine (g : GrpcParser) : Prop := exists mb, limit <= mb /\ grpc_ok mb g.

Lemma grpc_fine_step g w out st' :
  grpc_fine g -> step (mkLoop g w out) = inl st' ->
  grpc_fine (parser st') /\ (length (input st') < length w)%nat.
Proof.
  intros (mb & Hmb & Hg) E.
  pose proof (grpc_step_ok dir id path limit mb (mkLoop g w out) ltac:(lia) Hg) as Hr.
  rewrite E in Hr. destruct Hr as (? & ? & _). split; [by exists mb|done].
Qed.

Lemma grpc_fine_decreasing : decreasing (fun st => length (input st)) step (fun st => grpc_fine (parser st)).
Proof. intros [g w out] st' Hg E. by apply (grpc_fine_step g w out). Qed.

Lemma grpc_run_unfold st :
  grpc_fine (parser st) ->
  run st = match step st with inl st' => run st' | inr r => r end.
Proof. intros Hg. by apply (iterate_unfold _ _ (fun st => grpc_fine (parser st))); [apply grpc_fine_decreasing|]. Qed.

Lemma take_min_app (a c : bytes) (k m : Z) :
  0 <= k -> 0 <= m ->
  take (Z.to_nat (Z.min k (blen a + m))) (a ++ c)
  = take (Z.to_nat (Z.min k (blen a))) a ++ take (Z.to_nat (Z.min (Z.max 0 (k - blen a)) m)) c.
Proof.
  intros Hk Hm. pose proof (blen_nonneg a). destruct (Z.le_gt_cases k (blen a)).
  - rewrite !Z.min_l by lia. rewrite take_app_le by len.
    rewrite Z.max_l by lia. by rewrite app_nil_r.
  - rewrite (Z.min_r k (blen a)), Z.max_r by lia.
    replace (Z.min k (blen a + m)) with (blen a + Z.min (k - blen a) m) by lia.
    rewrite Z2Nat.inj_add by lia. replace (Z.to_nat (blen a)) with (length a) by len.
    by rewrite take_app_add, firstn_all.
Qed.

(** A round that swallows all the input is taken up by the next input. *)
Lemma grpc_step_resume g a c out g1 :
  grpc_fine g -> a <> [] -> c <> [] ->
  (step (mkLoop g a out) = inl (mkLoop g1 [] out) \/ step (mkLoop g a out) = inr (g1, Ok out)) ->
  (exists p, gpending g = Some p /\ blen a < remaining p) \/
  (gpending g = None /\ blen (prefix g) + blen a < 5) ->
  step (mkLoop g (a ++ c) out) = step (mkLoop g1 c out).
Proof.
  intros (mb & Hmb & Hg) Ha Hc E Hcase.
  assert (Hpa : 0 < blen a) by (destruct a; [done|len]).
  assert (Hpc : 0 < blen c) by (destruct c; [done|len]).
  unfold grpc_step in *. cbn [input parser output] in *.
  destruct a as [|b a]; [done|]. destruct c as [|b' c]; [done|]. set (w := b :: a) in *. set (v := b' :: c) in *.
  change ((w ++ v)) with (b :: a ++ v). cbv iota. change (b :: a ++ v) with (w ++ v).
  unfold grpc_ok in Hg. destruct Hcase as [(p & Hp & Hlt)|[Hp Hlt]]; rewrite Hp in *.
  - destruct Hg as (Hpre & Hrem & Hbody). cbn [remaining] in E.
    rewrite (Z.min_r _ (blen w)) in E by lia.
    destruct (Z.eqb_spec (remaining p - blen w) 0); [lia|].
    destruct E as [E|E]; [|done]. injection E as <- _. cbn [gpending remaining prefix pbody plength compressed pmax_body].
    rewrite blen_app.
    replace (Z.min (remaining p) (blen w + blen v))
      with (blen w + Z.min (remaining p - blen w) (blen v)) by lia.
    set (m := Z.min (remaining p - blen w) (blen v)).
    assert (Hm : 0 <= m) by (unfold m; lia).
    rewrite (take_min_app w v (sat_sub limit (blen (pbody p))) m) by (auto using sat_sub_nonneg).
    rewrite Z2Nat.inj_add by lia. replace (Z.to_nat (blen w)) with (length w) by len.
    rewrite drop_app_add, Z.sub_add_distr, <- app_assoc. fold m.
    assert (Hsat : sat_sub limit (blen (pbody p ++ take (Z.to_nat (Z.min (sat_sub limit (blen (pbody p))) (blen w))) w))
      = Z.max 0 (sat_sub limit (blen (pbody p)) - blen w)).
    { rewrite blen_app. unfold blen at 2. rewrite length_take. unfold sat_sub, blen in *. lia. }
    by rewrite Hsat.
  - rewrite (Z.min_r _ (blen w)) in E by lia.
    assert (Hw : take (Z.to_nat (blen w)) w = w) by (apply take_ge; len). rewrite Hw in E.
    assert (g1 = mkGrpc (prefix g ++ w) None) as ->.
    { assert (Hl : (length (prefix g ++ w) < 5)%nat) by len.
      destruct (prefix g ++ w) as [|? [|? [|? [|? [|? ?]]]]]; try (simpl in Hl; lia);
        destruct E as [E|E]; try done; by injection E as <-. }
    cbn [gpending prefix]. rewrite blen_app, blen_app.
    replace (Z.min (5 - blen (prefix g)) (blen w + blen v))
      with (blen w + Z.min (5 - (blen (prefix g) + blen w)) (blen v)) by lia.
    set (m := Z.min (5 - (blen (prefix g) + blen w)) (blen v)). assert (0 <= m) by (unfold m; lia).
    rewrite Z2Nat.inj_add by lia. replace (Z.to_nat (blen w)) with (length w) by len.
    by rewrite take_app_add, drop_app_add, app_assoc.
Qed.

(** A round that finds all it needs is not disturbed by more input. *)
Lemma grpc_step_go g a c out :
  grpc_fine g -> a <> [] ->
  (exists p, gpending g = Some p /\ remaining p <= blen a) \/
  (gpending g = None /\ 5 <= blen (prefix g) + blen a) ->
  match step (mkLoop g a out) with
  | inl st' => step (mkLoop g (a ++ c) out) = inl (mkLoop (parser st') (input st' ++ c) (output st'))
  | inr (g', Ok _) => False
  | inr (g', Err r) => step (mkLoop g (a ++ c) out) = inr (g', Err r)
  end.
Proof.
  intros (mb & Hmb & Hg) Ha Hcase.
  unfold grpc_step. cbn [input parser output].
  destruct a as [|b a]; [done|]. set (w := b :: a) in *. change (w ++ c) with (b :: a ++ c). cbv iota.
  change (b :: a ++ c) with (w ++ c). pose proof (blen_nonneg c).
  unfold grpc_ok in Hg. destruct Hcase as [(p & Hp & Hlt)|[Hp Hlt]]; rewrite Hp in *.
  - destruct Hg as (Hpre & Hrem & Hbody). rewrite blen_app, !(Z.min_l (remaining p)) by lia.
    cbn [remaining]. rewrite Z.sub_diag. change (0 =? 0) with true. cbv iota.
    cbn [parser input output]. rewrite take_app_le by len. by rewrite drop_app_le by len.
  - rewrite blen_app, !(Z.min_l (5 - blen (prefix g))) by lia.
    rewrite take_app_le, drop_app_le by len.
    set (pre := prefix g ++ _).
    assert (Hl : length pre = 5%nat) by (unfold pre; rewrite length_app, length_take; len).
    destruct pre as [|flag [|b1 [|b2 [|b3 [|b4 tl]]]]]; try done.
    destruct (negb _); [done|]. by destruct (Z.eqb_spec (be_uint [b1; b2; b3; b4]) 0).
Qed.

(** When the round does not find all it needs, it swallows its input. *)
Lemma grpc_step_swallow g a out :
  grpc_fine g -> a <> [] ->
  (exists p, gpending g = Some p /\ blen a < remaining p) \/
  (gpending g = None /\ blen (prefix g) + blen a < 5) ->
  exists g1, grpc_fine g1 /\
    (step (mkLoop g a out) = inl (mkLoop g1 [] out) \/ step (mkLoop g a out) = inr (g1, Ok out)).
Proof.
  intros (mb & Hmb & Hg) Ha Hcase.
  pose proof (grpc_step_ok dir id path limit mb (mkLoop g a out) ltac:(lia) Hg) as Hok. revert Hok.
  unfold grpc_step. cbn [input parser output].
  destruct a as [|b a]; [done|]. set (w := b :: a) in *.
  unfold grpc_ok in Hg. destruct Hcase as [(p & Hp & Hlt)|[Hp Hlt]]; rewrite Hp in *.
  - rewrite (Z.min_r (remaining p)) by lia. cbn [remaining].
    destruct (Z.eqb_spec (remaining p - blen w) 0); [lia|]. intros (Hok & _). eexists.
    split; [by exists mb|]. left. by rewrite drop_ge by len.
  - rewrite (Z.min_r (5 - blen (prefix g))) by lia. set (pre := prefix g ++ _).
    assert (Hl : (length pre < 5)%nat) by (unfold pre; rewrite length_app, length_take; len).
    destruct pre as [|flag [|b1 [|b2 [|b3 [|b4 tl]]]]]; try (simpl in Hl; lia);
      intros [Hok _]; (eexists; split; [by exists mb|by right]).
Qed.

Lemma grpc_run_nil g out : run (mkLoop g [] out) = (g, Ok out).
Proof. done. Qed.

Lemma grpc_run_app g a c out :
  grpc_fine g ->
  run (mkLoop g (a ++ c) out)
  = match run (mkLoop g a out) with
    | (g1, Ok out1) => run (mkLoop g1 c out1)
    | (g1, Err r) => (g1, Err r)
    end.
Proof.
  revert g out. induction a as [a IH] using (induction_ltof1 _ (@length byte)); unfold ltof in IH.
  intros g out Hg. destruct (decide (a = [])) as [->|Ha]; [done|].
  destruct (decide (c = [])) as [->|Hc].
  { rewrite app_nil_r. by destruct (run (mkLoop g a out)) as [g1 [o|r]]. }
  assert (Hcases : ((exists p, gpending g = Some p /\ remaining p <= blen a) \/
                    (gpending g = None /\ 5 <= blen (prefix g) + blen a)) \/
                   ((exists p, gpending g = Some p /\ blen a < remaining p) \/
                    (gpending g = None /\ blen (prefix g) + blen a < 5))).
  { destruct (gpending g) as [p|].
    - destruct (Z.le_gt_cases (remaining p) (blen a)); [left; left; eauto|right; left; eauto].
    - destruct (Z.le_gt_cases 5 (blen (prefix g) + blen a)); [left; right; eauto|right; right; eauto]. }
  destruct Hcases as [Hgo|Hsw].
  - pose proof (grpc_step_go g a c out Hg Ha Hgo) as Hs. rewrite !grpc_run_unfold by done.
    destruct (step (mkLoop g a out)) as [[g1 w1 o1]|[g1 [o1|r]]] eqn:E; [|done|by rewrite Hs].
    rewrite Hs. apply grpc_fine_step in E as [Hg1 Hlt]; [|done]. by apply IH.
  - destruct (grpc_step_swallow g a out Hg Ha Hsw) as (g1 & Hg1 & Hs).
    pose proof (grpc_step_resume g a c out g1 Hg Ha Hc Hs Hsw) as Hr.
    rewrite (grpc_run_unfold (mkLoop g (a ++ c) out)), Hr, <- (grpc_run_unfold (mkLoop g1 c out)) by done.
    rewrite (grpc_run_unfold (mkLoop g a out)) by done. by destruct Hs as [-> | ->].
Qed.

(** What was emitted before is kept in front. *)
Lemma grpc_run_out g s out :
  grpc_fine g ->
  run (mkLoop g s out)
  = match run (mkLoop g s []) with (g1, Ok o) => (g1, Ok (out ++ o)) | (g1, Err r) => (g1, Err r) end.
Proof.
  revert g out. induction s as [s IH] using (induction_ltof1 _ (@length byte)); unfold ltof in IH.
  intros g out Hg. rewrite !grpc_run_unfold by done.
  assert (Hstep : step (mkLoop g s out)
    = match step (mkLoop g s []) with
      | inl (mkLoop g1 w o) => inl (mkLoop g1 w (out ++ o))
      | inr (g1, Ok o) => inr (g1, Ok (out ++ o))
      | inr (g1, Err r) => inr (g1, Err r)
      end).
  { unfold grpc_step. cbn [input parser output].
    destruct s; [by rewrite app_nil_r|]. destruct (gpending g); repeat case_match; simplify_eq;
      by rewrite ?app_nil_r. }
  rewrite Hstep. destruct (step (mkLoop g s [])) as [[g1 w o]|[g1 [o|r]]] eqn:E; try done.
  apply grpc_fine_step in E as [Hg1 Hlt]; [|done]. cbn [parser input] in *.
  rewrite (IH w Hlt g1 (out ++ o)), (IH w Hlt g1 o) by done.
  destruct (run (mkLoop g1 w [])) as [g2 [o2|r]]; [|done]. by rewrite app_assoc.
Qed.

(** An envelope on the wire, and the message it stands for. *)
Definition grpc_frame (m : bool * bytes) : bytes :=
  (if fst m then x01 else x00) :: be_bytes 4 (blen (snd m)) ++ snd m.

Definition grpc_meaning (m : bool * bytes) : DecodedMessage :=
  payload_finish (mkPayload (fst m) (blen (snd m)) 0 (take (Z.to_nat limit) (snd m)) limit) dir id path.

Lemma grpc_run_frame m rest out :
  blen (snd m) <= u32_max ->
  run (mkLoop grpc_default (grpc_frame m ++ rest) out)
  = run (mkLoop grpc_default rest (out ++ [grpc_meaning m])).
Proof.
  intros Hlen. destruct m as [c pl]. cbn [fst snd] in *.
  assert (Hd : grpc_fine grpc_default) by (by exists limit).
  pose proof (be_uint_be_bytes 4 (blen pl)) as Hbe. pose proof (length_be_bytes 4 (blen pl)) as Hlb.
  unfold grpc_frame. cbn [fst snd]. destruct (be_bytes 4 (blen pl)) as [|b1 [|b2 [|b3 [|b4 [|]]]]]; try done.
  rewrite grpc_run_unfold by done. unfold grpc_step at 1. cbn [input parser output app].
  change (gpending grpc_default) with (@None GrpcPayload).
  change (prefix grpc_default) with (@nil byte). cbv iota. change (5 - blen []) with 5.
  rewrite Z.min_l by len. change (Z.to_nat 5) with 5%nat. cbn [take drop app].
  rewrite drop_0, Hbe.
  - assert (negb (((if c then x01 else x00) =b x00) || ((if c then x01 else x00) =b x01)) = false) as ->
      by (by destruct c).
    assert (((if c then x01 else x00) =b x01) = c) as -> by (by destruct c).
    destruct (Z.eqb_spec (blen pl) 0) as [Hz|Hz].
    { destruct pl; [|len]. unfold grpc_meaning. cbn [fst snd]. by rewrite take_nil. }
    rewrite grpc_run_unfold.
    2: { exists limit. split; [done|]. unfold grpc_ok. cbn. pose proof (blen_nonneg pl).
         change (blen []) with 0. repeat split; lia. }
    unfold grpc_step at 1. cbn [input parser output gpending prefix remaining pbody plength compressed pmax_body].
    destruct (pl ++ rest) as [|x y] eqn:Ex; [destruct pl; [len|done]|]. rewrite <- Ex. clear x y Ex.
    rewrite blen_app. pose proof (blen_nonneg rest). rewrite !(Z.min_l (blen pl)) by lia.
    rewrite Z.sub_diag. change (0 =? 0) with true. cbv iota.
    replace (Z.to_nat (blen pl)) with (length pl) by len. rewrite drop_app_length.
    do 4 f_equal. unfold grpc_meaning. cbn [fst snd app]. f_equal. f_equal.
    change (blen []) with 0. unfold sat_sub. rewrite Z.sub_0_r, Z.max_r by lia.
    rewrite take_app_le by len. destruct (Z.le_ge_cases limit (blen pl)); [by rewrite Z.min_l|].
    rewrite Z.min_r by done. by rewrite !take_ge by len.
  - pose proof (blen_nonneg pl). unfold u32_max in *. change (256 ^ Z.of_nat 4) with (2 ^ 32). lia.
Qed.

Fixpoint grpc_push_all (g : GrpcParser) (fragments : list bytes) : GrpcParser * result (list DecodedMessage) :=
  match fragments with
  | [] => (g, Ok [])
  | s :: ss =>
      match grpc_push dir id path limit g s with
      | (g1, Ok ms) =>
          match grpc_push_all g1 ss with
          | (g2, Ok ms') => (g2, Ok (ms ++ ms'))
          | (g2, Err r) => (g2, Err r)
          end
      | (g1, Err r) => (g1, Err r)
      end
  end.

Lemma grpc_push_fine g s g' ms :
  grpc_fine g -> grpc_push dir id path limit g s = (g', Ok ms) -> grpc_fine g'.
Proof.
  intros (mb & Hmb & Hg) E. pose proof (grpc_push_ok dir id path limit mb g s ltac:(lia) Hg) as Hp.
  rewrite E in Hp. exists mb. by destruct Hp.
Qed.

(** Pushing fragments is pushing their concatenation. *)
Lemma grpc_push_all_concat g fragments :
  grpc_fine g -> grpc_push_all g fragments = grpc_push dir id path limit g (concat fragments).
Proof.
  revert g; induction fragments as [|s ss IH]; intros g Hg; [done|]. cbn [grpc_push_all concat].
  unfold grpc_push at 2. rewrite grpc_run_app by done. fold (grpc_push dir id path limit g s).
  destruct (grpc_push dir id path limit g s) as [g1 [ms|r]] eqn:E; [|done].
  pose proof (grpc_push_fine _ _ _ _ Hg E) as Hg1. rewrite IH by done.
  rewrite (grpc_run_out g1 (concat ss) ms) by done. done.
Qed.

Lemma grpc_run_frames ms out :
  Forall (fun m => blen (snd m) <= u32_max) ms ->
  run (mkLoop grpc_default (wire grpc_frame ms) out) = (grpc_default, Ok (out ++ map grpc_meaning ms)).
Proof.
  intros Hms. revert out. induction Hms as [|m ms Hm _ IH]; intros out; [by rewrite app_nil_r|].
  unfold wire in *. cbn [map concat]. rewrite grpc_run_frame, IH by done. by rewrite <- app_assoc.
Qed.

(** The gRPC envelope is decoded exactly, however the DATA frames cut
    it: a sequence of messages yields one decoded message each, in order,
    with its length, its compression flag and its payload up to the limit,
    and leaves the parser empty. *)
Theorem grpc_stream_exact (ms : list (bool * bytes)) (fragments : list bytes) :
  Forall (fun m => blen (snd m) <= u32_max) ms ->
  concat fragments = wire grpc_frame ms ->
  grpc_push_all grpc_default fragments = (grpc_default, Ok (map grpc_meaning ms)).
Proof.
  intros Hms Hw. rewrite grpc_push_all_concat by (by exists limit). rewrite Hw.
  unfold grpc_push. by rewrite grpc_run_frames.
Qed.
End GrpcExact.

Lemma grpc_stream_exact_witness :
  grpc_push_all ClientToServer 1 (lit "/svc/Get") 4 grpc_default
    [[x00; x00; x00]; [x00; x05] ++ lit "hel"; lit "lo"]
  = (grpc_default, Ok [grpc_meaning ClientToServer 1 (lit "/svc/Get") 4 (false, lit "hello")]).
Proof.
  apply (grpc_stream_exact ClientToServer 1 (lit "/svc/Get") 4 ltac:(done) [(false, lit "hello")]);
    [apply List.Forall_cons; [by vm_compute|constructor]|reflexivity].
Defined.

(** ** Bounds on what is retained *)

Definition total (ss : gmap Z StreamState) : Z := map_fold (fun _ s acc => stream_retained s + acc) 0 ss.

Lemma total_empty : total ∅ = 0.
Proof. apply map_fold_empty. Qed.

Lemma total_delete ss i s :
  ss !! i = Some s -> total ss = stream_retained s + total (delete i ss).
Proof.
  intros Hi. unfold total.
  apply (map_fold_delete_L (fun _ s acc => stream_retained s + acc) 0 i s ss); [|done]. intros. lia.
Qed.

Lemma total_insert ss i s : total (<[i := s]> ss) = stream_retained s + total (delete i ss).
Proof.
  rewrite (total_delete _ i s) by apply lookup_insert_eq. by rewrite delete_insert_eq.
Qed.

(** What one stream may hold. *)
Definition pending_ok (mb : Z) (dir : Direction) (p : option PendingMessage) : Prop :=
  match p with Some m => direction m = dir /\ blen (body m) <= mb | None => True end.

Definition stream_ok (mb : Z) (s : StreamState) : Prop :=
  forall dir, pending_ok mb dir (pending s dir) /\ grpc_ok mb (grpc_of s dir).

Lemma stream_ok_default mb : stream_ok mb stream_default.
Proof. by intros []. Qed.

Lemma stream_ok_pending mb s dir p :
  stream_ok mb s -> pending_ok mb dir p -> stream_ok mb (set_pending s dir p).
Proof. intros Hs Hp dir'. destruct (Hs dir'). by destruct dir, dir'; split. Qed.

Lemma stream_ok_grpc mb s dir g :
  stream_ok mb s -> grpc_ok mb g -> stream_ok mb (set_grpc s dir g).
Proof. intros Hs Hg dir'. destruct (Hs dir'). by destruct dir, dir'; split. Qed.

Lemma pending_bytes_nonneg p : 0 <= pending_bytes p.
Proof. destruct p; [apply blen_nonneg|done]. Qed.

Lemma grpc_retained_nonneg g : 0 <= grpc_retained g.
Proof. unfold grpc_retained. destruct (gpending g); [apply blen_nonneg|done]. Qed.

Lemma stream_retained_nonneg s : 0 <= stream_retained s.
Proof.
  unfold stream_retained.
  pose proof (pending_bytes_nonneg (request s)). pose proof (pending_bytes_nonneg (response s)).
  pose proof (grpc_retained_nonneg (grpc_request s)). pose proof (grpc_retained_nonneg (grpc_response s)). lia.
Qed.

Lemma total_nonneg ss : 0 <= total ss.
Proof.
  unfold total. apply (map_fold_weak_ind (fun r _ => 0 <= r)); [done|].
  intros i s m r _ Hr. pose proof (stream_retained_nonneg s). lia.
Qed.

Lemma stream_retained_pending s dir p :
  stream_retained (set_pending s dir p) = stream_retained s - pending_bytes (pending s dir) + pending_bytes p.
Proof. unfold stream_retained. destruct dir; cbn; lia. Qed.

Lemma stream_retained_grpc s dir g :
  stream_retained (set_grpc s dir g) = stream_retained s - grpc_retained (grpc_of s dir) + grpc_retained g.
Proof. unfold stream_retained. destruct dir; cbn; lia. Qed.

Lemma stream_retained_ge s dir :
  pending_bytes (pending s dir) <= stream_retained s /\ grpc_retained (grpc_of s dir) <= stream_retained s.
Proof.
  unfold stream_retained.
  pose proof (pending_bytes_nonneg (request s)). pose proof (pending_bytes_nonneg (response s)).
  pose proof (grpc_retained_nonneg (grpc_request s)). pose proof (grpc_retained_nonneg (grpc_response s)).
  destruct dir; cbn; lia.
Qed.

(** The table of streams: capped bodies, at most 256 streams, and a counter
    that is never below what is really held and never above 4 MiB. *)
Record table_ok (mb : Z) (ss : gmap Z StreamState) (counter : Z) : Prop := {
  table_streams : map_Forall (fun _ s => stream_ok mb s) ss;
  table_size : Z.of_nat (size ss) <= MAX_TRACKED_STREAMS;
  table_total : total ss <= counter;
  table_counter : counter <= MAX_INFLIGHT_CAPTURE }.

Lemma table_update mb ss i s s' r r' :
  table_ok mb ss r -> ss !! i = Some s -> stream_ok mb s' ->
  stream_retained s' - stream_retained s <= r' - r -> r' <= MAX_INFLIGHT_CAPTURE ->
  table_ok mb (<[i := s']> ss) r'.
Proof.
  intros [H1 H2 H3 H4] Hi Hs Hr Hm. split.
  - by apply map_Forall_insert_2.
  - by rewrite map_size_insert_Some by eauto.
  - rewrite total_insert. rewrite (total_delete _ _ _ Hi) in H3. lia.
  - done.
Qed.

Lemma table_delete mb ss i r : table_ok mb ss r -> table_ok mb (delete i ss) r.
Proof.
  intros [H1 H2 H3 H4]. split; [by apply map_Forall_delete| | |done].
  - rewrite map_size_delete. destruct (ss !! i); unfold id; lia.
  - destruct (ss !! i) as [s|] eqn:E; [|by rewrite delete_id].
    rewrite (total_delete _ _ _ E) in H3. pose proof (stream_retained_nonneg s). lia.
Qed.

Lemma table_remove mb ss i s r :
  table_ok mb ss r -> ss !! i = Some s -> table_ok mb (delete i ss) (sat_sub r (stream_retained s)).
Proof.
  intros Ht Hi. destruct (table_delete _ _ i _ Ht) as [H1 H2 _ _]. destruct Ht as [_ _ H3 H4].
  split; [done|done| |].
  - rewrite (total_delete _ _ _ Hi) in H3. unfold sat_sub. lia.
  - pose proof (stream_retained_nonneg s). unfold sat_sub, MAX_INFLIGHT_CAPTURE in *. lia.
Qed.

(** The stream a header block belongs to: an existing one, or a fresh one
    while there is room. *)
Lemma table_enter mb ss i s' r :
  table_ok mb ss r ->
  (ss !! i = None -> Z.of_nat (size ss) < MAX_TRACKED_STREAMS) ->
  stream_ok mb s' -> stream_retained s' = stream_retained (default stream_default (ss !! i)) ->
  table_ok mb (<[i := s']> ss) r.
Proof.
  intros Ht Hroom Hs Hr. destruct (ss !! i) as [s|] eqn:E; cbn in Hr.
  - eapply table_update; [done..|lia|apply Ht].
  - specialize (Hroom eq_refl). destruct Ht as [H1 H2 H3 H4]. split; [by apply map_Forall_insert_2| | |done].
    + rewrite map_size_insert_None by done. lia.
    + rewrite total_insert, delete_id by done. rewrite Hr. change (stream_retained stream_default) with 0. lia.
Qed.

Section Bounds.
Context `{Hpack}.

Definition block_ok (b : option HeaderBlock) : Prop :=
  match b with Some b => blen (block_bytes b) <= MAX_HEADER_BLOCK | None => True end.

(** The decoder invariant. *)
Definition dec_ok (d : Http2Decoder) : Prop :=
  0 <= max_body d /\ table_ok (max_body d) (streams d) (retained_body_bytes d) /\
  forall dir, block_ok (continuation (state d dir)).

(** What handling a frame promises. *)
Definition out_ok (dir : Direction) (d : Http2Decoder) (r : Http2Decoder * result (list DecodedMessage)) : Prop :=
  dec_ok (fst r) /\ max_body (fst r) = max_body d /\
  match snd r with
  | Ok ms => Forall (fun m => direction m = dir /\ blen (body m) <= max_body d) ms
  | Err _ => True
  end.

Lemma block_extend_ok b fragment :
  blen (block_bytes b) <= MAX_HEADER_BLOCK -> block_ok (Some (block_extend b fragment)).
Proof.
  unfold block_ok, block_extend, sat_sub. cbn [block_bytes]. intros Hb.
  rewrite blen_app. unfold blen at 2. rewrite length_take. lia.
Qed.

Lemma dec_ok_streams d ss r :
  dec_ok d -> table_ok (max_body d) ss r -> dec_ok (set_streams d ss r).
Proof. intros (H1 & _ & H3) Ht. split; [done|]. split; [done|]. intros dir. apply (H3 dir). Qed.

Lemma state_set_state d dir st : state (set_state d dir st) dir = st.
Proof. by destruct dir. Qed.

Lemma dec_ok_state d dir st :
  dec_ok d -> block_ok (continuation st) -> dec_ok (set_state d dir st).
Proof.
  intros (H1 & H2 & H3) Hb. split; [by destruct dir|]. split; [by destruct dir|].
  intros dir'. specialize (H3 dir'). by destruct dir, dir'.
Qed.

Lemma max_body_set_state d dir st : max_body (set_state d dir st) = max_body d.
Proof. by destruct dir. Qed.

Lemma dec_ok_remove d id :
  dec_ok d -> dec_ok (remove_stream d id) /\ max_body (remove_stream d id) = max_body d.
Proof.
  intros Hd. unfold remove_stream. destruct (streams d !! id) as [s|] eqn:E; [|done]. split; [|done].
  apply dec_ok_streams; [done|]. apply table_remove; [apply Hd|done].
Qed.

(** Answers that end a stream of the server remove it. *)
Lemma remove_if_ok (c : bool) dir d0 d id ms :
  dec_ok d -> max_body d = max_body d0 ->
  Forall (fun m => direction m = dir /\ blen (body m) <= max_body d0) ms ->
  out_ok dir d0 (if c then remove_stream d id else d, Ok ms).
Proof.
  intros Hd Hm Hms. destruct (dec_ok_remove d id Hd) as [H1 H2].
  destruct c; (split; [done|]); (split; [cbn; congruence|done]).
Qed.

Lemma match_remove dir (d : Http2Decoder) id :
  match dir with ServerToClient => remove_stream d id | ClientToServer => d end
  = if match dir with ServerToClient => true | ClientToServer => false end then remove_stream d id else d.
Proof. by destruct dir. Qed.

Lemma grpc_headers_ok d dir id e hs s : dec_ok d -> out_ok dir d (grpc_headers d dir id e hs s).
Proof.
  intros Hd. pose proof (proj1 Hd) as Hmb. unfold grpc_headers. destruct (match header hs ":method" with Some _ => _ | None => _ end) as [line hs'].
  destruct e, dir; try (by repeat split; try apply Hd; repeat constructor).
  all: first [apply (remove_if_ok true)|apply (remove_if_ok false)]; try done; repeat constructor; done.
Qed.

Lemma trailers_ok d dir id e hs s :
  dec_ok d -> streams d !! id = Some s -> out_ok dir d (trailers d dir id e hs s).
Proof.
  intros Hd Hi. pose proof Hd as (Hmb & Ht & Hb). unfold trailers.
  destruct (pending s dir) as [p|] eqn:Ep; [|by split].
  pose proof (table_streams _ _ _ Ht id s Hi) as Hs. destruct (Hs dir) as [Hp Hg]. rewrite Ep in Hp.
  destruct Hp as [Hdir Hbody]. pose proof (stream_retained_ge s dir) as [Hge _]. rewrite Ep in Hge. cbn in Hge.
  pose proof (blen_nonneg (body p)).
  destruct e.
  - rewrite match_remove. apply remove_if_ok; [|done|by repeat constructor].
    apply (dec_ok_streams (set_stream d id _)).
    { split; [done|]. split; [|done]. cbn. eapply table_update; [done..|by apply stream_ok_pending| |apply Ht].
      rewrite stream_retained_pending, Ep. cbn. lia. }
    cbn. eapply table_update; [done..|by apply stream_ok_pending| |].
    + rewrite stream_retained_pending, Ep. cbn. destruct Ht as [_ _ Htot _].
      rewrite (total_delete _ _ _ Hi) in Htot. pose proof (total_nonneg (delete id (streams d))).
      unfold sat_sub. lia.
    + destruct Ht as [_ _ _ Hc]. unfold sat_sub, MAX_INFLIGHT_CAPTURE in *. lia.
  - split; [|split; [done|constructor]]. apply dec_ok_streams; [done|].
    eapply table_update; [done..|by apply stream_ok_pending| |apply Ht].
    rewrite stream_retained_pending, Ep. cbn. lia.
Qed.

Lemma initial_headers_ok d dir id e hs s line :
  dec_ok d -> streams d !! id = Some s -> out_ok dir d (initial_headers d dir id e hs s line).
Proof.
  intros Hd Hi. pose proof Hd as (Hmb & Ht & Hb). unfold initial_headers.
  pose proof (table_streams _ _ _ Ht id s Hi) as Hs.
  pose proof (pending_bytes_nonneg (pending s dir)).
  assert (Hset : forall p, pending_ok (max_body d) dir p -> pending_bytes p = 0 ->
    dec_ok (set_stream d id (set_pending s dir p))).
  { intros p Hp Hz. apply dec_ok_streams; [done|].
    eapply table_update; [done..|by apply stream_ok_pending| |apply Ht].
    rewrite stream_retained_pending, Hz. lia. }
  destruct e; (split; [by apply Hset|]); (split; [done|]); by repeat constructor.
Qed.

Lemma apply_headers_ok d dir id e hs : dec_ok d -> out_ok dir d (apply_headers d dir id e hs).
Proof.
  intros Hd. pose proof Hd as (Hmb & Ht & Hb). unfold apply_headers.
  destruct (match streams d !! id with None => true | Some _ => false end
            && (MAX_TRACKED_STREAMS <=? Z.of_nat (size (streams d)))) eqn:Efull; [by split|].
  set (s0 := default stream_default (streams d !! id)).
  set (s := mkStream _ _ _ _ _ _). set (d1 := set_stream d id s).
  assert (Hd1 : dec_ok d1).
  { apply dec_ok_streams; [done|]. apply table_enter; [done| | |done].
    - intros E. rewrite E in Efull. cbn [andb] in Efull. lia.
    - assert (Hs0 : stream_ok (max_body d) s0).
      { unfold s0. destruct (streams d !! id) as [s1|] eqn:E; [|apply stream_ok_default].
        by apply (table_streams _ _ _ Ht id s1). }
      intros dir'. specialize (Hs0 dir'). by destruct dir'. }
  assert (Hi : streams d1 !! id = Some s) by apply lookup_insert_eq.
  change (out_ok dir d) with (out_ok dir d1).
  destruct (grpc s); [by apply grpc_headers_ok|].
  repeat case_match; by (apply initial_headers_ok || apply trailers_ok).
Qed.

Lemma complete_header_block_ok d dir b :
  dec_ok d -> out_ok dir d (complete_header_block d dir b).
Proof.
  intros Hd. unfold complete_header_block. destruct (exceeded b); [by split|].
  destruct (hpack_decode _ _) as [h decoded].
  assert (Hd1 : dec_ok (set_hpack d dir h)) by (apply dec_ok_state; [done|apply Hd]).
  assert (Hm : max_body (set_hpack d dir h) = max_body d) by apply max_body_set_state.
  destruct decoded as [fields|r]; [|by split].
  case_match; [by split|]. pose proof (apply_headers_ok (set_hpack d dir h) dir (block_stream b) (end_stream b)
    (map (fun '(name, value) => (from_utf8_lossy name, from_utf8_lossy value)) fields) Hd1) as (K1 & K2 & K3).
  rewrite Hm in *. by split.
Qed.

Lemma set_continuation_ok d dir b :
  dec_ok d -> block_ok b -> dec_ok (set_continuation d dir b) /\ max_body (set_continuation d dir b) = max_body d.
Proof. intros Hd Hb. split; [by apply dec_ok_state|apply max_body_set_state]. Qed.

Lemma handle_headers_ok d dir f : dec_ok d -> out_ok dir d (handle_headers d dir f).
Proof.
  intros Hd. unfold handle_headers. case_match; [by split|].
  destruct (header_fragment f) as [fragment|]; [|by split].
  case_match; [by apply complete_header_block_ok|].
  destruct (set_continuation_ok d dir (Some (block_extend
    (mkBlock (stream_id f) (has_flag f FLAG_END_STREAM) [] false) fragment)) Hd) as [K1 K2];
    [by apply block_extend_ok|]. split; [done|]. split; [done|constructor].
Qed.

Lemma handle_continuation_ok d dir f : dec_ok d -> out_ok dir d (handle_continuation d dir f).
Proof.
  intros Hd. unfold handle_continuation. destruct (continuation (state d dir)) as [b|] eqn:Eb; [|by split].
  destruct (set_continuation_ok d dir None Hd) as [K1 K2]; [done|].
  case_match; [by split|].
  assert (Hblk : block_ok (Some (block_extend b (payload f)))).
  { apply block_extend_ok. destruct Hd as (_&_&Hd). specialize (Hd dir). by rewrite Eb in Hd. }
  case_match.
  - destruct (complete_header_block_ok _ dir (block_extend b (payload f)) K1) as (K3 & K4 & K5).
    rewrite K2 in *. by split.
  - destruct (set_continuation_ok _ dir _ K1 Hblk) as [K3 K4]. split; [done|]. split; [|constructor].
    cbn [fst]. congruence.
Qed.
Lemma plain_data_ok d dir f s data :
  dec_ok d -> streams d !! stream_id f = Some s -> out_ok dir d (plain_data d dir f s data).
Proof.
  intros Hd Hi. pose proof Hd as (Hmb & Ht & Hb). unfold plain_data.
  destruct (pending s dir) as [p|] eqn:Ep; [|by split].
  pose proof (table_streams _ _ _ Ht _ s Hi) as Hs. destruct (Hs dir) as [Hp Hg]. rewrite Ep in Hp.
  destruct Hp as [Hdir Hbody]. pose proof (stream_retained_ge s dir) as [Hge _]. rewrite Ep in Hge. cbn in Hge.
  pose proof Ht as [_ _ Htot Hcnt]. rewrite (total_delete _ _ _ Hi) in Htot.
  pose proof (total_nonneg (delete (stream_id f) (streams d))). pose proof (blen_nonneg (body p)).
  pose proof (blen_nonneg data).
  set (remaining := Z.min (sat_sub (max_body d) (blen (body p))) (sat_sub MAX_INFLIGHT_CAPTURE (retained_body_bytes d))).
  set (captured := Z.min remaining (blen data)).
  assert (Hcap : 0 <= captured <= MAX_INFLIGHT_CAPTURE - retained_body_bytes d /\
                 captured <= Z.max 0 (max_body d - blen (body p))) by (unfold captured, remaining, sat_sub; lia).
  assert (Hlen : blen (body p ++ take (Z.to_nat captured) data) = blen (body p) + captured).
  { rewrite blen_app. unfold blen at 2. rewrite length_take. unfold captured, remaining in *. len. }
  assert (Hsat : sat_add (retained_body_bytes d) captured = retained_body_bytes d + captured).
  { apply sat_add_exact. unfold u64_max, MAX_INFLIGHT_CAPTURE in *. lia. }
  rewrite Hsat. destruct (has_flag f FLAG_END_STREAM).
  - rewrite match_remove. apply remove_if_ok; [|done|].
    + apply dec_ok_streams; [done|]. cbn [body]. rewrite Hlen.
      eapply table_update; [done..|by apply stream_ok_pending| |].
      * rewrite stream_retained_pending, Ep. cbn. unfold sat_sub. lia.
      * unfold sat_sub, MAX_INFLIGHT_CAPTURE in *. lia.
    + repeat constructor; [done|]. cbn [body add_http2_metadata]. rewrite Hlen. lia.
  - split; [|split; [done|constructor]]. apply dec_ok_streams; [done|].
    eapply table_update; [done..| | |lia].
    + apply stream_ok_pending; [done|]. split; [done|]. cbn [body]. rewrite Hlen. lia.
    + rewrite stream_retained_pending, Ep. unfold pending_bytes at 2. cbn [body]. rewrite Hlen. cbn. lia.
Qed.

Lemma grpc_data_ok d dir f s data :
  dec_ok d -> streams d !! stream_id f = Some s -> out_ok dir d (grpc_data d dir f s data).
Proof.
  intros Hd Hi. pose proof Hd as (Hmb & Ht & Hb). unfold grpc_data.
  pose proof (table_streams _ _ _ Ht _ s Hi) as Hs. destruct (Hs dir) as [_ Hg].
  pose proof (stream_retained_ge s dir) as [_ Hge].
  pose proof Ht as [_ _ Htot Hcnt]. rewrite (total_delete _ _ _ Hi) in Htot.
  pose proof (total_nonneg (delete (stream_id f) (streams d))).
  pose proof (grpc_retained_nonneg (grpc_of s dir)).
  set (before := grpc_retained (grpc_of s dir)) in *.
  set (global := sat_sub MAX_INFLIGHT_CAPTURE (retained_body_bytes d)).
  assert (Hglobal : global = MAX_INFLIGHT_CAPTURE - retained_body_bytes d) by (unfold global, sat_sub; lia).
  assert (Hsat : sat_add before global = before + global).
  { apply sat_add_exact. unfold u64_max, MAX_INFLIGHT_CAPTURE in *. lia. }
  rewrite Hsat. set (limit := Z.min (max_body d) (before + global)).
  assert (Hlim : 0 <= limit <= max_body d) by (unfold limit; lia).
  pose proof (grpc_push_ok dir (stream_id f) (default (lit "/unknown") (path s)) limit (max_body d)
    (grpc_of s dir) data Hlim Hg) as Hpush.
  pose proof (grpc_push_ok dir (stream_id f) (default (lit "/unknown") (path s)) limit (before + global)
    (grpc_of s dir) data ltac:(unfold limit; lia) ltac:(eapply grpc_ok_tight; [exact Hg|fold before; lia])) as Hpush2.
  destruct (grpc_push _ _ _ _ _ _) as [g [ms|reason]].
  - destruct Hpush as [Hg' Hms]. destruct Hpush2 as [Hg2 _].
    apply grpc_ok_retained in Hg2; [|lia].
    assert (Hr' : sat_add (sat_sub (retained_body_bytes d) before) (grpc_retained g)
                  = retained_body_bytes d - before + grpc_retained g).
    { unfold sat_sub. rewrite Z.max_r by lia. apply sat_add_exact. unfold u64_max, MAX_INFLIGHT_CAPTURE in *. lia. }
    rewrite Hr'. set (d1 := set_streams d _ _).
    assert (Hd1 : dec_ok d1).
    { apply dec_ok_streams; [done|]. eapply table_update; [done..|by apply stream_ok_grpc| |lia].
      rewrite stream_retained_grpc. fold before. lia. }
    destruct (has_flag f FLAG_END_STREAM); [|by split].
    destruct (has_incomplete g); [by split|]. destruct dir; [by split|].
    apply (remove_if_ok true); [done|done|]. apply Forall_app. split; [done|].
    repeat constructor; done.
  - subst g. split; [|by split]. apply dec_ok_streams; [done|].
    eapply table_update; [done..|by apply stream_ok_grpc| |apply Ht].
    rewrite stream_retained_grpc. fold before. change (grpc_retained grpc_default) with 0. lia.
Qed.

Lemma handle_frame_ok d dir f : dec_ok d -> out_ok dir d (handle_frame d dir f).
Proof.
  intros Hd. unfold handle_frame.
  destruct (match continuation (state d dir) with Some _ => _ | None => _ end).
  { destruct (set_continuation_ok d dir None Hd) as [K1 K2]; [done|]. by split. }
  destruct (kind f =? FRAME_HEADERS); [by apply handle_headers_ok|].
  destruct (kind f =? FRAME_CONTINUATION); [by apply handle_continuation_ok|].
  destruct (kind f =? FRAME_DATA).
  { unfold handle_data. destruct (stream_id f =? 0); [by split|]. destruct (data_fragment f); [|by split].
    destruct (streams d !! stream_id f) as [s|] eqn:E; [|by split].
    destruct (grpc s); [by apply grpc_data_ok|by apply plain_data_ok]. }
  destruct (kind f =? FRAME_RST_STREAM); (split; [|split; [done|constructor]]); [|done].
  apply dec_ok_streams; [done|]. apply table_delete, Hd.
Qed.

Lemma decode_round_ok dir d :
  dec_ok d ->
  match decode_round dir d with
  | Continue d' b | Break d' b =>
      dec_ok d' /\ max_body d' = max_body d /\
      Forall (fun m => direction m = dir /\ blen (body m) <= max_body d) (messages b)
  end.
Proof.
  intros Hd. unfold decode_round. destruct (next_frame (state d dir)) as [st next] eqn:E.
  apply next_frame_taken in E as (_ & Hc & _).
  assert (Hd1 : dec_ok (set_state d dir st)).
  { apply dec_ok_state; [done|]. rewrite Hc. apply Hd. }
  assert (Hm : max_body (set_state d dir st) = max_body d) by apply max_body_set_state.
  destruct next as [f| | |]; [|split; [done|split; [done|constructor]]..].
  pose proof (handle_frame_ok _ dir f Hd1) as (K1 & K2 & K3).
  destruct (handle_frame _ dir f) as [d2 [ms|r]]; cbn [fst snd] in *; rewrite Hm in *; [done|].
  destruct (set_continuation_ok d2 dir None K1) as [K4 K5]; [done|]. split; [done|].
  split; [congruence|constructor].
Qed.
End Bounds.

(** ** Handling a frame does not look at the framing state

    The buffer, the expected preface and the payload still to be skipped. *)

Section Buffers.
Context `{Hpack} (dir : Direction) (b : bytes) (p : bool) (k : Z).

Definition rebuf (d : Http2Decoder) : Http2Decoder :=
  set_state d dir (mkState b p (hpack (state d dir)) (continuation (state d dir)) k).
Definition on_buf (r : Http2Decoder * result (list DecodedMessage)) :
    Http2Decoder * result (list DecodedMessage) := (rebuf (fst r), snd r).

Lemma rebuf_streams d : streams (rebuf d) = streams d.
Proof. unfold rebuf. by destruct dir. Qed.
Lemma rebuf_retained d : retained_body_bytes (rebuf d) = retained_body_bytes d.
Proof. unfold rebuf. by destruct dir. Qed.
Lemma rebuf_max d : max_body (rebuf d) = max_body d.
Proof. unfold rebuf. by destruct dir. Qed.
Lemma rebuf_set_streams d ss r : set_streams (rebuf d) ss r = rebuf (set_streams d ss r).
Proof. unfold rebuf. by destruct dir. Qed.
Lemma rebuf_hpack d : hpack (state (rebuf d) dir) = hpack (state d dir).
Proof. unfold rebuf. by destruct dir. Qed.
Lemma rebuf_continuation d : continuation (state (rebuf d) dir) = continuation (state d dir).
Proof. unfold rebuf. by destruct dir. Qed.
Lemma rebuf_set_hpack d h : set_hpack (rebuf d) dir h = rebuf (set_hpack d dir h).
Proof. unfold rebuf, set_hpack. by destruct dir. Qed.
Lemma rebuf_set_continuation d c : set_continuation (rebuf d) dir c = rebuf (set_continuation d dir c).
Proof. unfold rebuf, set_continuation. by destruct dir. Qed.

Lemma rebuf_set_stream d id s : set_stream (rebuf d) id s = rebuf (set_stream d id s).
Proof. unfold set_stream. by rewrite rebuf_streams, rebuf_retained, rebuf_set_streams. Qed.
Lemma rebuf_remove d id : remove_stream (rebuf d) id = rebuf (remove_stream d id).
Proof.
  unfold remove_stream. rewrite rebuf_streams, rebuf_retained. destruct (streams d !! id); [|done].
  apply rebuf_set_streams.
Qed.

Create Rewrite HintDb rebuf.
#[local] Hint Rewrite rebuf_streams rebuf_retained rebuf_max rebuf_set_streams rebuf_hpack rebuf_continuation
  rebuf_set_hpack rebuf_set_continuation rebuf_set_stream rebuf_remove : rebuf.

Lemma rebuf_grpc_headers d id e hs s :
  grpc_headers (rebuf d) dir id e hs s = on_buf (grpc_headers d dir id e hs s).
Proof.
  unfold grpc_headers, on_buf. autorewrite with rebuf.
  destruct (match header hs ":method" with Some _ => _ | None => _ end) as [line hs'].
  by destruct e, dir.
Qed.

Lemma rebuf_trailers d id e hs s : trailers (rebuf d) dir id e hs s = on_buf (trailers d dir id e hs s).
Proof.
  unfold trailers, on_buf. destruct (pending s dir); [|done]. autorewrite with rebuf.
  destruct e; [|done]. autorewrite with rebuf. by destruct dir.
Qed.

Lemma rebuf_initial_headers d id e hs s line :
  initial_headers (rebuf d) dir id e hs s line = on_buf (initial_headers d dir id e hs s line).
Proof. unfold initial_headers, on_buf. autorewrite with rebuf. by destruct e. Qed.

Lemma rebuf_apply_headers d id e hs : apply_headers (rebuf d) dir id e hs = on_buf (apply_headers d dir id e hs).
Proof.
  unfold apply_headers. autorewrite with rebuf.
  destruct (match streams d !! id with None => _ | Some _ => _ end && _); [done|].
  cbv zeta. autorewrite with rebuf.
  match goal with |- context [grpc_headers _ _ _ _ _ ?x] => set (s := x) end.
  destruct (grpc s); [apply rebuf_grpc_headers|].
  destruct (header hs ":method"), (header hs ":status");
    (apply rebuf_initial_headers || apply rebuf_trailers).
Qed.

Lemma rebuf_complete d blk : complete_header_block (rebuf d) dir blk = on_buf (complete_header_block d dir blk).
Proof.
  unfold complete_header_block. case_match; [done|]. autorewrite with rebuf.
  destruct (hpack_decode _ _) as [h [fields|r]]; autorewrite with rebuf; [|done].
  case_match; [done|]. apply rebuf_apply_headers.
Qed.

Lemma rebuf_grpc_data d f s data : grpc_data (rebuf d) dir f s data = on_buf (grpc_data d dir f s data).
Proof.
  unfold grpc_data. autorewrite with rebuf. destruct (grpc_push _ _ _ _ _ _) as [g [ms|r]].
  2: by rewrite rebuf_set_stream.
  autorewrite with rebuf. destruct (has_flag f FLAG_END_STREAM); [|done]. destruct (has_incomplete g); [done|].
  by destruct dir.
Qed.

Lemma rebuf_plain_data d f s data : plain_data (rebuf d) dir f s data = on_buf (plain_data d dir f s data).
Proof.
  unfold plain_data. autorewrite with rebuf. destruct (pending s dir); [|done].
  autorewrite with rebuf. destruct (has_flag f FLAG_END_STREAM); [|done].
  autorewrite with rebuf. by destruct dir.
Qed.

Lemma rebuf_handle_frame d f : handle_frame (rebuf d) dir f = on_buf (handle_frame d dir f).
Proof.
  unfold handle_frame. autorewrite with rebuf.
  destruct (match continuation (state d dir) with Some _ => _ | None => _ end); [done|].
  destruct (kind f =? FRAME_HEADERS).
  { unfold handle_headers. autorewrite with rebuf. destruct (stream_id f =? 0); [done|].
    destruct (header_fragment f); [|done]. destruct (has_flag f FLAG_END_HEADERS); [apply rebuf_complete|].
    by rewrite rebuf_set_continuation. }
  destruct (kind f =? FRAME_CONTINUATION).
  { unfold handle_continuation. autorewrite with rebuf. destruct (continuation (state d dir)); [|done].
    destruct (negb _); [done|]. destruct (has_flag f FLAG_END_HEADERS); [apply rebuf_complete|].
    by autorewrite with rebuf. }
  destruct (kind f =? FRAME_DATA).
  { unfold handle_data. autorewrite with rebuf. destruct (stream_id f =? 0); [done|].
    destruct (data_fragment f); [|done]. destruct (streams d !! stream_id f); [|done].
    destruct (grpc _); [apply rebuf_grpc_data|apply rebuf_plain_data]. }
  destruct (kind f =? FRAME_RST_STREAM); by autorewrite with rebuf.
Qed.
End Buffers.

Section Process.
Context `{Hpack} (dir : Direction).
#[local] Abbreviation run := (decode_available dir).

(** The framing state of a direction. *)
Definition framing (d : Http2Decoder) : bytes * bool * Z :=
  (buffer (state d dir), expect_client_preface (state d dir), skip_payload (state d dir)).

Lemma rebuf_same d :
  rebuf dir (buffer (state d dir)) (expect_client_preface (state d dir)) (skip_payload (state d dir)) d = d.
Proof. unfold rebuf. by destruct d as [[] [] ? ? ?], dir. Qed.

Lemma framing_rebuf b p k d : framing (rebuf dir b p k d) = (b, p, k).
Proof. unfold framing, rebuf. by rewrite state_set_state. Qed.

Lemma handle_frame_framing d f : framing (fst (handle_frame d dir f)) = framing d.
Proof.
  rewrite <- (rebuf_same d) at 1. rewrite rebuf_handle_frame. unfold on_buf. cbn [fst].
  apply framing_rebuf.
Qed.

Lemma handle_frame_buffer d f :
  buffer (state (fst (handle_frame d dir f)) dir) = buffer (state d dir).
Proof. pose proof (handle_frame_framing d f) as E. by injection E. Qed.

Lemma set_continuation_buffer d c : buffer (state (set_continuation d dir c) dir) = buffer (state d dir).
Proof. unfold set_continuation. by rewrite state_set_state. Qed.

Lemma http2_round_decreasing d d' b :
  dec_ok d -> decode_round dir d = Continue d' b ->
  dec_ok d' /\ (length (buffer (state d' dir)) < length (buffer (state d dir)))%nat.
Proof.
  intros Hd E. pose proof (decode_round_ok dir d Hd) as Hok. rewrite E in Hok. split; [apply Hok|].
  revert E. unfold decode_round. destruct (next_frame (state d dir)) as [st next] eqn:En.
  apply next_frame_taken in En as (_ & _ & Hlt). destruct next as [f|r| |]; try done.
  - pose proof (handle_frame_buffer (set_state d dir st) f) as Hb. rewrite state_set_state in Hb.
    destruct (handle_frame _ dir f) as [d2 [ms|r]]; cbn [fst] in Hb; intros [= <- <-];
      rewrite ?set_continuation_buffer, Hb; apply Hlt.
  - intros [= <- <-]. by rewrite state_set_state.
Qed.

Lemma http2_run_unfold d :
  dec_ok d ->
  run d = match decode_round dir d with Continue d' b => after b (run d') | Break d' b => (d', b) end.
Proof. apply (decode_loop_unfold _ _ dec_ok http2_round_decreasing). Qed.

Definition dext (t : bytes) (d : Http2Decoder) : Http2Decoder :=
  rebuf dir (buffer (state d dir) ++ t) (expect_client_preface (state d dir)) (skip_payload (state d dir)) d.

Lemma dec_ok_dext t d : dec_ok d -> dec_ok (dext t d).
Proof. intros Hd. apply dec_ok_state; [done|]. apply Hd. Qed.

Lemma dext_set_state t d st : dext t (set_state d dir st) = set_state d dir (ext st t).
Proof. unfold dext, rebuf, ext. rewrite state_set_state. by destruct dir. Qed.

Lemma state_dext t d : state (dext t d) dir = ext (state d dir) t.
Proof. unfold dext, rebuf. by rewrite state_set_state. Qed.

Lemma set_state_dext t d st : set_state (dext t d) dir st = set_state d dir st.
Proof. unfold dext, rebuf. by destruct dir. Qed.

Lemma http2_round_go t d d' b :
  dec_ok d -> decode_round dir d = Continue d' b -> desynchronized b = None ->
  decode_round dir (dext t d) = Continue (dext t d') b.
Proof.
  intros Hd. unfold decode_round. rewrite state_dext.
  destruct (next_frame (state d dir)) as [st next] eqn:En.
  pose proof (next_frame_resumes _ _ _ t En) as Hr. destruct next as [f|r| |]; try done; [|by intros [= <- <-]].
  rewrite Hr, set_state_dext, <- dext_set_state.
  pose proof (handle_frame_framing (set_state d dir st) f) as Hb.
  unfold dext at 1. rewrite rebuf_handle_frame. unfold on_buf.
  destruct (handle_frame (set_state d dir st) dir f) as [d2 [ms|r]]; cbn [fst snd] in *; [|by intros [= <- <-]].
  intros [= <- <-] _. unfold framing in Hb. injection Hb as Hb1 Hb2 Hb3. unfold dext. by rewrite Hb1, Hb2, Hb3.
Qed.

Lemma http2_round_stop t d d' b :
  dec_ok d -> decode_round dir d = Break d' b -> desynchronized b = None ->
  run (dext t d) = after b (run (dext t d')).
Proof.
  intros Hd E Hn. pose proof (decode_round_ok dir d Hd) as Hok. rewrite E in Hok. destruct Hok as [Hd' _].
  revert E Hn. unfold decode_round at 1. destruct (next_frame (state d dir)) as [st next] eqn:En.
  pose proof (next_frame_resumes _ _ _ t En) as Hr. destruct next as [f|r| |]; try done.
  { destruct (handle_frame _ dir f) as [d2 [ms|r]]; done. }
  2: by intros [= <- <-].
  intros [= <- <-] _. rewrite after_need_more.
  rewrite (http2_run_unfold (dext t d)), (http2_run_unfold (dext t (set_state d dir st))) by (by apply dec_ok_dext).
  assert (Hround : decode_round dir (dext t d) = decode_round dir (dext t (set_state d dir st))) by
    (unfold decode_round; rewrite !state_dext, state_set_state, Hr; destruct (next_frame (ext st t)) as [st2 n2];
     rewrite !set_state_dext; by destruct dir).
  by rewrite Hround.
Qed.

Lemma http2_run_extend t d d' b :
  dec_ok d -> run d = (d', b) -> desynchronized b = None -> run (dext t d) = after b (run (dext t d')).
Proof.
  apply (decode_loop_extend _ _ dec_ok http2_round_decreasing (dext t) (dec_ok_dext t)
    (http2_round_go t) (http2_round_stop t)).
Qed.

Lemma http2_run_ok d :
  dec_ok d ->
  dec_ok (fst (run d)) /\ max_body (fst (run d)) = max_body d /\
  Forall (fun m => direction m = dir /\ blen (body m) <= max_body d) (messages (snd (run d))).
Proof.
  intros Hd. revert Hd. unfold decode_available.
  apply (decode_loop_ind _ _ dec_ok http2_round_decreasing (fun d r =>
    dec_ok (fst r) /\ max_body (fst r) = max_body d /\
    Forall (fun m => direction m = dir /\ blen (body m) <= max_body d) (messages (snd r)))).
  - intros x x' b Hx E. pose proof (decode_round_ok dir x Hx) as Hok. by rewrite E in Hok.
  - intros x x' b [y c] Hx E (K1 & K2 & K3). pose proof (decode_round_ok dir x Hx) as Hok. rewrite E in Hok.
    destruct Hok as (K4 & K5 & K6). cbn [fst snd after messages batch_app] in *. rewrite K5 in *.
    split; [done|]. split; [done|]. by apply Forall_app.
Qed.

Lemma http2_push_dext d s : http2_push d dir s = run (dext s d).
Proof. done. Qed.

Lemma dext_app a c d : dext (a ++ c) d = dext c (dext a d).
Proof. unfold dext, rebuf. rewrite state_set_state. cbn. rewrite app_assoc. by destruct dir. Qed.

Lemma http2_finish_ok d :
  dec_ok d ->
  dec_ok (fst (http2_finish d dir)) /\ max_body (fst (http2_finish d dir)) = max_body d /\
  Forall (fun m => direction m = dir /\ blen (body m) <= max_body d) (messages (snd (http2_finish d dir))).
Proof.
  intros Hd. pose proof (http2_run_ok d Hd) as (K1 & K2 & K3). unfold http2_finish.
  destruct (run d) as [d1 b]. cbn [fst snd] in *. case_match; [|done]. cbn [fst snd set_desync messages].
  split; [by apply dec_ok_state|]. by rewrite max_body_set_state.
Qed.
End Process.

#[export] Program Instance Http2Decoder_laws `{Hpack} : DecoderLaws Http2Decoder := {
  inv := dec_ok;
  fits _ _ _ := True }.
Next Obligation. intros ? d dir s Hd. apply (http2_run_ok dir). by apply dec_ok_dext. Qed.
Next Obligation. intros ? d dir Hd. by apply http2_finish_ok. Qed.
Next Obligation. done. Qed.
Next Obligation.
  intros ? d dir a c d' b Hd _. cbn [push Http2Decoder_streaming]. rewrite !http2_push_dext, dext_app.
  apply http2_run_extend. by apply dec_ok_dext.
Qed.

End Http2.
