(* ===== verification/Http2Wire.v ===== *)
(** * Http2Wire: what the HTTP/2 decoder makes of a connection.

    The wire form of a frame and its round trip through [next_frame]; the
    refinement of the byte stream by the sequence of its frames, however the
    stream is cut; exact decoding of a message made of a header block and data
    frames; independence of the multiplexed streams; the bounds on what is
    retained, and two ways the table of streams is not cleaned up. *)

From stdpp Require Import gmap.
From S2P Require Import Prelude RustStd Core Protocol Http2.
Import Http2.

(** ** The wire form of a frame *)

Definition frame_wire (f : Frame) : bytes :=
  be_bytes 3 (blen (payload f)) ++ [byte_of (kind f); byte_of (flags f)]
  ++ be_bytes 4 (stream_id f) ++ payload f.

(** Frames that fit their fields and the observation cap. *)
Definition frame_valid (f : Frame) : Prop :=
  0 <= kind f < 256 /\ 0 <= flags f < 256 /\ 0 <= stream_id f < 2 ^ 31 /\
  blen (payload f) <= MAX_OBSERVED_FRAME_PAYLOAD.

Lemma lor_shiftl_low a k b : 0 <= k -> 0 <= b < 2 ^ k -> Z.lor (Z.shiftl a k) b = a * 2 ^ k + b.
Proof.
  intros Hk Hb. pose proof (Z.add_lor_land (Z.shiftl a k) b) as E.
  assert (Z.land (Z.shiftl a k) b = 0) as Hz.
  { apply Z.bits_inj'. intros n Hn. rewrite Z.land_spec, Z.bits_0.
    destruct (Z.lt_ge_cases n k) as [H|H]; [by rewrite Z.shiftl_spec_low|].
    destruct (Z.eq_dec b 0) as [->|]; [by rewrite Z.bits_0, andb_false_r|].
    rewrite (Z.bits_above_log2 b n), andb_false_r; [done|lia|].
    apply Z.lt_le_trans with k; [|done]. apply Z.log2_lt_pow2; lia. }
  rewrite Z.shiftl_mul_pow2 in * by done. lia.
Qed.

(** The length as the source assembles it from its three bytes. *)
Lemma length_field b0 b1 b2 :
  Z.lor (Z.lor (Z.shiftl (byte_val b0) 16) (Z.shiftl (byte_val b1) 8)) (byte_val b2)
  = be_uint [b0; b1; b2].
Proof.
  pose proof (byte_val_range b0). pose proof (byte_val_range b1). pose proof (byte_val_range b2).
  replace (Z.shiftl (byte_val b0) 16) with (Z.shiftl (Z.shiftl (byte_val b0) 8) 8)
    by (rewrite Z.shiftl_shiftl by lia; done).
  rewrite <- Z.shiftl_lor, !lor_shiftl_low by lia. cbn. lia.
Qed.

(** The reserved bit of the stream identifier is masked; identifiers that fit
    31 bits are read back. *)
Lemma stream_field b5 b6 b7 b8 :
  be_uint [b5; b6; b7; b8] < 2 ^ 31 -> byte_of (Z.land (byte_val b5) 127) = b5.
Proof.
  intros Hlt. pose proof (byte_val_range b5). pose proof (byte_val_range b6).
  pose proof (byte_val_range b7). pose proof (byte_val_range b8).
  change 127 with (Z.ones 7). rewrite Z.land_ones by lia.
  cbn in Hlt. rewrite Z.mod_small by lia. apply byte_of_val.
Qed.

Section Wire.
Context `{Hpack}.

Lemma read_frame_wire st f rest :
  frame_valid f -> buffer st = frame_wire f ++ rest ->
  read_frame st = (set_buffer st rest, GotFrame f).
Proof.
  intros (Hk & Hf & Hi & Hp) Hb. unfold read_frame. rewrite Hb. unfold frame_wire.
  pose proof (length_be_bytes 3 (blen (payload f))) as L3. pose proof (length_be_bytes 4 (stream_id f)) as L4.
  pose proof (be_uint_be_bytes 3 (blen (payload f))) as U3. pose proof (be_uint_be_bytes 4 (stream_id f)) as U4.
  destruct (be_bytes 3 (blen (payload f))) as [|b0 [|b1 [|b2 [|]]]]; try done.
  destruct (be_bytes 4 (stream_id f)) as [|b5 [|b6 [|b7 [|b8 [|]]]]]; try done.
  cbn [app]. pose proof (blen_nonneg (payload f)). unfold MAX_OBSERVED_FRAME_PAYLOAD in *.
  change (256 ^ Z.of_nat 3) with (2 ^ 24) in U3. change (256 ^ Z.of_nat 4) with (2 ^ 32) in U4.
  rewrite length_field, U3 by lia. rewrite (stream_field b5 b6 b7 b8), U4 by lia.
  destruct (Z.ltb_spec (1024 * 1024) (blen (payload f))); [lia|].
  match goal with |- context [blen ?l <? _] => destruct (Z.ltb_spec (blen l) (FRAME_HEADER_BYTES + blen (payload f))) end.
  { unfold FRAME_HEADER_BYTES in *. len. }
  replace (Z.to_nat (blen (payload f))) with (length (payload f)) by len.
  rewrite drop_app_length, take_app_length, !byte_val_of by done. by destruct f.
Qed.

(** Round trip of frames: a frame that fits its fields and the observation
    cap is taken off the buffer as itself, and the bytes behind it stay. *)
Lemma next_frame_wire st f rest :
  frame_valid f -> expect_client_preface st = false -> skip_payload st = 0 ->
  buffer st = frame_wire f ++ rest ->
  next_frame st = (set_buffer st rest, GotFrame f).
Proof.
  intros Hf He Hs Hb. unfold next_frame, skip_frame. rewrite He, Hs.
  by apply read_frame_wire.
Qed.

(** A frame that is not complete is waited for. *)
Lemma next_frame_partial st f s t :
  frame_valid f -> expect_client_preface st = false -> skip_payload st = 0 ->
  frame_wire f = s ++ t -> t <> [] -> buffer st = s -> next_frame st = (st, NeedMore).
Proof.
  intros Hf He Hs Hw Ht Hb.
  destruct (next_frame st) as [st' next] eqn:E.
  pose proof (next_frame_resumes st st' next t E) as Hr.
  assert (Hwhole : next_frame (ext st t) = (set_buffer st [], GotFrame f)).
  { apply (next_frame_wire (ext st t) f []); [done..|]. cbn. by rewrite Hb, app_nil_r. }
  revert E. unfold next_frame, skip_frame. rewrite He, Hs. cbn [skip_payload]. change (0 <? 0) with false. cbv iota.
  intros E. destruct next as [g|r| |r].
  - rewrite Hwhole in Hr. apply (f_equal (fun r => buffer (fst r))) in Hr. cbn in Hr. symmetry in Hr.
    by apply app_eq_nil in Hr as [_ ->].
  - exfalso. revert E Hwhole. unfold next_frame, skip_frame. cbn [ext set_buffer expect_client_preface skip_payload].
    rewrite He, Hs. change (0 <? 0) with false. cbv iota. unfold read_frame, ext, set_buffer. cbn [buffer].
    destruct (buffer st) as [|b0 [|b1 [|b2 [|b3 [|b4 [|b5 [|b6 [|b7 [|b8 rest]]]]]]]]]; try done. cbn [app].
    destruct (_ <? Z.lor _ _); [intros _ [=]|]. destruct (_ <? _); intros [=].
  - by apply read_frame_waits in E as ->.
  - exfalso. revert E. unfold read_frame. repeat case_match; intros ?; by simplify_eq.
Qed.

(** ** Connections

    The reference for a byte stream is the sequence of its frames. *)
Fixpoint handle_frames (d : Http2Decoder) (dir : Direction) (fs : list Frame) : Http2Decoder * DecodeBatch :=
  match fs with
  | [] => (d, need_more)
  | f :: fs =>
      match handle_frame d dir f with
      | (d', Ok ms) => after (mkBatch ms None) (handle_frames d' dir fs)
      | (d', Err reason) => after (desync reason) (handle_frames (set_continuation d' dir None) dir fs)
      end
  end.

(** What opens the stream of a direction. *)
Definition opening (d : Http2Decoder) (dir : Direction) : bytes :=
  if expect_client_preface (state d dir) then CLIENT_PREFACE else [].

(** The preface has been taken off. *)
Definition opened (d : Http2Decoder) (dir : Direction) : Http2Decoder := rebuf dir [] false 0 d.

(** Between frames. *)
Definition idle (d : Http2Decoder) (dir : Direction) : Prop :=
  buffer (state d dir) = [] /\ skip_payload (state d dir) = 0.

Section Direction.
Context (dir : Direction).
#[local] Abbreviation run := (decode_available dir).
#[local] Abbreviation holding b d := (rebuf dir b false 0 d).

Lemma rebuf_rebuf b p k b' p' k' d : rebuf dir b p k (rebuf dir b' p' k' d) = rebuf dir b p k d.
Proof. unfold rebuf. rewrite !state_set_state. by destruct dir. Qed.

Lemma dec_ok_rebuf b p k d : dec_ok d -> dec_ok (rebuf dir b p k d).
Proof. intros Hd. apply dec_ok_state; [done|]. apply Hd. Qed.

Lemma push_holding l c d : http2_push (holding l d) dir c = run (holding (l ++ c) d).
Proof. unfold http2_push. f_equal. unfold rebuf, set_buffer. rewrite !state_set_state. by destruct dir. Qed.

(** One frame at the front of the buffer. *)
Lemma run_frame d f rest :
  dec_ok d -> frame_valid f ->
  run (holding (frame_wire f ++ rest) d)
  = match handle_frame (holding [] d) dir f with
    | (d', Ok ms) => after (mkBatch ms None) (run (holding rest d'))
    | (d', Err reason) => after (desync reason) (run (holding rest (set_continuation d' dir None)))
    end.
Proof.
  intros Hd Hf. rewrite http2_run_unfold by (by apply dec_ok_rebuf).
  unfold decode_round. rewrite (next_frame_wire _ f rest); [|done|unfold rebuf; by rewrite state_set_state..].
  assert (E : set_state (holding (frame_wire f ++ rest) d) dir
      (set_buffer (state (holding (frame_wire f ++ rest) d) dir) rest) = holding rest (holding [] d)).
  { unfold rebuf, set_buffer. rewrite !state_set_state. by destruct dir. }
  rewrite E, rebuf_handle_frame. unfold on_buf.
  destruct (handle_frame (holding [] d) dir f) as [d' [ms|r]]; cbn [fst snd]; [done|].
  by rewrite rebuf_set_continuation.
Qed.

Lemma handle_frame_idle d f d' o :
  framing dir d = ([], false, 0) -> handle_frame d dir f = (d', o) -> framing dir d' = ([], false, 0).
Proof. intros Hd E. pose proof (handle_frame_framing dir d f) as Hf. rewrite E in Hf. cbn [fst] in Hf. congruence. Qed.

Lemma framing_continuation d c : framing dir (set_continuation d dir c) = framing dir d.
Proof. unfold framing, set_continuation. by rewrite state_set_state. Qed.

Lemma holding_idle d : framing dir d = ([], false, 0) -> holding [] d = d.
Proof. intros E. pose proof (rebuf_same dir d) as R. unfold framing in E. injection E as E1 E2 E3. by rewrite E1, E2, E3 in R. Qed.

Lemma handle_frame_keeps d f d' o : dec_ok d -> handle_frame d dir f = (d', o) -> dec_ok d'.
Proof. intros Hd E. pose proof (handle_frame_ok d dir f Hd) as [K _]. by rewrite E in K. Qed.

Lemma continuation_keeps d : dec_ok d -> dec_ok (set_continuation d dir None).
Proof. intros Hd. by apply set_continuation_ok. Qed.

Lemma run_nothing d : dec_ok d -> framing dir d = ([], false, 0) -> run d = (d, need_more).
Proof.
  intros Hd Hf. rewrite http2_run_unfold by done. unfold framing in Hf. injection Hf as E1 E2 E3.
  unfold decode_round, next_frame, skip_frame, read_frame. rewrite E1, E2, E3. cbn [Z.ltb Z.compare].
  unfold set_state. by destruct d as [[] [] ? ? ?], dir.
Qed.

Lemma run_partial d f s t :
  dec_ok d -> frame_valid f -> frame_wire f = s ++ t -> t <> [] ->
  run (holding s d) = (holding s d, need_more).
Proof.
  intros Hd Hf Hw Ht. rewrite http2_run_unfold by (by apply dec_ok_rebuf).
  unfold decode_round. rewrite (next_frame_partial _ f s t); [|done|unfold rebuf; by rewrite ?state_set_state..].
  unfold rebuf. rewrite state_set_state. by destruct dir.
Qed.

(** A prefix of a sequence of frames is handled up to its last whole frame. *)
Lemma run_frames_prefix fs d s t :
  dec_ok d -> framing dir d = ([], false, 0) -> Forall frame_valid fs -> wire frame_wire fs = s ++ t ->
  exists done_ rest_ l, fs = done_ ++ rest_ /\ (t = [] -> rest_ = [] /\ l = []) /\ wire frame_wire rest_ = l ++ t /\
    run (holding s d) = (holding l (fst (handle_frames d dir done_)), snd (handle_frames d dir done_)) /\
    dec_ok (fst (handle_frames d dir done_)) /\ framing dir (fst (handle_frames d dir done_)) = ([], false, 0).
Proof.
  intros Hd Hi Hfs. revert d s Hd Hi; induction Hfs as [|f fs Hf Hfs IH]; intros d s Hd Hi Hw.
  { symmetry in Hw. apply app_eq_nil in Hw as [-> ->]. exists [], [], []. cbn [handle_frames fst snd].
    by rewrite holding_idle, run_nothing. }
  unfold wire in Hw. cbn [map concat] in Hw.
  destruct (decide (length (frame_wire f) <= length s)%nat) as [Hle|Hgt].
  - assert (Hs : s = frame_wire f ++ drop (length (frame_wire f)) s).
    { apply (f_equal (take (length (frame_wire f)))) in Hw.
      rewrite take_app_length, take_app_le in Hw by done. rewrite Hw at 1. by rewrite take_drop. }
    set (s' := drop (length (frame_wire f)) s) in Hs. rewrite Hs, <- app_assoc in Hw. apply app_inv_head in Hw.
    pose proof (run_frame d f s' Hd Hf) as Hrun. rewrite <- Hs, holding_idle in Hrun by done.
    destruct (handle_frame d dir f) as [d1 o] eqn:E.
    pose proof (handle_frame_keeps _ _ _ _ Hd E) as Hd1. pose proof (handle_frame_idle _ _ _ _ Hi E) as Hi1.
    destruct o as [ms|r].
    + destruct (IH d1 s' Hd1 Hi1 Hw) as (dn & rest & l & -> & Ht & Hr & Hl & Hok).
      exists (f :: dn), rest, l. cbn [handle_frames]. rewrite E. split; [done|]. split; [done|]. split; [done|].
      by rewrite Hrun, Hl.
    + destruct (IH (set_continuation d1 dir None) s') as (dn & rest & l & -> & Ht & Hr & Hl & Hok);
        [by apply continuation_keeps|by rewrite framing_continuation|done|].
      exists (f :: dn), rest, l. cbn [handle_frames]. rewrite E. split; [done|]. split; [done|]. split; [done|].
      by rewrite Hrun, Hl.
  - exists [], (f :: fs), s. split; [done|]. split.
    { intros ->. exfalso. apply (f_equal length) in Hw. len. }
    split; [done|]. cbn [handle_frames fst snd]. split; [|done].
    apply (run_partial d f s (drop (length s) (frame_wire f))); [done|done|..].
    + apply (f_equal (take (length s))) in Hw.
      rewrite take_app_length, take_app_le in Hw by lia. by rewrite <- Hw at 1; rewrite take_drop.
    + intros E. apply (f_equal length) in E. rewrite length_drop in E. cbn in E. lia.
Qed.

Lemma handle_frames_app d fs gs :
  handle_frames d dir (fs ++ gs)
  = after (snd (handle_frames d dir fs)) (handle_frames (fst (handle_frames d dir fs)) dir gs).
Proof.
  revert d; induction fs as [|f fs IH]; intros d; cbn [handle_frames app]; [by rewrite after_need_more|].
  destruct (handle_frame d dir f) as [d1 [ms|r]]; by rewrite IH, after_after.
Qed.

(** Frames cut into fragments, from the beginning [l] of a frame. *)
Lemma push_all_handle fs d l fragments :
  dec_ok d -> framing dir d = ([], false, 0) -> Forall frame_valid fs ->
  (fragments = [] -> fs = [] /\ l = []) -> l ++ concat fragments = wire frame_wire fs ->
  push_all (holding l d) dir fragments = handle_frames d dir fs.
Proof.
  intros Hd Hi Hfs. revert fs d l Hd Hi Hfs.
  induction fragments as [|c cs IH]; intros fs d l Hd Hi Hfs Hnil Hw.
  - destruct (Hnil eq_refl) as [-> ->]. cbn. by rewrite holding_idle.
  - cbn [concat] in Hw. rewrite app_assoc in Hw. symmetry in Hw.
    destruct (run_frames_prefix fs d _ _ Hd Hi Hfs Hw) as (dn & rest & l' & -> & Ht & Hr & Hrun & Hd' & Hi').
    apply Forall_app in Hfs as [_ Hrest].
    cbn [push_all push Http2Decoder_streaming]. rewrite push_holding, Hrun, handle_frames_app. cbv iota.
    f_equal. apply IH; try done. intros ->. by apply Ht.
Qed.

(** *** The client preface *)
#[local] Abbreviation waiting b d := (rebuf dir b true 0 d).

Lemma run_preface_partial d s t :
  dec_ok d -> CLIENT_PREFACE = s ++ t -> t <> [] -> run (waiting s d) = (waiting s d, need_more).
Proof.
  intros Hd Hw Ht. rewrite http2_run_unfold by (by apply dec_ok_rebuf).
  assert (Hl : (length s < length CLIENT_PREFACE)%nat) by (rewrite Hw; destruct t; [done|len]).
  assert (E : next_frame (state (waiting s d) dir) = (state (waiting s d) dir, NeedMore)).
  { unfold next_frame, rebuf. rewrite !state_set_state. cbn [expect_client_preface buffer].
    rewrite Nat.min_l by lia.
    assert (take (length s) CLIENT_PREFACE = s) as -> by (by rewrite Hw, take_app_length).
    rewrite firstn_all, bytes_eqb_refl. cbn [negb]. by rewrite (proj2 (Nat.ltb_lt _ _) Hl). }
  unfold decode_round. rewrite E. unfold rebuf. rewrite state_set_state. by destruct dir.
Qed.

Lemma run_preface d s :
  dec_ok d -> run (waiting (CLIENT_PREFACE ++ s) d) = run (holding s d).
Proof.
  intros Hd. rewrite !http2_run_unfold by (by apply dec_ok_rebuf). unfold decode_round.
  assert (E : next_frame (state (waiting (CLIENT_PREFACE ++ s) d) dir) = next_frame (state (holding s d) dir)).
  { unfold next_frame, rebuf. rewrite !state_set_state. cbn [expect_client_preface buffer].
    rewrite length_app, Nat.min_r by lia. rewrite take_app_length, firstn_all, bytes_eqb_refl. cbn [negb].
    destruct (Nat.ltb_spec (length CLIENT_PREFACE + length s) (length CLIENT_PREFACE)); [lia|].
    by rewrite drop_app_length. }
  rewrite E. clear E. destruct (next_frame (state (holding s d) dir)) as [st n].
  assert (forall b p k, set_state (rebuf dir b p k d) dir st = set_state d dir st) as Hset.
  { intros. unfold rebuf. by destruct dir. }
  by rewrite !Hset.
Qed.

Lemma push_waiting l c d : http2_push (waiting l d) dir c = run (waiting (l ++ c) d).
Proof. unfold http2_push. f_equal. unfold rebuf, set_buffer. rewrite !state_set_state. by destruct dir. Qed.

Lemma opened_ok d : dec_ok d -> dec_ok (opened d dir) /\ framing dir (opened d dir) = ([], false, 0).
Proof. intros Hd. split; [by apply dec_ok_rebuf|]. apply framing_rebuf. Qed.

Lemma holding_opened b d : holding b (opened d dir) = holding b d.
Proof. apply rebuf_rebuf. Qed.

Lemma push_all_preface d l fragments fs :
  dec_ok d -> Forall frame_valid fs -> (length l < length CLIENT_PREFACE)%nat ->
  l ++ concat fragments = CLIENT_PREFACE ++ wire frame_wire fs ->
  push_all (waiting l d) dir fragments = handle_frames (opened d dir) dir fs.
Proof.
  intros Hd Hfs. revert l. induction fragments as [|c cs IH]; intros l Hl Hw.
  { apply (f_equal length) in Hw. rewrite app_nil_r, length_app in Hw. lia. }
  cbn [concat] in Hw. rewrite app_assoc in Hw.
  cbn [push_all push Http2Decoder_streaming]. rewrite push_waiting.
  destruct (decide (length (l ++ c) < length CLIENT_PREFACE)%nat) as [Hlt|Hge].
  - rewrite (run_preface_partial d (l ++ c) (drop (length (l ++ c)) CLIENT_PREFACE)).
    + rewrite (IH (l ++ c)) by done. apply after_need_more.
    + done.
    + apply (f_equal (take (length (l ++ c)))) in Hw. rewrite take_app_length, take_app_le in Hw by lia.
      rewrite Hw at 1. by rewrite take_drop.
    + intros E. apply (f_equal length) in E. rewrite length_drop in E. cbn [length] in E. lia.
  - assert (Hs : l ++ c = CLIENT_PREFACE ++ drop (length CLIENT_PREFACE) (l ++ c)).
    { apply (f_equal (take (length CLIENT_PREFACE))) in Hw.
      rewrite take_app_length, take_app_le in Hw by lia. rewrite <- Hw at 1. by rewrite take_drop. }
    set (s' := drop _ _) in Hs. rewrite Hs, <- app_assoc in Hw. apply app_inv_head in Hw.
    destruct (opened_ok d Hd) as [Hd1 Hi1].
    rewrite Hs, run_preface, <- holding_opened by done.
    pose proof (push_all_handle fs (opened d dir) [] (s' :: cs) Hd1 Hi1 Hfs ltac:(done) Hw) as Hall.
    cbn [push_all push Http2Decoder_streaming] in Hall. rewrite push_holding in Hall. exact Hall.
Qed.
End Direction.

(** C12. The byte stream of one direction refines the sequence of its frames:
    however the preface (where one is due) and the frames are cut into
    fragments, the decoder does exactly what handling the frames one after
    the other does, errors in single frames included. *)
Theorem http2_frames_exact (d : Http2Decoder) (dir : Direction) (fs : list Frame) (fragments : list bytes) :
  dec_ok d -> idle d dir -> Forall frame_valid fs ->
  concat fragments = opening d dir ++ wire frame_wire fs ->
  push_all d dir fragments
  = handle_frames (if expect_client_preface (state d dir) then opened d dir else d) dir fs.
Proof.
  intros Hd [Hb Hk] Hfs. unfold opening. destruct (expect_client_preface (state d dir)) eqn:He; intros Hw.
  - pose proof (rebuf_same dir d) as R. rewrite Hb, He, Hk in R. rewrite <- R at 1.
    apply push_all_preface; [done|done|cbn; lia|done].
  - assert (Hi : framing dir d = ([], false, 0)) by (unfold framing; by rewrite Hb, He, Hk).
    rewrite <- (holding_idle dir d Hi) at 1. apply push_all_handle; try done.
    intros ->. split; [|done]. destruct Hfs as [|f fs Hf _]; [done|]. exfalso. unfold wire, frame_wire in Hw. cbn [map concat] in Hw.
    apply (f_equal length) in Hw. rewrite !length_app, !length_be_bytes in Hw. cbn [length concat app] in Hw. lia.
Qed.
End Wire.

(** A working instance of the HPACK parameter for the examples: literal
    fields without indexing, with a new name and lengths below 127. *)
Fixpoint literal_fields (fuel : nat) (s : bytes) : result (list (bytes * bytes)) :=
  match fuel with
  | O => Err (lit "NotEnoughBytes")
  | S fuel =>
      match s with
      | [] => Ok []
      | x00 :: n :: rest =>
          let name := take (Z.to_nat (byte_val n)) rest in
          match drop (Z.to_nat (byte_val n)) rest with
          | v :: rest =>
              match literal_fields fuel (drop (Z.to_nat (byte_val v)) rest) with
              | Ok fields => Ok ((name, take (Z.to_nat (byte_val v)) rest) :: fields)
              | Err e => Err e
              end
          | [] => Err (lit "NotEnoughBytes")
          end
      | _ => Err (lit "UnsupportedRepresentation")
      end
  end.

#[local] Instance literal_hpack : Hpack := {|
  hpack_state := unit;
  with_dynamic_size _ := tt;
  hpack_decode _ s := (tt, literal_fields (S (length s)) s) |}.

Definition literal_field (name value : string) : bytes :=
  [x00; byte_of (blen (lit name))] ++ lit name ++ [byte_of (blen (lit value))] ++ lit value.

Definition get_block : bytes := literal_field ":method" "GET" ++ literal_field ":path" "/a".
Definition no_content_block : bytes := literal_field ":status" "204".
Definition post_block : bytes := literal_field ":method" "POST" ++ literal_field ":path" "/up".

Definition headers_frame (id : Z) (end_stream : bool) (block : bytes) : Frame :=
  mkFrame FRAME_HEADERS (if end_stream then FLAG_END_HEADERS + FLAG_END_STREAM else FLAG_END_HEADERS) id block.
Definition data_frame (id : Z) (end_stream : bool) (data : bytes) : Frame :=
  mkFrame FRAME_DATA (if end_stream then FLAG_END_STREAM else 0) id data.

Lemma new_ok `{Hpack} mb : 0 <= mb -> dec_ok (new mb).
Proof.
  intros Hmb. split; [done|]. split; [|by intros []].
  split; cbn; [apply map_Forall_empty|by rewrite map_size_empty|by rewrite total_empty|done].
Qed.

Lemma http2_frames_exact_witness :
  push_all (new 64) ClientToServer
    [take 20 CLIENT_PREFACE; drop 20 CLIENT_PREFACE ++ take 5 (frame_wire (headers_frame 1 true get_block));
     drop 5 (frame_wire (headers_frame 1 true get_block))]
  = handle_frames (opened (new 64) ClientToServer) ClientToServer [headers_frame 1 true get_block].
Proof.
  apply (http2_frames_exact (new 64) ClientToServer [headers_frame 1 true get_block]).
  - by apply new_ok.
  - by split.
  - apply List.Forall_cons; [by repeat split; vm_compute|constructor].
  - by vm_compute.
Defined.

(** ** Messages *)

Section Messages.
Context `{Hpack}.

(** The headers a block stands for. *)
Definition block_headers (fields : list (bytes * bytes)) : list (bytes * bytes) :=
  map (fun '(name, value) => (from_utf8_lossy name, from_utf8_lossy value)) fields.

(** The start line of a request or a response. *)
Definition message_line (hs : list (bytes * bytes)) : option bytes :=
  match header hs ":method", header hs ":status" with
  | Some m, _ => Some (m ++ lit " " ++ default (lit "/") (header hs ":path") ++ lit " HTTP/2")
  | None, Some st => Some (lit "HTTP/2 " ++ st)
  | None, None => None
  end.

Definition is_grpc (hs : list (bytes * bytes)) : bool :=
  starts_with (lit "application/grpc") (to_ascii_lowercase (default [] (header hs "content-type"))).

(** The message of a header block and the data behind it. *)
Definition message_of (mb : Z) (dir : Direction) (id : Z) (line : bytes) (hs : list (bytes * bytes))
    (data : bytes) : DecodedMessage :=
  add_http2_metadata (mkDecoded dir line hs (take (Z.to_nat mb) data) (mb <? blen data)) id dir.

Context (dir : Direction) (id : Z) (Hid : 0 < id < 2 ^ 31).

(** A stream that has collected [acc]: [base] is what the others retain. *)
Definition collecting (d : Http2Decoder) (line : bytes) (hs : list (bytes * bytes)) (acc : bytes) (base : Z) : Prop :=
  continuation (state d dir) = None /\
  exists s, streams d !! id = Some s /\ grpc s = false /\
    pending s dir = Some (mkDecoded dir line hs (take (Z.to_nat (max_body d)) acc) (max_body d <? blen acc)) /\
    retained_body_bytes d = base + Z.min (max_body d) (blen acc) /\
    (dir = ServerToClient -> stream_retained s = Z.min (max_body d) (blen acc)).

Lemma data_flags (e : bool) : negb (Z.land (if e then FLAG_END_STREAM else 0) FLAG_PADDED =? 0) = false /\
  negb (Z.land (if e then FLAG_END_STREAM else 0) FLAG_END_STREAM =? 0) = e.
Proof. by destruct e. Qed.

(** The captured part of a chunk, when there is room for it. *)
Lemma capture_step mb base (acc data : bytes) :
  0 <= mb -> 0 <= base -> base + Z.min mb (blen (acc ++ data)) <= MAX_INFLIGHT_CAPTURE ->
  let body := take (Z.to_nat mb) acc in
  let captured := Z.min (Z.min (sat_sub mb (blen body))
                    (sat_sub MAX_INFLIGHT_CAPTURE (base + Z.min mb (blen acc)))) (blen data) in
  body ++ take (Z.to_nat captured) data = take (Z.to_nat mb) (acc ++ data) /\
  (mb <? blen acc) || (captured <? blen data) = (mb <? blen (acc ++ data)) /\
  sat_add (base + Z.min mb (blen acc)) captured = base + Z.min mb (blen (acc ++ data)) /\
  blen (take (Z.to_nat mb) (acc ++ data)) = Z.min mb (blen (acc ++ data)).
Proof.
  intros Hmb Hbase Hroom. cbv zeta. pose proof (blen_nonneg acc). pose proof (blen_nonneg data).
  assert (Hlen : forall s : bytes, blen (take (Z.to_nat mb) s) = Z.min mb (blen s))
    by (intros s; unfold blen; rewrite length_take; lia).
  rewrite !Hlen, blen_app in *.
  set (captured := Z.min _ _).
  assert (Hc : captured = Z.min (Z.max 0 (mb - blen acc)) (blen data))
    by (unfold captured, sat_sub; lia).
  repeat split.
  - rewrite Hc. pose proof (take_min_app acc data mb (blen data) Hmb ltac:(lia)) as E.
    rewrite <- blen_app in E. 
    assert (forall s : bytes, take (Z.to_nat (Z.min mb (blen s))) s = take (Z.to_nat mb) s) as Htake.
    { intros s. destruct (Z.le_ge_cases mb (blen s)); [by rewrite Z.min_l|].
      rewrite Z.min_r by done. by rewrite !take_ge by len. }
    by rewrite !Htake in E.
  - rewrite Hc. destruct (Z.ltb_spec mb (blen acc)), (Z.ltb_spec (Z.min (Z.max 0 (mb - blen acc)) (blen data)) (blen data)),
      (Z.ltb_spec mb (blen acc + blen data)); done || lia.
  - rewrite sat_add_exact; [lia|]. unfold u64_max, MAX_INFLIGHT_CAPTURE in *. lia.
Qed.

Lemma data_frame_plain d e data s :
  continuation (state d dir) = None -> streams d !! id = Some s -> grpc s = false ->
  handle_frame d dir (data_frame id e data) = plain_data d dir (data_frame id e data) s data.
Proof.
  intros Hc Hs Hg. unfold handle_frame. rewrite Hc. cbn. unfold handle_data, data_fragment, has_flag. cbn [stream_id data_frame flags payload].
  rewrite (proj2 (Z.eqb_neq id 0)) by lia. rewrite (proj1 (data_flags e)). cbn [negb]. by rewrite Hs, Hg.
Qed.

Lemma collect_chunk d line hs acc base data :
  0 <= max_body d -> 0 <= base -> collecting d line hs acc base ->
  base + Z.min (max_body d) (blen (acc ++ data)) <= MAX_INFLIGHT_CAPTURE ->
  exists d', handle_frame d dir (data_frame id false data) = (d', Ok []) /\
    collecting d' line hs (acc ++ data) base /\ max_body d' = max_body d /\ size (streams d') = size (streams d).
Proof.
  intros Hmb Hbase (Hc & s & Hs & Hg & Hp & Hr & Hret) Hroom.
  rewrite (data_frame_plain _ _ _ _ Hc Hs Hg). unfold plain_data. rewrite Hp, Hr. unfold has_flag.
  cbn [flags data_frame stream_id]. rewrite (proj2 (data_flags false)). cbn [direction start_line headers body truncated].
  destruct (capture_step _ _ _ _ Hmb Hbase Hroom) as (-> & -> & -> & Hlen).
  eexists. split; [done|]. split; [|split; [done|]].
  - split; [done|]. eexists. cbn [streams max_body retained_body_bytes set_streams]. rewrite lookup_insert_eq.
    split; [done|]. split; [by destruct dir|]. split; [by destruct dir|]. split; [done|]. intros Hdir.
    rewrite stream_retained_pending, Hp. cbn [pending_bytes body]. rewrite Hret by done.
    rewrite Hlen. unfold blen at 2. rewrite length_take. unfold blen. lia.
  - cbn. by rewrite map_size_insert_Some.
Qed.

Lemma collect_last d line hs acc base data :
  0 <= max_body d -> 0 <= base -> collecting d line hs acc base ->
  base + Z.min (max_body d) (blen (acc ++ data)) <= MAX_INFLIGHT_CAPTURE ->
  exists d', handle_frame d dir (data_frame id true data)
             = (d', Ok [message_of (max_body d) dir id line hs (acc ++ data)]) /\
    retained_body_bytes d' = base /\
    match dir with ServerToClient => streams d' !! id = None | ClientToServer => True end.
Proof.
  intros Hmb Hbase (Hc & s & Hs & Hg & Hp & Hr & Hret) Hroom.
  rewrite (data_frame_plain _ _ _ _ Hc Hs Hg). unfold plain_data. rewrite Hp, Hr. unfold has_flag.
  cbn [flags data_frame stream_id]. rewrite (proj2 (data_flags true)). cbn [direction start_line headers body truncated].
  destruct (capture_step _ _ _ _ Hmb Hbase Hroom) as (-> & -> & -> & Hlen).
  assert (Hsub : sat_sub (base + Z.min (max_body d) (blen (acc ++ data))) (blen (take (Z.to_nat (max_body d)) (acc ++ data))) = base)
    by (unfold sat_sub; rewrite Hlen; lia).
  rewrite Hsub. eexists. split; [done|]. destruct dir; [done|].
  unfold remove_stream. cbn [streams set_streams]. rewrite lookup_insert_eq. cbn [streams set_streams retained_body_bytes].
  split; [|by rewrite delete_insert_eq, lookup_delete_eq].
  rewrite stream_retained_pending, Hp, Hret by done. cbn [pending_bytes body].
  assert (blen (take (Z.to_nat (max_body d)) acc) = Z.min (max_body d) (blen acc)) as ->
    by (unfold blen; rewrite length_take; lia).
  unfold sat_sub. lia.
Qed.

(** The data frames of a message. *)
Lemma collect_all chunks last d line hs acc base :
  0 <= max_body d -> 0 <= base -> collecting d line hs acc base ->
  base + Z.min (max_body d) (blen (acc ++ concat chunks ++ last)) <= MAX_INFLIGHT_CAPTURE ->
  exists d', handle_frames d dir (map (data_frame id false) chunks ++ [data_frame id true last])
             = (d', mkBatch [message_of (max_body d) dir id line hs (acc ++ concat chunks ++ last)] None) /\
    retained_body_bytes d' = base /\
    match dir with ServerToClient => streams d' !! id = None | ClientToServer => True end.
Proof.
  intros Hmb Hbase. revert d acc Hmb. induction chunks as [|c cs IH]; intros d acc Hmb Hcol Hroom.
  - cbn [map concat app handle_frames] in *. destruct (collect_last _ _ _ _ _ _ Hmb Hbase Hcol Hroom) as (d' & -> & Hd').
    exists d'. by split.
  - cbn [map concat app handle_frames] in *.
    destruct (collect_chunk d line hs acc base c Hmb Hbase Hcol) as (d1 & -> & Hcol1 & Hm & _).
    { rewrite !blen_app in *. pose proof (blen_nonneg (concat cs)). pose proof (blen_nonneg last). lia. }
    destruct (IH d1 (acc ++ c)) as (d' & -> & Hd'); [by rewrite Hm|done|by rewrite Hm, <- !app_assoc in *|].
    exists d'. split; [|done]. rewrite Hm. unfold after. cbn. by rewrite <- !app_assoc.
Qed.

(** A header block that decodes to the headers of a plain message. *)
Definition opens_message (d : Http2Decoder) (block : bytes) (hs : list (bytes * bytes)) (line : bytes) : Prop :=
  blen block <= MAX_HEADER_BLOCK /\
  (exists fields size, snd (hpack_decode (hpack (state d dir)) block) = Ok fields /\ hs = block_headers fields /\
     decoded_size fields = Some size /\ size <= MAX_DECODED_HEADERS) /\
  message_line hs = Some line /\ is_grpc hs = false.

(** The stream is new and there is room for it, or it holds nothing yet. *)
Definition stream_free (d : Http2Decoder) : Prop :=
  grpc (default stream_default (streams d !! id)) = false /\
  stream_retained (default stream_default (streams d !! id)) = 0 /\
  (streams d !! id = None -> Z.of_nat (size (streams d)) < MAX_TRACKED_STREAMS).

Lemma headers_frame_block d e block :
  continuation (state d dir) = None -> blen block <= MAX_HEADER_BLOCK ->
  handle_frame d dir (headers_frame id e block) = complete_header_block d dir (mkBlock id e block false).
Proof.
  intros Hc Hb. unfold handle_frame. rewrite Hc. cbn [headers_frame kind].
  change (FRAME_HEADERS =? FRAME_HEADERS) with true. cbv iota. unfold handle_headers.
  cbn [headers_frame stream_id]. rewrite (proj2 (Z.eqb_neq id 0)) by lia.
  assert (Hfl : forall flag, has_flag (headers_frame id e block) flag
     = negb (Z.land (if e then 5 else 4) flag =? 0)) by (by destruct e).
  unfold header_fragment. rewrite !Hfl. cbn [payload headers_frame].
  assert (negb (Z.land (if e then 5 else 4) FLAG_PADDED =? 0) = false) as -> by (by destruct e).
  assert (negb (Z.land (if e then 5 else 4) FLAG_PRIORITY =? 0) = false) as -> by (by destruct e).
  assert (negb (Z.land (if e then 5 else 4) FLAG_END_STREAM =? 0) = e) as -> by (by destruct e).
  assert (negb (Z.land (if e then 5 else 4) FLAG_END_HEADERS =? 0) = true) as -> by (by destruct e).
  pose proof (blen_nonneg block). cbv iota. destruct (Z.ltb_spec (blen block) 0); [lia|].
  change (Z.to_nat 0) with 0%nat. rewrite drop_0, take_ge by len.
  unfold block_extend. cbn [block_stream end_stream block_bytes exceeded]. change (blen []) with 0.
  unfold sat_sub. rewrite Z.sub_0_r, Z.max_r, Z.min_r, take_ge by (unfold MAX_HEADER_BLOCK in *; len).
  by rewrite Z.ltb_irrefl.
Qed.

Lemma open_message d e block hs line :
  continuation (state d dir) = None -> opens_message d block hs line -> stream_free d ->
  exists d0 s, handle_frame d dir (headers_frame id e block) = initial_headers d0 dir id e hs s line /\
    streams d0 = <[id := s]> (streams d) /\ continuation (state d0 dir) = None /\ grpc s = false /\
    stream_retained s = 0 /\ max_body d0 = max_body d /\ retained_body_bytes d0 = retained_body_bytes d.
Proof.
  intros Hc (Hb & (fields & n & Hdec & -> & Hsize & Hn) & Hline & Hgrpc) (Hsg & Hsr & Hroom).
  rewrite headers_frame_block by done. unfold complete_header_block. cbn [exceeded block_bytes block_stream end_stream].
  destruct (hpack_decode _ _) as [h o]. cbn [snd] in Hdec. subst o. rewrite Hsize.
  destruct (Z.ltb_spec MAX_DECODED_HEADERS n); [lia|]. unfold apply_headers.
  assert (Hst : streams (set_hpack d dir h) = streams d) by (unfold set_hpack; by destruct dir).
  rewrite Hst.
  assert (match streams d !! id with Some _ => false | None => true end
    && (MAX_TRACKED_STREAMS <=? Z.of_nat (size (streams d))) = false) as ->.
  { destruct (streams d !! id); [done|]. specialize (Hroom eq_refl). cbn [andb]. apply Z.leb_gt. lia. }
  fold (block_headers fields). fold (is_grpc (block_headers fields)). rewrite Hgrpc, orb_false_r. cbv zeta.
  cbn [grpc]. rewrite Hsg. unfold message_line in Hline.
  set (s := mkStream _ _ _ _ _ _). exists (set_stream (set_hpack d dir h) id s), s. split.
  - destruct (header (block_headers fields) ":method"); [by injection Hline as <-|].
    destruct (header (block_headers fields) ":status"); [by injection Hline as <-|done].
  - split; [cbn; by rewrite Hst|]. split; [unfold set_hpack; by destruct dir|]. split; [done|]. split; [exact Hsr|].
    split; unfold set_hpack; by destruct dir.
Qed.

Lemma open_collecting d block hs line :
  0 <= max_body d -> continuation (state d dir) = None -> opens_message d block hs line -> stream_free d ->
  exists d', handle_frame d dir (headers_frame id false block) = (d', Ok []) /\
    collecting d' line hs [] (retained_body_bytes d) /\ max_body d' = max_body d.
Proof.
  intros Hmb Hc Ho Hf. destruct (open_message d false block hs line Hc Ho Hf) as (d0 & s & -> & Hs & Hc0 & Hg & Hr & Hm & Hret).
  unfold initial_headers. eexists. split; [done|]. split; [|done]. split; [done|].
  eexists. cbn [streams set_stream set_streams max_body retained_body_bytes]. rewrite lookup_insert_eq.
  pose proof (stream_retained_ge s dir) as [Hge _]. pose proof (pending_bytes_nonneg (pending s dir)).
  split; [done|]. split; [by destruct dir|]. change (blen []) with 0. rewrite Z.min_r by lia.
  split. { rewrite (proj2 (Z.ltb_ge (max_body d0) 0)) by lia. rewrite take_nil. by destruct dir. }
  split; [lia|]. intros _. rewrite stream_retained_pending. cbn [pending_bytes body]. change (blen []) with 0. lia.
Qed.

Lemma frame_valid_data e data : blen data <= MAX_OBSERVED_FRAME_PAYLOAD -> frame_valid (data_frame id e data).
Proof.
  intros Hd. unfold frame_valid, data_frame. cbn [kind flags stream_id payload].
  split; [done|]. split; [by destruct e|]. split; [lia|exact Hd].
Qed.

Lemma frame_valid_headers e block : blen block <= MAX_HEADER_BLOCK -> frame_valid (headers_frame id e block).
Proof.
  intros Hd. unfold frame_valid, headers_frame. cbn [kind flags stream_id payload].
  split; [done|]. split; [by destruct e|]. split; [lia|].
  unfold MAX_HEADER_BLOCK, MAX_OBSERVED_FRAME_PAYLOAD in *. lia.
Qed.
End Messages.

(** C18. A plain HTTP/2 message is decoded exactly: a header block followed by
    data frames, cut anywhere, yields one message with the start line and the
    headers of the block, the body up to the cap and marked when it was cut,
    the stream and the boundary; what other streams retain is not touched, and
    an answer ends the life of its stream. *)
Theorem http2_message_exact `{Hpack} (d : Http2Decoder) (dir : Direction) (id : Z) (block : bytes)
    (hs : list (bytes * bytes)) (line : bytes) (chunks : list bytes) (last : bytes) (fragments : list bytes) :
  dec_ok d -> idle d dir -> expect_client_preface (state d dir) = false ->
  continuation (state d dir) = None -> 0 < id < 2 ^ 31 ->
  opens_message dir d block hs line -> stream_free id d ->
  Forall (fun c => blen c <= MAX_OBSERVED_FRAME_PAYLOAD) (last :: chunks) ->
  retained_body_bytes d + Z.min (max_body d) (blen (concat chunks ++ last)) <= MAX_INFLIGHT_CAPTURE ->
  concat fragments
  = wire frame_wire (headers_frame id false block :: map (data_frame id false) chunks ++ [data_frame id true last]) ->
  exists d', push_all d dir fragments
             = (d', one_message (message_of (max_body d) dir id line hs (concat chunks ++ last))) /\
    retained_body_bytes d' = retained_body_bytes d /\
    match dir with ServerToClient => streams d' !! id = None | ClientToServer => True end.
Proof.
  intros Hd Hi He Hc Hid Ho Hf Hch Hroom Hw. pose proof Hd as (Hmb & Ht & _).
  assert (Hbase : 0 <= retained_body_bytes d).
  { pose proof (total_nonneg (streams d)). destruct Ht. lia. }
  rewrite (http2_frames_exact d dir (headers_frame id false block :: map (data_frame id false) chunks ++ [data_frame id true last]));
    [|done|done| |unfold opening; by rewrite He].
  - rewrite He. cbn [handle_frames].
    destruct (open_collecting dir id Hid d block hs line Hmb Hc Ho Hf) as (d1 & -> & Hcol & Hm).
    destruct (collect_all dir id Hid chunks last d1 line hs [] (retained_body_bytes d)) as (d' & -> & Hd');
      [by rewrite Hm|done|done|by rewrite Hm|].
    exists d'. split; [|done]. by rewrite Hm.
  - apply Forall_cons_iff in Hch as [Hlast Hch]. constructor; [apply frame_valid_headers; [done|apply Ho]|].
    apply Forall_app. split; [|constructor; [by apply frame_valid_data|constructor]].
    apply Forall_fmap. eapply Forall_impl; [|exact Hch]. intros c Hcc. by apply frame_valid_data.
Qed.

Lemma http2_message_exact_witness :
  exists d', push_all (opened (new 4) ClientToServer) ClientToServer
      [frame_wire (headers_frame 1 false post_block) ++ take 3 (frame_wire (data_frame 1 false (lit "abc")));
       drop 3 (frame_wire (data_frame 1 false (lit "abc"))) ++ frame_wire (data_frame 1 true (lit "def"))]
    = (d', one_message (message_of 4 ClientToServer 1 (lit "POST /up HTTP/2")
             [(lit ":method", lit "POST"); (lit ":path", lit "/up")] (lit "abcdef"))) /\
    retained_body_bytes d' = 0 /\ True.
Proof.
  apply (http2_message_exact (opened (new 4) ClientToServer) ClientToServer 1 post_block
    [(lit ":method", lit "POST"); (lit ":path", lit "/up")] (lit "POST /up HTTP/2") [lit "abc"] (lit "def")).
  - by apply opened_ok, new_ok.
  - by split.
  - done.
  - done.
  - done.
  - split; [done|]. split; [|done]. exists [(lit ":method", lit "POST"); (lit ":path", lit "/up")], 19.
    split; [by vm_compute|]. split; [by vm_compute|]. by split.
  - by split.
  - do 2 (apply List.Forall_cons; [by vm_compute|]). constructor.
  - by vm_compute.
  - by vm_compute.
Defined.

(** ** Multiplexing *)

Section Isolation.
Context `{Hpack} (dir : Direction) (id : Z).

(** Only stream [id] and direction [dir] differ. *)
Definition touches (d d' : Http2Decoder) : Prop :=
  (forall j, j <> id -> streams d' !! j = streams d !! j) /\
  (forall dir', dir' <> dir -> state d' dir' = state d dir').

#[local] Instance touches_refl : Reflexive touches.
Proof. by split. Qed.
#[local] Instance touches_trans : Transitive touches.
Proof.
  intros a b c [K1 K2] [K3 K4]. split; intros x Hx; [by rewrite K3, K1|by rewrite K4, K2].
Qed.

Lemma touches_insert d s r : touches d (set_streams d (<[id := s]> (streams d)) r).
Proof. split; [|by intros []]. intros j Hj. cbn. by rewrite lookup_insert_ne. Qed.
Lemma touches_delete d r : touches d (set_streams d (delete id (streams d)) r).
Proof. split; [|by intros []]. intros j Hj. cbn. by rewrite lookup_delete_ne. Qed.
Lemma touches_retained d r : touches d (set_streams d (streams d) r).
Proof. by split; [|intros []]. Qed.
Lemma touches_remove d : touches d (remove_stream d id).
Proof. unfold remove_stream. destruct (streams d !! id); [apply touches_delete|done]. Qed.
Lemma touches_continuation d c : touches d (set_continuation d dir c).
Proof. unfold set_continuation. split; [by destruct dir|]. intros dir' Hd. by destruct dir, dir'. Qed.
Lemma touches_hpack d h : touches d (set_hpack d dir h).
Proof. unfold set_hpack. split; [by destruct dir|]. intros dir' Hd. by destruct dir, dir'. Qed.
Lemma touches_set_stream d s : touches d (set_stream d id s).
Proof. apply touches_insert. Qed.

Create HintDb touch.
#[local] Hint Resolve touches_insert touches_delete touches_retained touches_remove touches_continuation
  touches_hpack touches_set_stream : touch.
#[local] Hint Extern 1 (touches ?a ?a) => reflexivity : touch.

Lemma touches_remove_after d d' : touches d d' -> touches d (remove_stream d' id).
Proof. intros K. etransitivity; [exact K|apply touches_remove]. Qed.
#[local] Hint Resolve touches_remove_after : touch.

Lemma touches_grpc_headers d e hs s : touches d (fst (grpc_headers d dir id e hs s)).
Proof.
  unfold grpc_headers. destruct (match header hs ":method" with Some _ => _ | None => _ end) as [line hs'].
  destruct e, dir; cbn [fst]; auto with touch.
Qed.

Lemma touches_trailers d e hs s : touches d (fst (trailers d dir id e hs s)).
Proof.
  unfold trailers. destruct (pending s dir); [|reflexivity]. destruct e; [|apply touches_set_stream].
  assert (forall d1 r, touches d d1 -> touches d (set_streams d1 (streams d1) r)) as K.
  { intros d1 r K. etransitivity; [exact K|apply touches_retained]. }
  destruct dir; cbn [fst]; auto with touch.
Qed.

Lemma touches_initial d e hs s line : touches d (fst (initial_headers d dir id e hs s line)).
Proof. unfold initial_headers. destruct e; apply touches_set_stream. Qed.

Lemma touches_apply_headers d e hs : touches d (fst (apply_headers d dir id e hs)).
Proof.
  unfold apply_headers.
  destruct (match streams d !! id with None => _ | Some _ => _ end && _); [reflexivity|]. cbv zeta.
  match goal with |- context [grpc_headers _ _ _ _ _ ?x] => set (s := x) end.
  etransitivity; [apply (touches_set_stream d s)|].
  destruct (grpc s); [apply touches_grpc_headers|].
  destruct (header hs ":method"), (header hs ":status");
    (apply touches_initial || apply touches_trailers).
Qed.

Lemma touches_block d b : block_stream b = id -> touches d (fst (complete_header_block d dir b)).
Proof.
  intros Hb. unfold complete_header_block. destruct (exceeded b); [reflexivity|].
  destruct (hpack_decode _ _) as [h [fields|r]]; [|apply touches_hpack].
  destruct (match decoded_size fields with Some _ => _ | None => _ end); [apply touches_hpack|].
  etransitivity; [apply (touches_hpack d h)|]. rewrite Hb. apply touches_apply_headers.
Qed.

Lemma touches_data d f : stream_id f = id -> touches d (fst (handle_data d dir f)).
Proof.
  intros Hf. unfold handle_data. destruct (stream_id f =? 0); [reflexivity|].
  destruct (data_fragment f); [|reflexivity]. destruct (streams d !! stream_id f) as [s|]; [|reflexivity].
  destruct (grpc s).
  - unfold grpc_data. rewrite Hf. destruct (grpc_push _ _ _ _ _ _) as [g [ms|r]]; [|apply touches_set_stream].
    destruct (has_flag f FLAG_END_STREAM); [|apply touches_insert].
    destruct (has_incomplete g); [apply touches_insert|]. destruct dir; cbn [fst]; auto with touch.
  - unfold plain_data. rewrite Hf. destruct (pending s dir); [|reflexivity].
    destruct (has_flag f FLAG_END_STREAM); [|apply touches_insert]. destruct dir; cbn [fst]; auto with touch.
Qed.

Lemma touches_frame d f : stream_id f = id -> touches d (fst (handle_frame d dir f)).
Proof.
  intros Hf. unfold handle_frame.
  destruct (match continuation (state d dir) with Some _ => _ | None => _ end); [apply touches_continuation|].
  destruct (kind f =? FRAME_HEADERS).
  { unfold handle_headers. destruct (stream_id f =? 0); [reflexivity|].
    destruct (header_fragment f); [|reflexivity].
    destruct (has_flag f FLAG_END_HEADERS); [by apply touches_block|apply touches_continuation]. }
  destruct (kind f =? FRAME_CONTINUATION).
  { unfold handle_continuation. destruct (continuation (state d dir)) as [b|]; [|reflexivity].
    destruct (Z.eqb_spec (stream_id f) (block_stream b)); [|apply touches_continuation]. cbn [negb].
    etransitivity; [apply (touches_continuation d None)|].
    destruct (has_flag f FLAG_END_HEADERS); [|apply touches_continuation].
    apply touches_block. cbn. congruence. }
  destruct (kind f =? FRAME_DATA); [by apply touches_data|].
  destruct (kind f =? FRAME_RST_STREAM); [|reflexivity]. cbn [fst]. rewrite Hf. apply touches_delete.
Qed.
End Isolation.

(** Multiplexed streams do not disturb each other: handling a frame
    leaves the state of every other stream and the whole state of the other
    direction as they were. *)
Theorem http2_streams_isolated `{Hpack} (d : Http2Decoder) (dir : Direction) (f : Frame) :
  (forall j, j <> stream_id f -> streams (fst (handle_frame d dir f)) !! j = streams d !! j) /\
  (forall dir', dir' <> dir -> state (fst (handle_frame d dir f)) dir' = state d dir').
Proof. by apply touches_frame. Qed.

(** ** Bounds *)

Section Retention.
Context `{Hpack}.

(** Less than one frame waits in a buffer. *)
Definition short_buffer (st : DirectionState) : Prop :=
  blen (buffer st) < FRAME_HEADER_BYTES + MAX_OBSERVED_FRAME_PAYLOAD.

Lemma read_frame_short st st' next :
  read_frame st = (st', next) -> (next = NeedMore \/ exists r, next = Invalid r) -> short_buffer st'.
Proof.
  unfold read_frame, short_buffer, FRAME_HEADER_BYTES, MAX_OBSERVED_FRAME_PAYLOAD.
  destruct (buffer st) as [|b0 [|b1 [|b2 [|b3 [|b4 [|b5 [|b6 [|b7 [|b8 rest]]]]]]]]] eqn:Eb;
    try (intros [<- _]%pair_equal_spec _; rewrite Eb; by vm_compute).
  set (n := Z.lor _ _). destruct (Z.ltb_spec (1024 * 1024) n).
  { intros [_ <-]%pair_equal_spec [?|[? ?]]; done. }
  match goal with |- context [blen ?l <? _] => destruct (Z.ltb_spec (blen l) (9 + n)) end.
  { intros [<- _]%pair_equal_spec _. rewrite Eb. lia. }
  intros [_ <-]%pair_equal_spec [?|[? ?]]; done.
Qed.

Lemma skip_frame_short st st' next :
  skip_frame st = (st', next) -> (next = NeedMore \/ exists r, next = Invalid r) -> short_buffer st'.
Proof.
  unfold skip_frame. destruct (Z.ltb_spec 0 (skip_payload st)); [|apply read_frame_short].
  cbn [skip_payload].
  destruct (Z.ltb_spec 0 (skip_payload st - Z.min (skip_payload st) (blen (buffer st)))); [|apply read_frame_short].
  intros [<- _]%pair_equal_spec _. unfold short_buffer. cbn [buffer].
  rewrite Z.min_r by lia. rewrite drop_ge by len. by vm_compute.
Qed.

Lemma next_frame_short st st' next :
  next_frame st = (st', next) -> (next = NeedMore \/ exists r, next = Invalid r) -> short_buffer st'.
Proof.
  unfold next_frame. destruct (expect_client_preface st); [|apply skip_frame_short].
  destruct (negb _); [intros [<- _]%pair_equal_spec _; by vm_compute|].
  destruct (Nat.ltb_spec (length (buffer st)) (length CLIENT_PREFACE)) as [Hl|]; [|apply skip_frame_short].
  intros [<- _]%pair_equal_spec _. unfold short_buffer, FRAME_HEADER_BYTES, MAX_OBSERVED_FRAME_PAYLOAD, blen.
  cbn in Hl. lia.
Qed.

Definition buffers_short (d : Http2Decoder) : Prop := forall dir, short_buffer (state d dir).

(** A push leaves less than a frame behind, and the other direction alone. *)
Lemma run_short dir d :
  dec_ok d -> short_buffer (state (fst (decode_available dir d)) dir) /\
  forall dir', dir' <> dir -> state (fst (decode_available dir d)) dir' = state d dir'.
Proof.
  intros Hd. revert Hd. unfold decode_available.
  apply (decode_loop_ind _ _ dec_ok (http2_round_decreasing dir) (fun d r =>
    short_buffer (state (fst r) dir) /\ forall dir', dir' <> dir -> state (fst r) dir' = state d dir')).
  - intros x x' b Hx. unfold decode_round. destruct (next_frame (state x dir)) as [st next] eqn:E.
    destruct next as [f|r| |r]; try done.
    { destruct (handle_frame _ dir f) as [d2 [ms|r]]; intros [=]. }
    all: intros [= <- <-]; cbn [fst]; rewrite state_set_state; split; [eapply next_frame_short; eauto|].
    all: intros dir' Hdir; by destruct dir, dir'.
  - intros x x' b [y c] Hx E [K1 K2]. cbn [fst after] in *. split; [done|]. intros dir' Hdir.
    rewrite K2 by done. revert E. unfold decode_round. destruct (next_frame (state x dir)) as [st next].
    destruct next as [f|r| |r]; try done.
    + destruct (touches_frame dir (stream_id f) (set_state x dir st) f eq_refl) as [_ K].
      destruct (handle_frame _ dir f) as [d2 [ms|r]]; cbn [fst] in K; intros [= <- <-].
      * rewrite K by done. by destruct dir, dir'.
      * destruct (touches_continuation dir 0 d2 None) as [_ K']. rewrite K', K by done. by destruct dir, dir'.
    + intros [= <- <-]. by destruct dir, dir'.
Qed.

(** What a decoder may hold, and what it may have emitted. *)
Definition retained_ok (mb : Z) (d : Http2Decoder) (b : DecodeBatch) : Prop :=
  dec_ok d /\ buffers_short d /\ max_body d = mb /\ Forall (fun m => blen (body m) <= mb) (messages b).

Lemma retained_push mb d dir s :
  dec_ok d -> buffers_short d -> max_body d = mb ->
  retained_ok mb (fst (http2_push d dir s)) (snd (http2_push d dir s)).
Proof.
  intros Hd Hb Hm. rewrite http2_push_dext. pose proof (dec_ok_dext dir s d Hd) as Hd1.
  destruct (http2_run_ok dir _ Hd1) as (K1 & K2 & K3). destruct (run_short dir _ Hd1) as [K4 K5].
  assert (Hmd : max_body (dext dir s d) = mb) by (unfold dext, rebuf; by rewrite max_body_set_state).
  rewrite Hmd in *. split; [done|]. split; [|split; [done|]].
  - intros dir'. destruct (decide (dir' = dir)) as [->|Hne]; [done|]. rewrite K5 by done.
    specialize (Hb dir'). unfold dext, rebuf. by destruct dir, dir'.
  - eapply Forall_impl; [|exact K3]. by intros m [_ ?].
Qed.

Lemma retained_finish mb d dir :
  dec_ok d -> buffers_short d -> max_body d = mb ->
  retained_ok mb (fst (http2_finish d dir)) (snd (http2_finish d dir)).
Proof.
  intros Hd Hb Hm. destruct (http2_finish_ok dir d Hd) as (K1 & K2 & K3). split; [done|].
  split; [|split; [congruence|]].
  - destruct (run_short dir d Hd) as [K4 K5]. unfold http2_finish. destruct (decode_available dir d) as [d1 b].
    cbn [fst] in *. intros dir'.
    match goal with |- context [if ?c then _ else _] => destruct c end; cbn [fst];
      destruct (decide (dir' = dir)) as [->|Hne]; try done.
    + rewrite state_set_state. by vm_compute.
    + specialize (Hb dir'). rewrite <- K5 in Hb by done. by destruct dir, dir'.
    + specialize (Hb dir'). by rewrite <- K5 in Hb by done.
  - eapply Forall_impl; [|exact K3]. intros m [_ ?]. congruence.
Qed.

Lemma retained_after mb d b r :
  retained_ok mb d b -> retained_ok mb (fst r) (snd r) -> retained_ok mb (fst (after b r)) (snd (after b r)).
Proof.
  intros (_ & _ & _ & K1) (K2 & K3 & K4 & K5). split; [done|]. split; [done|]. split; [done|].
  cbn. by apply Forall_app.
Qed.

Lemma retained_observe mb d ts :
  dec_ok d -> buffers_short d -> max_body d = mb ->
  retained_ok mb (fst (observe d ts)) (snd (observe d ts)).
Proof.
  revert d; induction ts as [|[dir s|dir] ts IH]; intros d Hd Hb Hm; cbn [observe].
  - split; [done|]. split; [done|]. split; [done|constructor].
  - pose proof (retained_push mb d dir s Hd Hb Hm) as K.
    change (push d dir s) with (http2_push d dir s). destruct (http2_push d dir s) as [d1 b].
    eapply retained_after; [exact K|]. destruct K as (K1 & K2 & K3 & _). by apply IH.
  - pose proof (retained_finish mb d dir Hd Hb Hm) as K.
    change (finish d dir) with (http2_finish d dir). destruct (http2_finish d dir) as [d1 b].
    eapply retained_after; [exact K|]. destruct K as (K1 & K2 & K3 & _). by apply IH.
Qed.
End Retention.

(** C19. What an HTTP/2 decoder retains is bounded whatever is observed, in
    both directions and at the ends of the streams: at most 256 streams, at
    most 4 MiB of bodies over all of them, less than one frame in each buffer,
    at most 64 KiB of an unfinished header block, and no emitted body over the
    cap. *)
Theorem http2_bounded `{Hpack} (mb : Z) (ts : list Traffic) :
  0 <= mb ->
  let '(d, b) := observe (new mb) ts in
  Z.of_nat (size (streams d)) <= MAX_TRACKED_STREAMS /\
  total (streams d) <= MAX_INFLIGHT_CAPTURE /\
  (forall dir, blen (buffer (state d dir)) < FRAME_HEADER_BYTES + MAX_OBSERVED_FRAME_PAYLOAD /\
               block_ok (continuation (state d dir))) /\
  Forall (fun m => blen (body m) <= mb) (messages b).
Proof.
  intros Hmb. pose proof (retained_observe mb (new mb) ts (new_ok mb Hmb)) as K.
  destruct (observe (new mb) ts) as [d b]. cbn [fst snd] in K.
  destruct K as ((_ & [_ K1 K2 K3] & K4) & K5 & _ & K6); [by intros []|done|].
  split; [done|]. split; [lia|]. split; [|done]. intros dir. split; [apply K5|apply K4].
Qed.

Lemma http2_bounded_witness :
  let '(d, b) := observe (new 4) [Bytes ClientToServer (lit "PRI"); End ServerToClient] in
  Z.of_nat (size (streams d)) <= MAX_TRACKED_STREAMS /\
  total (streams d) <= MAX_INFLIGHT_CAPTURE /\
  (forall dir, blen (buffer (state d dir)) < FRAME_HEADER_BYTES + MAX_OBSERVED_FRAME_PAYLOAD /\
               block_ok (continuation (state d dir))) /\
  Forall (fun m => blen (body m) <= 4) (messages b).
Proof. apply (http2_bounded 4). lia. Defined.

(** ** What the table of streams forgets *)

(** A reset stream is forgotten without giving its bytes back: RST_STREAM
    removes the stream, but the counter of retained bytes stays, so what the
    counter overstates grows by all the stream held, for the rest of the
    connection. *)
Theorem http2_reset_leaks `{Hpack} (d : Http2Decoder) (dir : Direction) (f : Frame) (s : StreamState) :
  continuation (state d dir) = None -> kind f = FRAME_RST_STREAM -> streams d !! stream_id f = Some s ->
  let d' := fst (handle_frame d dir f) in
  streams d' !! stream_id f = None /\
  retained_body_bytes d' - total (streams d')
  = (retained_body_bytes d - total (streams d)) + stream_retained s.
Proof.
  intros Hc Hk Hs. unfold handle_frame. rewrite Hc, Hk.
  change (FRAME_RST_STREAM =? FRAME_HEADERS) with false. change (FRAME_RST_STREAM =? FRAME_CONTINUATION) with false.
  change (FRAME_RST_STREAM =? FRAME_DATA) with false. rewrite Z.eqb_refl. cbn [fst streams set_streams retained_body_bytes].
  split; [apply lookup_delete_eq|]. rewrite (total_delete _ _ _ Hs). lia.
Qed.

(** A connection on which an upload of 3 bytes was begun, then reset. *)
Definition upload : Http2Decoder :=
  fst (handle_frames (opened (new 4) ClientToServer) ClientToServer
         [headers_frame 1 false post_block; data_frame 1 false (lit "abc")]).

Lemma http2_reset_leaks_witness :
  let d' := fst (handle_frame upload ClientToServer (mkFrame FRAME_RST_STREAM 0 1 [x00; x00; x00; x08])) in
  streams d' !! 1 = None /\
  retained_body_bytes d' - total (streams d')
  = (retained_body_bytes upload - total (streams upload))
    + stream_retained (default stream_default (streams upload !! 1)).
Proof.
  apply (http2_reset_leaks upload ClientToServer (mkFrame FRAME_RST_STREAM 0 1 [x00; x00; x00; x08])); by vm_compute.
Defined.

(** A request without a body and its answer without a body, on stream [id]. *)
Definition bodyless_exchange (d : Http2Decoder) (id : Z) : Http2Decoder :=
  let d := fst (handle_frame d ClientToServer (headers_frame id true get_block)) in
  fst (handle_frame d ServerToClient (headers_frame id true no_content_block)).

(** The connection after [n] such exchanges on the odd streams. *)
Fixpoint bodyless_exchanges (n : nat) (d : Http2Decoder) (id : Z) : Http2Decoder :=
  match n with O => d | S n => bodyless_exchanges n (bodyless_exchange d id) (id + 2) end.

(** Exchanges without bodies exhaust the table of streams: an answer that
    ends with its header block is emitted, but its stream is never removed, so
    after 256 complete exchanges every new request is rejected. *)
Theorem http2_bodyless_exhausts :
  let d := bodyless_exchanges 256 (opened (new 4) ClientToServer) 1 in
  size (streams d) = 256%nat /\ total (streams d) = 0 /\
  snd (handle_frame d ClientToServer (headers_frame 513 true get_block))
  = Err (lit "HTTP/2 connection exceeded 256 tracked streams").
Proof. repeat split; by vm_compute. Qed.

(** A gRPC answer that consists of trailers only is not marked as an
    answer: the message of a final header block with a status carries no
    boundary, although its stream ends with it, so nothing pairs it with its
    request. *)
Theorem grpc_trailers_only_unmarked `{Hpack} (d : Http2Decoder) (id : Z) (hs : list (bytes * bytes)) (s : StreamState) :
  header hs ":method" = None -> header hs ":status" <> None -> header hs "lens-boundary" = None ->
  exists m, grpc_headers d ServerToClient id true hs s = (remove_stream d id, Ok [m]) /\
            header (headers m) "lens-boundary" = None.
Proof.
  intros Hm Hs Hb. unfold grpc_headers. rewrite Hm. destruct (header hs ":status") as [st|]; [|done].
  eexists. split; [done|]. cbn [headers].
  assert (forall hs', header hs' "lens-boundary" = None -> header (hs ++ hs') "lens-boundary" = None) as K.
  { intros hs' Hb'. revert Hb. clear Hm. unfold header. induction hs as [|h hs0 IH]; [done|]. cbn [app List.find].
    by destruct (eq_ignore_ascii_case (fst h) (lit "lens-boundary")). }
  by apply K.
Qed.

Lemma grpc_trailers_only_unmarked_witness :
  exists m, grpc_headers (new 4) ServerToClient 1 true [(lit ":status", lit "200"); (lit "grpc-status", lit "5")] stream_default
            = (remove_stream (new 4) 1, Ok [m]) /\ header (headers m) "lens-boundary" = None.
Proof. by apply grpc_trailers_only_unmarked. Defined.
