(* ===== verification/Store.v ===== *)
(** * Store: the bounded flow store of [crates/lens-store].

    One actor consumes observations in order: it keeps the retained flows, a
    protocol decoder per inspected flow and the requests that await an answer,
    redacts what was decoded, hands redacted events to the plugins and stores
    the messages.  Snapshots are rendered as JSON and aggregated into a
    service map.  The base64 encoding of the [base64] crate is a parameter. *)

From stdpp Require Import gmap.
From S2P Require Import Prelude RustStd Core Protocol Redis Http1 Postgres Redact Plugin Http2.
#[local] Open Scope lens_scope.

#[export] Existing Instances Redis.RedisDecoder_streaming Redis.RedisDecoder_laws
  Http1.Http1Decoder_streaming Http1.Http1Decoder_laws
  Postgres.PostgresDecoder_streaming Postgres.PostgresDecoder_laws
  Http2.Http2Decoder_streaming Http2.Http2Decoder_laws.

Module Store.

(** [BASE64.encode]. *)
Class Base64 := { base64_encode : bytes -> bytes }.

(** ** JSON text *)

(** [format!("\\u{:04x}", character as u32)] of a character below U+0100. *)
Definition unicode_escape (b : byte) : bytes := lit "\u00" ++ hex2 b.

(** Characters of more than one byte are copied, but for the controls U+0080
    to U+009F, which UTF-8 writes as two bytes. *)
Fixpoint escape_json (s : bytes) : bytes :=
  match s with
  | [] => []
  | b :: r =>
      if b =b x22 then lit "\" ++ [x22] ++ escape_json r
      else if b =b x5c then lit "\\" ++ escape_json r
      else if b =b x0a then lit "\n" ++ escape_json r
      else if b =b x0d then lit "\r" ++ escape_json r
      else if b =b x09 then lit "\t" ++ escape_json r
      else if is_ascii_control b then unicode_escape b ++ escape_json r
      else if b =b xc2 then
        match r with
        | c :: r' => if in_range 128 159 c then unicode_escape c ++ escape_json r' else b :: escape_json r
        | [] => b :: escape_json r
        end
      else b :: escape_json r
  end.

Definition quote (s : bytes) : bytes := [x22] ++ s ++ [x22].
(** [field "k" v] is the text ["k":v]. *)
Definition field (k : string) (v : bytes) : bytes := quote (lit k) ++ lit ":" ++ v.
Definition object (fields : list bytes) : bytes := lit "{" ++ join (lit ",") fields ++ lit "}".

Definition json_string (value : option bytes) : bytes :=
  match value with Some v => quote (escape_json v) | None => lit "null" end.

Definition json_u64 (value : option Z) : bytes :=
  match value with Some n => dec n | None => lit "null" end.

Definition identity_json (identity : option ServiceIdentity) : bytes :=
  match identity with
  | None => lit "null"
  | Some i => object [field "pid" (json_u64 (pid i)); field "process" (json_string (Core.process i));
                      field "service" (json_string (service i)); field "container" (json_string (container i))]
  end.

Definition plugin_annotations_json (annotations : list Plugin.PluginAnnotation) : bytes :=
  lit "[" ++ join (lit ",") (map (fun a =>
    object [field "plugin" (quote (escape_json (Plugin.plugin a)));
            field "value" (quote (escape_json (Plugin.annotation a)))]) annotations) ++ lit "]".

Definition direction_text (e : EventEnvelope) : option bytes := Direction_display <$> env_direction e.

Definition plugin_event_json (flow : FlowId) (m : MessageRecord) : bytes :=
  object [field "schema_version" (quote (lit "1.0")); field "event" (quote (lit "message.decoded"));
          field "flow_id" (dec flow); field "message_id" (dec (default 0 (message_id (msg_envelope m))));
          field "direction" (json_string (direction_text (msg_envelope m)));
          field "summary" (quote (escape_json (msg_summary m)));
          field "body" (quote (escape_json (from_utf8_lossy (msg_body m))));
          field "truncated" (bool_text (msg_truncated m));
          field "sensitivity" (quote (Sensitivity_display (sensitivity (msg_envelope m))))].

Section MessagesJson.
Context `{Base64}.

Definition message_json (m : MessageRecord) : bytes :=
  object [field "message_id" (dec (default 0 (message_id (msg_envelope m))));
          field "direction" (json_string (direction_text (msg_envelope m)));
          field "summary" (quote (escape_json (msg_summary m)));
          field "body" (quote (escape_json (from_utf8_lossy (msg_body m))));
          field "wire_base64" (quote (base64_encode (msg_body m)));
          field "truncated" (bool_text (msg_truncated m));
          field "latency_nanos" (json_u64 (latency_nanos m));
          field "sensitivity" (quote (Sensitivity_display (sensitivity (msg_envelope m))))].

Definition messages_json (messages : list MessageRecord) : bytes :=
  lit "[" ++ join (lit ",") (map message_json messages) ++ lit "]".
End MessagesJson.

(** ** Retained flows *)

Record StoredFlow := mkStored {
  record : FlowRecord;
  client_to_upstream_bytes : Z;
  upstream_to_client_bytes : Z;
  failure : option bytes;
  decoder_error : option bytes;
  messages : list MessageRecord;
  plugin_annotations : list Plugin.PluginAnnotation;
  plugin_failures : Z }.

Definition stored_id (f : StoredFlow) : option FlowId := flow_id (flow_envelope (record f)).

Definition to_json_line `{Base64} (f : StoredFlow) : bytes :=
  object [field "schema_version" (quote (lit "1.3"));
          field "flow_id" (dec (default 0 (stored_id f)));
          field "client" (quote (escape_json (Endpoint_display (client (record f)))));
          field "upstream" (quote (escape_json (Endpoint_display (upstream (record f)))));
          field "identity" (identity_json (identity (record f)));
          field "protocol" (json_string (protocol_label (record f)));
          field "state" (quote (FlowState_display (flow_state (record f))));
          field "client_to_upstream_bytes" (dec (client_to_upstream_bytes f));
          field "upstream_to_client_bytes" (dec (upstream_to_client_bytes f));
          field "failure" (json_string (failure f));
          field "decoder_error" (json_string (decoder_error f));
          field "plugin_annotations" (plugin_annotations_json (plugin_annotations f));
          field "plugin_failures" (dec (plugin_failures f));
          field "messages" (messages_json (messages f))].

Record StoreSnapshot := mkSnapshot { snapshot_flows : list StoredFlow; snapshot_evicted : Z }.

Definition to_jsonl `{Base64} (s : StoreSnapshot) : bytes := join [x0a] (map to_json_line (snapshot_flows s)).

Definition to_json `{Base64} (s : StoreSnapshot) : bytes :=
  object [field "evicted" (dec (snapshot_evicted s));
          field "flows" (lit "[" ++ join (lit ",") (map to_json_line (snapshot_flows s)) ++ lit "]")].

(** ** The service map

    A [BTreeMap] is the association list of its entries in the order of the
    keys; [entry(k).or_default()] and an update are [btree_update]. *)

Section BTree.
Context {K V : Type} (cmp : K -> K -> comparison).

Fixpoint btree_update (f : option V -> V) (k : K) (m : list (K * V)) : list (K * V) :=
  match m with
  | [] => [(k, f None)]
  | (k', v) :: m' =>
      match cmp k k' with
      | Lt => (k, f None) :: m
      | Eq => (k', f (Some v)) :: m'
      | Gt => (k', v) :: btree_update f k m'
      end
  end.

Fixpoint btree_get (k : K) (m : list (K * V)) : option V :=
  match m with
  | [] => None
  | (k', v) :: m' => match cmp k k' with Eq => Some v | _ => btree_get k m' end
  end.
End BTree.

Definition set_insert {K} (cmp : K -> K -> comparison) (k : K) (m : list (K * unit)) : list (K * unit) :=
  btree_update cmp (fun _ => tt) k m.

Record Aggregate := mkAggregate {
  agg_processes : list (bytes * unit); agg_pids : list (Z * unit);
  agg_flows : Z; agg_open : Z; agg_failed : Z; agg_upstreams : list (bytes * Z) }.

Definition aggregate_default : Aggregate := mkAggregate [] [] 0 0 0 [].

Definition u64_from (b : bool) : Z := if b then 1 else 0.

Definition service_of (f : StoredFlow) : bytes :=
  match identity (record f) with Some i => Identity.display_name i | None => lit "unknown" end.

Definition aggregate (f : StoredFlow) (entry : Aggregate) : Aggregate :=
  let identity := identity (record f) in
  mkAggregate
    (match identity ≫= Core.process with
     | Some p => set_insert bytes_cmp p (agg_processes entry) | None => agg_processes entry end)
    (match identity ≫= pid with Some p => set_insert Z.compare p (agg_pids entry) | None => agg_pids entry end)
    (sat_add (agg_flows entry) 1)
    (sat_add (agg_open entry) (u64_from (bool_decide (flow_state (record f) = FlowOpen))))
    (sat_add (agg_failed entry) (u64_from (bool_decide (flow_state (record f) = FlowFailed))))
    (btree_update bytes_cmp (fun count => sat_add (default 0 count) 1)
       (Endpoint_display (upstream (record f))) (agg_upstreams entry)).

Record ServiceEdge := mkEdge { edge_upstream : bytes; edge_flows : Z }.

Record ServiceNode := mkNode {
  node_service : bytes; node_processes : list bytes; node_pids : list Z;
  node_flows : Z; node_open : Z; node_failed : Z; node_upstreams : list ServiceEdge }.

Definition node (entry : bytes * Aggregate) : ServiceNode :=
  let '(service, a) := entry in
  mkNode service (map fst (agg_processes a)) (map fst (agg_pids a))
    (agg_flows a) (agg_open a) (agg_failed a) (map (fun '(u, n) => mkEdge u n) (agg_upstreams a)).

Definition aggregates (flows : list StoredFlow) : list (bytes * Aggregate) :=
  fold_left (fun services f =>
    btree_update bytes_cmp (fun e => aggregate f (default aggregate_default e)) (service_of f) services) flows [].

Definition service_map (s : StoreSnapshot) : list ServiceNode := map node (aggregates (snapshot_flows s)).

(** ** The actor *)

Section Actor.
Context `{Http2.Hpack} `{Redact.JsonSecret} `{Plugin.Wasm}.

Inductive ProtocolDecoder :=
| DecHttp1 (d : Http1.Http1Decoder)
| DecHttp2 (d : Http2.Http2Decoder)
| DecPostgres (d : Postgres.PostgresDecoder)
| DecRedis (d : Redis.RedisDecoder).

Definition on_fst {A B C} (f : A -> B) (r : A * C) : B * C := (f (fst r), snd r).

Definition decoder_push (d : ProtocolDecoder) (dir : Direction) (s : bytes) : ProtocolDecoder * DecodeBatch :=
  match d with
  | DecHttp1 d => on_fst DecHttp1 (push d dir s)
  | DecHttp2 d => on_fst DecHttp2 (push d dir s)
  | DecPostgres d => on_fst DecPostgres (push d dir s)
  | DecRedis d => on_fst DecRedis (push d dir s)
  end.

Definition decoder_finish (d : ProtocolDecoder) (dir : Direction) : ProtocolDecoder * DecodeBatch :=
  match d with
  | DecHttp1 d => on_fst DecHttp1 (finish d dir)
  | DecHttp2 d => on_fst DecHttp2 (finish d dir)
  | DecPostgres d => on_fst DecPostgres (finish d dir)
  | DecRedis d => on_fst DecRedis (finish d dir)
  end.

Definition decoder_protocol (d : ProtocolDecoder) : bytes :=
  match d with
  | DecHttp1 d => protocol d | DecHttp2 d => protocol d
  | DecPostgres d => protocol d | DecRedis d => protocol d
  end.

#[export] Instance ProtocolDecoder_streaming : StreamingDecoder ProtocolDecoder := {
  protocol := decoder_protocol; push := decoder_push; finish := decoder_finish }.

Record StoreState := mkState { flows : list StoredFlow; evicted : Z; next_message_id : Z }.
Definition state_default : StoreState := mkState [] 0 0.

Record StoreActor := mkActor {
  state : StoreState;
  max_flows : Z;
  actor_run_id : RunId;
  max_body : Z;
  reveal : bool;
  decoders : gmap FlowId ProtocolDecoder;
  pending_requests : gmap (FlowId * bytes) (list Z);
  redactor : Redact.Redactor;
  plugin_redactor : Redact.Redactor;
  plugin_host : option Plugin.PluginHost }.

Definition set_state (a : StoreActor) (s : StoreState) : StoreActor :=
  mkActor s (max_flows a) (actor_run_id a) (max_body a) (reveal a) (decoders a) (pending_requests a)
    (redactor a) (plugin_redactor a) (plugin_host a).
Definition set_flows (a : StoreActor) (fs : list StoredFlow) : StoreActor :=
  set_state a (mkState fs (evicted (state a)) (next_message_id (state a))).
Definition set_decoders (a : StoreActor) (ds : gmap FlowId ProtocolDecoder) : StoreActor :=
  mkActor (state a) (max_flows a) (actor_run_id a) (max_body a) (reveal a) ds (pending_requests a)
    (redactor a) (plugin_redactor a) (plugin_host a).
Definition set_pending (a : StoreActor) (ps : gmap (FlowId * bytes) (list Z)) : StoreActor :=
  mkActor (state a) (max_flows a) (actor_run_id a) (max_body a) (reveal a) (decoders a) ps
    (redactor a) (plugin_redactor a) (plugin_host a).

(** [with_inspection] asserts that both limits are positive. *)
Definition with_inspection (max_flows : Z) (run : RunId) (max_body : Z) (reveal : bool) : option StoreActor :=
  if (0 <? max_flows) && (0 <? max_body) then
    Some (mkActor state_default max_flows run max_body reveal ∅ ∅
            (Redact.new reveal) (Redact.new false) None)
  else None.

Definition new (max_flows : Z) (run : RunId) : option StoreActor :=
  with_inspection max_flows run 262144 false.

Definition with_plugins (a : StoreActor) (host : Plugin.PluginHost) : StoreActor :=
  mkActor (state a) (max_flows a) (actor_run_id a) (max_body a) (reveal a) (decoders a) (pending_requests a)
    (redactor a) (plugin_redactor a) (Some host).

Definition snapshot (a : StoreActor) : StoreSnapshot := mkSnapshot (flows (state a)) (evicted (state a)).

(** [find_flow_mut] and an update of what it finds. *)
Fixpoint update_flow (g : StoredFlow -> StoredFlow) (id : FlowId) (fs : list StoredFlow) : list StoredFlow :=
  match fs with
  | [] => []
  | f :: fs => if bool_decide (stored_id f = Some id) then g f :: fs else f :: update_flow g id fs
  end.

Definition edit_flow (a : StoreActor) (id : FlowId) (g : StoredFlow -> StoredFlow) : StoreActor :=
  set_flows a (update_flow g id (flows (state a))).

Definition with_record (f : StoredFlow) (r : FlowRecord) : StoredFlow :=
  mkStored r (client_to_upstream_bytes f) (upstream_to_client_bytes f) (failure f) (decoder_error f)
    (messages f) (plugin_annotations f) (plugin_failures f).
Definition with_decoder_error (reason : bytes) (f : StoredFlow) : StoredFlow :=
  mkStored (record f) (client_to_upstream_bytes f) (upstream_to_client_bytes f) (failure f) (Some reason)
    (messages f) (plugin_annotations f) (plugin_failures f).

(** *** Storing a batch *)

(** [headers.iter().find(|(name, _)| name.eq_ignore_ascii_case(...))]. *)
Definition header (m : DecodedMessage) (n : string) : option bytes :=
  snd <$> List.find (fun h => eq_ignore_ascii_case (fst h) (lit n)) (headers m).

(** The request queue and the latency of a message, from its boundary. *)
Definition track_latency (ps : gmap (FlowId * bytes) (list Z)) (key : FlowId * bytes)
    (boundary : option bytes) (mono : Z) : gmap (FlowId * bytes) (list Z) * option Z :=
  match boundary with
  | None => (ps, None)
  | Some b =>
      if b =s lit "request" then (<[key := default [] (ps !! key) ++ [mono]]> ps, None)
      else if b =s lit "response" then
        match ps !! key with
        | Some (started :: rest) => (<[key := rest]> ps, Some (sat_sub mono started))
        | _ => (ps, None)
        end
      else (ps, None)
  end.

Definition message_sensitivity (reveal redacted : bool) : Sensitivity :=
  if reveal then Secret else if redacted then Redacted else Public.

(** The record of a redacted message. *)
Definition message_record (e : EventEnvelope) (m : DecodedMessage) (truncated : bool) (latency : option Z) :
    MessageRecord :=
  Message.with_latency_nanos
    (Message.with_truncated (Message.new e (summary m) (render m)) truncated) latency.

(** What a stored message changes in its flow. *)
Definition add_message (grpc : bool) (id : MessageId) (m : MessageRecord)
    (report : option Plugin.PluginRunReport) (f : StoredFlow) : StoredFlow :=
  let r := record f in
  let r := if grpc then Flow.set_protocol r (Some (lit "grpc")) else r in
  let r := Flow.push_message_id r id in
  let '(annotations, failures) :=
    match report with
    | Some report =>
        let remaining := sat_sub 32 (blen (plugin_annotations f)) in
        (plugin_annotations f ++ take (Z.to_nat remaining) (Plugin.annotations report),
         sat_add (plugin_failures f) (blen (Plugin.failures report)))
    | None => (plugin_annotations f, plugin_failures f)
    end in
  mkStored r (client_to_upstream_bytes f) (upstream_to_client_bytes f) (failure f) (decoder_error f)
    (messages f ++ [m]) annotations failures.

Definition store_message (flow : FlowId) (t : TimestampPair) (a : StoreActor) (decoded : DecodedMessage) :
    StoreActor :=
  let stream_id := default [] (header decoded "lens-stream-id") in
  let decoded_protocol := header decoded "lens-protocol" in
  let boundary := header decoded "lens-boundary" in
  let '(ps, latency) := track_latency (pending_requests a) (flow, stream_id) boundary (mono_nanos t) in
  let next := sat_add (next_message_id (state a)) 1 in
  let dir := direction decoded in
  let trunc := truncated decoded in
  let outcome := Redact.redact (redactor a) decoded in
  let envelope :=
    Envelope.with_sensitivity
      (Envelope.with_timestamps
        (Envelope.with_direction
          (Envelope.with_message_id
            (Envelope.with_flow_id (Envelope.new (lit "message.decoded") (actor_run_id a) SrcDecoder) flow)
            next) dir) (mono_nanos t) (wall_nanos t))
      (message_sensitivity (reveal a) (Redact.redacted outcome)) in
  let message := message_record envelope (Redact.message outcome) trunc latency in
  let report :=
    match plugin_host a with
    | None => None
    | Some host =>
        let safe := Redact.redact (plugin_redactor a) decoded in
        let safe_sensitivity := if Redact.redacted safe then Redacted else Public in
        let safe_message :=
          message_record (Envelope.with_sensitivity (msg_envelope message) safe_sensitivity)
            (Redact.message safe) trunc latency in
        Some (Plugin.host_process host (plugin_event_json flow safe_message))
    end in
  let grpc := match decoded_protocol with Some p => p =s lit "grpc" | None => false end in
  let a := set_pending a ps in
  let a := set_state a (mkState (flows (state a)) (evicted (state a)) next) in
  edit_flow a flow (add_message grpc next message report).

Definition store_batch (a : StoreActor) (flow : FlowId) (t : TimestampPair) (b : DecodeBatch) : StoreActor :=
  let a := match desynchronized b with
           | Some reason => edit_flow a flow (with_decoder_error reason)
           | None => a
           end in
  fold_left (store_message flow t) (Protocol.messages b) a.

(** *** Observations *)

(** The cap of a store is positive ([with_inspection]), as the constructors of
    the HTTP/1 and PostgreSQL decoders assert. *)
Definition decoder_for (max_body : Z) (protocol : bytes) : option ProtocolDecoder :=
  if protocol =s lit "http1" then DecHttp1 <$> Http1.new max_body
  else if (protocol =s lit "http2") || (protocol =s lit "grpc") then Some (DecHttp2 (Http2.new max_body))
  else if protocol =s lit "postgres" then DecPostgres <$> Postgres.new max_body
  else if protocol =s lit "redis" then Some (DecRedis (Redis.new max_body))
  else None.

(** [pending_requests.retain(|(flow_id, _), _| *flow_id != id)]. *)
Definition forget_requests (id : FlowId) (ps : gmap (FlowId * bytes) (list Z)) : gmap (FlowId * bytes) (list Z) :=
  filter (fun kv => kv.1.1 <> id) ps.

(** A data observation goes to the decoder of its flow, if it has one. *)
Definition apply_data (a : StoreActor) (id : FlowId) (t : TimestampPair) (dir : Direction) (s : bytes) : StoreActor :=
  match decoders a !! id with
  | None => a
  | Some d =>
      let '(d, batch) := decoder_push d dir s in
      store_batch (set_decoders a (<[id := d]> (decoders a))) id t batch
  end.

(** The end of a flow finishes its decoder in both directions. *)
Definition end_decoder (a : StoreActor) (id : FlowId) (t : TimestampPair) : StoreActor :=
  let a :=
    match decoders a !! id with
    | None => a
    | Some d =>
        let a := set_decoders a (delete id (decoders a)) in
        let '(d, client) := decoder_finish d ClientToServer in
        let a := store_batch a id t client in
        let '(d, server) := decoder_finish d ServerToClient in
        store_batch a id t server
    end in
  set_pending a (forget_requests id (pending_requests a)).

(** Make room for one more flow. *)
Definition evict (a : StoreActor) : StoreActor :=
  if blen (flows (state a)) =? max_flows a then
    let a' :=
      match flows (state a) with
      | [] => a
      | f :: _ =>
          match stored_id f with
          | Some id => set_pending (set_decoders a (delete id (decoders a))) (forget_requests id (pending_requests a))
          | None => a
          end
      end in
    set_state a' (mkState (tail (flows (state a))) (sat_add (evicted (state a)) 1) (next_message_id (state a)))
  else a.

Definition opened_flow (run : RunId) (id : FlowId) (t : TimestampPair) (client upstream : Endpoint)
    (protocol : option bytes) : StoredFlow :=
  let envelope :=
    Envelope.with_timestamps
      (Envelope.with_flow_id (Envelope.new (lit "flow.opened") run SrcProxy) id) (mono_nanos t) (wall_nanos t) in
  let r := Flow.new envelope client upstream in
  let r := match protocol with Some p => Flow.with_protocol r p | None => r end in
  mkStored r 0 0 None None [] [] 0.

Definition open_flow (a : StoreActor) (id : FlowId) (t : TimestampPair) (client upstream : Endpoint)
    (protocol : option bytes) : StoreActor :=
  let a := evict a in
  let f := opened_flow (actor_run_id a) id t client upstream protocol in
  let a := set_flows a (flows (state a) ++ [f]) in
  match protocol_label (record f) ≫= decoder_for (max_body a) with
  | Some d => set_decoders a (<[id := d]> (decoders a))
  | None => a
  end.

Definition detect_protocol (a : StoreActor) (id : FlowId) (protocol : bytes) : StoreActor :=
  let a := edit_flow a id (fun f => with_record f (Flow.set_protocol (record f) (Some protocol))) in
  match decoder_for (max_body a) protocol with
  | Some d => set_decoders a (<[id := d]> (decoders a))
  | None => set_decoders a (delete id (decoders a))
  end.

Definition count_transfer (dir : Direction) (n : Z) (f : StoredFlow) : StoredFlow :=
  match dir with
  | ClientToServer =>
      mkStored (record f) (sat_add (client_to_upstream_bytes f) n) (upstream_to_client_bytes f) (failure f)
        (decoder_error f) (messages f) (plugin_annotations f) (plugin_failures f)
  | ServerToClient =>
      mkStored (record f) (client_to_upstream_bytes f) (sat_add (upstream_to_client_bytes f) n) (failure f)
        (decoder_error f) (messages f) (plugin_annotations f) (plugin_failures f)
  end.

Definition fail_flow (reason : bytes) (f : StoredFlow) : StoredFlow :=
  mkStored (Flow.with_state (record f) FlowFailed) (client_to_upstream_bytes f) (upstream_to_client_bytes f)
    (Some reason) (decoder_error f) (messages f) (plugin_annotations f) (plugin_failures f).

Definition apply (a : StoreActor) (e : ObservationEvent) : StoreActor :=
  let id := ev_flow_id e in
  let t := ev_timestamp e in
  match ev_kind e with
  | Data dir s => apply_data a id t dir s
  | Opened client upstream protocol => open_flow a id t client upstream protocol
  | Identified i => edit_flow a id (fun f => with_record f (Flow.with_identity (record f) i))
  | ProtocolDetected protocol => detect_protocol a id protocol
  | Transferred dir n => edit_flow a id (count_transfer dir n)
  | ObsClosed =>
      edit_flow (end_decoder a id t) id (fun f => with_record f (Flow.with_state (record f) FlowClosed))
  | ObsFailed reason => edit_flow (end_decoder a id t) id (fail_flow reason)
  end.

(** [run]: every observation of the channel, in order. *)
Definition run (a : StoreActor) (es : list ObservationEvent) : StoreActor := fold_left apply es a.
End Actor.

End Store.
