(* ===== verification/StoreFacts.v ===== *)
(** * StoreFacts: what the flow store guarantees.

    Retention, isolation of flows, message identifiers, redaction of what is
    stored and of what plugins see, fragments, latencies, the service map and
    the exported JSON. *)

From stdpp Require Import gmap sorting.
From S2P Require Import Prelude RustStd Core Protocol Redis Http1 Postgres Redact RedactFacts Plugin Http2 Http2Wire Store.
Import Store.
#[local] Open Scope lens_scope.

(** Instances of the parameters for the examples. *)
#[local] Existing Instances Http2Wire.literal_hpack Redact.no_json_secret Plugin.echo_wasm.

Section Actor.
Context `{Http2.Hpack} `{Redact.JsonSecret} `{Plugin.Wasm}.

(** ** Editing flows *)

(** An edit that keeps the identifier of the flow. *)
Definition keeps_id (g : StoredFlow -> StoredFlow) : Prop := forall f, stored_id (g f) = stored_id f.

Lemma update_flow_ids g id fs : keeps_id g -> map stored_id (update_flow g id fs) = map stored_id fs.
Proof.
  intros Hg. induction fs as [|f fs IH]; [done|]. cbn. destruct (bool_decide _); cbn; [by rewrite Hg|by rewrite IH].
Qed.

Lemma add_message_keeps grpc id m r : keeps_id (add_message grpc id m r).
Proof. intros f. unfold add_message. destruct r, grpc; done. Qed.
Lemma decoder_error_keeps r : keeps_id (with_decoder_error r).
Proof. done. Qed.
Lemma count_transfer_keeps dir n : keeps_id (count_transfer dir n).
Proof. by destruct dir. Qed.

(** What storing one message does. *)
Lemma store_message_shape flow t a m :
  exists grpc rec report,
    let key := (flow, default [] (header m "lens-stream-id")) in
    let track := track_latency (pending_requests a) key (header m "lens-boundary") (mono_nanos t) in
    let next := sat_add (next_message_id (state a)) 1 in
    let outcome := Redact.redact (redactor a) m in
    store_message flow t a m
    = edit_flow (set_state (set_pending a (fst track)) (mkState (flows (state a)) (evicted (state a)) next))
        flow (add_message grpc next rec report) /\
    message_id (msg_envelope rec) = Some next /\
    flow_id (msg_envelope rec) = Some flow /\
    msg_summary rec = summary (Redact.message outcome) /\
    msg_body rec = render (Redact.message outcome) /\
    sensitivity (msg_envelope rec) = message_sensitivity (reveal a) (Redact.redacted outcome) /\
    latency_nanos rec = snd track /\ msg_truncated rec = truncated m.
Proof.
  unfold store_message. destruct (track_latency _ _ _ _) as [ps latency]. cbn [fst snd].
  do 3 eexists. split; [reflexivity|]. by repeat split.
Qed.

(** What no message and no batch changes: the identifiers of the flows, the
    counters of the store, the decoders, the configuration. *)
Record same_frame (a a' : StoreActor) : Prop := {
  frame_ids : map stored_id (flows (state a')) = map stored_id (flows (state a));
  frame_evicted : evicted (state a') = evicted (state a);
  frame_decoders : decoders a' = decoders a;
  frame_max_flows : max_flows a' = max_flows a;
  frame_max_body : max_body a' = max_body a;
  frame_run : actor_run_id a' = actor_run_id a;
  frame_reveal : reveal a' = reveal a;
  frame_redactor : redactor a' = redactor a;
  frame_plugin_redactor : plugin_redactor a' = plugin_redactor a;
  frame_host : plugin_host a' = plugin_host a }.

#[export] Instance same_frame_refl : Reflexive same_frame.
Proof. by split. Qed.
#[export] Instance same_frame_trans : Transitive same_frame.
Proof. intros a b c [] []. split; congruence. Qed.

Lemma edit_flow_frame a id g : keeps_id g -> same_frame a (edit_flow a id g).
Proof. intros Hg. split; try done. cbn. by apply update_flow_ids. Qed.

Lemma store_message_frame flow t a m : same_frame a (store_message flow t a m).
Proof.
  destruct (store_message_shape flow t a m) as (grpc & rec & rep & E & _). cbv zeta in E. rewrite E.
  etransitivity; [|apply edit_flow_frame, add_message_keeps]. by split.
Qed.

Lemma store_messages_frame flow t ms a : same_frame a (fold_left (store_message flow t) ms a).
Proof.
  revert a; induction ms as [|m ms IH]; intros a; [reflexivity|]. cbn [fold_left].
  etransitivity; [apply store_message_frame|apply IH].
Qed.

Lemma store_batch_frame a flow t b : same_frame a (store_batch a flow t b).
Proof.
  unfold store_batch. etransitivity; [|apply store_messages_frame].
  destruct (desynchronized b); [by apply edit_flow_frame|reflexivity].
Qed.

(** ** Retention *)

Definition opened_id (e : ObservationEvent) : option FlowId :=
  match ev_kind e with Opened _ _ _ => Some (ev_flow_id e) | _ => None end.

(** The last [n] elements. *)
Definition last_n {A} (n : nat) (l : list A) : list A := drop (length l - n) l.

Lemma last_n_snoc {A} n (l : list A) x :
  (0 < n)%nat ->
  last_n n (l ++ [x]) = (if decide (length (last_n n l) = n) then tail (last_n n l) else last_n n l) ++ [x].
Proof.
  intros Hn. unfold last_n. rewrite length_app, length_drop. cbn [length].
  destruct (decide _) as [E|E].
  - replace (length l + 1 - n)%nat with (S (length l - n)) by lia. rewrite drop_app_le by lia.
    f_equal. replace (S (length l - n)) with (length l - n + 1)%nat by lia. rewrite <- drop_drop.
    by destruct (drop (length l - n) l).
  - replace (length l + 1 - n)%nat with 0%nat by lia. replace (length l - n)%nat with 0%nat by lia. by rewrite !drop_0.
Qed.

Lemma end_decoder_frame a id t :
  map stored_id (flows (state (end_decoder a id t))) = map stored_id (flows (state a)) /\
  evicted (state (end_decoder a id t)) = evicted (state a) /\ max_flows (end_decoder a id t) = max_flows a.
Proof.
  unfold end_decoder. cbn [set_pending state max_flows].
  destruct (decoders a !! id) as [d|]; [|done].
  destruct (decoder_finish d ClientToServer) as [d1 b1]. destruct (decoder_finish d1 ServerToClient) as [d2 b2].
  set (a0 := set_decoders a _).
  destruct (store_batch_frame a0 id t b1) as [E1 E2 _ E3 _ _ _ _ _ _].
  destruct (store_batch_frame (store_batch a0 id t b1) id t b2) as [F1 F2 _ F3 _ _ _ _ _ _].
  rewrite F1, E1, F2, E2, F3, E3. done.
Qed.

(** Only an opened flow changes which flows are retained. *)
Lemma apply_ids a e :
  opened_id e = None ->
  map stored_id (flows (state (apply a e))) = map stored_id (flows (state a)) /\
  evicted (state (apply a e)) = evicted (state a) /\ max_flows (apply a e) = max_flows a.
Proof.
  destruct e as [id t k]. unfold apply, opened_id. cbn [ev_kind ev_flow_id ev_timestamp].
  assert (forall b g, keeps_id g ->
    map stored_id (flows (state (edit_flow b id g))) = map stored_id (flows (state b)) /\
    evicted (state (edit_flow b id g)) = evicted (state b) /\ max_flows (edit_flow b id g) = max_flows b) as Hedit.
  { intros b g Hg. cbn. by rewrite update_flow_ids. }
  destruct k; intros E; try done.
  - by apply Hedit.
  - unfold detect_protocol. destruct (decoder_for _ _); by apply Hedit.
  - apply Hedit, count_transfer_keeps.
  - unfold apply_data. destruct (decoders a !! id) as [d|]; [|done].
    destruct (decoder_push d direction data) as [d' b].
    destruct (store_batch_frame (set_decoders a (<[id:=d']> (decoders a))) id t b) as [E1 E2 _ E3 _ _ _ _ _ _].
    by rewrite E1, E2, E3.
  - destruct (end_decoder_frame a id t) as (E1 & E2 & E3). rewrite <- E1, <- E2, <- E3. by apply Hedit.
  - destruct (end_decoder_frame a id t) as (E1 & E2 & E3). rewrite <- E1, <- E2, <- E3. by apply Hedit.
Qed.

Lemma open_flow_ids a id t c u p :
  map stored_id (flows (state (open_flow a id t c u p)))
  = (if decide (blen (flows (state a)) = max_flows a) then tail (map stored_id (flows (state a)))
     else map stored_id (flows (state a))) ++ [Some id] /\
  evicted (state (open_flow a id t c u p))
  = (if decide (blen (flows (state a)) = max_flows a) then sat_add (evicted (state a)) 1 else evicted (state a)) /\
  max_flows (open_flow a id t c u p) = max_flows a.
Proof.
  unfold open_flow.
  assert (Hd : forall (a1 : StoreActor) (o : option ProtocolDecoder),
    flows (state (match o with Some d => set_decoders a1 (<[id:=d]> (decoders a1)) | None => a1 end)) = flows (state a1) /\
    evicted (state (match o with Some d => set_decoders a1 (<[id:=d]> (decoders a1)) | None => a1 end)) = evicted (state a1) /\
    max_flows (match o with Some d => set_decoders a1 (<[id:=d]> (decoders a1)) | None => a1 end) = max_flows a1)
    by (by intros a1 []).
  cbv zeta. destruct (Hd (set_flows (evict a) (flows (state (evict a)) ++ [opened_flow (actor_run_id (evict a)) id t c u p]))
    (protocol_label (record (opened_flow (actor_run_id (evict a)) id t c u p)) ≫= decoder_for (max_body (evict a)))) as (E1 & E2 & E3).
  cbn [max_body set_flows set_state] in *. rewrite E1, E2, E3. cbn [flows evicted state set_flows set_state max_flows].
  rewrite map_app. cbn [map].
  assert (stored_id (opened_flow (actor_run_id (evict a)) id t c u p) = Some id) as -> by (by destruct p).
  unfold evict. destruct (Z.eqb_spec (blen (flows (state a))) (max_flows a)) as [E|E].
  - rewrite !decide_True by done. cbn. split; [by destruct (flows (state a))|]. split; [done|].
    destruct (flows (state a)) as [|f fs]; [done|]. by destruct (stored_id f).
  - by rewrite !decide_False.
Qed.

Definition opened_ids (es : list ObservationEvent) : list FlowId := omap opened_id es.

(** What is retained after the flows [ids] were opened, and how many are gone. *)
Definition retention (a : StoreActor) (n : nat) (ids : list FlowId) : Prop :=
  max_flows a = Z.of_nat n /\
  map stored_id (flows (state a)) = map Some (last_n n ids) /\
  evicted (state a) = Z.min u64_max (Z.of_nat (length ids - n)).

Lemma apply_retention a n ids e :
  (0 < n)%nat -> retention a n ids ->
  retention (apply a e) n (ids ++ match opened_id e with Some id => [id] | None => [] end).
Proof.
  intros Hn (Hm & Hids & Hev). destruct (opened_id e) as [id|] eqn:E.
  - destruct e as [id' t k]. unfold opened_id in E. cbn [ev_kind ev_flow_id] in E.
    destruct k as [c u p| | | | | |]; try done. injection E as ->.
    unfold apply. cbn [ev_kind ev_flow_id ev_timestamp].
    destruct (open_flow_ids a id t c u p) as (K1 & K2 & K3).
    assert (Hlen : length (flows (state a)) = length (last_n n ids)).
    { rewrite <- (length_map stored_id), Hids. by rewrite length_map. }
    split; [by rewrite K3|]. rewrite K1, K2, Hids, Hev, last_n_snoc, map_app by done. cbn [map].
    assert (Hiff : blen (flows (state a)) = max_flows a <-> length (last_n n ids) = n) by (unfold blen; lia).
    assert (Hl : length (last_n n ids) = (Nat.min n (length ids))%nat) by (unfold last_n; rewrite length_drop; lia).
    rewrite length_app. cbn [length].
    destruct (decide (blen (flows (state a)) = max_flows a)) as [D|D].
    + rewrite !decide_True by (by apply Hiff). split; [by destruct (last_n n ids)|].
      apply Hiff in D. unfold sat_add. lia.
    + rewrite !decide_False by (by rewrite <- Hiff). split; [done|].
      assert (length (last_n n ids) <> n) by (by rewrite <- Hiff). lia.
  - destruct (apply_ids a e E) as (K1 & K2 & K3). rewrite app_nil_r. unfold retention. by rewrite K1, K2, K3.
Qed.

Lemma run_retention a n ids es :
  (0 < n)%nat -> retention a n ids -> retention (run a es) n (ids ++ opened_ids es).
Proof.
  intros Hn. revert a ids; induction es as [|e es IH]; intros a ids Ha; [by rewrite app_nil_r|].
  cbn [run fold_left opened_ids omap list_omap]. pose proof (apply_retention a n ids e Hn Ha) as Ha1.
  apply IH in Ha1. destruct (opened_id e); cbn in Ha1; [by rewrite <- app_assoc in Ha1|by rewrite app_nil_r in Ha1].
Qed.
End Actor.

(** C3. Retention is exact: after any observations a store of capacity [n]
    holds exactly the last [n] opened flows, oldest first, and counts exactly
    the ones it gave up. *)
Theorem store_retention_exact `{Http2.Hpack} `{Redact.JsonSecret} `{Plugin.Wasm}
    (n : nat) (run_id mb : Z) (reveal : bool) (a : StoreActor) (es : list ObservationEvent) :
  with_inspection (Z.of_nat n) run_id mb reveal = Some a ->
  map stored_id (snapshot_flows (snapshot (run a es))) = map Some (last_n n (opened_ids es)) /\
  snapshot_evicted (snapshot (run a es)) = Z.min u64_max (Z.of_nat (length (opened_ids es) - n)).
Proof.
  unfold with_inspection. destruct (Z.ltb_spec 0 (Z.of_nat n)); [|done]. destruct (0 <? mb); [|done]. intros [= <-].
  match goal with |- context [run ?b es] => destruct (run_retention b n [] es) as (_ & K1 & K2) end; [lia|by repeat split|].
  by rewrite app_nil_l in *.
Qed.

(** A small store and flows for the examples. *)
Definition small_store (capacity : Z) (reveal : bool) : StoreActor :=
  mkActor state_default capacity 7 64 reveal ∅ ∅ (Redact.new reveal) (Redact.new false) None.
Definition at_time (mono : Z) : TimestampPair := mkTimestamp mono (1000 + mono).
Definition opens (id : FlowId) (protocol : option bytes) : ObservationEvent :=
  mkObservation id (at_time id) (Opened (mkEndpoint (lit "127.0.0.1") 5000) (mkEndpoint (lit "db") 5432) protocol).

Lemma store_retention_exact_witness :
  map stored_id (snapshot_flows (snapshot (run (small_store 2 false)
    [opens 1 None; opens 2 None; mkObservation 1 (at_time 3) ObsClosed; opens 3 None])))
  = [Some 2; Some 3] /\
  snapshot_evicted (snapshot (run (small_store 2 false)
    [opens 1 None; opens 2 None; mkObservation 1 (at_time 3) ObsClosed; opens 3 None])) = 1.
Proof.
  apply (store_retention_exact 2 7 64 false (small_store 2 false)
    [opens 1 None; opens 2 None; mkObservation 1 (at_time 3) ObsClosed; opens 3 None] eq_refl).
Defined.

(** ** Isolation of flows *)

Section Isolation.
Context `{Http2.Hpack} `{Redact.JsonSecret} `{Plugin.Wasm}.

(** All the store knows of a flow. *)
Definition flow_of (j : FlowId) (fs : list StoredFlow) : option StoredFlow :=
  List.find (fun f => bool_decide (stored_id f = Some j)) fs.

Record same_flow (j : FlowId) (a a' : StoreActor) : Prop := {
  same_stored : flow_of j (flows (state a')) = flow_of j (flows (state a));
  same_decoder : decoders a' !! j = decoders a !! j;
  same_requests : forall s, pending_requests a' !! (j, s) = pending_requests a !! (j, s) }.

#[export] Instance same_flow_refl j : Reflexive (same_flow j).
Proof. by split. Qed.
#[export] Instance same_flow_trans j : Transitive (same_flow j).
Proof. intros a b c [E1 E2 E3] [F1 F2 F3]. split; [congruence|congruence|]. intros s. by rewrite F3. Qed.

Lemma flow_of_update j id g fs : keeps_id g -> id <> j -> flow_of j (update_flow g id fs) = flow_of j fs.
Proof.
  intros Hg Hne. induction fs as [|f fs IH]; [done|]. cbn [update_flow].
  destruct (bool_decide (stored_id f = Some id)) eqn:E; unfold flow_of in *; cbn [List.find].
  - apply bool_decide_eq_true in E. rewrite Hg, E. rewrite bool_decide_eq_false_2 by congruence. done.
  - by rewrite IH.
Qed.

Lemma same_edit j a id g : keeps_id g -> id <> j -> same_flow j a (edit_flow a id g).
Proof. intros Hg Hne. split; [|done|done]. cbn. by apply flow_of_update. Qed.

Lemma track_other ps id s0 b mono j s :
  id <> j -> fst (track_latency ps (id, s0) b mono) !! (j, s) = ps !! (j, s).
Proof.
  intros Hne. unfold track_latency. destruct b as [b|]; [|done].
  assert ((id, s0) <> (j, s)) by congruence.
  destruct (b =s lit "request"); [cbn; by rewrite lookup_insert_ne|].
  destruct (b =s lit "response"); [|done].
  destruct (ps !! (id, s0)) as [[|x r]|]; try done. cbn. by rewrite lookup_insert_ne.
Qed.

Lemma same_message j id t a m : id <> j -> same_flow j a (store_message id t a m).
Proof.
  intros Hne. destruct (store_message_shape id t a m) as (grpc & rec & rep & E & _). cbv zeta in E. rewrite E.
  etransitivity; [|apply same_edit; [apply add_message_keeps|done]].
  split; [done|done|]. intros s. cbn [pending_requests set_state set_pending]. by apply track_other.
Qed.

Lemma same_batch j a id t b : id <> j -> same_flow j a (store_batch a id t b).
Proof.
  intros Hne. unfold store_batch.
  set (a0 := match desynchronized b with Some r => _ | None => _ end).
  assert (same_flow j a a0) as K by (unfold a0; destruct (desynchronized b); [by apply same_edit|reflexivity]).
  etransitivity; [exact K|]. generalize a0. clear a0 K.
  induction (Protocol.messages b) as [|m ms IH]; intros a0; [reflexivity|]. cbn [fold_left].
  etransitivity; [by apply same_message|apply IH].
Qed.

Lemma same_decoders_insert j a id d : id <> j -> same_flow j a (set_decoders a (<[id := d]> (decoders a))).
Proof. intros Hne. split; [done| |done]. cbn. by rewrite lookup_insert_ne. Qed.
Lemma same_decoders_delete j a id : id <> j -> same_flow j a (set_decoders a (delete id (decoders a))).
Proof. intros Hne. split; [done| |done]. cbn. by rewrite lookup_delete_ne. Qed.
Lemma same_forget j a id : id <> j -> same_flow j a (set_pending a (forget_requests id (pending_requests a))).
Proof.
  intros Hne. split; [done|done|]. intros s. cbn. unfold forget_requests.
  destruct (pending_requests a !! (j, s)) as [q|] eqn:E.
  - apply map_lookup_filter_Some. split; [done|]. cbn. congruence.
  - apply map_lookup_filter_None. by left.
Qed.

Lemma same_end j a id t : id <> j -> same_flow j a (end_decoder a id t).
Proof.
  intros Hne. unfold end_decoder. cbv zeta.
  match goal with |- same_flow j a (set_pending ?b _) => set (a0 := b); assert (same_flow j a a0) as K end.
  { unfold a0. destruct (decoders a !! id) as [d|]; [|reflexivity].
    destruct (decoder_finish d ClientToServer) as [d1 b1]. destruct (decoder_finish d1 ServerToClient) as [d2 b2].
    etransitivity; [by apply (same_decoders_delete j a id)|].
    etransitivity; [by apply (same_batch j _ id t b1)|]. by apply same_batch. }
  etransitivity; [exact K|]. by apply same_forget.
Qed.

(** The flow that makes room is the oldest one of a full store. *)
Definition evicts (a : StoreActor) (j : FlowId) : Prop :=
  blen (flows (state a)) = max_flows a /\ exists f, head (flows (state a)) = Some f /\ stored_id f = Some j.

Lemma same_evict j a : ~ evicts a j -> same_flow j a (evict a).
Proof.
  intros Hne. unfold evict. destruct (Z.eqb_spec (blen (flows (state a))) (max_flows a)) as [E|E]; [|reflexivity].
  destruct (flows (state a)) as [|f fs] eqn:Ef.
  { split; [cbn; by rewrite Ef|done|done]. }
  destruct (stored_id f) as [i|] eqn:Ei.
  - assert (i <> j) as Hij. { intros ->. apply Hne. split; [by rewrite Ef|]. exists f. by rewrite Ef. }
    etransitivity; [by apply (same_decoders_delete j a i)|]. etransitivity; [by apply (same_forget j _ i)|].
    split; [|done|done]. cbn. rewrite Ef. unfold flow_of. cbn [List.find].
    by rewrite Ei, bool_decide_eq_false_2 by congruence.
  - split; [|done|done]. cbn. rewrite Ef. unfold flow_of. cbn [List.find].
    by rewrite Ei, bool_decide_eq_false_2.
Qed.

Lemma flow_of_snoc j fs f : stored_id f <> Some j -> flow_of j (fs ++ [f]) = flow_of j fs.
Proof.
  intros Hf. induction fs as [|x xs IH]; unfold flow_of in *; cbn [List.find app].
  - by rewrite bool_decide_eq_false_2.
  - destruct (bool_decide _); [done|apply IH].
Qed.
End Isolation.

Lemma apply_same_flow `{Http2.Hpack} `{Redact.JsonSecret} `{Plugin.Wasm}
    (a : StoreActor) (e : ObservationEvent) (j : FlowId) :
  ev_flow_id e <> j -> (opened_id e = None \/ ~ evicts a j) -> same_flow j a (apply a e).
Proof.
  destruct e as [id t k]. unfold apply, opened_id. cbn [ev_flow_id ev_kind ev_timestamp]. intros Hne Hev.
  destruct k as [c u p|i|p|dir n|dir s| |r].
  - destruct Hev as [?|Hev]; [done|]. unfold open_flow. cbv zeta.
    etransitivity; [by apply same_evict|]. set (a0 := evict a). set (f := opened_flow _ _ _ _ _ _).
    assert (same_flow j a0 (set_flows a0 (flows (state a0) ++ [f]))) as K.
    { split; [|done|done]. cbn. apply flow_of_snoc. unfold f. destruct p; cbn; congruence. }
    destruct (_ ≫= _); [|done]. etransitivity; [exact K|]. by apply same_decoders_insert.
  - by apply same_edit.
  - unfold detect_protocol. cbv zeta. destruct (decoder_for _ _).
    + etransitivity; [|by apply same_decoders_insert]. by apply same_edit.
    + etransitivity; [|by apply same_decoders_delete]. by apply same_edit.
  - apply same_edit; [apply count_transfer_keeps|done].
  - unfold apply_data. destruct (decoders a !! id) as [d|]; [|reflexivity].
    destruct (decoder_push d dir s) as [d' b]. etransitivity; [by apply (same_decoders_insert j a id d')|by apply same_batch].
  - etransitivity; [by apply (same_end j a id t)|by apply same_edit].
  - etransitivity; [by apply (same_end j a id t)|by apply same_edit].
Qed.

(** Flows are isolated: an observation of one flow leaves the record, the
    decoder and the pending requests of every other flow as they were, unless
    it opens a flow and evicts the oldest one of a full store. *)
Theorem store_flows_isolated `{Http2.Hpack} `{Redact.JsonSecret} `{Plugin.Wasm}
    (a : StoreActor) (e : ObservationEvent) (j : FlowId) :
  ev_flow_id e <> j -> (opened_id e = None \/ ~ evicts a j) -> same_flow j a (apply a e).
Proof. apply apply_same_flow. Qed.

Lemma store_flows_isolated_witness :
  same_flow 1 (run (small_store 2 false) [opens 1 None; opens 2 None])
    (apply (run (small_store 2 false) [opens 1 None; opens 2 None]) (mkObservation 2 (at_time 5) ObsClosed)).
Proof. apply store_flows_isolated; [done|by left]. Defined.

(** ** Steps of the actor

    Every observation is handled by a sequence of small steps; invariants are
    proved over the steps. *)

Section Steps.
Context `{Http2.Hpack} `{Redact.JsonSecret} `{Plugin.Wasm}.

(** An edit of a flow that leaves its messages and annotations alone. *)
Definition keeps_content (g : StoredFlow -> StoredFlow) : Prop :=
  forall f, messages (g f) = messages f /\ message_ids (record (g f)) = message_ids (record f) /\
            plugin_annotations (g f) = plugin_annotations f.

(** What the decoders yield for an observation, and in the course of a run. *)
Definition decoded (a : StoreActor) (e : ObservationEvent) : list DecodedMessage :=
  match decoders a !! ev_flow_id e with
  | None => []
  | Some d =>
      let ended :=
        let '(d, client) := decoder_finish d ClientToServer in
        let '(_, server) := decoder_finish d ServerToClient in
        Protocol.messages client ++ Protocol.messages server in
      match ev_kind e with
      | Data dir s => Protocol.messages (snd (decoder_push d dir s))
      | ObsClosed => ended
      | ObsFailed _ => ended
      | _ => []
      end
  end.

Fixpoint decoded_run (a : StoreActor) (es : list ObservationEvent) : list DecodedMessage :=
  match es with [] => [] | e :: es => decoded a e ++ decoded_run (apply a e) es end.

(** The steps that store messages among [ms]. *)
Inductive step (ms : list DecodedMessage) : StoreActor -> StoreActor -> Prop :=
| step_edit a id g : keeps_content g -> step ms a (edit_flow a id g)
| step_aux a ds ps : step ms a (set_pending (set_decoders a ds) ps)
| step_message a flow t m : In m ms -> step ms a (store_message flow t a m)
| step_evict a n : step ms a (set_state a (mkState (tail (flows (state a))) n (next_message_id (state a))))
| step_open a f : messages f = [] -> message_ids (record f) = [] -> plugin_annotations f = [] ->
    step ms a (set_flows a (flows (state a) ++ [f])).

Lemma step_incl ms ms' a b : incl ms ms' -> step ms a b -> step ms' a b.
Proof. intros Hi []; constructor; auto. Qed.

Lemma steps_incl ms ms' a b : incl ms ms' -> rtc (step ms) a b -> rtc (step ms') a b.
Proof. intros Hi. induction 1 as [|x y z Hxy _ IH]; [done|]. eapply rtc_l; [by eapply step_incl|done]. Qed.

Lemma steps_batch a flow t b : rtc (step (Protocol.messages b)) a (store_batch a flow t b).
Proof.
  unfold store_batch. etrans.
  - instantiate (1 := match desynchronized b with
      Some r => edit_flow a flow (with_decoder_error r) | None => a end).
    destruct (desynchronized b); [by apply rtc_once, step_edit|done].
  - generalize (match desynchronized b with Some r => edit_flow a flow (with_decoder_error r) | None => a end).
    induction (Protocol.messages b) as [|m ms IH]; intros a0; [done|]. cbn [fold_left].
    eapply rtc_l; [apply step_message; by left|]. eapply steps_incl; [|apply IH]. intros x Hx. by right.
Qed.

Lemma steps_decoders ms a ds : rtc (step ms) a (set_decoders a ds).
Proof. apply rtc_once. exact (step_aux ms a ds (pending_requests a)). Qed.
Lemma steps_pending ms a ps : rtc (step ms) a (set_pending a ps).
Proof. apply rtc_once. exact (step_aux ms a (decoders a) ps). Qed.

Lemma steps_end a id t k :
  k = ObsClosed \/ (exists r, k = ObsFailed r) -> rtc (step (decoded a (mkObservation id t k))) a (end_decoder a id t).
Proof.
  intros Hk. assert (forall x, decoded a (mkObservation id t k) = x -> x = match decoders a !! id with
    | None => []
    | Some d => let '(d, client) := decoder_finish d ClientToServer in
                let '(_, server) := decoder_finish d ServerToClient in
                Protocol.messages client ++ Protocol.messages server end) as K.
  { intros x <-. unfold decoded. cbn [ev_flow_id ev_kind]. destruct (decoders a !! id); [|done]. by destruct Hk as [->|[r ->]]. }
  specialize (K _ eq_refl). rewrite K. clear K.
  unfold end_decoder. cbv zeta. etrans; [|apply steps_pending].
  destruct (decoders a !! id) as [d|]; [|done].
  destruct (decoder_finish d ClientToServer) as [d1 b1]. destruct (decoder_finish d1 ServerToClient) as [d2 b2].
  etrans; [apply (steps_decoders _ a (delete id (decoders a)))|].
  etrans; (eapply steps_incl; [|apply steps_batch]); intros x Hx; apply in_or_app; auto.
Qed.

Lemma steps_evict ms a : rtc (step ms) a (evict a).
Proof.
  unfold evict. destruct (_ =? _); [|done].
  destruct (flows (state a)) as [|f fs] eqn:E.
  { apply rtc_once. pose proof (step_evict ms a (sat_add (evicted (state a)) 1)) as K. by rewrite E in K. }
  destruct (stored_id f) as [i|].
  - etrans; [apply rtc_once, (step_aux ms a (delete i (decoders a)) (forget_requests i (pending_requests a)))|].
    apply rtc_once.
    pose proof (step_evict ms (set_pending (set_decoders a (delete i (decoders a))) (forget_requests i (pending_requests a)))
      (sat_add (evicted (state a)) 1)) as K.
    cbn [state set_pending set_decoders] in K. by rewrite E in K.
  - apply rtc_once. pose proof (step_evict ms a (sat_add (evicted (state a)) 1)) as K. by rewrite E in K.
Qed.

Lemma apply_steps a e : rtc (step (decoded a e)) a (apply a e).
Proof.
  destruct e as [id t k]. unfold apply. cbn [ev_flow_id ev_kind ev_timestamp].
  destruct k as [c u p|i|p|dir n|dir s| |r].
  - unfold open_flow. cbv zeta. etrans; [apply steps_evict|]. set (a0 := evict a). set (f := opened_flow _ _ _ _ _ _).
    etrans; [apply rtc_once, (step_open _ a0 f); by destruct p|]. destruct (_ ≫= _); [apply steps_decoders|done].
  - by apply rtc_once, step_edit.
  - unfold detect_protocol. cbv zeta. etrans; [|destruct (decoder_for _ _); apply steps_decoders].
    by apply rtc_once, step_edit.
  - apply rtc_once, step_edit. intros f. by destruct dir.
  - unfold apply_data, decoded. cbn [ev_flow_id ev_kind]. destruct (decoders a !! id) as [d|]; [|done].
    destruct (decoder_push d dir s) as [d' b]. etrans; [apply (steps_decoders _ a (<[id := d']> (decoders a)))|apply steps_batch].
  - etrans; [apply (steps_end a id t); auto|]. by apply rtc_once, step_edit.
  - etrans; [apply (steps_end a id t); eauto|]. by apply rtc_once, step_edit.
Qed.

Lemma run_steps a es : rtc (step (decoded_run a es)) a (run a es).
Proof.
  unfold run. revert a; induction es as [|e es IH]; intros a; [done|]. cbn [fold_left decoded_run].
  etrans; (eapply steps_incl; [|apply apply_steps || apply IH]); intros x Hx; apply in_or_app; auto.
Qed.

(** An invariant of the steps is one of the actor. *)
Lemma run_invariant (I : StoreActor -> Prop) a es :
  (forall b b', step (decoded_run a es) b b' -> I b -> I b') -> I a -> I (run a es).
Proof.
  intros Hstep. pose proof (run_steps a es) as Hr. revert Hstep Hr. generalize (decoded_run a es). intros ms Hstep Hr.
  induction Hr as [|x y z Hxy _ IH]; [done|]. intros Hx. apply IH. by eapply Hstep.
Qed.

(** A property of flows that their edits keep. *)
Lemma Forall_update_flow (Q : StoredFlow -> Prop) g id fs :
  (forall f, Q f -> Q (g f)) -> Forall Q fs -> Forall Q (update_flow g id fs).
Proof.
  intros Hg. induction 1 as [|f fs Hf Hfs IH]; [constructor|]. cbn.
  destruct (bool_decide _); constructor; auto.
Qed.

(** *** What is stored is redacted *)



Lemma add_message_messages grpc id m rep f : messages (add_message grpc id m rep f) = messages f ++ [m].
Proof. unfold add_message. by destruct rep. Qed.





End Steps.


(** A flow with one request that carries a credential and a token in its query. *)
Definition demo_request : bytes :=
  lit "GET /a?token=hunter2 HTTP/1.1" ++ crlf ++ lit "Authorization: Bearer x" ++ crlf ++ crlf.
Definition demo_events : list ObservationEvent :=
  [opens 1 (Some (lit "http1")); mkObservation 1 (at_time 5) (Data ClientToServer demo_request)].
Definition demo_flow : StoredFlow :=
  default (opened_flow 0 0 (at_time 0) (mkEndpoint [] 0) (mkEndpoint [] 0) None)
    (head (flows (state (run (small_store 2 false) demo_events)))).
Definition demo_message : MessageRecord :=
  default (Message.new Envelope.default [] []) (head (messages demo_flow)).




Example demo_redacted :
  sensitivity (msg_envelope demo_message) = Redacted /\
  contains (lit "Bearer") (msg_body demo_message) = false /\
  contains (lit "hunter2") (msg_summary demo_message) = false.
Proof. by vm_compute. Qed.

(** ** Message identifiers *)

Section Identifiers.
Context `{Http2.Hpack} `{Redact.JsonSecret} `{Plugin.Wasm}.

Definition flow_ids (f : StoredFlow) : list MessageId := message_ids (record f).
Definition all_ids (fs : list StoredFlow) : list MessageId := concat (map flow_ids fs).

(** The identifiers a flow lists are those of its messages, ascending. *)
Definition ids_ok (f : StoredFlow) : Prop :=
  map (fun m => message_id (msg_envelope m)) (messages f) = map Some (flow_ids f) /\
  StronglySorted Z.lt (flow_ids f).

(** While the counter has not saturated. *)
Definition ids_inv (a : StoreActor) : Prop :=
  next_message_id (state a) < u64_max ->
  Forall ids_ok (flows (state a)) /\ NoDup (all_ids (flows (state a))) /\
  Forall (fun i => i <= next_message_id (state a)) (all_ids (flows (state a))).

Lemma all_ids_update g id fs :
  (forall f, flow_ids (g f) = flow_ids f) -> all_ids (update_flow g id fs) = all_ids fs.
Proof.
  intros Hg. unfold all_ids. induction fs as [|f fs IH]; [done|]. cbn.
  destruct (bool_decide _); cbn; [by rewrite Hg|by rewrite IH].
Qed.

Lemma flow_ids_add grpc i m rep f : flow_ids (add_message grpc i m rep f) = flow_ids f ++ [i].
Proof. unfold flow_ids, add_message. by destruct rep, grpc. Qed.

Lemma all_ids_add grpc i m rep id fs :
  all_ids (update_flow (add_message grpc i m rep) id fs) = all_ids fs \/
  all_ids (update_flow (add_message grpc i m rep) id fs) ≡ₚ i :: all_ids fs.
Proof.
  unfold all_ids. induction fs as [|f fs IH]; [by left|]. cbn [update_flow map concat].
  destruct (bool_decide _); cbn [map concat].
  - right. rewrite flow_ids_add. rewrite <- app_assoc. cbn. by rewrite Permutation_middle.
  - destruct IH as [->|IH]; [by left|]. right. rewrite IH. by rewrite Permutation_middle.
Qed.

Lemma StronglySorted_snoc (l : list Z) x :
  StronglySorted Z.lt l -> Forall (fun y => y < x) l -> StronglySorted Z.lt (l ++ [x]).
Proof.
  intros Hl Hx. induction Hl as [|y l Hl IH Hy]; [by repeat constructor|]. cbn.
  apply Forall_cons_iff in Hx as [Hxy Hx]. constructor; [by apply IH|]. apply Forall_app. split; [done|by repeat constructor].
Qed.

Lemma flow_ids_all f fs i : In f fs -> i ∈ flow_ids f -> i ∈ all_ids fs.
Proof.
  intros Hf Hi. unfold all_ids. rewrite list_elem_of_In. apply in_concat. exists (flow_ids f).
  split; [by apply in_map|by apply list_elem_of_In].
Qed.

Lemma ids_message a flow t m : ids_inv a -> ids_inv (store_message flow t a m).
Proof.
  intros Ha. destruct (store_message_shape flow t a m) as (grpc & rec & rep & E & Hid & _). cbv zeta in *.
  set (next := sat_add (next_message_id (state a)) 1) in *. rewrite E. unfold ids_inv.
  cbn [state edit_flow set_flows set_state flows next_message_id]. intros Hn.
  assert (Hnext : next = next_message_id (state a) + 1) by (unfold next, sat_add in *; lia).
  destruct Ha as (K1 & K2 & K3); [lia|]. rewrite Forall_forall in K3.
  assert (Hlt : forall f i, In f (flows (state a)) -> i ∈ flow_ids f -> i < next).
  { intros f i Hf Hi. pose proof (K3 i (proj1 (list_elem_of_In _ _) (flow_ids_all f _ i Hf Hi))). lia. }
  split.
  - clear - K1 Hlt Hid. induction K1 as [|f fs [Hf1 Hf2] K1 IH]; [constructor|]. cbn [update_flow].
    destruct (bool_decide _).
    + constructor; [|done]. split.
      * rewrite add_message_messages, flow_ids_add, !map_app. cbn [map]. by rewrite Hf1, Hid.
      * rewrite flow_ids_add. apply StronglySorted_snoc; [done|]. apply Forall_forall.
        intros i Hi. apply (Hlt f); [by left|by apply list_elem_of_In].
    + constructor; [done|]. apply IH. intros f' i Hf'. apply Hlt. by right.
  - destruct (all_ids_add grpc next rec rep flow (flows (state a))) as [-> | Hp].
    + split; [done|]. apply Forall_forall. intros i Hi. specialize (K3 i Hi). lia.
    + rewrite Hp. split.
      * constructor; [|done]. intros Hi. apply list_elem_of_In in Hi. specialize (K3 _ Hi). lia.
      * constructor; [lia|]. apply Forall_forall. intros i Hi. specialize (K3 i Hi). lia.
Qed.

Lemma step_ids ms a a' : step ms a a' -> ids_inv a -> ids_inv a'.
Proof.
  intros Hs Ha. destruct Hs as [a id g Hg|a ds ps|a flow t m|a n|a f Hm Hi _].
  - intros Hn. destruct (Ha Hn) as (K1 & K2 & K3). cbn [edit_flow set_flows set_state state flows next_message_id] in *.
    assert (forall f, flow_ids (g f) = flow_ids f) as Hids by (intros f; apply (Hg f)).
    rewrite all_ids_update by done. split; [|done]. apply Forall_update_flow; [|done].
    intros f [H1f H2f]. unfold ids_ok. by rewrite (proj1 (Hg f)), Hids.
  - exact Ha.
  - by apply ids_message.
  - intros Hn. destruct (Ha Hn) as (K1 & K2 & K3). cbn [set_state state flows next_message_id] in *.
    destruct K1 as [|f fs Hf K1]; [done|]. cbn [tail]. unfold all_ids in *. cbn [map concat] in *.
    apply list.NoDup_app in K2 as (_ & _ & K2). apply Forall_app in K3 as [_ K3]. done.
  - intros Hn. destruct (Ha Hn) as (K1 & K2 & K3). cbn [set_flows set_state state flows next_message_id] in *.
    assert (flow_ids f = []) as Hids by done.
    assert (all_ids (flows (state a) ++ [f]) = all_ids (flows (state a))) as ->.
    { unfold all_ids. rewrite map_app, concat_app. cbn. by rewrite Hids, !app_nil_r. }
    split; [|done]. apply Forall_app. split; [done|]. constructor; [|constructor].
    split; [by rewrite Hm, Hids|]. rewrite Hids. constructor.
Qed.
End Identifiers.

(** Message identifiers identify: as long as the counter has not reached
    its 64-bit maximum, no two messages in the store share an identifier, each
    flow lists exactly the identifiers of its messages, and they ascend in the
    order of decoding. *)
Theorem store_message_ids `{Http2.Hpack} `{Redact.JsonSecret} `{Plugin.Wasm}
    (mf run_id mb : Z) (reveal : bool) (a : StoreActor) (es : list ObservationEvent) :
  with_inspection mf run_id mb reveal = Some a ->
  next_message_id (state (run a es)) < u64_max ->
  NoDup (all_ids (flows (state (run a es)))) /\
  Forall (fun f => map (fun m => message_id (msg_envelope m)) (messages f) = map Some (flow_ids f) /\
                   StronglySorted Z.lt (flow_ids f)) (flows (state (run a es))).
Proof.
  unfold with_inspection. destruct (_ && _); [|done]. intros [= <-] Hn.
  match type of Hn with context [run ?b es] => pose proof (run_invariant ids_inv b es (step_ids _)) as K end.
  destruct K as (K1 & K2 & _); [intros _; by repeat constructor|done|by split].
Qed.

Lemma store_message_ids_witness :
  NoDup (all_ids (flows (state (run (small_store 2 false) demo_events)))) /\
  Forall (fun f => map (fun m => message_id (msg_envelope m)) (messages f) = map Some (flow_ids f) /\
                   StronglySorted Z.lt (flow_ids f)) (flows (state (run (small_store 2 false) demo_events))).
Proof. apply (store_message_ids 2 7 64 false (small_store 2 false) demo_events); by vm_compute. Defined.

(** ** Plugins *)

Section Plugins.
Context `{Http2.Hpack} `{Redact.JsonSecret} `{Plugin.Wasm}.

(** What plugins left on a flow. *)
Definition plugin_view (f : StoredFlow) : option FlowId * list Plugin.PluginAnnotation * Z :=
  (stored_id f, plugin_annotations f, plugin_failures f).

(** Two stores that plugins cannot tell apart. *)
Record alike (a b : StoreActor) : Prop := {
  alike_flows : map plugin_view (flows (state a)) = map plugin_view (flows (state b));
  alike_next : next_message_id (state a) = next_message_id (state b);
  alike_max : max_flows a = max_flows b;
  alike_body : max_body a = max_body b;
  alike_decoders : decoders a = decoders b;
  alike_redactor : plugin_redactor a = plugin_redactor b;
  alike_host : plugin_host a = plugin_host b }.

Lemma plugin_view_update g g' id fs fs' :
  map plugin_view fs = map plugin_view fs' ->
  (forall f f', plugin_view f = plugin_view f' -> plugin_view (g f) = plugin_view (g' f')) ->
  map plugin_view (update_flow g id fs) = map plugin_view (update_flow g' id fs').
Proof.
  intros Hfs Hg. revert fs' Hfs; induction fs as [|f fs IH]; intros [|f' fs'] Hfs; try done.
  cbn [map] in Hfs. injection Hfs as E1 E2 E3 E4. cbn [update_flow]. rewrite E1.
  assert (plugin_view f = plugin_view f') as Hv by (unfold plugin_view; congruence).
  destruct (bool_decide _); cbn [map]; f_equal; auto.
Qed.

Lemma alike_edit a b id g g' :
  alike a b -> (forall f f', plugin_view f = plugin_view f' -> plugin_view (g f) = plugin_view (g' f')) ->
  alike (edit_flow a id g) (edit_flow b id g').
Proof. intros [] Hg. split; try done. cbn. by apply plugin_view_update. Qed.

Lemma plugin_view_add grpc i m rep f :
  plugin_view (add_message grpc i m rep f)
  = (stored_id f,
     match rep with
     | Some r => plugin_annotations f ++ take (Z.to_nat (sat_sub 32 (blen (plugin_annotations f)))) (Plugin.annotations r)
     | None => plugin_annotations f
     end,
     match rep with
     | Some r => sat_add (plugin_failures f) (blen (Plugin.failures r))
     | None => plugin_failures f
     end).
Proof. unfold plugin_view, add_message. by destruct rep, grpc. Qed.

(** The event plugins receive does not depend on the store's own redaction. *)
Lemma alike_message a b flow t m :
  alike a b -> alike (store_message flow t a m) (store_message flow t b m).
Proof.
  intros [K1 K2 K3 K4 K5 K6 K7]. unfold store_message.
  destruct (track_latency (pending_requests a) _ _ _) as [ps1 l1].
  destruct (track_latency (pending_requests b) _ _ _) as [ps2 l2].
  rewrite <- K2, <- K6, <- K7. cbn [state set_state set_pending flows evicted next_message_id].
  split; try done. cbn [state edit_flow set_flows set_state set_pending flows].
  apply plugin_view_update; [done|]. intros f f' Hv. rewrite !plugin_view_add.
  unfold plugin_view in Hv. injection Hv as -> -> ->. by destruct (plugin_host a).
Qed.

Lemma alike_batch a b flow t bt : alike a b -> alike (store_batch a flow t bt) (store_batch b flow t bt).
Proof.
  intros Hab. unfold store_batch.
  assert (forall ms a b, alike a b ->
    alike (fold_left (store_message flow t) ms a) (fold_left (store_message flow t) ms b)) as Hms.
  { induction ms as [|m ms IH]; intros x y Hxy; [done|]. cbn. by apply IH, alike_message. }
  apply Hms. destruct (desynchronized bt); [|done]. by apply alike_edit.
Qed.

Lemma alike_set_decoders a b ds : alike a b -> alike (set_decoders a ds) (set_decoders b ds).
Proof. by intros []. Qed.
Lemma alike_set_pending a b ps ps' : alike a b -> alike (set_pending a ps) (set_pending b ps').
Proof. by intros []. Qed.

Lemma alike_end a b id t : alike a b -> alike (end_decoder a id t) (end_decoder b id t).
Proof.
  intros Hab. unfold end_decoder. apply alike_set_pending. rewrite (alike_decoders a b Hab).
  destruct (decoders b !! id) as [d|]; [|done].
  destruct (decoder_finish d ClientToServer) as [d1 b1]. destruct (decoder_finish d1 ServerToClient) as [d2 b2].
  by apply alike_batch, alike_batch, alike_set_decoders.
Qed.

Lemma alike_evict a b : alike a b -> alike (evict a) (evict b).
Proof.
  intros Hab. pose proof Hab as [K1 K2 K3 K4 K5 K6 K7]. unfold evict.
  assert (blen (flows (state a)) = blen (flows (state b))) as ->.
  { apply (f_equal length) in K1. rewrite !length_map in K1. unfold blen. by rewrite K1. }
  rewrite K3. destruct (_ =? _); [|done].
  destruct (flows (state a)) as [|f fs], (flows (state b)) as [|f' fs']; try done.
  cbn [map] in K1. injection K1 as E1 E2 E3 E4. rewrite E1.
  destruct (stored_id f'); split; cbn; try done; by rewrite K5.
Qed.

Lemma alike_open a b id t c u p :
  alike a b -> alike (open_flow a id t c u p) (open_flow b id t c u p).
Proof.
  intros Hab. apply alike_evict in Hab. unfold open_flow. cbv zeta.
  set (a0 := evict a) in *. set (b0 := evict b) in *. clearbody a0 b0. pose proof Hab as [K1 K2 K3 K4 K5 K6 K7].
  assert (alike (set_flows a0 (flows (state a0) ++ [opened_flow (actor_run_id a0) id t c u p]))
                (set_flows b0 (flows (state b0) ++ [opened_flow (actor_run_id b0) id t c u p]))) as K.
  { split; try done. cbn. rewrite !map_app, K1. by destruct p. }
  assert (protocol_label (record (opened_flow (actor_run_id a0) id t c u p))
          = protocol_label (record (opened_flow (actor_run_id b0) id t c u p))) as -> by (by destruct p).
  cbn [max_body set_flows set_state]. rewrite K4. cbn [decoders set_flows set_state].
  destruct (_ ≫= _); [|done]. rewrite K5. by apply alike_set_decoders.
Qed.

Lemma alike_apply a b e : alike a b -> alike (apply a e) (apply b e).
Proof.
  intros Hab. destruct e as [id t k]. unfold apply. cbn [ev_flow_id ev_kind ev_timestamp].
  assert (forall g : StoredFlow -> StoredFlow, (forall f, plugin_view (g f) = plugin_view f) ->
    forall x y, alike x y -> alike (edit_flow x id g) (edit_flow y id g)) as Hedit.
  { intros g Hg x y Hxy. apply alike_edit; [done|]. intros f f' Hv. by rewrite !Hg. }
  destruct k as [c u p|i|p|dir n|dir s| |r].
  - by apply alike_open.
  - by apply Hedit.
  - unfold detect_protocol. cbv zeta. cbn [max_body edit_flow set_flows set_state decoders].
    rewrite (alike_body a b Hab), (alike_decoders a b Hab).
    destruct (decoder_for _ _); by apply alike_set_decoders, Hedit.
  - apply Hedit; [|done]. intros f. by destruct dir.
  - unfold apply_data. rewrite (alike_decoders a b Hab). destruct (decoders b !! id) as [d|]; [|done].
    destruct (decoder_push d dir s) as [d' bt]. by apply alike_batch, alike_set_decoders.
  - by apply Hedit, alike_end.
  - by apply Hedit, alike_end.
Qed.

Lemma alike_run a b es : alike a b -> alike (run a es) (run b es).
Proof. revert a b; induction es as [|e es IH]; intros a b Hab; [done|]. cbn. by apply IH, alike_apply. Qed.
End Plugins.

(** C5. Reveal mode never reaches plugins: a store that reveals secrets and
    one that redacts them, fed with the same observations, invoke the plugins
    with the same results, flow by flow: the same annotations, the same
    failures. *)
Theorem store_reveal_hidden_from_plugins `{Http2.Hpack} `{Redact.JsonSecret} `{Plugin.Wasm}
    (mf run_id mb : Z) (a b : StoreActor) (host : Plugin.PluginHost) (es : list ObservationEvent) :
  with_inspection mf run_id mb true = Some a -> with_inspection mf run_id mb false = Some b ->
  map plugin_view (flows (state (run (with_plugins a host) es)))
  = map plugin_view (flows (state (run (with_plugins b host) es))).
Proof.
  unfold with_inspection. destruct (_ && _); [|done]. intros [= <-] [= <-].
  apply alike_flows, alike_run. by split.
Qed.

Definition demo_host : Plugin.PluginHost := Plugin.mkHost [Plugin.loaded "b" (lit "seen")].

Lemma store_reveal_hidden_from_plugins_witness :
  map plugin_view (flows (state (run (with_plugins (small_store 2 true) demo_host) demo_events)))
  = map plugin_view (flows (state (run (with_plugins (small_store 2 false) demo_host) demo_events))).
Proof. by apply (store_reveal_hidden_from_plugins 2 7 64). Defined.

Example demo_plugins :
  map plugin_view (flows (state (run (with_plugins (small_store 2 true) demo_host) demo_events)))
  = [(Some 1, [Plugin.mkAnnotation (lit "b") (lit "seen")], 0)].
Proof. by vm_compute. Qed.
