(* ===== verification/StoreStreams.v ===== *)
(** * StoreStreams: observed bytes in the store.

    The decoder of a flow, whichever protocol it is for, obeys the laws of
    [DecoderLaws]; hence what the store records does not depend on how the
    proxy cut the bytes.  Requests and answers are paired in order. *)

From stdpp Require Import gmap.
From S2P Require Import Prelude RustStd Core Protocol Redis Http1 Postgres Redact Plugin Http2 Http2Wire Store StoreFacts.
Import Store.
#[local] Open Scope lens_scope.
#[local] Existing Instances Http2Wire.literal_hpack Redact.no_json_secret Plugin.echo_wasm.

Section Laws.
Context `{Http2.Hpack}.

Definition decoder_inv (d : ProtocolDecoder) : Prop :=
  match d with
  | DecHttp1 d => inv d | DecHttp2 d => inv d | DecPostgres d => inv d | DecRedis d => inv d
  end.

Definition decoder_fits (d : ProtocolDecoder) (dir : Direction) (s : bytes) : Prop :=
  match d with
  | DecHttp1 d => fits d dir s | DecHttp2 d => fits d dir s
  | DecPostgres d => fits d dir s | DecRedis d => fits d dir s
  end.

Lemma on_fst_eq {A B C} (f : A -> B) (r : A * C) b c :
  on_fst f r = (b, c) -> exists a, r = (a, c) /\ b = f a.
Proof. destruct r as [a c']. unfold on_fst. cbn. intros [= <- <-]. eauto. Qed.

Lemma on_fst_after {A B} (f : A -> B) b (r : A * DecodeBatch) : on_fst f (after b r) = after b (on_fst f r).
Proof. done. Qed.

#[export] Program Instance ProtocolDecoder_laws : DecoderLaws ProtocolDecoder := {
  inv := decoder_inv;
  fits := decoder_fits }.
Next Obligation. intros [d|d|d|d] dir s Hd; exact (push_inv d dir s Hd). Qed.
Next Obligation. intros [d|d|d|d] dir Hd; exact (finish_inv d dir Hd). Qed.
Next Obligation.
  intros [d|d|d|d] dir a c d' b Hd Hf E; apply on_fst_eq in E as (x & E & ->);
    exact (push_fits _ _ _ _ _ _ Hd Hf E).
Qed.
Next Obligation.
  intros [d|d|d|d] dir a c d' b Hd Hf E Hn; apply on_fst_eq in E as (x & E & ->);
    cbn [push ProtocolDecoder_streaming decoder_push]; rewrite (push_app _ _ _ _ _ _ Hd Hf E Hn); apply on_fst_after.
Qed.

(** A fresh decoder obeys the invariant. *)
Lemma decoder_for_inv mb p d : 0 <= mb -> decoder_for mb p = Some d -> decoder_inv d.
Proof.
  intros Hmb. unfold decoder_for.
  destruct (p =s lit "http1"); [unfold Http1.new; destruct (0 <? mb); [|done]; intros [= <-]; by apply Http1.sane_new|].
  destruct ((p =s lit "http2") || (p =s lit "grpc")); [intros [= <-]; by apply Http2Wire.new_ok|].
  destruct (p =s lit "postgres"); [unfold Postgres.new; destruct (0 <? mb); [|done]; intros [= <-]; by apply Postgres.tidy_new|].
  destruct (p =s lit "redis"); [by intros [= <-]|done].
Qed.
End Laws.

(** ** Fragments *)

Section Fragments.
Context `{Http2.Hpack} `{Redact.JsonSecret} `{Plugin.Wasm}.

Definition decoders_ok (a : StoreActor) : Prop :=
  0 <= max_body a /\ map_Forall (fun _ d => decoder_inv d) (decoders a).

Lemma decoders_ok_insert a id d :
  decoders_ok a -> decoder_inv d -> decoders_ok (set_decoders a (<[id := d]> (decoders a))).
Proof. intros [H1a H2a] Hd. split; [done|]. by apply map_Forall_insert_2. Qed.

Lemma decoders_ok_delete a id : decoders_ok a -> decoders_ok (set_decoders a (delete id (decoders a))).
Proof. intros [H1a H2a]. split; [done|]. by apply map_Forall_delete. Qed.

Lemma decoders_ok_batch a id t b : decoders_ok a -> decoders_ok (store_batch a id t b).
Proof.
  intros Ha. destruct (store_batch_frame a id t b) as [_ _ E1 _ E2 _ _ _ _ _].
  unfold decoders_ok. by rewrite E1, E2.
Qed.

Lemma decoders_ok_apply a e : decoders_ok a -> decoders_ok (apply a e).
Proof.
  intros Ha. destruct e as [id t k]. unfold apply. cbn [ev_flow_id ev_kind ev_timestamp].
  assert (forall b, decoders_ok b -> decoders_ok (end_decoder b id t)) as Hend.
  { intros b Hb. unfold end_decoder. destruct (decoders b !! id) as [d|]; [|done].
    destruct (decoder_finish d ClientToServer) as [d1 b1]. destruct (decoder_finish d1 ServerToClient) as [d2 b2].
    by apply decoders_ok_batch, decoders_ok_batch, decoders_ok_delete. }
  destruct k as [c u p|i|p|dir n|dir s| |r]; try (exact Ha); try (exact (Hend a Ha)).
  - assert (decoders_ok (evict a)) as He.
    { unfold evict. destruct (_ =? _); [|done]. destruct (flows (state a)) as [|f fs]; [done|].
      destruct (stored_id f); [by apply decoders_ok_delete|done]. }
    unfold open_flow. cbv zeta. destruct (_ ≫= _) as [d|] eqn:E; [|exact He].
    apply (decoders_ok_insert (evict a)); [done|].
    apply bind_Some in E as (p' & _ & E). eapply decoder_for_inv; [apply He|exact E].
  - unfold detect_protocol. cbv zeta. destruct (decoder_for _ _) as [d|] eqn:E.
    + apply (decoders_ok_insert a); [done|]. eapply decoder_for_inv; [apply Ha|exact E].
    + by apply (decoders_ok_delete a).
  - unfold apply_data. destruct (decoders a !! id) as [d|] eqn:E; [|done].
    destruct (decoder_push d dir s) as [d' b] eqn:Ep. apply decoders_ok_batch, decoders_ok_insert; [done|].
    pose proof (push_inv d dir s) as K. cbn [push ProtocolDecoder_streaming] in K. rewrite Ep in K. apply K.
    destruct Ha as [_ Ha]. exact (Ha id d E).
Qed.

Lemma decoders_ok_run a es : decoders_ok a -> decoders_ok (run a es).
Proof. revert a; induction es as [|e es IH]; intros a Ha; [done|]. cbn. by apply IH, decoders_ok_apply. Qed.

Lemma decoders_ok_start mf run_id mb reveal a : with_inspection mf run_id mb reveal = Some a -> decoders_ok a.
Proof.
  unfold with_inspection. destruct (Z.ltb_spec 0 mf); [|done]. destruct (Z.ltb_spec 0 mb); [|done].
  intros [= <-]. split; [cbn; lia|apply map_Forall_empty].
Qed.

(** Storing does not look at the decoders. *)
Lemma store_message_decoders flow t a ds m :
  store_message flow t (set_decoders a ds) m = set_decoders (store_message flow t a m) ds.
Proof.
  unfold store_message. cbn [pending_requests set_decoders]. by destruct (track_latency _ _ _ _).
Qed.

Lemma store_messages_decoders flow t a ds ms :
  fold_left (store_message flow t) ms (set_decoders a ds) = set_decoders (fold_left (store_message flow t) ms a) ds.
Proof.
  revert a; induction ms as [|m ms IH]; intros a; [done|]. cbn [fold_left].
  by rewrite store_message_decoders, IH.
Qed.

Lemma store_batch_decoders a ds flow t b :
  store_batch (set_decoders a ds) flow t b = set_decoders (store_batch a flow t b) ds.
Proof. unfold store_batch. destruct (desynchronized b); by rewrite <- store_messages_decoders. Qed.

(** Two clean batches are one. *)
Lemma store_batch_app a flow t b c :
  desynchronized b = None -> desynchronized c = None ->
  store_batch (store_batch a flow t b) flow t c = store_batch a flow t (batch_app b c).
Proof. intros Hb Hc. unfold store_batch, batch_app. cbn. by rewrite Hb, Hc, fold_left_app. Qed.

Definition data_event (id : FlowId) (t : TimestampPair) (dir : Direction) (s : bytes) : ObservationEvent :=
  mkObservation id t (Data dir s).

Lemma run_data a id t dir c cs d d' b :
  decoders a !! id = Some d -> push_all d dir (c :: cs) = (d', b) -> desynchronized b = None ->
  run a (map (data_event id t dir) (c :: cs)) = store_batch (set_decoders a (<[id := d']> (decoders a))) id t b.
Proof.
  revert a c d b; induction cs as [|c2 cs IH]; intros a c d b Hd E Hn; cbn [push_all push ProtocolDecoder_streaming] in E.
  - cbn [map run fold_left]. unfold apply, data_event, apply_data. cbn [ev_kind ev_flow_id ev_timestamp]. rewrite Hd.
    destruct (decoder_push d dir c) as [d1 b1]. unfold after in E. cbn in E.
    rewrite batch_app_need_more_r in E. by injection E as -> ->.
  - destruct (decoder_push d dir c) as [d1 b1] eqn:E1.
    set (a1 := store_batch (set_decoders a (<[id := d1]> (decoders a))) id t b1).
    assert (Ha1 : apply a (data_event id t dir c) = a1).
    { unfold apply, data_event, apply_data. cbn [ev_kind ev_flow_id ev_timestamp]. by rewrite Hd, E1. }
    destruct (push_all d1 dir (c2 :: cs)) as [d2 b2] eqn:E2. cbn [push_all push ProtocolDecoder_streaming] in E2.
    rewrite E2 in E. unfold after in E. cbn [fst snd] in E. injection E as -> <-.
    apply batch_app_clean in Hn as [Hn1 Hn2].
    assert (Hdec : decoders a1 = <[id := d1]> (decoders a)).
    { unfold a1. by rewrite (frame_decoders _ _ (store_batch_frame _ id t b1)). }
    change (run a (map (data_event id t dir) (c :: c2 :: cs)))
      with (run (apply a (data_event id t dir c)) (map (data_event id t dir) (c2 :: cs))).
    rewrite Ha1. rewrite (IH a1 c2 d1 b2); [|by rewrite Hdec, lookup_insert_eq|exact E2|done].
    rewrite Hdec, insert_insert_eq. unfold a1.
    rewrite <- (store_batch_decoders (set_decoders a (<[id := d1]> (decoders a)))).
    by rewrite store_batch_app.
Qed.
(** *** Times

    Fragments are read at their own times; what the store shows of them differs
    in nothing else. *)

Definition timeless_message (m : MessageRecord) : MessageRecord :=
  mkMessageRecord (Envelope.with_timestamps (msg_envelope m) 0 0) (msg_summary m) (msg_body m) (msg_truncated m)
    ((fun _ => 0) <$> latency_nanos m).

Definition timeless_flow (f : StoredFlow) : StoredFlow :=
  mkStored (record f) (client_to_upstream_bytes f) (upstream_to_client_bytes f) (failure f) (decoder_error f)
    (map timeless_message (messages f)) (plugin_annotations f) (plugin_failures f).

(** The queues of unanswered requests, without the times of the requests. *)
Definition timeless_queues (ps : gmap (FlowId * bytes) (list Z)) : gmap (FlowId * bytes) (list Z) :=
  (fun q : list Z => map (fun _ => 0) q) <$> ps.

(** The store without the times of messages, latencies and pending requests. *)
Definition timeless (a : StoreActor) : StoreActor :=
  set_pending (set_flows a (map timeless_flow (flows (state a)))) (timeless_queues (pending_requests a)).

Lemma timeless_update g g' id fs :
  (forall f, timeless_flow (g f) = timeless_flow (g' (timeless_flow f))) ->
  map timeless_flow (update_flow g id fs) = map timeless_flow (update_flow g' id (map timeless_flow fs)).
Proof.
  intros Hg. induction fs as [|f fs IH]; [done|]. cbn [map update_flow].
  assert (stored_id (timeless_flow f) = stored_id f) as -> by done.
  assert (forall h, timeless_flow (timeless_flow h) = timeless_flow h) as K.
  { intros h. unfold timeless_flow. cbn. f_equal. rewrite map_map. apply map_ext. intros m.
    unfold timeless_message. cbn. by destruct (latency_nanos m). }
  case_bool_decide; cbn [map]; [|by rewrite IH, K]. rewrite Hg. f_equal. rewrite map_map. apply map_ext. intros h. by rewrite K.
Qed.

Lemma timeless_insert k q ps : timeless_queues (<[k := q]> ps) = <[k := map (fun _ => 0) q]> (timeless_queues ps).
Proof. apply fmap_insert. Qed.

Lemma timeless_lookup k ps : timeless_queues ps !! k = (fun q : list Z => map (fun _ => 0) q) <$> ps !! k.
Proof. apply lookup_fmap. Qed.

Lemma timeless_twice ps : timeless_queues (timeless_queues ps) = timeless_queues ps.
Proof. unfold timeless_queues. rewrite <- map_fmap_compose. apply map_fmap_ext. intros k q _. cbn. by rewrite map_map. Qed.

Lemma timeless_edit a id g :
  (forall f, timeless_flow (g f) = timeless_flow (g (timeless_flow f))) ->
  timeless (edit_flow a id g) = timeless (edit_flow (timeless a) id g).
Proof.
  intros Hg. unfold timeless, edit_flow. cbn. unfold set_pending, set_flows, set_state. cbn.
  rewrite (timeless_update g g) by done. f_equal. by rewrite timeless_twice.
Qed.

(** The queues of a message and whether it gets a latency. *)
Lemma timeless_track ps key b t t' :
  timeless_queues (fst (track_latency ps key b t)) = timeless_queues (fst (track_latency (timeless_queues ps) key b t')) /\
  (fun _ => 0) <$> snd (track_latency ps key b t) = (fun _ => 0) <$> snd (track_latency (timeless_queues ps) key b t').
Proof.
  unfold track_latency. destruct b as [b|]; [|by cbn [fst snd]; rewrite timeless_twice].
  destruct (b =s lit "request").
  { split; [|done]. cbn [fst]. rewrite !timeless_insert, timeless_twice, timeless_lookup. f_equal.
    destruct (ps !! key) as [q|]; cbn; [|done]. by rewrite !map_app, map_map. }
  destruct (b =s lit "response"); [|by cbn [fst snd]; rewrite timeless_twice]. rewrite timeless_lookup.
  destruct (ps !! key) as [[|x q]|]; cbn [fmap option_fmap option_map map]; [by cbn [fst snd]; rewrite timeless_twice| |by cbn [fst snd]; rewrite timeless_twice].
  cbn [fst snd]. split; [|done]. by rewrite !timeless_insert, timeless_twice, map_map.
Qed.

Lemma timeless_add grpc id m m' rep f :
  timeless_message m = timeless_message m' ->
  timeless_flow (add_message grpc id m rep f) = timeless_flow (add_message grpc id m' rep (timeless_flow f)).
Proof.
  intros Hm. unfold add_message. destruct rep as [rep|]; unfold timeless_flow; cbn; f_equal; rewrite !map_app, map_map; cbn;
    rewrite Hm; f_equal; apply map_ext; intros x; unfold timeless_message; cbn; by destruct (latency_nanos x).
Qed.

(** What plugins are told of a message has no times in it. *)
Lemma event_json_timeless flow r r' :
  timeless_message r = timeless_message r' -> plugin_event_json flow r = plugin_event_json flow r'.
Proof.
  destruct r as [e s b tr l], r' as [e' s' b' tr' l']. unfold timeless_message. cbn [msg_envelope msg_summary msg_body msg_truncated latency_nanos].
  destruct e, e'. unfold Envelope.with_timestamps. cbn. intros E. injection E as -> -> -> -> -> -> -> -> -> -> -> -> -> _. reflexivity.
Qed.

(** The envelope of a stored message, its record and what the plugins say. *)
Definition stored_envelope (flow : FlowId) (t : TimestampPair) (a : StoreActor) (m : DecodedMessage) : EventEnvelope :=
  Envelope.with_sensitivity
    (Envelope.with_timestamps
      (Envelope.with_direction
        (Envelope.with_message_id
          (Envelope.with_flow_id (Envelope.new (lit "message.decoded") (actor_run_id a) SrcDecoder) flow)
          (sat_add (next_message_id (state a)) 1)) (direction m)) (mono_nanos t) (wall_nanos t))
    (message_sensitivity (reveal a) (Redact.redacted (Redact.redact (redactor a) m))).

Definition stored_report (flow : FlowId) (t : TimestampPair) (a : StoreActor) (m : DecodedMessage) (l : option Z) :
    option Plugin.PluginRunReport :=
  match plugin_host a with
  | None => None
  | Some host =>
      let safe := Redact.redact (plugin_redactor a) m in
      Some (Plugin.host_process host (plugin_event_json flow
        (message_record (Envelope.with_sensitivity (stored_envelope flow t a m) (if Redact.redacted safe then Redacted else Public))
          (Redact.message safe) (truncated m) l)))
  end.

Definition stored_track (flow : FlowId) (t : TimestampPair) (a : StoreActor) (m : DecodedMessage) :=
  track_latency (pending_requests a) (flow, default [] (header m "lens-stream-id")) (header m "lens-boundary") (mono_nanos t).

Lemma store_message_parts flow t a m :
  let l := snd (stored_track flow t a m) in
  store_message flow t a m
  = edit_flow (set_state (set_pending a (fst (stored_track flow t a m)))
                 (mkState (flows (state a)) (evicted (state a)) (sat_add (next_message_id (state a)) 1))) flow
      (add_message (match header m "lens-protocol" with Some p => p =s lit "grpc" | None => false end)
         (sat_add (next_message_id (state a)) 1)
         (message_record (stored_envelope flow t a m) (Redact.message (Redact.redact (redactor a) m)) (truncated m) l)
         (stored_report flow t a m l)).
Proof. cbv zeta. unfold store_message, stored_report, stored_track. by destruct (track_latency _ _ _ _). Qed.

Lemma stored_report_timeless flow t t' a m l l' :
  (fun _ => 0) <$> l = (fun _ => 0) <$> l' -> stored_report flow t a m l = stored_report flow t' (timeless a) m l'.
Proof.
  intros Hl. unfold stored_report. change (plugin_host (timeless a)) with (plugin_host a).
  change (plugin_redactor (timeless a)) with (plugin_redactor a). destruct (plugin_host a) as [host|]; [|done].
  erewrite event_json_timeless; [reflexivity|]. unfold timeless_message, message_record. cbn. by rewrite Hl.
Qed.

Lemma timeless_parts fs ev nx mf ri mb rv ds ps rd pl ho :
  timeless (mkActor (mkState fs ev nx) mf ri mb rv ds ps rd pl ho)
  = mkActor (mkState (map timeless_flow fs) ev nx) mf ri mb rv ds (timeless_queues ps) rd pl ho.
Proof. done. Qed.

Lemma stored_parts s mf ri mb rv ds ps ps' rd pl ho fs ev nx flow g :
  edit_flow (set_state (set_pending (mkActor s mf ri mb rv ds ps rd pl ho) ps') (mkState fs ev nx)) flow g
  = mkActor (mkState (update_flow g flow fs) ev nx) mf ri mb rv ds ps' rd pl ho.
Proof. done. Qed.

Lemma timeless_stored a ps ps' next flow g g' :
  timeless_queues ps = timeless_queues ps' ->
  (forall f, timeless_flow (g f) = timeless_flow (g' (timeless_flow f))) ->
  timeless (edit_flow (set_state (set_pending a ps) (mkState (flows (state a)) (evicted (state a)) next)) flow g)
  = timeless (edit_flow (set_state (set_pending (timeless a) ps')
      (mkState (flows (state (timeless a))) (evicted (state (timeless a))) next)) flow g').
Proof.
  intros Hq Hg. destruct a as [[fs ev nx] mf ri mb rv ds pr rd pl ho].
  rewrite timeless_parts. cbn [state flows evicted]. rewrite !stored_parts, !timeless_parts.
  by rewrite Hq, (timeless_update g g').
Qed.

Lemma timeless_store flow t t' a m :
  timeless (store_message flow t a m) = timeless (store_message flow t' (timeless a) m).
Proof.
  rewrite !store_message_parts. cbv zeta.
  destruct (timeless_track (pending_requests a) (flow, default [] (header m "lens-stream-id")) (header m "lens-boundary")
    (mono_nanos t) (mono_nanos t')) as [K1 K2].
  fold (stored_track flow t a m) in K1, K2.
  change (track_latency (timeless_queues (pending_requests a)) (flow, default [] (header m "lens-stream-id"))
    (header m "lens-boundary") (mono_nanos t')) with (stored_track flow t' (timeless a) m) in K1, K2.
  rewrite (stored_report_timeless flow t t' a m _ _ K2).
  assert (timeless_message (message_record (stored_envelope flow t a m) (Redact.message (Redact.redact (redactor a) m)) (truncated m)
      (snd (stored_track flow t a m)))
    = timeless_message (message_record (stored_envelope flow t' (timeless a) m) (Redact.message (Redact.redact (redactor (timeless a)) m))
        (truncated m) (snd (stored_track flow t' (timeless a) m)))) as Hm.
  { unfold timeless_message, message_record. cbn. by rewrite K2. }
  change (sat_add (next_message_id (state (timeless a))) 1) with (sat_add (next_message_id (state a)) 1).
  revert Hm K1. generalize (stored_report flow t' (timeless a) m (snd (stored_track flow t' (timeless a) m))).
  generalize (fst (stored_track flow t a m)), (fst (stored_track flow t' (timeless a) m)).
  match goal with |- forall _ _ _, timeless_message ?x = timeless_message ?y -> _ => generalize x, y end.
  generalize (sat_add (next_message_id (state a)) 1).
  generalize (match header m "lens-protocol" with Some p => p =s lit "grpc" | None => false end).
  intros grpc next x y ps ps' rep Hm K1.
  apply timeless_stored; [done|]. intros f. by apply timeless_add.
Qed.

Lemma timeless_store_eq flow t t' a b m :
  timeless a = timeless b -> timeless (store_message flow t a m) = timeless (store_message flow t' b m).
Proof. intros E. by rewrite (timeless_store flow t t a m), E, <- (timeless_store flow t' t b m). Qed.

Lemma timeless_batch a b id t t' batch :
  timeless a = timeless b -> timeless (store_batch a id t batch) = timeless (store_batch b id t' batch).
Proof.
  intros E. unfold store_batch.
  assert (timeless (match desynchronized batch with Some r => edit_flow a id (with_decoder_error r) | None => a end)
    = timeless (match desynchronized batch with Some r => edit_flow b id (with_decoder_error r) | None => b end)) as E'.
  { destruct (desynchronized batch) as [r|]; [|done].
    assert (forall f, timeless_flow (with_decoder_error r f) = timeless_flow (with_decoder_error r (timeless_flow f))) as K.
    { intros f. unfold with_decoder_error, timeless_flow. cbn. f_equal. rewrite map_map. apply map_ext. intros m.
      unfold timeless_message. cbn. by destruct (latency_nanos m). }
    by rewrite (timeless_edit a), (timeless_edit b), E. }
  revert E'. match goal with |- timeless ?x = timeless ?y -> _ => generalize x, y end.
  induction (Protocol.messages batch) as [|m ms IH]; intros x y E'; [done|]. cbn [fold_left]. by apply IH, timeless_store_eq.
Qed.

Lemma timeless_data a b id t t' dir s :
  timeless a = timeless b -> timeless (apply a (data_event id t dir s)) = timeless (apply b (data_event id t' dir s)).
Proof.
  intros E. unfold apply, data_event, apply_data. cbn [ev_kind ev_flow_id ev_timestamp].
  assert (decoders b = decoders a) as -> by (change (decoders (timeless b) = decoders (timeless a)); by rewrite E).
  destruct (decoders a !! id) as [d|]; [|done]. destruct (decoder_push d dir s) as [d' batch]. apply timeless_batch.
  change (set_decoders (timeless a) (<[id := d']> (decoders a)) = set_decoders (timeless b) (<[id := d']> (decoders a))).
  by rewrite E.
Qed.

(** Fragments with their times. *)
Definition data_events (id : FlowId) (dir : Direction) (fs : list (TimestampPair * bytes)) : list ObservationEvent :=
  map (fun '(t, s) => data_event id t dir s) fs.

Lemma timeless_run a b id t dir fs :
  timeless a = timeless b -> timeless (run a (data_events id dir fs)) = timeless (run b (map (data_event id t dir) (map snd fs))).
Proof.
  revert a b; induction fs as [|[u s] fs IH]; intros a b E; [done|].
  change (timeless (run (apply a (data_event id u dir s)) (data_events id dir fs))
    = timeless (run (apply b (data_event id t dir s)) (map (data_event id t dir) (map snd fs)))).
  by apply IH, timeless_data.
Qed.

(** A flow without a decoder ignores its data. *)
Lemma run_ignored a id t dir cs : decoders a !! id = None -> run a (map (data_event id t dir) cs) = a.
Proof.
  intros Hd. induction cs as [|c cs IH]; [done|].
  change (run a (map (data_event id t dir) (c :: cs))) with (run (apply a (data_event id t dir c)) (map (data_event id t dir) cs)).
  unfold apply, data_event, apply_data. cbn [ev_kind ev_flow_id]. by rewrite Hd.
Qed.

Lemma fragments_at_once a id t dir c cs :
  decoders_ok a ->
  (forall d, decoders a !! id = Some d ->
     decoder_fits d dir (concat (c :: cs)) /\ desynchronized (snd (push_all d dir (c :: cs))) = None) ->
  run a (map (data_event id t dir) (c :: cs)) = apply a (data_event id t dir (concat (c :: cs))).
Proof.
  intros [_ Hok] Hd. destruct (decoders a !! id) as [d|] eqn:Ed.
  - destruct (Hd d eq_refl) as [Hf Hn]. pose proof (Hok id d Ed) as Hinv. cbn beta in Hinv.
    destruct (push_all d dir (c :: cs)) as [d' b] eqn:E.
    rewrite (run_data a id t dir c cs d d' b Ed E Hn).
    unfold apply, data_event, apply_data. cbn [ev_kind ev_flow_id ev_timestamp]. rewrite Ed.
    pose proof (push_all_concat d dir c cs d' b Hinv Hf E Hn) as Ep.
    cbn [push ProtocolDecoder_streaming] in Ep. by rewrite Ep.
  - rewrite run_ignored by done. unfold apply, data_event, apply_data. cbn [ev_kind ev_flow_id]. by rewrite Ed.
Qed.
End Fragments.

(** C2. The store does not depend on how the proxy cut the bytes: after any
    history and for the decoder of any protocol (or none), data observed in
    fragments, each read at its own time, leaves the same store as the same
    data observed at once, but for the times, latencies and times of pending
    requests ([timeless]); and exactly the same store when the times agree.
    This holds of data that the decoder accepts: it fits the decoder's buffer
    bound ([decoder_fits]) and no fragment of it desynchronizes the decoder. *)
Theorem store_fragmentation `{Http2.Hpack} `{Redact.JsonSecret} `{Plugin.Wasm}
    (mf run_id mb : Z) (reveal : bool) (a0 : StoreActor) (es : list ObservationEvent)
    (id : FlowId) (dir : Direction) (fs : list (TimestampPair * bytes)) :
  with_inspection mf run_id mb reveal = Some a0 ->
  let a := run a0 es in
  let whole := concat (map snd fs) in
  fs <> [] ->
  (forall d, decoders a !! id = Some d ->
     decoder_fits d dir whole /\ desynchronized (snd (push_all d dir (map snd fs))) = None) ->
  (forall t, timeless (run a (data_events id dir fs)) = timeless (apply a (data_event id t dir whole))) /\
  (forall t, Forall (fun f => fst f = t) fs -> run a (data_events id dir fs) = apply a (data_event id t dir whole)).
Proof.
  intros Ha0 a whole Hne Hd. assert (decoders_ok a) as Hok by (by eapply decoders_ok_run, decoders_ok_start).
  assert (forall t, run a (map (data_event id t dir) (map snd fs)) = apply a (data_event id t dir whole)) as K.
  { intros t. subst whole. destruct fs as [|f fs]; [done|]. by apply (fragments_at_once a id t dir (snd f) (map snd fs)). }
  split; intros t.
  - by rewrite <- K, <- (timeless_run a a id t dir fs).
  - intros Ht. rewrite <- K. f_equal. clear -Ht. induction Ht as [|[u s] fs E _ IH]; [done|]. cbn in E. subst u.
    unfold data_events in *. cbn [map]. by rewrite IH.
Qed.

Definition demo_fragments : list (TimestampPair * bytes) :=
  [(at_time 5, take 9 demo_request); (at_time 8, drop 9 demo_request)].
Definition demo_store : StoreActor := run (small_store 2 false) [opens 1 (Some (lit "http1"))].

Lemma demo_fragments_fit d :
  decoders demo_store !! 1 = Some d ->
  decoder_fits d ClientToServer (concat (map snd demo_fragments)) /\
  desynchronized (snd (push_all d ClientToServer (map snd demo_fragments))) = None.
Proof. intros Hd. vm_compute in Hd. injection Hd as <-. by vm_compute. Qed.

Lemma store_fragmentation_witness :
  timeless (run demo_store (data_events 1 ClientToServer demo_fragments))
  = timeless (apply demo_store (data_event 1 (at_time 8) ClientToServer (concat (map snd demo_fragments)))).
Proof.
  exact (proj1 (store_fragmentation 2 7 64 false (small_store 2 false) [opens 1 (Some (lit "http1"))] 1
    ClientToServer demo_fragments eq_refl ltac:(done) demo_fragments_fit) (at_time 8)).
Defined.

(** ** Latencies *)

Section Latency.
Context `{Http2.Hpack} `{Redact.JsonSecret} `{Plugin.Wasm}.

(** Messages stored at the times they were decoded. *)
Definition store_at (flow : FlowId) (a : StoreActor) (tm : TimestampPair * DecodedMessage) : StoreActor :=
  store_message flow (fst tm) a (snd tm).

(** A message of stream [s] that marks the boundary [b]. *)
Definition marks (b : string) (s : bytes) (tm : TimestampPair * DecodedMessage) : Prop :=
  header (snd tm) "lens-boundary" = Some (lit b) /\ default [] (header (snd tm) "lens-stream-id") = s.

Definition started (tm : TimestampPair * DecodedMessage) : Z := mono_nanos (fst tm).

(** The latencies a flow shows. *)
Definition latencies (flow : FlowId) (a : StoreActor) : option (list (option Z)) :=
  (fun f => map latency_nanos (messages f)) <$> flow_of flow (flows (state a)).

Lemma flow_of_edit flow g fs :
  keeps_id g -> flow_of flow (update_flow g flow fs) = g <$> flow_of flow fs.
Proof.
  intros Hg. induction fs as [|f fs IH]; [done|]. cbn [update_flow]. unfold flow_of in *. cbn [List.find].
  destruct (bool_decide (stored_id f = Some flow)) eqn:E; cbn [List.find].
  - by rewrite Hg, E.
  - by rewrite E.
Qed.

(** A stored message shows its latency and leaves the queues as [track_latency] says. *)
Lemma store_at_latency flow a tm ls :
  latencies flow a = Some ls ->
  let key := (flow, default [] (header (snd tm) "lens-stream-id")) in
  let track := track_latency (pending_requests a) key (header (snd tm) "lens-boundary") (started tm) in
  latencies flow (store_at flow a tm) = Some (ls ++ [snd track]) /\ pending_requests (store_at flow a tm) = fst track.
Proof.
  intros Hl. cbv zeta. unfold store_at.
  destruct (store_message_shape flow (fst tm) a (snd tm)) as (grpc & rec & rep & E & _ & _ & _ & _ & _ & Hlat & _).
  cbv zeta in *. rewrite E. split; [|done]. unfold latencies in *. cbn [state edit_flow set_flows set_state flows].
  rewrite flow_of_edit by apply add_message_keeps. destruct (flow_of flow (flows (state a))) as [f|]; [|done].
  injection Hl as <-. cbn. rewrite add_message_messages, map_app. cbn [map]. by rewrite Hlat.
Qed.

Lemma store_requests flow s reqs a ls q :
  latencies flow a = Some ls -> default [] (pending_requests a !! (flow, s)) = q -> Forall (marks "request" s) reqs ->
  latencies flow (fold_left (store_at flow) reqs a) = Some (ls ++ map (fun _ => None) reqs) /\
  default [] (pending_requests (fold_left (store_at flow) reqs a) !! (flow, s)) = q ++ map started reqs.
Proof.
  intros Hl Hq Hr. revert a ls q Hl Hq; induction Hr as [|r reqs [Hb Hs] _ IH]; intros a ls q Hl Hq.
  { cbn. by rewrite !app_nil_r. }
  cbn [fold_left map]. destruct (store_at_latency flow a r ls Hl) as [K1 K2]. cbv zeta in *.
  rewrite Hb, Hs in *. cbn in K1, K2.
  destruct (IH (store_at flow a r) (ls ++ [None]) (q ++ [started r])) as [K3 K4].
  - exact K1.
  - rewrite K2, lookup_insert_eq. cbn. by rewrite Hq.
  - rewrite K3, K4, <- !app_assoc. done.
Qed.

Lemma store_responses flow s resps a ls q :
  latencies flow a = Some ls -> default [] (pending_requests a !! (flow, s)) = q ->
  (length resps <= length q)%nat -> Forall (marks "response" s) resps ->
  latencies flow (fold_left (store_at flow) resps a)
  = Some (ls ++ zip_with (fun x r => Some (sat_sub (started r) x)) q resps).
Proof.
  intros Hl Hq Hlen Hr. revert a ls q Hl Hq Hlen; induction Hr as [|r resps [Hb Hs] _ IH]; intros a ls q Hl Hq Hlen.
  { cbn [fold_left]. rewrite Hl. destruct q; by rewrite app_nil_r. }
  destruct q as [|x q]; [cbn in Hlen; lia|]. cbn [fold_left zip_with].
  destruct (store_at_latency flow a r ls Hl) as [K1 K2]. cbv zeta in *. rewrite Hb, Hs in *.
  destruct (pending_requests a !! (flow, s)) as [q0|] eqn:Eq; cbn in Hq; [|done]. subst q0.
  unfold track_latency in K1, K2. rewrite Eq in K1, K2. cbn in K1, K2.
  rewrite (IH (store_at flow a r) (ls ++ [Some (sat_sub (started r) x)]) q).
  - by rewrite <- app_assoc.
  - exact K1.
  - rewrite K2, lookup_insert_eq. done.
  - cbn in Hlen. lia.
Qed.
End Latency.

(** Latencies pair requests with answers in order: when requests of one
    stream are followed by answers (as many or fewer, as pipelining allows),
    each answer shows the time since the request it answers, and a clock that
    ran backwards shows 0. *)
Theorem store_latency_in_order `{Http2.Hpack} `{Redact.JsonSecret} `{Plugin.Wasm}
    (a : StoreActor) (flow : FlowId) (s : bytes) (shown : list (option Z))
    (reqs resps : list (TimestampPair * DecodedMessage)) :
  latencies flow a = Some shown -> default [] (pending_requests a !! (flow, s)) = [] ->
  Forall (marks "request" s) reqs -> Forall (marks "response" s) resps -> (length resps <= length reqs)%nat ->
  latencies flow (fold_left (store_at flow) (reqs ++ resps) a)
  = Some (shown ++ map (fun _ => None) reqs
          ++ zip_with (fun q r => Some (Z.max 0 (started r - started q))) reqs resps).
Proof.
  intros Hl Hq Hreq Hresp Hlen. rewrite fold_left_app.
  destruct (store_requests flow s reqs a shown [] Hl Hq Hreq) as [K1 K2].
  rewrite (store_responses flow s resps _ _ _ K1 K2); [|cbn; by rewrite length_map|done].
  rewrite <- app_assoc. cbn [app]. change (map started reqs) with (started <$> reqs). by rewrite zip_with_fmap_l.
Qed.

Definition marked (mono : Z) (b : string) : TimestampPair * DecodedMessage :=
  (at_time mono, mkDecoded ClientToServer (lit "PING") [(lit "lens-boundary", lit b)] [] false).

Lemma store_latency_in_order_witness :
  latencies 1 (fold_left (store_at 1) ([marked 10 "request"; marked 12 "request"] ++ [marked 15 "response"])
    (run (small_store 2 false) [opens 1 None]))
  = Some ([] ++ [None; None] ++ [Some 5]).
Proof.
  apply (store_latency_in_order (run (small_store 2 false) [opens 1 None]) 1 [] []
    [marked 10 "request"; marked 12 "request"] [marked 15 "response"]); try by vm_compute.
  - apply List.Forall_cons; [by split|]. apply List.Forall_cons; [by split|constructor].
  - apply List.Forall_cons; [by split|constructor].
  - cbn. lia.
Defined.

(** ** Decoders without flows *)

Section Detached.
Context `{Http2.Hpack} `{Redact.JsonSecret} `{Plugin.Wasm}.

Definition detected (id : FlowId) : ObservationEvent :=
  mkObservation id (at_time id) (ProtocolDetected (lit "redis")).

Lemma decoders_detected a id :
  decoders (apply a (detected id)) = <[id := DecRedis (Redis.new (max_body a))]> (decoders a) /\
  max_body (apply a (detected id)) = max_body a.
Proof. done. Qed.

Lemma size_detected ids a :
  NoDup ids -> (forall i, i ∈ ids -> decoders a !! i = None) ->
  size (decoders (run a (map detected ids))) = (size (decoders a) + length ids)%nat.
Proof.
  intros Hnd. revert a; induction Hnd as [|i ids Hi Hnd IH]; intros a Ha; [cbn; lia|].
  change (run a (map detected (i :: ids))) with (run (apply a (detected i)) (map detected ids)).
  destruct (decoders_detected a i) as [E _]. rewrite IH.
  - rewrite E, map_size_insert_None by (apply Ha; by left). cbn [length]. lia.
  - intros j Hj. rewrite E, lookup_insert_ne by (by intros ->). apply Ha. by right.
Qed.

Lemma decoders_opened ids a : decoders a = ∅ -> decoders (run a (map (fun i => opens i None) ids)) = ∅.
Proof.
  revert a; induction ids as [|i ids IH]; intros a Ha; [done|].
  change (run a (map (fun i => opens i None) (i :: ids))) with (run (apply a (opens i None)) (map (fun i => opens i None) ids)).
  apply IH. unfold apply, opens. cbn [ev_kind ev_flow_id ev_timestamp]. unfold open_flow. cbn. unfold evict.
  destruct (_ =? _); [|done]. destruct (flows (state a)) as [|f fs]; [done|].
  destruct (stored_id f); [|done]. cbn. by rewrite Ha, delete_empty.
Qed.
End Detached.

(** The number of decoders is not bounded by the number of retained
    flows: a protocol detected on a flow that was evicted in the meantime
    gets a decoder all the same, so a store of one flow keeps a decoder for
    each of [n] connections. *)
Theorem store_decoders_outlive_flows `{Http2.Hpack} `{Redact.JsonSecret} `{Plugin.Wasm} (n : nat) (a : StoreActor) :
  with_inspection 1 0 64 false = Some a ->
  let a' := run a (map (fun i => opens i None) (seqZ 1 (Z.of_nat n)) ++ map detected (seqZ 1 (Z.of_nat n))) in
  (length (flows (state a')) <= 1)%nat /\ size (decoders a') = n.
Proof.
  intros Ha a'. unfold with_inspection in Ha. cbn in Ha. injection Ha as <-. split.
  - destruct (run_retention (mkActor state_default 1 0 64 false ∅ ∅ (Redact.new false) (Redact.new false) None) 1 []
      (map (fun i => opens i None) (seqZ 1 (Z.of_nat n)) ++ map detected (seqZ 1 (Z.of_nat n)))) as (_ & E & _);
      [lia|by repeat split|].
    fold a' in E. rewrite <- (length_map stored_id), E, length_map. unfold last_n. rewrite length_drop. lia.
  - unfold a', run. rewrite fold_left_app. fold (@run H H0 H1).
    match goal with |- context [fold_left apply (map detected _) ?b] => set (b0 := b) end.
    assert (decoders b0 = ∅) as Hb by (by apply decoders_opened).
    change (fold_left apply (map detected (seqZ 1 (Z.of_nat n))) b0) with (run b0 (map detected (seqZ 1 (Z.of_nat n)))).
    rewrite size_detected; [|apply NoDup_seqZ|].
    + rewrite Hb, map_size_empty, length_seqZ. lia.
    + intros i _. by rewrite Hb.
Qed.

Lemma store_decoders_outlive_flows_witness :
  let a := mkActor state_default 1 0 64 false ∅ ∅ (Redact.new false) (Redact.new false) None in
  let a' := run a (map (fun i => opens i None) (seqZ 1 3) ++ map detected (seqZ 1 3)) in
  (length (flows (state a')) <= 1)%nat /\ size (decoders a') = 3%nat.
Proof. by apply (store_decoders_outlive_flows 3). Defined.

(** ** A secret that survives redaction *)

(** A browser's request over HTTP/2, with a token in the query. *)
Definition token_request : bytes :=
  Http2.CLIENT_PREFACE
  ++ Http2Wire.frame_wire (Http2Wire.headers_frame 1 true
       (Http2Wire.literal_field ":method" "GET" ++ Http2Wire.literal_field ":path" "/in?token=hunter2")).

Definition token_message : MessageRecord :=
  default (Message.new Envelope.default [] [])
    (head (flows (state (run (small_store 2 false)
       [opens 1 (Some (lit "http2")); data_event 1 (at_time 5) ClientToServer token_request]))) ≫=
     fun f => head (messages f)).

(** A query secret survives in the [:path] header of HTTP/2: without
    reveal mode, the token of a request is taken out of the summary of the
    stored message, which counts as redacted, but its body still shows it. *)
Theorem store_http2_path_leaks :
  sensitivity (msg_envelope token_message) = Redacted /\
  contains (lit "hunter2") (msg_summary token_message) = false /\
  contains (lit "hunter2") (msg_body token_message) = true.
Proof. by vm_compute. Qed.
