(* ===== verification/StoreExport.v ===== *)
(** * StoreExport: what snapshots of the store show.

    The text of exported JSON strings is read back exactly, every flow is one
    line of the JSONL export, and the service map groups the retained flows by
    service, exactly. *)

From stdpp Require Import sorting.
From S2P Require Import Prelude RustStd Core Protocol Redact Plugin Store StoreFacts.
Import Store.
#[local] Open Scope lens_scope.

(** ** JSON strings *)

Definition hex_digit (b : byte) : option Z := digit_val 16 b.

(** The UTF-8 form of a code point of the basic plane. *)
Definition utf8_encode (n : Z) : bytes :=
  if n <? 128 then [byte_of n]
  else if n <? 2048 then [byte_of (192 + n / 64); byte_of (128 + n mod 64)]
  else [byte_of (224 + n / 4096); byte_of (128 + n / 64 mod 64); byte_of (128 + n mod 64)].

Definition hex4 (a b c d : byte) : option Z :=
  match hex_digit a, hex_digit b, hex_digit c, hex_digit d with
  | Some a, Some b, Some c, Some d => Some (((a * 16 + b) * 16 + c) * 16 + d)
  | _, _, _, _ => None
  end.

(** A reader of JSON string contents: the text up to the closing quote, and
    what follows it.  Control characters must be escaped. *)
Fixpoint json_read (s : bytes) : option (bytes * bytes) :=
  match s with
  | [] => None
  | x22 :: r => Some ([], r)
  | x5c :: x75 :: a :: b :: c :: d :: r =>
      match hex4 a b c d, json_read r with
      | Some n, Some (t, rest) => Some (utf8_encode n ++ t, rest)
      | _, _ => None
      end
  | x5c :: e :: r =>
      let c := if e =b x22 then Some x22 else if e =b x5c then Some x5c
               else if e =b "n"%byte then Some x0a else if e =b "r"%byte then Some x0d
               else if e =b "t"%byte then Some x09 else None in
      match c, json_read r with
      | Some c, Some (t, rest) => Some (c :: t, rest)
      | _, _ => None
      end
  | b :: r =>
      if byte_val b <? 32 then None
      else match json_read r with Some (t, rest) => Some (b :: t, rest) | None => None end
  end.

Definition prepend (p : bytes) (r : option (bytes * bytes)) : option (bytes * bytes) :=
  match r with Some (t, rest) => Some (p ++ t, rest) | None => None end.

Lemma json_read_unicode b r :
  json_read (unicode_escape b ++ r) = prepend (utf8_encode (byte_val b)) (json_read r).
Proof.
  unfold unicode_escape, hex2.
  assert (hex4 x30 x30 (digit_byte (byte_val b / 16)) (digit_byte (byte_val b mod 16)) = Some (byte_val b)) as E.
  { enough (match hex4 x30 x30 (digit_byte (byte_val b / 16)) (digit_byte (byte_val b mod 16)) with
            | Some n => n =? byte_val b | None => false end = true) as K.
    { destruct (hex4 _ _ _ _); [|done]. apply Z.eqb_eq in K. by rewrite K. }
    revert b. apply byte_all. by vm_compute. }
  change (json_read ((lit "\u00" ++ [digit_byte (byte_val b / 16); digit_byte (byte_val b mod 16)]) ++ r))
    with (match hex4 x30 x30 (digit_byte (byte_val b / 16)) (digit_byte (byte_val b mod 16)), json_read r with
          | Some n, Some (t, rest) => Some (utf8_encode n ++ t, rest) | _, _ => None end).
  rewrite E. by destruct (json_read r) as [[]|].
Qed.

(** Bytes that stand for themselves. *)
Definition plain_byte (b : byte) : bool :=
  negb (b =b x22) && negb (b =b x5c) && negb (byte_val b <? 32).

Lemma json_read_plain b r :
  plain_byte b = true -> json_read (b :: r) = prepend [b] (json_read r).
Proof.
  unfold plain_byte. rewrite !andb_true_iff, !negb_true_iff. intros [[K1 K2] K3].
  destruct b; try discriminate K1; try discriminate K2; try discriminate K3; cbn; by destruct (json_read r) as [[]|].
Qed.

Lemma json_read_escape_step (n : nat) s rest :
  (length s <= n)%nat -> json_read (escape_json s ++ x22 :: rest) = Some (s, rest).
Proof.
  revert s; induction n as [|n IH]; intros [|b s] Hn; cbn [length] in Hn; try lia; [done|done|].
  cbn [escape_json]. pose proof (IH s ltac:(lia)) as IHs.
  destruct (b =b x22) eqn:E1; [apply byte_eqb_eq in E1 as ->; cbn; by rewrite IHs|].
  destruct (b =b x5c) eqn:E2; [apply byte_eqb_eq in E2 as ->; cbn; by rewrite IHs|].
  destruct (b =b x0a) eqn:E3; [apply byte_eqb_eq in E3 as ->; cbn; by rewrite IHs|].
  destruct (b =b x0d) eqn:E4; [apply byte_eqb_eq in E4 as ->; cbn; by rewrite IHs|].
  destruct (b =b x09) eqn:E5; [apply byte_eqb_eq in E5 as ->; cbn; by rewrite IHs|].
  destruct (is_ascii_control b) eqn:E6.
  { rewrite <- app_assoc, json_read_unicode, IHs. cbn [prepend].
    assert (utf8_encode (byte_val b) = [b]) as ->; [|done].
    apply bytes_eqb_eq. revert E6. apply implb_true_iff. revert b E1 E2 E3 E4 E5. intros b _ _ _ _ _.
    revert b. apply byte_all. by vm_compute. }
  assert (plain_byte b = true) as Hp.
  { unfold plain_byte. rewrite E1, E2. unfold is_ascii_control, in_range in E6.
    destruct (Z.ltb_spec (byte_val b) 32); [|done]. pose proof (byte_val_range b).
    rewrite !orb_false_iff, andb_false_iff, !Z.leb_gt in E6. lia. }
  assert (json_read (b :: escape_json s ++ x22 :: rest) = Some (b :: s, rest)) as Hplain.
  { rewrite json_read_plain by done. by rewrite IHs. }
  destruct (b =b xc2) eqn:E7; [|exact Hplain]. apply byte_eqb_eq in E7 as ->.
  destruct s as [|c s]; [exact Hplain|]. destruct (in_range 128 159 c) eqn:E8; [|exact Hplain].
  rewrite <- app_assoc, json_read_unicode, (IH s) by (cbn in Hn; lia). cbn [prepend].
  assert (utf8_encode (byte_val c) = [xc2; c]) as ->; [|done].
  apply bytes_eqb_eq. revert E8. apply implb_true_iff. clear. revert c. apply byte_all. by vm_compute.
Qed.

(** Exported text is read back exactly: the contents of every JSON string
    of an export, read up to the closing quote, are the text that was written,
    whatever quotes, backslashes and control characters it has, and reading
    goes on right behind the string. *)
Theorem escape_json_roundtrip (s rest : bytes) : json_read (escape_json s ++ x22 :: rest) = Some (s, rest).
Proof. by apply (json_read_escape_step (length s)). Qed.

(** ** Lines *)

Definition one_line (s : bytes) : bool := forallb (fun b => negb (b =b x0a)) s.

Lemma one_line_app a b : one_line (a ++ b) = one_line a && one_line b.
Proof. apply forallb_app. Qed.

Lemma one_line_join sep ss :
  one_line sep = true -> Forall (fun s => one_line s = true) ss -> one_line (join sep ss) = true.
Proof.
  intros Hsep. induction 1 as [|s ss Hs Hss IH]; [done|]. cbn [join].
  destruct ss; [done|]. by rewrite !one_line_app, Hs, Hsep, IH.
Qed.

Lemma one_line_dec n : one_line (dec n) = true.
Proof.
  assert (K : forall d, 0 <= d < 10 -> one_line [digit_byte d] = true).
  { intros d Hd. assert (d = 0 \/ d = 1 \/ d = 2 \/ d = 3 \/ d = 4 \/ d = 5 \/ d = 6 \/ d = 7 \/ d = 8 \/ d = 9) as Hc by lia.
    by repeat destruct Hc as [->|Hc]; [..|subst d]. }
  unfold dec. generalize (S (Z.to_nat (Z.log2 n))). intros fuel. revert n.
  induction fuel as [|fuel IH]; intros n; [done|]. cbn [dec_go]. rewrite one_line_app, K by (apply Z.mod_pos_bound; lia).
  rewrite andb_true_r. destruct (n <? 10); [done|apply IH].
Qed.

Lemma one_line_hex2 b : one_line (hex2 b) = true.
Proof. revert b. apply byte_all. by vm_compute. Qed.

Lemma one_line_escape_step (n : nat) s : (length s <= n)%nat -> one_line (escape_json s) = true.
Proof.
  revert s; induction n as [|n IH]; intros [|b s] Hn; cbn [length] in Hn; try lia; [done|done|].
  cbn [escape_json]. pose proof (IH s ltac:(lia)) as IHs.
  destruct (b =b x22); [by rewrite !one_line_app, IHs|].
  destruct (b =b x5c); [by rewrite !one_line_app, IHs|].
  destruct (b =b x0a) eqn:E; [by rewrite !one_line_app, IHs|].
  destruct (b =b x0d); [by rewrite !one_line_app, IHs|].
  destruct (b =b x09); [by rewrite !one_line_app, IHs|].
  destruct (is_ascii_control b).
  { unfold unicode_escape. by rewrite !one_line_app, one_line_hex2, IHs. }
  assert (one_line (b :: escape_json s) = true) as Hplain by (cbn [one_line forallb]; by rewrite E).
  destruct (b =b xc2); [|done]. destruct s as [|c s]; [done|]. destruct (in_range 128 159 c); [|done].
  unfold unicode_escape. rewrite !one_line_app, one_line_hex2, (IH s) by (cbn in Hn; lia). done.
Qed.

Lemma one_line_escape s : one_line (escape_json s) = true.
Proof. by apply (one_line_escape_step (length s)). Qed.

Lemma one_line_quote s : one_line s = true -> one_line (quote s) = true.
Proof. intros Hs. unfold quote. by rewrite !one_line_app, Hs. Qed.

Lemma one_line_json_string o : one_line (json_string o) = true.
Proof. destruct o; [apply one_line_quote, one_line_escape|done]. Qed.

Lemma one_line_json_u64 o : one_line (json_u64 o) = true.
Proof. destruct o; [apply one_line_dec|done]. Qed.

Lemma one_line_field k v : one_line (lit k) = true -> one_line v = true -> one_line (field k v) = true.
Proof. intros Hk Hv. unfold field. by rewrite !one_line_app, one_line_quote, Hv. Qed.

Lemma one_line_object fs : Forall (fun s => one_line s = true) fs -> one_line (object fs) = true.
Proof. intros Hf. unfold object. by rewrite !one_line_app, one_line_join. Qed.

Lemma one_line_array fs :
  Forall (fun s => one_line s = true) fs -> one_line (lit "[" ++ join (lit ",") fs ++ lit "]") = true.
Proof. intros Hf. by rewrite !one_line_app, one_line_join. Qed.

Lemma one_line_map {A} (f : A -> bytes) l :
  (forall x, one_line (f x) = true) -> Forall (fun s => one_line s = true) (map f l).
Proof. intros Hf. induction l; constructor; auto. Qed.

Create HintDb lines.
#[local] Hint Resolve one_line_dec one_line_escape one_line_quote one_line_json_string one_line_json_u64
  one_line_object one_line_array one_line_map : lines.
#[local] Hint Extern 2 (one_line (field _ _) = true) => apply one_line_field; [reflexivity|] : lines.
#[local] Hint Extern 3 (one_line (lit _) = true) => reflexivity : lines.
#[local] Hint Extern 2 (Forall _ (_ :: _)) => apply List.Forall_cons : lines.
#[local] Hint Extern 2 (Forall _ []) => constructor : lines.

Section Lines.
Context `{Base64} (Hbase64 : forall s, one_line (base64_encode s) = true).

Lemma one_line_sensitivity s : one_line (Sensitivity_display s) = true.
Proof. by destruct s. Qed.
Lemma one_line_state s : one_line (FlowState_display s) = true.
Proof. by destruct s. Qed.
Lemma one_line_bool b : one_line (bool_text b) = true.
Proof. by destruct b. Qed.
#[local] Hint Resolve one_line_sensitivity one_line_state one_line_bool : lines.

Lemma one_line_message m : one_line (message_json m) = true.
Proof. unfold message_json. auto 20 with lines. Qed.

Lemma one_line_identity i : one_line (identity_json i) = true.
Proof. unfold identity_json. destruct i; [|done]. auto 20 with lines. Qed.

Lemma one_line_annotation a :
  one_line (object [field "plugin" (quote (escape_json (Plugin.plugin a)));
                    field "value" (quote (escape_json (Plugin.annotation a)))]) = true.
Proof. auto 20 with lines. Qed.
#[local] Hint Resolve one_line_message one_line_identity one_line_annotation : lines.

Lemma one_line_flow f : one_line (to_json_line f) = true.
Proof.
  unfold to_json_line, plugin_annotations_json, messages_json. auto 40 with lines.
Qed.
End Lines.

Lemma split_on_line s rest :
  one_line s = true ->
  split_on (fun b => b =b x0a) (s ++ x0a :: rest) = s :: split_on (fun b => b =b x0a) rest.
Proof.
  induction s as [|b s IH]; [done|]. cbn [one_line forallb app split_on]. rewrite andb_true_iff, negb_true_iff.
  intros [-> Hs]. by rewrite IH.
Qed.

Lemma split_on_single s : one_line s = true -> split_on (fun b => b =b x0a) s = [s].
Proof.
  induction s as [|b s IH]; [done|]. cbn [one_line forallb split_on]. rewrite andb_true_iff, negb_true_iff.
  intros [-> Hs]. by rewrite IH.
Qed.

(** The JSONL export has one line per flow: its lines are exactly the
    rendered flows, oldest first, whatever the observed traffic contains,
    given that base64 text has no line feeds. *)
Theorem jsonl_one_line_per_flow `{Base64} (s : StoreSnapshot) :
  (forall t, one_line (base64_encode t) = true) -> snapshot_flows s <> [] ->
  split_on (fun b => b =b x0a) (to_jsonl s) = map to_json_line (snapshot_flows s).
Proof.
  intros Hb Hne. unfold to_jsonl. destruct (snapshot_flows s) as [|f fs]; [done|]. clear Hne.
  revert f; induction fs as [|g fs IH]; intros f; cbn [map join].
  - apply split_on_single. by apply one_line_flow.
  - cbn [app]. rewrite split_on_line by (by apply one_line_flow). f_equal. apply IH.
Qed.

(** Hexadecimal text in place of base64, for the example. *)
Definition hex_text : Base64 := {| base64_encode s := concat (map hex2 s) |}.

Lemma jsonl_one_line_per_flow_witness :
  split_on (fun b => b =b x0a)
    (@to_jsonl hex_text (mkSnapshot [demo_flow; demo_flow] 0))
  = map (@to_json_line hex_text) [demo_flow; demo_flow].
Proof.
  apply (@jsonl_one_line_per_flow hex_text (mkSnapshot [demo_flow; demo_flow] 0)); [|done].
  intros t. cbn [base64_encode hex_text]. induction t as [|b t IH]; [done|]. cbn [map concat]. by rewrite one_line_app, one_line_hex2, IH.
Defined.

(** ** Ordered maps *)

(** A total order given by a comparison. *)
Class Ordered {K} (cmp : K -> K -> comparison) : Prop := {
  cmp_eq a b : cmp a b = Eq <-> a = b;
  cmp_sym a b : cmp b a = CompOpp (cmp a b);
  cmp_trans a b c : cmp a b = Lt -> cmp b c = Lt -> cmp a c = Lt }.

#[export] Instance Z_ordered : Ordered Z.compare.
Proof.
  split; [apply Z.compare_eq_iff|intros; apply Z.compare_antisym|].
  intros a b c Hab Hbc. rewrite Z.compare_lt_iff in *. lia.
Qed.

#[export] Instance bytes_ordered : Ordered bytes_cmp.
Proof.
  split.
  - intros a; induction a as [|x a IH]; intros [|y b]; cbn; try done.
    destruct (Z.compare_spec (byte_val x) (byte_val y)) as [E|E|E].
    + apply byte_val_inj in E as ->. rewrite IH. split; [by intros ->|by intros [= ->]].
    + split; [done|]. intros [= -> _]. lia.
    + split; [done|]. intros [= -> _]. lia.
  - intros a; induction a as [|x a IH]; intros [|y b]; cbn; try done.
    rewrite (Z.compare_antisym (byte_val x) (byte_val y)).
    destruct (byte_val x ?= byte_val y); cbn; [apply IH|done|done].
  - intros a; induction a as [|x a IH]; intros [|y b] [|z c]; cbn; try done.
    destruct (Z.compare_spec (byte_val x) (byte_val y)), (Z.compare_spec (byte_val y) (byte_val z)),
      (Z.compare_spec (byte_val x) (byte_val z)); try done; try lia. apply IH.
Qed.

Section Tree.
Context {K V : Type} (cmp : K -> K -> comparison) `{!Ordered cmp}.
Implicit Types m : list (K * V).

Definition sorted m : Prop := StronglySorted (fun a b => cmp (fst a) (fst b) = Lt) m.

Lemma cmp_refl a : cmp a a = Eq.
Proof. by apply cmp_eq. Qed.

Lemma get_below k m :
  Forall (fun e => cmp k (fst e) = Lt) m -> btree_get cmp k m = None.
Proof.
  induction 1 as [|[k' v] m Hk _ IH]; [done|]. cbn in *. by rewrite Hk.
Qed.

Lemma get_update_same f k m :
  sorted m -> btree_get cmp k (btree_update cmp f k m) = Some (f (btree_get cmp k m)).
Proof.
  induction 1 as [|[k' v] m Hm IH Hk]; cbn; [by rewrite cmp_refl|].
  destruct (cmp k k') eqn:E; cbn.
  - by rewrite E.
  - rewrite cmp_refl. rewrite get_below; [done|]. eapply Forall_impl; [|exact Hk].
    intros [k2 v2] Hlt. cbn in *. by eapply cmp_trans.
  - by rewrite E.
Qed.

Lemma get_update_other f j k m : j <> k -> btree_get cmp j (btree_update cmp f k m) = btree_get cmp j m.
Proof.
  intros Hne. assert (cmp j k <> Eq) as Hjk by (by rewrite cmp_eq).
  induction m as [|[k' v] m IH]; cbn; [by destruct (cmp j k)|].
  destruct (cmp k k') eqn:E; cbn.
  - apply cmp_eq in E as ->. by destruct (cmp j k').
  - by destruct (cmp j k).
  - by destruct (cmp j k').
Qed.

Lemma update_keys (P : K * V -> Prop) f k m :
  (forall v, P (k, v)) -> (forall k' v v', P (k', v) -> P (k', v')) -> Forall P m -> Forall P (btree_update cmp f k m).
Proof.
  intros Hk Hv. induction 1 as [|[k' v] m Hm Hall IH]; cbn; [by repeat constructor|].
  destruct (cmp k k'); repeat constructor; eauto.
Qed.

Lemma sorted_update f k m : sorted m -> sorted (btree_update cmp f k m).
Proof.
  induction 1 as [|[k' v] m Hm IH Hk]; cbn; [by repeat constructor|].
  destruct (cmp k k') eqn:E.
  - constructor; [done|]. exact Hk.
  - constructor; [by constructor|]. constructor; [done|]. eapply Forall_impl; [|exact Hk].
    intros [k2 v2] Hlt. cbn in *. by eapply cmp_trans.
  - constructor; [exact IH|]. apply update_keys; [|done|done]. intros v'. cbn.
    rewrite cmp_sym, E. done.
Qed.

Lemma get_In k v m : sorted m -> In (k, v) m <-> btree_get cmp k m = Some v.
Proof.
  induction 1 as [|[k' v'] m Hm IH Hk]; cbn; [done|]. destruct (cmp k k') eqn:E.
  - apply cmp_eq in E as ->. split; [|intros [= ->]; by left]. intros [[= ->]|Hin]; [done|].
    rewrite List.Forall_forall in Hk. specialize (Hk _ Hin). cbn in Hk. by rewrite cmp_refl in Hk.
  - rewrite <- IH. split; [|by right]. intros [[= -> ->]|Hin]; [|done]. by rewrite cmp_refl in E.
  - rewrite <- IH. split; [|by right]. intros [[= -> ->]|Hin]; [|done]. by rewrite cmp_refl in E.
Qed.
End Tree.

(** ** The service map *)

(** The flows of a service, and how many of them satisfy [p]. *)
Definition flows_of (s : bytes) (fs : list StoredFlow) : list StoredFlow :=
  List.filter (fun f => service_of f =s s) fs.
Definition count (p : StoredFlow -> bool) (fs : list StoredFlow) : Z := blen (List.filter p fs).

(** What grouping by hand gives for a service: its flows, aggregated in order. *)
Definition group (s : bytes) (fs : list StoredFlow) : option Aggregate :=
  match flows_of s fs with
  | [] => None
  | gs => Some (fold_left (fun e f => aggregate f e) gs aggregate_default)
  end.

Lemma flows_of_snoc s fs f :
  flows_of s (fs ++ [f]) = flows_of s fs ++ (if service_of f =s s then [f] else []).
Proof. unfold flows_of. rewrite filter_app. cbn. by destruct (service_of f =s s). Qed.

Lemma group_snoc_same fs f :
  group (service_of f) (fs ++ [f]) = Some (aggregate f (default aggregate_default (group (service_of f) fs))).
Proof.
  unfold group. rewrite flows_of_snoc, bytes_eqb_refl.
  destruct (flows_of (service_of f) fs) as [|g gs]; [done|]. cbn [app]. by rewrite app_comm_cons, fold_left_app.
Qed.

Lemma group_snoc_other s fs f : service_of f <> s -> group s (fs ++ [f]) = group s fs.
Proof.
  intros Hne. unfold group. rewrite flows_of_snoc. apply bytes_eqb_neq in Hne as ->. by rewrite app_nil_r.
Qed.

Lemma aggregates_group fs :
  sorted bytes_cmp (aggregates fs) /\ forall s, btree_get bytes_cmp s (aggregates fs) = group s fs.
Proof.
  induction fs as [|f fs [IH1 IH2]] using rev_ind; [split; [constructor|done]|].
  unfold aggregates in *. rewrite fold_left_app. cbn [fold_left]. split; [by apply sorted_update; [apply _|]|].
  intros s. destruct (decide (s = service_of f)) as [->|Hne].
  - rewrite get_update_same by (done || apply _). by rewrite IH2, group_snoc_same.
  - rewrite get_update_other by (done || apply _). by rewrite IH2, group_snoc_other by congruence.
Qed.

Definition is_open (f : StoredFlow) : bool := bool_decide (flow_state (record f) = FlowOpen).
Definition is_failed (f : StoredFlow) : bool := bool_decide (flow_state (record f) = FlowFailed).
Definition reaches (u : bytes) (f : StoredFlow) : bool := Endpoint_display (upstream (record f)) =s u.

(** A counter of 64 bits. *)
Definition u64_count (n : Z) : Z := Z.min u64_max n.

Lemma count_snoc p fs f : count p (fs ++ [f]) = count p fs + u64_from (p f).
Proof. unfold count. rewrite filter_app, blen_app. cbn. by destruct (p f). Qed.

Lemma count_nonneg p fs : 0 <= count p fs.
Proof. apply blen_nonneg. Qed.

Lemma u64_count_add n b : 0 <= n -> sat_add (u64_count n) (u64_from b) = u64_count (n + u64_from b).
Proof. intros Hn. unfold sat_add, u64_count, u64_from, u64_max. destruct b; lia. Qed.

Definition totals (gs : list StoredFlow) : Aggregate := fold_left (fun e f => aggregate f e) gs aggregate_default.

Lemma totals_counts gs :
  agg_flows (totals gs) = u64_count (blen gs) /\
  agg_open (totals gs) = u64_count (count is_open gs) /\
  agg_failed (totals gs) = u64_count (count is_failed gs).
Proof.
  induction gs as [|f gs (IH1 & IH2 & IH3)] using rev_ind; [done|]. unfold totals in *.
  rewrite fold_left_app. cbn [fold_left aggregate agg_flows agg_open agg_failed]. rewrite IH1, IH2, IH3.
  rewrite !count_snoc, blen_app. fold (is_open f). fold (is_failed f).
  rewrite !u64_count_add by apply count_nonneg. split; [|done].
  change (sat_add (u64_count (blen gs)) (u64_from true) = u64_count (blen gs + u64_from true)).
  apply u64_count_add, blen_nonneg.
Qed.

Lemma totals_upstreams gs :
  sorted bytes_cmp (agg_upstreams (totals gs)) /\
  forall u, btree_get bytes_cmp u (agg_upstreams (totals gs))
            = if count (reaches u) gs =? 0 then None else Some (u64_count (count (reaches u) gs)).
Proof.
  induction gs as [|f gs [IH1 IH2]] using rev_ind; [split; [constructor|done]|]. unfold totals in *.
  rewrite fold_left_app. cbn [fold_left aggregate agg_upstreams]. split; [by apply sorted_update; [apply _|]|].
  intros u. rewrite count_snoc. pose proof (count_nonneg (reaches u) gs) as Hn.
  destruct (decide (u = Endpoint_display (upstream (record f)))) as [->|Hne].
  - rewrite get_update_same by (done || apply _). rewrite IH2.
    assert (reaches (Endpoint_display (upstream (record f))) f = true) as -> by apply bytes_eqb_refl. cbn [u64_from].
    destruct (Z.eqb_spec (count (reaches (Endpoint_display (upstream (record f)))) gs + 1) 0); [lia|]. f_equal.
    change 1 with (u64_from true). rewrite <- u64_count_add by done. f_equal.
    destruct (Z.eqb_spec (count (reaches (Endpoint_display (upstream (record f)))) gs) 0) as [->|]; done.
  - rewrite get_update_other by (done || apply _). rewrite IH2.
    assert (reaches u f = false) as -> by (apply bytes_eqb_neq; congruence). cbn [u64_from]. by rewrite Z.add_0_r.
Qed.

(** The service map is the grouping of the retained flows by service: its
    nodes are strictly ordered by name; there is a node for a service exactly
    when a retained flow belongs to it; and the node counts exactly its flows,
    the open and the failed ones, and the flows to each upstream it reaches
    (counters saturate at 64 bits). *)
Theorem service_map_exact (s : StoreSnapshot) :
  StronglySorted (fun a b => bytes_cmp a b = Lt) (map node_service (service_map s)) /\
  (forall name, In name (map node_service (service_map s)) <-> flows_of name (snapshot_flows s) <> []) /\
  Forall (fun n =>
    let gs := flows_of (node_service n) (snapshot_flows s) in
    node_flows n = u64_count (blen gs) /\ node_open n = u64_count (count is_open gs) /\
    node_failed n = u64_count (count is_failed gs) /\
    forall u k, In (mkEdge u k) (node_upstreams n) <->
                count (reaches u) gs <> 0 /\ k = u64_count (count (reaches u) gs)) (service_map s).
Proof.
  destruct (aggregates_group (snapshot_flows s)) as [Hsort Hget]. unfold service_map.
  assert (Hnames : map node_service (map node (aggregates (snapshot_flows s))) = map fst (aggregates (snapshot_flows s))).
  { rewrite map_map. apply map_ext. by intros [k a]. }
  split; [|split].
  - rewrite Hnames. clear - Hsort. induction Hsort as [|[k a] m Hm IH Hk]; constructor; [done|].
    apply List.Forall_map. exact Hk.
  - intros name. rewrite Hnames, in_map_iff. split.
    + intros ([k a] & <- & Hin). apply (get_In bytes_cmp) in Hin; [|done]. rewrite Hget in Hin.
      cbn. unfold group in Hin. by destruct (flows_of k (snapshot_flows s)).
    + intros Hne. specialize (Hget name). unfold group in Hget. destruct (flows_of name (snapshot_flows s)) as [|g gs]; [done|].
      eexists (name, _). split; [done|]. apply (get_In bytes_cmp); [done|exact Hget].
  - apply List.Forall_map, List.Forall_forall. intros [k a] Hin. cbn [node node_service node_flows node_open node_failed node_upstreams].
    apply (get_In bytes_cmp) in Hin; [|done]. rewrite Hget in Hin. unfold group in Hin.
    assert (a = totals (flows_of k (snapshot_flows s))) as ->.
    { unfold totals. destruct (flows_of k (snapshot_flows s)); [done|]. by injection Hin as <-. }
    destruct (totals_counts (flows_of k (snapshot_flows s))) as (-> & -> & ->). split; [done|]. split; [done|]. split; [done|].
    destruct (totals_upstreams (flows_of k (snapshot_flows s))) as [Hs Hu]. intros u c. rewrite in_map_iff. split.
    + intros ([u' c'] & [= -> ->] & He). apply (get_In bytes_cmp) in He; [|done]. rewrite Hu in He.
      destruct (Z.eqb_spec (count (reaches u) (flows_of k (snapshot_flows s))) 0); [done|]. by injection He as <-.
    + intros [Hne ->]. exists (u, u64_count (count (reaches u) (flows_of k (snapshot_flows s)))). split; [done|].
      apply (get_In bytes_cmp); [done|]. rewrite Hu. by destruct (Z.eqb_spec (count (reaches u) (flows_of k (snapshot_flows s))) 0).
Qed.
