(* ===== verification/Replay.v ===== *)
(** * Replay: replaying captured requests, [crates/lens-replay].

    Selecting a request in an export, reconstructing it, the guards that stand
    before execution, and the comparison with the captured answer.  The HTTP
    types ([http]), JSON ([serde_json]), base64 and the HTTP client ([ureq])
    are parameters. *)

From S2P Require Import Prelude RustStd Net Core Protocol Redact Store.
Import Store.
#[local] Open Scope lens_scope.

Module Replay.

Definition MAX_CAPTURE_BYTES : Z := 32 * 1024 * 1024.
Definition MAX_REPLAY_BODY_BYTES : Z := 1024 * 1024.
Definition MAX_RESPONSE_BODY_BYTES : Z := 1024 * 1024.
Definition REDACTED : bytes := lit "[REDACTED]".

Abbreviation HeaderList := (list (bytes * bytes)).

(** ** Captures *)

Record CaptureMessage := mkCapture {
  cap_direction : option bytes; cap_summary : bytes; cap_body : bytes;
  wire_base64 : option bytes; cap_truncated : bool; cap_sensitivity : bytes }.

Record CaptureFlow := mkCaptureFlow {
  cap_flow_id : Z; cap_protocol : option bytes; cap_messages : list CaptureMessage }.

(** [serde_json] on captures: a text as a list of flows or as one flow, and a
    text as a value, which may have flows and may be a document or a flow. *)
Class Serde := {
  json_value : Type;
  flows_from_str : bytes -> result (list CaptureFlow);
  value_from_str : bytes -> result json_value;
  has_flows : json_value -> bool;
  document_from_value : json_value -> result (list CaptureFlow);
  flow_from_value : json_value -> result CaptureFlow;
  flow_from_str : bytes -> result CaptureFlow }.

(** Base64 with its decoder. *)
Class Base64Decode := { base64_decode : bytes -> result bytes }.

Record ReplaySelection := mkSelection { sel_flow_id : option Z; sel_request : Z }.

Definition selection_new (flow_id : option Z) (request : Z) : result ReplaySelection :=
  if request =? 0 then Err (lit "request index must be at least 1") else Ok (mkSelection flow_id request).

Record ReplayPolicy := mkPolicy {
  allow_unsafe : bool; allow_secrets : bool; allow_redacted : bool; allow_remote : bool; timeout : Z }.
Definition policy_default : ReplayPolicy := mkPolicy false false false false (10 * 10 ^ 9).

Record CapturedResponse := mkResponse {
  resp_status : Z; resp_body : bytes; resp_truncated : bool; resp_redacted : bool; resp_legacy : bool }.

Record ReplayPlan := mkPlan {
  flow : Z; request : Z; method : bytes; path_query : bytes; plan_headers : HeaderList; plan_body : bytes;
  plan_truncated : bool; plan_sensitivity : bytes; redacted : bool; legacy_text_encoding : bool;
  response : option CapturedResponse }.

Definition header_names (p : ReplayPlan) : list bytes := map fst (plan_headers p).
Definition captured_status (p : ReplayPlan) : option Z := resp_status <$> response p.

(** ** Parsing *)

Definition is_hop_by_hop (name : bytes) : bool :=
  existsb (fun n => name =s lit n)
    ["connection"; "content-length"; "host"; "keep-alive"; "proxy-authenticate"; "proxy-authorization";
     "proxy-connection"; "te"; "trailer"; "transfer-encoding"; "upgrade"]%string.

Definition is_preview_safe_method (method : bytes) : bool :=
  existsb (fun n => method =s lit n) ["GET"; "HEAD"; "OPTIONS"]%string.

(** The lines of a head. *)
Fixpoint parse_header_lines (ls : list bytes) : result HeaderList :=
  match ls with
  | [] => Ok []
  | l :: ls =>
      match split_once ":"%byte l with
      | None => Err (lit "captured header line is invalid")
      | Some (name, value) => let? hs := parse_header_lines ls in Ok ((trim name, trim value) :: hs)
      end
  end.

Definition parse_wire (wire : bytes) : result (HeaderList * bytes) :=
  match find_bytes wire (crlf ++ crlf) with
  | None => Err (lit "captured message has no header/body boundary")
  | Some boundary =>
      match from_utf8 (take boundary wire) with
      | None => Err (lit "captured headers are not valid UTF-8")
      | Some head =>
          let? hs := match head with [] => Ok [] | _ => parse_header_lines (split_crlf head) end in
          Ok (hs, drop (boundary + 4) wire)
      end
  end.

Definition status_from_line (summary : bytes) : option Z :=
  match split_whitespace summary with
  | version :: status :: _ =>
      match parse_unsigned 10 u16_max status with
      | Some status => if starts_with (lit "HTTP/1.") version then Some status else None
      | None => None
      end
  | _ => None
  end.

Definition wire_contains_redaction (wire : bytes) : bool := contains REDACTED wire.

Definition connection_tokens (hs : HeaderList) : list bytes :=
  concat (map (fun '(name, value) =>
    if eq_ignore_ascii_case name (lit "connection")
    then map (fun v => to_ascii_lowercase (trim v)) (split_on (fun b => b =b ","%byte) value) else []) hs).

(** Whether a header belongs to the captured hop and not to the request. *)
Definition dropped (tokens : list bytes) (name : bytes) : bool :=
  let lower := to_ascii_lowercase name in
  is_hop_by_hop lower || existsb (fun token => token =s lower) tokens || starts_with (lit "lens-") lower.

Definition is_terminal (m : CaptureMessage) : bool :=
  match cap_direction m with Some d => d =s lit "server_to_client" | None => false end
  && match status_from_line (cap_summary m) with Some status => (200 <=? status) || (status =? 101) | None => false end.

Definition terminal_responses (f : CaptureFlow) : list CaptureMessage := List.filter is_terminal (cap_messages f).

Definition is_request (m : CaptureMessage) : bool :=
  match cap_direction m with Some d => d =s lit "client_to_server" | None => false end.

Section Plans.
Context `{Http} `{Base64Decode}.

Fixpoint keep_headers (tokens : list bytes) (hs : HeaderList) : result HeaderList :=
  match hs with
  | [] => Ok []
  | (name, value) :: hs =>
      if dropped tokens name then keep_headers tokens hs
      else if negb (header_name_ok name) then Err (lit "invalid captured header name: " ++ name)
      else if negb (header_value_ok value) then Err (lit "invalid captured value for header " ++ name)
      else let? kept := keep_headers tokens hs in Ok ((name, value) :: kept)
  end.

Definition replay_headers (hs : HeaderList) : result HeaderList := keep_headers (connection_tokens hs) hs.

Definition is_http_scheme (u : uri) : bool :=
  match scheme_str u with Some s => (s =s lit "http") || (s =s lit "https") | None => false end.

Definition not_origin_form : bytes :=
  lit "captured request is not an origin-form or absolute-form HTTP request".

Definition parse_request_line (summary : bytes) : result (bytes * bytes) :=
  match split_whitespace summary with
  | [method; target; version] =>
      if negb (starts_with (lit "HTTP/1.") version) then Err (lit "captured request line is invalid")
      else if negb (method_ok method) then Err (lit "captured HTTP method is invalid")
      else
        let? path :=
          if starts_with (lit "/") target then Ok target
          else
            match uri_parse target with
            | None => Err (lit "captured request target is invalid")
            | Some u =>
                if negb (is_http_scheme u) || match authority u with None => true | Some _ => false end
                then Err not_origin_form
                else ok_or (path_and_query u) (lit "captured request has no path")
            end in
        if negb (starts_with (lit "/") path) then Err not_origin_form else Ok (method, path)
  | _ => Err (lit "captured request line is invalid")
  end.

Definition decode_wire (m : CaptureMessage) : result (bytes * bool) :=
  match wire_base64 m with
  | Some value =>
      match base64_decode value with
      | Ok s => Ok (s, false)
      | Err error => Err (lit "invalid wire_base64: " ++ error)
      end
  | None => Ok (cap_body m, true)
  end.

Definition captured_response (m : CaptureMessage) : result CapturedResponse :=
  let? status := ok_or (status_from_line (cap_summary m)) (lit "captured response has an invalid status line") in
  let? '(wire, legacy) := decode_wire m in
  let? '(_, body) := parse_wire wire in
  Ok (mkResponse status body (cap_truncated m)
        ((cap_sensitivity m =s lit "redacted") || wire_contains_redaction wire) legacy).

Definition plan_from_flow (f : CaptureFlow) (request_index : Z) : result ReplayPlan :=
  if request_index =? 0 then Err (lit "request index must be at least 1")
  else
    let requests := List.filter is_request (cap_messages f) in
    let? request :=
      ok_or (requests !! Z.to_nat (request_index - 1))
        (lit "HTTP flow " ++ dec (cap_flow_id f) ++ lit " has " ++ dec (blen requests)
         ++ lit " request(s); request " ++ dec request_index ++ lit " does not exist") in
    let? '(method, path) := parse_request_line (cap_summary request) in
    let? '(wire, legacy) := decode_wire request in
    let? '(hs, body) := parse_wire wire in
    if MAX_REPLAY_BODY_BYTES <? blen body then
      Err (lit "captured request body exceeds the " ++ dec (MAX_REPLAY_BODY_BYTES / 1024 / 1024)
           ++ lit " MiB replay limit")
    else
      let? hs := replay_headers hs in
      let red := (cap_sensitivity request =s lit "redacted") || contains REDACTED (cap_summary request)
                 || wire_contains_redaction wire in
      let? resp :=
        match terminal_responses f !! Z.to_nat (request_index - 1) with
        | Some m => let? r := captured_response m in Ok (Some r)
        | None => Ok None
        end in
      Ok (mkPlan (cap_flow_id f) request_index method path hs body (cap_truncated request)
            (cap_sensitivity request) red legacy resp).

(** ** Guards *)

Definition parse_target_origin (target : bytes) : result uri :=
  match uri_parse target with
  | None => Err (lit "target must be an HTTP(S) origin URL")
  | Some u =>
      if negb (is_http_scheme u) || match authority u with None => true | Some _ => false end then
        Err (lit "target must be an HTTP(S) origin URL")
      else if match authority u with Some a => existsb (fun b => b =b "@"%byte) a | None => false end then
        Err (lit "target must not contain user information")
      else if match path_and_query u with Some p => negb (p =s lit "/") | None => false end then
        Err (lit "target must be an origin without a path or query")
      else Ok u
  end.

Definition is_loopback_target (u : uri) : bool :=
  match uri_host u with
  | None => false
  | Some host => eq_ignore_ascii_case host (lit "localhost")
                 || match IpAddr.parse host with Some a => IpAddr.is_loopback a | None => false end
  end.

Definition origin (u : uri) : ended bytes :=
  expect scheme := scheme_str u with "validated target scheme" in
  expect authority := authority u with "validated target authority" in
  Finished (scheme ++ lit "://" ++ authority).

(** The URL with [rest] behind the origin of a valid target. *)
Definition origin_url (target rest : bytes) : ended (result bytes) :=
  match parse_target_origin target with
  | Err e => Finished (Err e)
  | Ok u => ended_bind (origin u) (fun o => Finished (Ok (o ++ rest)))
  end.

Definition target_url (p : ReplayPlan) (target : bytes) : ended (result bytes) := origin_url target (path_query p).

Definition preview_target_url (p : ReplayPlan) (target : bytes) : ended (result bytes) :=
  if negb (plan_sensitivity p =s lit "secret") then target_url p target
  else origin_url target (lit "/[secret path omitted]").

Definition validate_execution (p : ReplayPlan) (target : bytes) (policy : ReplayPolicy) : ended (result bytes) :=
  match parse_target_origin target with
  | Err e => Finished (Err e)
  | Ok u =>
      if negb (is_loopback_target u) && negb (allow_remote policy) then
        Finished (Err (lit "remote replay target requires --allow-remote"))
      else if plan_truncated p then
        Finished (Err (lit "truncated requests cannot be replayed; capture again with a sufficient --max-body"))
      else if legacy_text_encoding p then
        Finished (Err (lit "legacy text-only exports are preview-only; capture again with the current Lens version"))
      else if (plan_sensitivity p =s lit "secret") && negb (allow_secrets policy) then
        Finished (Err (lit "secret-bearing capture requires --allow-secrets"))
      else if redacted p && negb (allow_redacted policy) then
        Finished (Err (lit "redacted request requires --allow-redacted to send placeholders"))
      else if negb (is_preview_safe_method (method p)) && negb (allow_unsafe policy) then
        Finished (Err (method p ++ lit " may change server state; execution requires --allow-unsafe"))
      else target_url p target
  end.
End Plans.

(** ** Selecting a flow *)

Section Captures.
Context `{Http} `{Base64Decode} `{Serde}.

Fixpoint parse_lines (ls : list bytes) (index : Z) : result (list CaptureFlow) :=
  match ls with
  | [] => Ok []
  | l :: ls =>
      match trim l with
      | [] => parse_lines ls (index + 1)
      | _ =>
          match flow_from_str l with
          | Ok f => let? fs := parse_lines ls (index + 1) in Ok (f :: fs)
          | Err error => Err (lit "invalid JSONL flow on line " ++ dec (index + 1) ++ lit ": " ++ error)
          end
      end
  end.

Definition parse_jsonl (text : bytes) : result (list CaptureFlow) :=
  let? fs := parse_lines (lines text) 0 in
  match fs with [] => Err (lit "capture is empty") | _ => Ok fs end.

Definition parse_flows (contents : bytes) : result (list CaptureFlow) :=
  match from_utf8 contents with
  | None => Err (lit "capture is not valid UTF-8 JSON")
  | Some text =>
      if starts_with (lit "[") (trim_start text) then
        match flows_from_str text with
        | Ok fs => Ok fs
        | Err error => Err (lit "invalid capture JSON: " ++ error)
        end
      else if starts_with (lit "{") (trim_start text) then
        match value_from_str text with
        | Ok value =>
            if has_flows value then
              match document_from_value value with
              | Ok fs => Ok fs
              | Err error => Err (lit "invalid snapshot JSON: " ++ error)
              end
            else match flow_from_value value with
                 | Ok f => Ok [f]
                 | Err error => Err (lit "invalid flow JSON: " ++ error)
                 end
        | Err _ => parse_jsonl text
        end
      else parse_jsonl text
  end.

Definition is_http1 (f : CaptureFlow) : bool :=
  match cap_protocol f with Some p => p =s lit "http1" | None => false end.

Definition parse_plan (contents : bytes) (selection : ReplaySelection) : result ReplayPlan :=
  if MAX_CAPTURE_BYTES <? blen contents then Err (lit "capture exceeds replay input limit")
  else
    let? flows := parse_flows contents in
    let candidates := List.filter is_http1 flows in
    let? f :=
      match sel_flow_id selection with
      | Some id => ok_or (List.find (fun f => cap_flow_id f =? id) candidates)
                     (lit "HTTP flow " ++ dec id ++ lit " was not found")
      | None =>
          match candidates with
          | [f] => Ok f
          | [] => Err (lit "capture contains no HTTP/1 flows")
          | _ => Err (lit "capture contains multiple HTTP/1 flows; select one with --flow")
          end
      end in
    plan_from_flow f (sel_request selection).

(** The file system: the size and the contents of a file. *)
Class Files := { metadata_len : bytes -> result Z; read_file : bytes -> result bytes }.

Definition load_plan `{Files} (path : bytes) (selection : ReplaySelection) : result ReplayPlan :=
  match metadata_len path with
  | Err error => Err (lit "cannot read capture " ++ path ++ lit ": " ++ error)
  | Ok len =>
      if MAX_CAPTURE_BYTES <? len then
        Err (lit "capture exceeds the " ++ dec (MAX_CAPTURE_BYTES / 1024 / 1024) ++ lit " MiB replay input limit")
      else
        match read_file path with
        | Err error => Err (lit "cannot read capture " ++ path ++ lit ": " ++ error)
        | Ok contents => parse_plan contents selection
        end
  end.
End Captures.

(** ** Execution *)

Inductive MatchState := Match | Different | Unavailable (reason : bytes).

Definition MatchState_display (m : MatchState) : bytes :=
  match m with
  | Match => lit "match"
  | Different => lit "different"
  | Unavailable reason => lit "unavailable (" ++ reason ++ lit ")"
  end.

Definition compare_body (captured : option CapturedResponse) (replayed : bytes) (replayed_truncated : bool) :
    MatchState :=
  match captured with
  | None => Unavailable (lit "capture has no terminal response")
  | Some c =>
      if resp_truncated c || replayed_truncated then Unavailable (lit "a response body is truncated")
      else if resp_redacted c then Unavailable (lit "captured response is redacted")
      else if resp_legacy c then Unavailable (lit "capture uses legacy text encoding")
      else if resp_body c =s replayed then Match else Different
  end.

Record ReplayReport := mkReport {
  report_url : bytes; report_status : Z; elapsed_ms : Z; report_captured : option Z;
  status_match : MatchState; body_match : MatchState; response_truncated : bool }.

(** The HTTP client: a request without redirects, answered with a status and
    the contents of the body (which may fail to be read), or not answered. *)
Class Client := {
  send : bytes -> bytes -> HeaderList -> bytes -> option (Z * result bytes) }.

(** The answer is read up to one byte over the cap; [elapsed] is what the
    clock says. *)
Definition execute `{Http} `{Client} (p : ReplayPlan) (target : bytes) (policy : ReplayPolicy) (elapsed : Z) :
    ended (result ReplayReport) :=
  ended_bind (validate_execution p target policy) (fun validated => Finished
    (let? url := validated in
     match send (method p) url (plan_headers p) (plan_body p) with
     | None => Err (lit "request failed before receiving an HTTP response")
     | Some (status, contents) =>
         match contents with
         | Err error => Err (lit "failed to read response: " ++ error)
         | Ok contents =>
             let body := take (Z.to_nat (MAX_RESPONSE_BODY_BYTES + 1)) contents in
             let truncated := MAX_RESPONSE_BODY_BYTES <? blen body in
             let body := take (Z.to_nat MAX_RESPONSE_BODY_BYTES) body in
             let status_match :=
               match captured_status p with
               | Some expected => if expected =? status then Match else Different
               | None => Unavailable (lit "capture has no terminal response")
               end in
             Ok (mkReport url status elapsed (captured_status p) status_match
                   (compare_body (response p) body truncated) truncated)
         end
     end)).

(** ** What execution requires *)

Section Guards.
Context `{Http}.

(** A target that names a server and nothing else: an HTTP scheme, an
    authority without user information, and no path but the root. *)
Definition origin_target (target : bytes) (u : uri) (scheme server : bytes) : Prop :=
  uri_parse target = Some u /\ scheme_str u = Some scheme /\ (scheme = lit "http" \/ scheme = lit "https") /\
  authority u = Some server /\ ~ In "@"%byte server /\
  (path_and_query u = None \/ path_and_query u = Some (lit "/")).

Lemma at_sign s : existsb (fun b => b =b "@"%byte) s = false <-> ~ In "@"%byte s.
Proof.
  rewrite <- not_true_iff_false, existsb_exists. split; intros H1 H2; apply H1.
  - by exists "@"%byte.
  - destruct H2 as (b & Hb & E). by apply byte_eqb_eq in E as ->.
Qed.

Lemma http_scheme_spec u :
  is_http_scheme u = true <-> exists s, scheme_str u = Some s /\ (s = lit "http" \/ s = lit "https").
Proof.
  unfold is_http_scheme. destruct (scheme_str u) as [s|].
  - rewrite orb_true_iff, !bytes_eqb_eq. split; [eauto|]. by intros (t & [= <-] & Ht).
  - split; [done|]. by intros (t & [=] & _).
Qed.

(** A target is accepted exactly when it is one of those. *)
Lemma parse_target_origin_ok target u :
  parse_target_origin target = Ok u <-> exists scheme server, origin_target target u scheme server.
Proof.
  unfold parse_target_origin, origin_target. destruct (uri_parse target) as [u'|]; [|by split; [|intros (? & ? & ? & _)]].
  destruct (is_http_scheme u') eqn:Es; cbn [negb orb].
  2: { split; [done|]. intros (s & a & [= ->] & Hs & Hh & _). assert (is_http_scheme u = true) by (apply http_scheme_spec; eauto). congruence. }
  apply http_scheme_spec in Es as (s & Es & Hh).
  destruct (authority u') as [a|] eqn:Ea; [|split; [done|]; intros (? & ? & [= ->] & _ & _ & Ha & _); congruence].
  destruct (existsb _ a) eqn:Eat.
  { split; [done|]. intros (? & a' & [= ->] & _ & _ & Ha & Hat & _). apply at_sign in Hat. congruence. }
  apply at_sign in Eat.
  destruct (path_and_query u') as [p|] eqn:Ep; [destruct (p =s lit "/") eqn:Epp; cbn [negb]|].
  - apply bytes_eqb_eq in Epp as ->. split; [|by intros (? & ? & [= <-] & _)]. intros [= <-]. exists s, a. rewrite Ep. naive_solver.
  - apply bytes_eqb_neq in Epp. split; [done|]. intros (? & ? & [= <-] & _ & _ & _ & _ & [Hp|Hp]); congruence.
  - split; [|by intros (? & ? & [= <-] & _)]. intros [= <-]. exists s, a. rewrite Ep. naive_solver.
Qed.

(** What a valid target's origin is; nothing it takes to be there is missing. *)
Lemma origin_of_target target u scheme server :
  origin_target target u scheme server -> origin u = Finished (scheme ++ lit "://" ++ server).
Proof. intros (_ & Hs & _ & Ha & _). unfold origin. by rewrite Hs, Ha. Qed.

Lemma origin_url_sound target rest q : origin_url target rest <> Panicked q.
Proof.
  unfold origin_url. destruct (parse_target_origin target) as [u|] eqn:E; [|done].
  apply parse_target_origin_ok in E as (s & a & Ht). by rewrite (origin_of_target _ _ _ _ Ht).
Qed.

Lemma validate_execution_sound p target policy q : validate_execution p target policy <> Panicked q.
Proof. unfold validate_execution. repeat (case_match; try done). apply origin_url_sound. Qed.

Lemma preview_target_url_sound p target q : preview_target_url p target <> Panicked q.
Proof. unfold preview_target_url, target_url. destruct (negb _); apply origin_url_sound. Qed.

(** The hosts that are this machine: [localhost] in any letter case, an IPv4
    address of 127.0.0.0/8 and the IPv6 address 1, written without brackets. *)
Definition local_host (host : bytes) : Prop :=
  to_ascii_lowercase host = lit "localhost" \/
  (exists b c d, IpAddr.parse host = Some (IpAddr.V4 127 b c d)) \/
  IpAddr.parse host = Some (IpAddr.V6 [0; 0; 0; 0; 0; 0; 0; 1]).

Lemma loopback_target_spec u :
  is_loopback_target u = true <-> exists host, uri_host u = Some host /\ local_host host.
Proof.
  unfold is_loopback_target, local_host. destruct (uri_host u) as [host|]; [|split; [done|by intros (? & [=] & _)]].
  rewrite orb_true_iff. unfold eq_ignore_ascii_case. rewrite bytes_eqb_eq.
  change (to_ascii_lowercase (lit "localhost")) with (lit "localhost"). split.
  - intros H1. exists host. split; [done|]. destruct H1 as [H1|H1]; [by left|right].
    destruct (IpAddr.parse host) as [[a b c d|gs]|]; [| |done]; cbn in H1.
    + apply Z.eqb_eq in H1 as ->. left. eauto.
    + apply bool_decide_eq_true in H1 as ->. by right.
  - intros (h & [= <-] & [H1|[(b & c & d & ->)| ->]]); [by left|by right..].
Qed.

Lemma safe_method_spec m :
  is_preview_safe_method m = true <-> m = lit "GET" \/ m = lit "HEAD" \/ m = lit "OPTIONS".
Proof. unfold is_preview_safe_method. cbn [existsb]. rewrite !orb_true_iff, !bytes_eqb_eq. intuition congruence. Qed.

(** What stands between a plan and the network. *)
Definition permitted (p : ReplayPlan) (policy : ReplayPolicy) (u : uri) : Prop :=
  ((exists host, uri_host u = Some host /\ local_host host) \/ allow_remote policy = true) /\
  plan_truncated p = false /\ legacy_text_encoding p = false /\
  (plan_sensitivity p <> lit "secret" \/ allow_secrets policy = true) /\
  (redacted p = false \/ allow_redacted policy = true) /\
  ((method p = lit "GET" \/ method p = lit "HEAD" \/ method p = lit "OPTIONS") \/ allow_unsafe policy = true).

Lemma guard_split (a b : bool) : negb a && negb b = false <-> a = true \/ b = true.
Proof. destruct a, b; cbn; intuition congruence. Qed.

Lemma guard_split' (a b : bool) : a && negb b = false <-> a = false \/ b = true.
Proof. destruct a, b; cbn; intuition congruence. Qed.
End Guards.

(** C20. Replay is guarded: executing a plan is accepted exactly when the
    target is a plain origin ([http] or [https], an authority without user
    information, no path but the root, no query) whose host is this machine
    ([localhost], an address of 127.0.0.0/8 or an unbracketed IPv6 loopback
    address) or remote targets are allowed, and the request is whole, not from
    a text-only export, and free of secrets, of redaction placeholders and of
    methods other than GET, HEAD and OPTIONS unless each is explicitly allowed;
    the URL is then the origin with the captured path, nothing the validation
    takes to be there is missing, and without acceptance no client is asked. *)
Theorem replay_guarded `{Http} (p : ReplayPlan) (target : bytes) (policy : ReplayPolicy) :
  (forall url, validate_execution p target policy = Finished (Ok url) <->
     exists u scheme server, origin_target target u scheme server /\ permitted p policy u /\
       url = scheme ++ lit "://" ++ server ++ path_query p) /\
  (forall q, validate_execution p target policy <> Panicked q) /\
  (forall reason client elapsed, validate_execution p target policy = Finished (Err reason) ->
     @execute _ client p target policy elapsed = Finished (Err reason)).
Proof.
  split; [|split; [apply validate_execution_sound|intros reason client elapsed E; unfold execute; by rewrite E]].
  intros url. unfold validate_execution, target_url, origin_url, permitted.
  destruct (parse_target_origin target) as [u|r] eqn:Et.
  2: { split; [done|]. intros (u & s & a & Hu & _).
       assert (parse_target_origin target = Ok u) by (apply parse_target_origin_ok; eauto). congruence. }
  apply parse_target_origin_ok in Et as (s & a & Et). rewrite (origin_of_target _ _ _ _ Et). cbn [ended_bind].
  rewrite <- !app_assoc.
  split.
  - destruct (negb (is_loopback_target u) && _) eqn:E1; [done|]. destruct (plan_truncated p) eqn:E2; [done|].
    destruct (legacy_text_encoding p) eqn:E3; [done|]. destruct ((plan_sensitivity p =s _) && _) eqn:E4; [done|].
    destruct (redacted p && _) eqn:E5; [done|]. destruct (negb (is_preview_safe_method _) && _) eqn:E6; [done|].
    intros [= <-]. exists u, s, a. rewrite guard_split in E1, E6. rewrite guard_split' in E4, E5.
    rewrite bytes_eqb_neq in E4. rewrite loopback_target_spec in E1. rewrite safe_method_spec in E6. done.
  - intros (u' & s' & a' & Hu & (K1 & K2 & K3 & K4 & K5 & K6) & ->).
    assert (u' = u /\ s' = s /\ a' = a) as (-> & -> & ->).
    { destruct Et as (U & S & _ & A & _), Hu as (U' & S' & _ & A' & _). simplify_eq. by simplify_eq. }
    rewrite <- loopback_target_spec, <- guard_split in K1. rewrite <- safe_method_spec, <- guard_split in K6.
    rewrite <- bytes_eqb_neq in K4. rewrite <- guard_split' in K4, K5. by rewrite K1, K2, K3, K4, K5, K6.
Qed.

(** ** The wire form of a captured message

    The store keeps a message as [render] writes it; replay reads it back. *)













(** ** From the store back to a request *)

Section Reconstruction.
Context `{Http} `{Base64} `{Base64Decode}.

(** The fields of an exported message that replay reads. *)
Definition capture_of (r : MessageRecord) : CaptureMessage :=
  mkCapture (direction_text (msg_envelope r)) (msg_summary r) (from_utf8_lossy (msg_body r))
    (Some (base64_encode (msg_body r))) (msg_truncated r) (Sensitivity_display (sensitivity (msg_envelope r))).

Definition exported (id : FlowId) (protocol : option bytes) (rs : list MessageRecord) : CaptureFlow :=
  mkCaptureFlow id protocol (map capture_of rs).

Definition goes (d : Direction) (r : MessageRecord) : bool := bool_decide (env_direction (msg_envelope r) = Some d).

(** Requests and final answers of the stored messages. *)
Definition stored_requests (rs : list MessageRecord) : list MessageRecord := List.filter (goes ClientToServer) rs.
Definition final (r : MessageRecord) : bool :=
  goes ServerToClient r
  && match status_from_line (msg_summary r) with Some s => (200 <=? s) || (s =? 101) | None => false end.
Definition stored_answers (rs : list MessageRecord) : list MessageRecord := List.filter final rs.

Lemma goes_direction d r :
  match cap_direction (capture_of r) with Some t => t =s Direction_display d | None => false end = goes d r.
Proof.
  unfold goes, capture_of, direction_text. cbn [cap_direction].
  by destruct (env_direction (msg_envelope r)) as [[]|], d.
Qed.

Lemma exported_requests id protocol rs :
  List.filter is_request (cap_messages (exported id protocol rs)) = map capture_of (stored_requests rs).
Proof.
  unfold exported, stored_requests. cbn [cap_messages]. induction rs as [|r rs IH]; [done|].
  cbn [map List.filter]. pose proof (goes_direction ClientToServer r) as E. unfold is_request.
  cbn [Direction_display] in E. rewrite E. destruct (goes ClientToServer r); cbn [map]; by rewrite <- IH.
Qed.

Lemma exported_answers id protocol rs :
  terminal_responses (exported id protocol rs) = map capture_of (stored_answers rs).
Proof.
  unfold terminal_responses, exported, stored_answers. cbn [cap_messages]. induction rs as [|r rs IH]; [done|].
  cbn [map List.filter]. pose proof (goes_direction ServerToClient r) as E. unfold is_terminal at 1.
  cbn [Direction_display] in E. rewrite E. fold (final r).
  change (goes ServerToClient r && _) with (final r). destruct (final r); cbn [map]; by rewrite <- IH.
Qed.


(** The headers of one hop, RFC 9110: those of the connection, the framing and
    the host that the new request gets of its own. *)
Definition hop_headers : list bytes :=
  map lit ["connection"; "content-length"; "host"; "keep-alive"; "proxy-authenticate"; "proxy-authorization";
           "proxy-connection"; "te"; "trailer"; "transfer-encoding"; "upgrade"]%string.

(** The names that the [Connection] headers nominate. *)
Definition nominated (hs : HeaderList) (name : bytes) : Prop :=
  exists h token, In h hs /\ to_ascii_lowercase (fst h) = lit "connection" /\
    In token (split_on (fun b => b =b ","%byte) (snd h)) /\ to_ascii_lowercase (trim token) = name.

(** A header that belongs to the request and not to the captured hop: neither
    a hop header, nor nominated by a [Connection] header, nor one that the
    decoder added; names are compared in any letter case. *)
Definition end_to_end (hs : HeaderList) (h : bytes * bytes) : Prop :=
  let name := to_ascii_lowercase (fst h) in
  ~ In name hop_headers /\ ~ nominated hs name /\ ~ (exists r, name = lit "lens-" ++ r).

Lemma connection_tokens_spec hs name :
  existsb (fun token => token =s name) (connection_tokens hs) = true <-> nominated hs name.
Proof.
  unfold connection_tokens, nominated. rewrite existsb_exists. setoid_rewrite in_concat. setoid_rewrite in_map_iff.
  split.
  - intros (t & (l & (h & <- & Hh) & Ht) & E). apply bytes_eqb_eq in E as <-. destruct h as [n v].
    unfold eq_ignore_ascii_case in Ht. destruct (_ =s _) eqn:En; [|done]. apply bytes_eqb_eq in En.
    apply in_map_iff in Ht as (token & <- & Hin). exists (n, v), token. done.
  - intros ([n v] & token & Hh & En & Hin & <-). cbn [fst snd] in *.
    exists (to_ascii_lowercase (trim token)). split; [|apply bytes_eqb_refl].
    eexists. split; [by exists (n, v)|]. cbn beta iota. unfold eq_ignore_ascii_case. rewrite En.
    change (lit "connection" =s to_ascii_lowercase (lit "connection")) with true. cbn iota.
    apply in_map_iff. by exists token.
Qed.

Lemma is_hop_by_hop_spec name : is_hop_by_hop name = true <-> In name hop_headers.
Proof.
  unfold is_hop_by_hop, hop_headers. rewrite existsb_exists, in_map_iff. split.
  - intros (n & Hn & E). apply bytes_eqb_eq in E. by exists n.
  - intros (n & <- & Hn). exists n. split; [done|]. apply bytes_eqb_refl.
Qed.

Lemma dropped_spec hs h : dropped (connection_tokens hs) (fst h) = false <-> end_to_end hs h.
Proof.
  unfold dropped, end_to_end. rewrite <- starts_with_spec, <- connection_tokens_spec, <- is_hop_by_hop_spec.
  rewrite !orb_false_iff, !not_true_iff_false. tauto.
Qed.

#[export] Instance end_to_end_dec hs h : Decision (end_to_end hs h).
Proof.
  destruct (dropped (connection_tokens hs) (fst h)) eqn:E; [right|left; by apply dropped_spec].
  rewrite <- dropped_spec. congruence.
Defined.

(** The headers that go into the request, in order. *)
Definition request_headers (hs : HeaderList) : HeaderList := filter (end_to_end hs) hs.







Hypothesis decode_encode : forall s, base64_decode (base64_encode s) = Ok s.

Lemma decode_wire_capture e m t l : decode_wire (capture_of (message_record e m t l)) = Ok (render m, false).
Proof. unfold decode_wire, capture_of. cbn. by rewrite decode_encode. Qed.

End Reconstruction.


(** *** An example capture *)

Definition hex_encode : Base64 := {| base64_encode s := concat (map hex2 s) |}.

Fixpoint unhex (s : bytes) : result bytes :=
  match s with
  | [] => Ok []
  | a :: b :: r =>
      match digit_val 16 a, digit_val 16 b with
      | Some h, Some l => let? t := unhex r in Ok (byte_of (h * 16 + l) :: t)
      | _, _ => Err (lit "digit")
      end
  | _ => Err (lit "length")
  end.
Definition hex_decode : Base64Decode := {| base64_decode := unhex |}.

Lemma unhex_hex2 b r : unhex (hex2 b ++ r) = (let? t := unhex r in Ok (b :: t)).
Proof. revert r. by destruct b. Qed.

Lemma hex_decode_encode s : @base64_decode hex_decode (@base64_encode hex_encode s) = Ok s.
Proof.
  cbn [base64_decode base64_encode hex_decode hex_encode]. induction s as [|b s IH]; [done|].
  cbn [map concat]. by rewrite unhex_hex2, IH.
Qed.

(** Header and method syntax, without absolute-form targets. *)
Definition origin_form_http : Http :=
  {| uri := unit; uri_parse _ := None; scheme_str _ := None; authority _ := None; path_and_query _ := None;
     uri_host _ := None; authority_parse _ := None; authority_host a := a; authority_port _ := None;
     method_ok := forallb is_ascii_upper;
     header_name_ok := forallb (fun b => is_ascii_alphanumeric b || (b =b "-"%byte));
     header_value_ok := forallb (in_range 32 126) |}.

Definition demo_request : DecodedMessage :=
  mkDecoded ClientToServer (lit "POST /orders HTTP/1.1")
    [(lit "host", lit "localhost"); (lit "x-trace", lit "a: b"); (lit "connection", lit "x-hop"); (lit "X-Hop", lit "1")]
    (lit "{}") false.
Definition demo_envelope (d : Direction) : EventEnvelope :=
  Envelope.with_direction (Envelope.new (lit "message") 1 SrcDecoder) d.


(** ** What a reported match means *)

Lemma compare_body_match captured replayed truncated :
  compare_body captured replayed truncated = Match <->
  truncated = false /\
  exists c, captured = Some c /\ resp_truncated c = false /\ resp_redacted c = false /\
            resp_legacy c = false /\ resp_body c = replayed.
Proof.
  unfold compare_body. destruct captured as [c|]; [|split; [done|intros (_ & c & [=] & _)]].
  split.
  - destruct (resp_truncated c) eqn:E1, truncated; cbn [orb]; try done.
    destruct (resp_redacted c) eqn:E2; [done|]. destruct (resp_legacy c) eqn:E3; [done|].
    destruct (resp_body c =s replayed) eqn:E4; [|done]. apply bytes_eqb_eq in E4. eauto 10.
  - intros (-> & c' & [= <-] & -> & -> & -> & ->). by rewrite bytes_eqb_refl.
Qed.

Lemma limited_read (cap : Z) (s : bytes) :
  0 <= cap ->
  let body := take (Z.to_nat (cap + 1)) s in
  (cap <? blen body) = (cap <? blen s) /\ take (Z.to_nat cap) body = take (Z.to_nat cap) s.
Proof.
  intros Hc body. unfold body. rewrite take_take, Nat.min_l by lia. split; [|done].
  apply eq_true_iff_eq. rewrite !Z.ltb_lt. unfold blen. rewrite length_take. lia.
Qed.

(** A match is a match: when a replay reports that the bodies match, the
    permitted request was sent as planned and the whole body of the answer,
    read completely, equals the captured one, which is whole, unredacted and
    not from a text-only export; and in all those cases it does report it. *)
Theorem replay_match_sound `{Http} `{Client} (p : ReplayPlan) (target : bytes) (policy : ReplayPolicy)
    (elapsed : Z) (r : ReplayReport) :
  execute p target policy elapsed = Finished (Ok r) ->
  exists status contents,
    validate_execution p target policy = Finished (Ok (report_url r)) /\
    send (method p) (report_url r) (plan_headers p) (plan_body p) = Some (status, Ok contents) /\
    report_status r = status /\
    (status_match r = Match <-> captured_status p = Some status) /\
    (response_truncated r = true <-> MAX_RESPONSE_BODY_BYTES < blen contents) /\
    (body_match r = Match <->
       blen contents <= MAX_RESPONSE_BODY_BYTES /\
       exists c, response p = Some c /\ resp_truncated c = false /\ resp_redacted c = false /\
                 resp_legacy c = false /\ resp_body c = contents).
Proof.
  unfold execute. destruct (validate_execution p target policy) as [[url|]|] eqn:Ev; [|done..]. cbn [ended_bind].
  destruct (send _ _ _ _) as [[status [contents|]]|] eqn:Es; try done.
  destruct (limited_read MAX_RESPONSE_BODY_BYTES contents) as [E1 E2]; [done|]. rewrite E1, E2.
  intros [= <-]. exists status, contents. cbn [report_url report_status status_match response_truncated body_match].
  split; [done|]. split; [done|]. split; [done|]. split.
  { destruct (captured_status p) as [x|]; [|done]. destruct (Z.eqb_spec x status) as [->|Hx]; [done|].
    split; [done|]. intros [= ->]. done. }
  split; [apply Z.ltb_lt|]. rewrite compare_body_match, Z.ltb_ge.
  split; intros [Hc (c & Hr & H1 & H2 & H3 & H4)]; (split; [done|]); exists c; repeat (split; [done|]).
  - rewrite H4. apply take_ge. revert Hc. unfold blen. lia.
  - rewrite H4. symmetry. apply take_ge. revert Hc. unfold blen. lia.
Qed.

(** Plain origins [http://host:port], and a server that always answers "ok". *)
Definition plain_origins : Http :=
  {| uri := bytes; uri_parse := strip_prefix (lit "http://"); scheme_str _ := Some (lit "http"); authority u := Some u;
     path_and_query _ := None; uri_host u := Some (match split_once ":"%byte u with Some (h, _) => h | None => u end);
     authority_parse := Some; authority_host a := a; authority_port _ := None;
     method_ok := forallb is_ascii_upper; header_name_ok _ := true; header_value_ok _ := true |}.
Definition ok_server : Client := {| send _ _ _ _ := Some (201, Ok (lit "ok")) |}.
Definition demo_plan : ReplayPlan :=
  mkPlan 7 1 (lit "GET") (lit "/orders") [] [] false (lit "public") false false
    (Some (mkResponse 201 (lit "ok") false false false)).

Lemma replay_match_sound_witness :
  exists r, @execute plain_origins ok_server demo_plan (lit "http://127.0.0.1:80") policy_default 3 = Finished (Ok r) /\
    @validate_execution plain_origins demo_plan (lit "http://127.0.0.1:80") policy_default = Finished (Ok (report_url r)) /\
    body_match r = Match.
Proof.
  eexists. split; [vm_compute; reflexivity|].
  edestruct (@replay_match_sound plain_origins ok_server demo_plan (lit "http://127.0.0.1:80") policy_default 3)
    as (status & contents & Hv & _ & _ & _ & _ & Hm); [vm_compute; reflexivity|].
  split; [exact Hv|]. by vm_compute.
Defined.

(** ** Where replay falls short *)

Lemma parse_wire_headerless (m : DecodedMessage) :
  headers m = [] -> find_bytes (crlf ++ body m) (crlf ++ crlf) = None -> is_ok (parse_wire (render m)) = false.
Proof. intros Hh Hf. unfold render, parse_wire. rewrite Hh. change (concat _ ++ _) with (crlf ++ body m). by rewrite Hf. Qed.

(** A message stored without headers has no blank line in its wire form:
    the request it belongs to, or the request it answers, cannot be replayed
    from the export, whatever else was captured. *)
Theorem replay_headerless_fails `{Http} `{Base64} `{Base64Decode}
    (id : FlowId) (protocol : option bytes) (rs : list MessageRecord) (k : Z)
    (e : EventEnvelope) (m : DecodedMessage) (t : bool) (l : option Z) :
  (forall s, base64_decode (base64_encode s) = Ok s) ->
  headers m = [] -> find_bytes (crlf ++ body m) (crlf ++ crlf) = None ->
  stored_requests rs !! Z.to_nat (k - 1) = Some (message_record e m t l) \/
  stored_answers rs !! Z.to_nat (k - 1) = Some (message_record e m t l) ->
  is_ok (plan_from_flow (exported id protocol rs) k) = false.
Proof.
  intros Hb Hh Hf Hr. pose proof (parse_wire_headerless m Hh Hf) as Hp.
  unfold plan_from_flow. destruct (k =? 0); [done|].
  rewrite exported_requests, exported_answers, !list_lookup_fmap. destruct Hr as [->| ->].
  - cbn [fmap option_fmap option_map ok_or]. cbv beta iota. destruct (parse_request_line _) as [[]|]; [|done].
    rewrite (decode_wire_capture Hb). cbv beta iota. by destruct (parse_wire (render m)).
  - assert (E : is_ok (captured_response (capture_of (message_record e m t l))) = false).
    { unfold captured_response. destruct (ok_or _ _); [|done]. rewrite (decode_wire_capture Hb).
      cbv beta iota. by destruct (parse_wire (render m)). }
    clear Hp. destruct (ok_or _ _); [|done]. destruct (parse_request_line _) as [[]|]; [|done].
    destruct (decode_wire _) as [[]|]; [|done]. destruct (parse_wire _) as [[]|]; [|done].
    destruct (MAX_REPLAY_BODY_BYTES <? _); [done|]. destruct (replay_headers _); [|done].
    cbn [fmap option_fmap option_map]. by destruct (captured_response _).
Qed.

Definition bare_answer : DecodedMessage :=
  mkDecoded ServerToClient (lit "HTTP/1.1 204 No Content") [] [] false.

Lemma replay_headerless_fails_witness :
  is_ok (@plan_from_flow origin_form_http hex_decode
           (@exported hex_encode 7 None
              [message_record (demo_envelope ClientToServer) demo_request false None;
               message_record (demo_envelope ServerToClient) bare_answer false None]) 1) = false.
Proof.
  apply (@replay_headerless_fails origin_form_http hex_encode hex_decode 7 None _ 1
           (demo_envelope ServerToClient) bare_answer false None).
  - apply hex_decode_encode.
  - done.
  - done.
  - by right.
Defined.

(** An IPv6 host as URIs write it, in brackets, is never taken for this
    machine: [::1] needs the permission for remote targets. *)
Lemma bracketed_not_loopback `{Http} (u : uri) (host : bytes) :
  uri_host u = Some ("["%byte :: host) -> is_loopback_target u = false.
Proof.
  unfold is_loopback_target. intros ->.
  assert (IpAddr.parse ("["%byte :: host) = None) as -> by done. by rewrite orb_false_r.
Qed.
End Replay.
