(* ===== verification/Proxy.v ===== *)
(** * Proxy: forwarding connections and observing them, [crates/lens-proxy].

    A connection is routed (to a fixed target, by its first HTTP request or by
    the original destination), connected and pumped in both directions; what
    passes is reported to a bounded channel that never blocks.  Sockets are
    scripts of what reading them yields and how much writing they accept, so
    a statement about all scripts is one about all peers; the two pumps of a
    connection and the tasks of the server are step relations.  TCP connection
    establishment, TLS sessions and platform lookups are parameters. *)

From stdpp Require Import relations.
From S2P Require Import Prelude RustStd Net Core.
#[local] Open Scope lens_scope.

Module Proxy.

Definition MAX_HTTP_HEAD_BYTES : Z := 64 * 1024.

(** [CoreError::operation_failed], shown. *)
Definition failed {A} (operation : string) (cause : bytes) : result A :=
  Err (CoreError_display (OperationFailed (lit operation) cause)).

(** ** Configuration *)

Inductive ProxyMode := Explicit | TransparentMode.
Definition ProxyMode_display (m : ProxyMode) : bytes :=
  match m with Explicit => lit "explicit" | TransparentMode => lit "transparent" end.

Record ListenerConfig := mkListener { addr : SocketAddr.t; mode : ProxyMode }.

Definition listener_new (addr : SocketAddr.t) (mode : ProxyMode) : result ListenerConfig := Ok (mkListener addr mode).

(** [ProxyListener::bind], on what opening the socket and asking for its
    address yields; [ProxyServer::from_listener], on what its two calls yield. *)
Definition listener_bind (opened : result (result SocketAddr.t)) (c : ListenerConfig) : result ListenerConfig :=
  match opened with
  | Err e => failed "bind" (SocketAddr.to_string (addr c) ++ lit " (" ++ e ++ lit ")")
  | Ok (Err e) => failed "local_addr" e
  | Ok (Ok local_addr) => Ok (mkListener local_addr (mode c))
  end.

Definition from_listener (set_nonblocking async_listener : result unit) : result unit :=
  match set_nonblocking with
  | Err e => failed "set_nonblocking" e
  | Ok _ => match async_listener with Err e => failed "async_listener" e | Ok _ => Ok tt end
  end.

Definition listener_parse (listen : bytes) (mode : ProxyMode) : result ListenerConfig :=
  match SocketAddr.parse listen with
  | Some addr => listener_new addr mode
  | None => Err (CoreError_display (InvalidArgument (lit "listen") listen (lit "addr:port, for example 127.0.0.1:8888")))
  end.

Inductive ProxyTarget := Fixed (upstream : Endpoint) | HttpTarget | Transparent.

Inductive FixedProtocol := Tcp | ProtoPostgres | ProtoHttp1 | ProtoHttp2 | Grpc | ProtoRedis.

Definition label (p : FixedProtocol) : bytes :=
  match p with
  | Tcp => lit "tcp" | ProtoPostgres => lit "postgres" | ProtoHttp1 => lit "http1"
  | ProtoHttp2 => lit "http2" | Grpc => lit "grpc" | ProtoRedis => lit "redis"
  end.

Inductive HttpsMode := Intercept | Passthrough | Reject.
#[global] Instance HttpsMode_eq_dec : EqDecision HttpsMode.
Proof. solve_decision. Defined.
Definition HttpsMode_display (m : HttpsMode) : bytes :=
  match m with Intercept => lit "intercept" | Passthrough => lit "passthrough" | Reject => lit "reject" end.

(** ** Sockets

    What reading a socket yields, in order: bytes, a failure, or an end that
    the peer did not announce.  After the last segment the stream ends. *)

Inductive Segment := Chunk (data : bytes) | Broken (error : bytes) | UnexpectedEof (error : bytes).
Abbreviation stream := (list Segment).

Inductive Read := ReadOk (data : bytes) | ReadErr (error : bytes) | ReadUnexpectedEof (error : bytes).

(** Reading into a buffer of [cap] bytes. *)
Definition read (cap : nat) (r : stream) : Read * stream :=
  match r with
  | [] => (ReadOk [], [])
  | Chunk s :: r =>
      (ReadOk (take cap s), if (length s <=? cap)%nat then r else Chunk (drop cap s) :: r)
  | Broken e :: r => (ReadErr e, r)
  | UnexpectedEof e :: r => (ReadUnexpectedEof e, r)
  end.

(** The write side: what was written, and how many more bytes it accepts
    before it fails, if it fails. *)
Record Writer := mkWriter { written : bytes; breaks : option (nat * bytes); shut_down : bool }.

Definition write_all (w : Writer) (s : bytes) : Writer * result unit :=
  match breaks w with
  | None => (mkWriter (written w ++ s) None (shut_down w), Ok tt)
  | Some (n, e) =>
      if (length s <=? n)%nat then (mkWriter (written w ++ s) (Some ((n - length s)%nat, e)) (shut_down w), Ok tt)
      else (mkWriter (written w ++ take n s) (Some (0%nat, e)) (shut_down w), Err e)
  end.

Definition shutdown (w : Writer) : Writer := mkWriter (written w) (breaks w) true.

Record Socket := mkSocket { incoming : stream; outgoing : Writer }.

(** [PrefixedIo]: bytes read ahead come first. *)
Record PrefixedIo := mkPrefixed { inner : stream; prefix : bytes; offset : nat }.
Definition prefixed_new (inner : stream) (prefix : bytes) : PrefixedIo := mkPrefixed inner prefix 0.

Definition poll_read (cap : nat) (p : PrefixedIo) : Read * PrefixedIo :=
  if (offset p <? length (prefix p))%nat then
    let available := drop (offset p) (prefix p) in
    let copied := Nat.min (length available) cap in
    (ReadOk (take copied available), mkPrefixed (inner p) (prefix p) (offset p + copied))
  else
    let '(r, rest) := read cap (inner p) in (r, mkPrefixed rest (prefix p) (offset p)).

(** The stream such a reader stands for. *)
Definition prefixed_stream (p : PrefixedIo) : stream :=
  if (offset p <? length (prefix p))%nat then Chunk (drop (offset p) (prefix p)) :: inner p else inner p.

(** ** Pumps *)

Definition pump_buffer : nat := 16 * 1024.

(** Where a pump awaits: for data, or for a chunk to be written; or how it
    stopped. *)
Inductive Phase := Reading | Writing (chunk : bytes) | Done (r : result Z) | Aborted.

Record Pump := mkPump { reader : stream; writer : Writer; transferred : Z; phase : Phase }.

(** One await of the pump's loop and what follows it. *)
Definition pump_step (d : Direction) (inspect : bool) (p : Pump) : option (Pump * list ObservationKind) :=
  match phase p with
  | Reading =>
      let '(r, rest) := read pump_buffer (reader p) in
      match r with
      | ReadErr e => Some (mkPump rest (writer p) (transferred p) (Done (Err e)), [])
      | ReadUnexpectedEof _ | ReadOk [] =>
          Some (mkPump rest (shutdown (writer p)) (transferred p) (Done (Ok (transferred p))), [])
      | ReadOk chunk => Some (mkPump rest (writer p) (transferred p) (Writing chunk), [])
      end
  | Writing chunk =>
      match write_all (writer p) chunk with
      | (w, Ok _) =>
          Some (mkPump (reader p) w (sat_add (transferred p) (blen chunk)) Reading,
                if inspect then [Data d chunk] else [])
      | (w, Err e) => Some (mkPump (reader p) w (transferred p) (Done (Err e)), [])
      end
  | _ => None
  end.

(** ** Both directions *)

Record Mirror := mkMirror {
  up : Pump; down : Pump;
  client_to_upstream : option Z; upstream_to_client : option Z;
  failing : option bytes; observed : list ObservationKind; outcome : option (result (Z * Z)) }.

Definition side (m : Mirror) (d : Direction) : Pump := match d with ClientToServer => up m | ServerToClient => down m end.

Definition set_side (m : Mirror) (d : Direction) (p : Pump) (obs : list ObservationKind) : Mirror :=
  match d with
  | ClientToServer => mkMirror p (down m) (client_to_upstream m) (upstream_to_client m) (failing m) (observed m ++ obs) (outcome m)
  | ServerToClient => mkMirror (up m) p (client_to_upstream m) (upstream_to_client m) (failing m) (observed m ++ obs) (outcome m)
  end.

Definition joined (m : Mirror) (d : Direction) : option Z :=
  match d with ClientToServer => client_to_upstream m | ServerToClient => upstream_to_client m end.

Definition set_joined (m : Mirror) (d : Direction) (n : Z) : Mirror :=
  match d with
  | ClientToServer => mkMirror (up m) (down m) (Some n) (upstream_to_client m) (failing m) (observed m) (outcome m)
  | ServerToClient => mkMirror (up m) (down m) (client_to_upstream m) (Some n) (failing m) (observed m) (outcome m)
  end.

Definition set_failing (m : Mirror) (e : bytes) : Mirror :=
  mkMirror (up m) (down m) (client_to_upstream m) (upstream_to_client m) (Some e) (observed m) (outcome m).
Definition set_outcome (m : Mirror) (r : result (Z * Z)) : Mirror :=
  mkMirror (up m) (down m) (client_to_upstream m) (upstream_to_client m) (failing m) (observed m) (Some r).

Definition start_pump (r : stream) (w : Writer) : Pump := mkPump r w 0 Reading.

Definition mirror_start (client upstream : Socket) : Mirror :=
  mkMirror (start_pump (incoming client) (outgoing upstream)) (start_pump (incoming upstream) (outgoing client))
    None None None [] None.

(** A pump that is aborted in the middle of a write has written some part. *)
Definition abort (p : Pump) (k : nat) : Pump :=
  let w := writer p in
  let w := match phase p with
           | Writing chunk => mkWriter (written w ++ take k chunk) (breaks w) (shut_down w)
           | _ => w
           end in
  mkPump (reader p) w (transferred p) Aborted.

Definition running (p : Pump) : bool := match phase p with Reading | Writing _ => true | _ => false end.

(** [mirror_bidirectional]: the pumps run in any interleaving, are joined as
    they finish, and the first failure joined aborts the other. *)
Inductive mirror_step (inspect : bool) : Mirror -> Mirror -> Prop :=
| pump_runs m d p obs :
    outcome m = None -> pump_step d inspect (side m d) = Some (p, obs) ->
    mirror_step inspect m (set_side m d p obs)
| pump_joins m d n :
    outcome m = None -> failing m = None -> phase (side m d) = Done (Ok n) -> joined m d = None ->
    mirror_step inspect m (set_joined m d n)
| pump_fails m d e :
    outcome m = None -> failing m = None -> phase (side m d) = Done (Err e) ->
    mirror_step inspect m (set_failing m e)
| pump_aborts m d e k :
    outcome m = None -> failing m = Some e -> running (side m d) = true ->
    mirror_step inspect m (set_side m d (abort (side m d) k) [])
| all_stopped m e :
    outcome m = None -> failing m = Some e -> running (up m) = false -> running (down m) = false ->
    mirror_step inspect m (set_outcome m (failed "forward" e))
| all_joined m a b :
    outcome m = None -> client_to_upstream m = Some a -> upstream_to_client m = Some b ->
    mirror_step inspect m (set_outcome m (Ok (a, b))).

(** ** Routing by the first HTTP request *)

Inductive RouteBehavior := BehaveFixed | Forward (request : bytes) | Connect (prefetched : bytes).
Record Route := mkRoute { route_upstream : Endpoint; route_protocol : bytes; behavior : RouteBehavior }.

Definition crlf2 : bytes := crlf ++ crlf.
Definition find_header_end (buffer : bytes) : option nat := find_bytes buffer crlf2.

Definition is_bracket (b : byte) : bool := (b =b "["%byte) || (b =b "]"%byte).
Fixpoint trim_start_brackets (s : bytes) : bytes :=
  match s with b :: r => if is_bracket b then trim_start_brackets r else s | [] => [] end.
Definition trim_brackets (s : bytes) : bytes := rev (trim_start_brackets (rev (trim_start_brackets s))).

(** A header line that concerns the proxy alone. *)
Definition proxy_line (line : bytes) : bool :=
  let name := trim (match split_once ":"%byte line with Some (name, _) => name | None => line end) in
  eq_ignore_ascii_case name (lit "proxy-connection") || eq_ignore_ascii_case name (lit "proxy-authorization").

Fixpoint rewrite_lines (ls : list bytes) : bytes :=
  match ls with
  | [] => []
  | l :: ls => if proxy_line l then rewrite_lines ls else l ++ crlf ++ rewrite_lines ls
  end.

Definition route_read_chunk : nat := 4096.

(** The loop that collects the head: the buffer and the client, or an error. *)
Record HeadRead := mkHeadRead { head_buffer : bytes; head_client : stream }.

Definition head_step (st : HeadRead) : HeadRead + (result (bytes * nat) * stream) :=
  if MAX_HTTP_HEAD_BYTES <=? blen (head_buffer st) then
    inr (failed "HTTP routing" (lit "request headers exceed 65536 bytes"), head_client st)
  else
    let '(r, rest) := read route_read_chunk (head_client st) in
    match r with
    | ReadErr e | ReadUnexpectedEof e => inr (failed "read HTTP request" e, rest)
    | ReadOk [] => inr (failed "HTTP routing" (lit "client closed before request headers"), rest)
    | ReadOk chunk =>
        let buffer := head_buffer st ++ chunk in
        match find_header_end buffer with
        | Some header_end => inr (Ok (buffer, header_end), rest)
        | None => inl (mkHeadRead buffer rest)
        end
    end.

(** What is left to read. *)
Fixpoint stream_size (r : stream) : nat :=
  match r with
  | [] => 0
  | Chunk s :: r => S (length s) + stream_size r
  | _ :: r => S (stream_size r)
  end.

Definition read_head (client : stream) : result (bytes * nat) * stream :=
  iterate (fun st => stream_size (head_client st)) head_step
    (fun st => (failed "HTTP routing" [], head_client st)) (mkHeadRead [] client).

Section Routes.
Context `{Http}.

Definition endpoint_from_authority (authority : bytes) (default_port : Z) : Endpoint :=
  mkEndpoint (trim_brackets (authority_host authority)) (default default_port (authority_port authority)).

(** The route of a request head, [rest] being what was read behind it. *)
Definition route_of (head rest : bytes) : result Route :=
  match from_utf8 head with
  | None => failed "HTTP routing" (lit "request headers are not valid UTF-8")
  | Some head =>
      let lines := split_crlf head in
      let request_line := default [] (hd_error lines) in
      match split_whitespace request_line with
      | [method; target; version] =>
          if negb (starts_with (lit "HTTP/1.") version) then failed "HTTP routing" (lit "invalid HTTP/1 request line")
          else if eq_ignore_ascii_case method (lit "CONNECT") then
            match authority_parse target with
            | None => failed "HTTP routing" (lit "invalid CONNECT authority")
            | Some authority =>
                Ok (mkRoute (endpoint_from_authority authority 443) (lit "http-connect") (Connect rest))
            end
          else
            match uri_parse target with
            | None => failed "HTTP routing" (lit "invalid absolute request URI")
            | Some u =>
                if negb (match scheme_str u with Some s => s =s lit "http" | None => false end) then
                  failed "HTTP routing" (lit "non-CONNECT proxy requests must use an http absolute URI")
                else
                  match authority u with
                  | None => failed "HTTP routing" (lit "absolute request URI has no authority")
                  | Some authority =>
                      let path := default (lit "/") (path_and_query u) in
                      let rewritten :=
                        method ++ lit " " ++ path ++ lit " " ++ version ++ crlf
                        ++ rewrite_lines (drop 1 lines) ++ crlf ++ rest in
                      Ok (mkRoute (endpoint_from_authority authority 80) (lit "http1") (Forward rewritten))
                  end
            end
      | _ => failed "HTTP routing" (lit "invalid HTTP/1 request line")
      end
  end.

Definition read_http_route (client : stream) : result Route * stream :=
  match read_head client with
  | (Err e, rest) => (Err e, rest)
  | (Ok (buffer, header_end), rest) => (route_of (take header_end buffer) (drop (header_end + 4) buffer), rest)
  end.

Definition http_error (status : Z) (reason : string) : bytes :=
  let body := dec status ++ lit " " ++ lit reason ++ [x0a] in
  lit "HTTP/1.1 " ++ dec status ++ lit " " ++ lit reason ++ crlf ++ lit "Connection: close" ++ crlf
  ++ lit "Content-Type: text/plain" ++ crlf ++ lit "Content-Length: " ++ dec (blen body) ++ crlf ++ crlf ++ body.

Definition write_http_error (client : Socket) (status : Z) (reason : string) : Socket :=
  mkSocket (incoming client) (fst (write_all (outgoing client) (http_error status reason))).
End Routes.

(** ** Forwarding one connection *)

(** A TLS handshake: the negotiated protocol and the plain side, a failure, or
    nothing within the timeout. *)
Inductive Handshake := Secured (alpn : option bytes) (plain : Socket) | HandshakeFailed (error : bytes) | HandshakeTimedOut.

(** Interception: certificates for hosts, both handshakes, server names. *)
Class Tls := {
  interception : Type;
  server_config : interception -> bytes -> result unit;
  tls_accept : interception -> bytes -> Z -> Socket -> Handshake;
  server_name : bytes -> result unit;
  tls_connect : interception -> bytes -> bytes -> Z -> Socket -> Handshake }.

Record ProxyRuntimeConfig `{Tls} := mkConfig {
  target : ProxyTarget; fixed_protocol : FixedProtocol; connect_timeout : Z; shutdown_grace : Z;
  https_mode : HttpsMode; tls : option interception }.

Section Configurations.
Context `{Tls}.
Definition seconds (n : Z) : Z := n * 10 ^ 9.
Definition fixed (upstream : Endpoint) : ProxyRuntimeConfig :=
  mkConfig _ (Fixed upstream) Tcp (seconds 10) (seconds 5) Passthrough None.
Definition config_new (upstream : SocketAddr.t) : ProxyRuntimeConfig :=
  fixed (mkEndpoint (IpAddr.to_string (SocketAddr.ip upstream)) (SocketAddr.port upstream)).
Definition http : ProxyRuntimeConfig := mkConfig _ HttpTarget Tcp (seconds 10) (seconds 5) Passthrough None.
Definition set_protocol (c : ProxyRuntimeConfig) (p : FixedProtocol) : ProxyRuntimeConfig :=
  mkConfig _ (target c) p (connect_timeout c) (shutdown_grace c) (https_mode c) (tls c).
Definition postgres (upstream : Endpoint) : ProxyRuntimeConfig := set_protocol (fixed upstream) ProtoPostgres.
Definition redis (upstream : Endpoint) : ProxyRuntimeConfig := set_protocol (fixed upstream) ProtoRedis.
Definition http2 (upstream : Endpoint) : ProxyRuntimeConfig := set_protocol (fixed upstream) ProtoHttp2.
Definition grpc (upstream : Endpoint) : ProxyRuntimeConfig := set_protocol (fixed upstream) Grpc.
Definition transparent (p : FixedProtocol) : ProxyRuntimeConfig :=
  mkConfig _ Transparent p (seconds 10) (seconds 5) Passthrough None.
Definition with_tls_interception (c : ProxyRuntimeConfig) (t : interception) : ProxyRuntimeConfig :=
  mkConfig _ (target c) (fixed_protocol c) (connect_timeout c) (shutdown_grace c) Intercept (Some t).
Definition with_https_mode (c : ProxyRuntimeConfig) (m : HttpsMode) : ProxyRuntimeConfig :=
  mkConfig _ (target c) (fixed_protocol c) (connect_timeout c) (shutdown_grace c) m (tls c).
End Configurations.

Inductive Connected := Established (s : Socket) | ConnectFailed (error : bytes) | ConnectTimedOut.

(** What surrounds a connection: how connecting goes, and the platform's
    lookups, where there are any. *)
Record Platform := mkPlatform {
  connect : Endpoint -> Z -> Connected;
  target_lookup : option (result Endpoint);
  identity_lookup : option (option ServiceIdentity) }.

(** The counters of the server; atomic addition wraps around. *)
Record RuntimeCounters := mkCounters {
  accepted : Z; completed : Z; failures : Z; bytes_up : Z; bytes_down : Z }.
Definition fetch_add (a b : Z) : Z := (a + b) mod 2 ^ 64.
Definition counters_default : RuntimeCounters := mkCounters 0 0 0 0 0.
Definition count_completed (c : RuntimeCounters) (up down : Z) : RuntimeCounters :=
  mkCounters (accepted c) (fetch_add (completed c) 1) (failures c)
    (fetch_add (bytes_up c) up) (fetch_add (bytes_down c) down).
Definition count_failed (c : RuntimeCounters) (n : Z) : RuntimeCounters :=
  mkCounters (accepted c) (completed c) (fetch_add (failures c) n) (bytes_up c) (bytes_down c).
Definition count_accepted (c : RuntimeCounters) : RuntimeCounters :=
  mkCounters (fetch_add (accepted c) 1) (completed c) (failures c) (bytes_up c) (bytes_down c).

(** What became of a connection: the observations in order, those of the
    identity task beside it, the two peers, the counters and the result. *)
Record Forwarded := mkForwarded {
  fw_events : list ObservationKind; fw_background : list ObservationKind;
  fw_client : Writer; fw_upstream : option Writer; fw_counters : RuntimeCounters; fw_result : result unit }.

(** The transport: what it left at both peers, what was observed, the counts. *)
Record Session := mkSession {
  ss_events : list ObservationKind; ss_client : Writer; ss_upstream : Writer; ss_result : result (Z * Z) }.

Definition established : bytes := lit "HTTP/1.1 200 Connection Established" ++ crlf ++ crlf.

Section Connection.
Context `{Http} `{Tls}.

(** A complete run of [mirror_bidirectional] between two sockets. *)
Context (mirror : bool -> Socket -> Socket -> Mirror).

Definition mirror_bidirectional (inspect : bool) (client upstream : Socket) : Session :=
  let m := mirror inspect client upstream in
  mkSession (observed m) (writer (down m)) (writer (up m))
    (default (failed "forward" []) (outcome m)).

Definition before (obs : list ObservationKind) (s : Session) : Session :=
  mkSession (obs ++ ss_events s) (ss_client s) (ss_upstream s) (ss_result s).
Definition add_up (n : Z) (s : Session) : Session :=
  mkSession (ss_events s) (ss_client s) (ss_upstream s)
    (let? '(a, b) := ss_result s in Ok (sat_add a n, b)).

(** A transport that ended before the pumps started. *)
Definition stopped (client upstream : Socket) (r : result (Z * Z)) : Session :=
  mkSession [] (outgoing client) (outgoing upstream) r.

Definition with_outgoing (s : Socket) (w : Writer) : Socket := mkSocket (incoming s) w.

Definition alpn_label (negotiated : bytes) : option bytes :=
  if negotiated =s lit "h2" then Some (lit "http2")
  else if negotiated =s lit "http/1.1" then Some (lit "http1") else None.

Definition intercept_connect (client upstream : Socket) (prefetched : bytes) (endpoint : Endpoint)
    (t : interception) (handshake_timeout : Z) : Session :=
  match server_config t (host endpoint) with
  | Err e => stopped client upstream (failed "issue HTTPS certificate" e)
  | Ok _ =>
      match write_all (outgoing client) established with
      | (w, Err e) => stopped (with_outgoing client w) upstream (failed "CONNECT response" e)
      | (w, Ok _) =>
          let client := mkSocket (prefixed_stream (prefixed_new (incoming client) prefetched)) w in
          match tls_accept t (host endpoint) handshake_timeout client with
          | HandshakeFailed e =>
              stopped client upstream
                (failed "accept client TLS" (e ++ lit "; the client may not trust Lens or may use certificate pinning"))
          | HandshakeTimedOut =>
              stopped client upstream
                (failed "accept client TLS" (lit "handshake timed out; the client may use certificate pinning"))
          | Secured alpn client_tls =>
              let negotiated := default (lit "http/1.1") alpn in
              match alpn_label negotiated with
              | None =>
                  stopped client_tls upstream
                    (failed "negotiate intercepted protocol" (lit "unsupported ALPN value " ++ from_utf8_lossy negotiated))
              | Some protocol =>
                  before [ProtocolDetected protocol]
                    (match server_name (host endpoint) with
                     | Err e => stopped client_tls upstream (failed "validate HTTPS upstream name" e)
                     | Ok _ =>
                         match tls_connect t (host endpoint) negotiated handshake_timeout upstream with
                         | HandshakeFailed e => stopped client_tls upstream (failed "verify upstream TLS" e)
                         | HandshakeTimedOut =>
                             stopped client_tls upstream (failed "verify upstream TLS" (lit "handshake timed out"))
                         | Secured upstream_negotiated upstream_tls =>
                             if bool_decide (upstream_negotiated = Some negotiated)
                             then mirror_bidirectional true client_tls upstream_tls
                             else
                               stopped client_tls upstream_tls
                                 (failed "negotiate upstream protocol"
                                    (lit "client selected " ++ from_utf8_lossy negotiated ++ lit ", upstream selected "
                                     ++ match upstream_negotiated with
                                        | Some v => from_utf8_lossy v
                                        | None => lit "none"
                                        end))
                         end
                     end)
              end
          end
      end
  end.

Definition choose_route (config : ProxyRuntimeConfig) (platform : Platform) (client : Socket) :
    result Route * Socket :=
  match target config with
  | Fixed upstream => (Ok (mkRoute upstream (label (fixed_protocol config)) BehaveFixed), client)
  | HttpTarget =>
      match read_http_route (incoming client) with
      | (Ok route, rest) => (Ok route, mkSocket rest (outgoing client))
      | (Err e, rest) => (Err e, write_http_error (mkSocket rest (outgoing client)) 400 "Bad Request")
      end
  | Transparent =>
      match target_lookup platform with
      | None => (failed "transparent route" (lit "platform original-destination lookup is unavailable"), client)
      | Some (Err e) => (Err e, client)
      | Some (Ok upstream) => (Ok (mkRoute upstream (label (fixed_protocol config)) BehaveFixed), client)
      end
  end.

Definition is_connect (r : Route) : bool := match behavior r with Connect _ => true | _ => false end.
Definition is_fixed (r : Route) : bool := match behavior r with BehaveFixed => true | _ => false end.

(** The protocol a flow is opened with. *)
Definition opened_protocol (config : ProxyRuntimeConfig) (r : Route) : bytes :=
  if is_connect r && bool_decide (https_mode config = Intercept) then lit "http" else route_protocol r.

(** The bytes between two connected peers, by the route's behavior. *)
Definition transport (config : ProxyRuntimeConfig) (r : Route) (client upstream : Socket) : Session :=
  match behavior r with
  | BehaveFixed => mirror_bidirectional (negb (opened_protocol config r =s lit "tcp")) client upstream
  | Forward request =>
      match write_all (outgoing upstream) request with
      | (w, Err e) => stopped client (with_outgoing upstream w) (failed "forward request" e)
      | (w, Ok _) =>
          before [Data ClientToServer request]
            (add_up (blen request) (mirror_bidirectional true client (with_outgoing upstream w)))
      end
  | Connect prefetched =>
      match https_mode config with
      | Passthrough =>
          match write_all (outgoing client) established with
          | (w, Err e) => stopped (with_outgoing client w) upstream (failed "CONNECT response" e)
          | (w, Ok _) =>
              let client := with_outgoing client w in
              match write_all (outgoing upstream) prefetched with
              | (w, Err e) => stopped client (with_outgoing upstream w) (failed "forward CONNECT preface" e)
              | (w, Ok _) => add_up (blen prefetched) (mirror_bidirectional false client (with_outgoing upstream w))
              end
          end
      | Intercept =>
          match tls config with
          | Some t => intercept_connect client upstream prefetched (route_upstream r) t (connect_timeout config)
          | None => stopped client upstream (Err (lit "TLS state checked above"))
          end
      | Reject => stopped client upstream (Err (lit "rejected before connecting upstream"))
      end
  end.

(** The end of a transport: counters and closing observations. *)
Definition conclude (opened background : list ObservationKind) (counters : RuntimeCounters) (s : Session) : Forwarded :=
  match ss_result s with
  | Ok (up, down) =>
      mkForwarded (opened ++ ss_events s ++ [Transferred ClientToServer up; Transferred ServerToClient down; ObsClosed])
        background (ss_client s) (Some (ss_upstream s)) (count_completed counters up down) (Ok tt)
  | Err e =>
      mkForwarded (opened ++ ss_events s ++ [ObsFailed e]) background (ss_client s) (Some (ss_upstream s)) counters (Err e)
  end.

(** A refusal after the flow was opened. *)
Definition refuse (opened background : list ObservationKind) (counters : RuntimeCounters) (client : Socket)
    (operation : string) (reason : bytes) : Forwarded :=
  mkForwarded (opened ++ [ObsFailed reason]) background (outgoing client) None counters (failed operation reason).

Definition forward_connection (config : ProxyRuntimeConfig) (platform : Platform) (peer : SocketAddr.t)
    (counters : RuntimeCounters) (client : Socket) : Forwarded :=
  match choose_route config platform client with
  | (Err e, client) => mkForwarded [] [] (outgoing client) None counters (Err e)
  | (Ok route, client) =>
      let opened := [Opened (mkEndpoint (IpAddr.to_string (SocketAddr.ip peer)) (SocketAddr.port peer))
                       (route_upstream route) (Some (opened_protocol config route))] in
      let background :=
        match identity_lookup platform with Some (Some identity) => [Identified identity] | _ => [] end in
      if is_connect route && bool_decide (https_mode config = Reject) then
        refuse opened background counters (write_http_error client 403 "HTTPS CONNECT Rejected")
          "CONNECT" (lit "HTTPS CONNECT rejected by configured policy")
      else if is_connect route && bool_decide (https_mode config = Intercept)
              && match tls config with None => true | Some _ => false end then
        refuse opened background counters (write_http_error client 503 "HTTPS Interception Unavailable")
          "CONNECT" (lit "HTTPS interception is enabled but CA state is unavailable")
      else
        match connect platform (route_upstream route) (connect_timeout config) with
        | ConnectFailed e =>
            refuse opened background counters
              (if is_fixed route then client else write_http_error client 502 "Bad Gateway")
              "connect" (lit "connect " ++ Endpoint_display (route_upstream route) ++ lit " (" ++ e ++ lit ")")
        | ConnectTimedOut =>
            refuse opened background counters
              (if is_fixed route then client else write_http_error client 504 "Gateway Timeout")
              "connect" (lit "connect " ++ Endpoint_display (route_upstream route) ++ lit " timed out")
        | Established upstream => conclude opened background counters (transport config route client upstream)
        end
  end.
End Connection.

(** ** Observations *)

(** The bounded channel: what waits in it, what was received, whether the
    receiver is gone, and how many events were dropped. *)
Record ObservationSink := mkSink {
  capacity : nat; queue : list ObservationEvent; received : list ObservationEvent; closed : bool; dropped : Z }.

Definition channel (capacity : nat) : option ObservationSink :=
  if (capacity =? 0)%nat then None else Some (mkSink capacity [] [] false 0).

Definition emit (s : ObservationSink) (e : ObservationEvent) : ObservationSink :=
  if closed s || (capacity s <=? length (queue s))%nat
  then mkSink (capacity s) (queue s) (received s) (closed s) (fetch_add (dropped s) 1)
  else mkSink (capacity s) (queue s ++ [e]) (received s) (closed s) (dropped s).

(** The receiver takes an event, or goes away with those it did not take. *)
Definition recv (s : ObservationSink) : ObservationSink :=
  match queue s with
  | e :: q => mkSink (capacity s) q (received s ++ [e]) (closed s) (dropped s)
  | [] => s
  end.
Definition close (s : ObservationSink) : ObservationSink :=
  mkSink (capacity s) [] (received s) true (dropped s).

(** ** The server *)

Record ProxyStats := mkStats {
  st_accepted : Z; st_completed : Z; st_failed : Z; st_up : Z; st_down : Z; st_dropped : Z }.

Definition stats (c : RuntimeCounters) (observations_dropped : Z) : ProxyStats :=
  mkStats (accepted c) (completed c) (failures c) (bytes_up c) (bytes_down c) observations_dropped.

(** A connection task: forwarding, or over and not yet joined. *)
Inductive Task := TaskRunning | TaskOver (panicked : bool).
Inductive Stage := Accepting | Draining | Aborting | Stopped (drained : bool) (s : ProxyStats).

Record Server := mkServer { counters : RuntimeCounters; tasks : list (FlowId * Task); stage : Stage }.
Definition server_start : Server := mkServer counters_default [] Accepting.

Definition live (s : Stage) : bool := match s with Stopped _ _ => false | _ => true end.

(** [run_until]: connections are accepted until shutdown, tasks end and are
    joined at any time, and after the grace period what is left is aborted. *)
Inductive server_step : Server -> Server -> Prop :=
| accepts c ts :
    server_step (mkServer c ts Accepting)
      (mkServer (count_accepted c) (ts ++ [(accepted c + 1, TaskRunning)]) Accepting)
| task_completes c a id b s up down :
    live s = true ->
    server_step (mkServer c (a ++ (id, TaskRunning) :: b) s)
      (mkServer (count_completed c up down) (a ++ (id, TaskOver false) :: b) s)
| task_fails c a id b s :
    live s = true ->
    server_step (mkServer c (a ++ (id, TaskRunning) :: b) s)
      (mkServer (count_failed c 1) (a ++ (id, TaskOver false) :: b) s)
| task_panics c a id b s :
    live s = true ->
    server_step (mkServer c (a ++ (id, TaskRunning) :: b) s) (mkServer c (a ++ (id, TaskOver true) :: b) s)
| joins c a id p b s :
    s = Accepting \/ s = Draining ->
    server_step (mkServer c (a ++ (id, TaskOver p) :: b) s)
      (mkServer (if p then count_failed c 1 else c) (a ++ b) s)
| shuts_down c ts : server_step (mkServer c ts Accepting) (mkServer c ts Draining)
| drains c n : server_step (mkServer c [] Draining) (mkServer c [] (Stopped true (stats c n)))
| grace_expires c t ts :
    server_step (mkServer c (t :: ts) Draining) (mkServer (count_failed c (blen (t :: ts))) (t :: ts) Aborting)
| aborts c a t b : server_step (mkServer c (a ++ t :: b) Aborting) (mkServer c (a ++ b) Aborting)
| aborted c n : server_step (mkServer c [] Aborting) (mkServer c [] (Stopped false (stats c n))).
End Proxy.
