(* ===== verification/ProxyFacts.v ===== *)
(** * ProxyFacts: what forwarding does to the bytes of a connection.

    Both directions are carried completely and in order in every interleaving
    of the pumps, forwarding ends, a request head is routed the same however it
    arrives, the observations of a flow have the shape the store expects, the
    channel loses nothing it does not count, and the server's counters add up. *)

From stdpp Require Import relations.
From S2P Require Import Prelude RustStd Net Core Protocol Http1 Proxy.
Import Proxy.
#[local] Open Scope lens_scope.

(** ** Streams *)

(** The bytes a stream yields before it ends or breaks, and whether it ends. *)
Fixpoint content (r : stream) : bytes :=
  match r with
  | Chunk (b :: s) :: r => b :: s ++ content r
  | _ => []
  end.

Fixpoint ends_well (r : stream) : bool :=
  match r with
  | Chunk (_ :: _) :: r => ends_well r
  | Broken _ :: _ => false
  | _ => true
  end.

(** What a read leaves to be read. *)
Lemma read_content cap r res rest :
  (0 < cap)%nat -> read cap r = (res, rest) ->
  match res with
  | ReadOk [] => content r = [] /\ ends_well r = true
  | ReadOk chunk =>
      content r = chunk ++ content rest /\ ends_well r = ends_well rest /\ (stream_size rest < stream_size r)%nat
  | ReadErr _ => content r = [] /\ ends_well r = false
  | ReadUnexpectedEof _ => content r = [] /\ ends_well r = true
  end.
Proof.
  intros Hcap. destruct r as [|[[|b s]|e|e] r]; cbn [read]; try (intros [<- <-]%pair_equal_spec; done).
  { intros [<- <-]%pair_equal_spec. by rewrite take_nil. }
  destruct cap as [|cap]; [lia|]. cbn [take]. intros [<- <-]%pair_equal_spec.
  destruct (Nat.leb_spec (length (b :: s)) (S cap)) as [Hl|Hl].
  - rewrite take_ge by (cbn in Hl; lia). cbn [content ends_well stream_size length]. split; [done|]. split; [done|lia].
  - cbn [drop]. assert (exists c t, drop cap s = c :: t) as (c & t & Hd).
    { destruct (drop cap s) as [|c t] eqn:E; [|by eauto]. apply (f_equal length) in E. rewrite length_drop in E. cbn in *. lia. }
    cbn [content ends_well stream_size length]. rewrite Hd. split; [|split].
    + cbn [app]. f_equal. rewrite <- (take_drop cap s) at 1. by rewrite Hd, <- app_assoc.
    + done.
    + rewrite <- Hd, length_drop. cbn in Hl. lia.
Qed.

(** Bytes read ahead come first: the wrapped reader reads as one stream. *)
Lemma poll_read_refines cap p r p' :
  (0 < cap)%nat -> poll_read cap p = (r, p') -> read cap (prefixed_stream p) = (r, prefixed_stream p').
Proof.
  intros Hcap. unfold poll_read, prefixed_stream. destruct (Nat.ltb_spec (offset p) (length (prefix p))) as [Ho|Ho].
  - intros [<- <-]%pair_equal_spec. cbn [inner prefix offset read]. set (av := drop (offset p) (prefix p)).
    assert (Hav : length av = (length (prefix p) - offset p)%nat) by (unfold av; by rewrite length_drop).
    f_equal; [f_equal; by destruct (Nat.min_spec (length av) cap) as [[? ->]|[? ->]]; [rewrite !take_ge by lia|]|].
    destruct (Nat.leb_spec (length av) cap) as [Hc|Hc].
    + rewrite Nat.min_l by done. by destruct (Nat.ltb_spec (offset p + length av) (length (prefix p))); [lia|].
    + rewrite Nat.min_r by lia. destruct (Nat.ltb_spec (offset p + cap) (length (prefix p))); [|lia].
      unfold av. by rewrite drop_drop.
  - destruct (read cap (inner p)) as [r0 rest] eqn:E. intros [<- <-]%pair_equal_spec. cbn [inner prefix offset].
    by destruct (Nat.ltb_spec (offset p) (length (prefix p))); [lia|].
Qed.

Lemma write_all_ok w s w' u : write_all w s = (w', Ok u) -> written w' = written w ++ s.
Proof. unfold write_all. destruct (breaks w) as [[n e]|]; [destruct (_ <=? _)%nat|]; by intros [<- ?]%pair_equal_spec. Qed.

Lemma write_all_err w s w' e :
  write_all w s = (w', Err e) -> exists part, part `prefix_of` s /\ written w' = written w ++ part.
Proof.
  unfold write_all. destruct (breaks w) as [[n e']|]; [destruct (_ <=? _)%nat|]; intros [<- ?]%pair_equal_spec; try done.
  exists (take n s). split; [apply prefix_take|done].
Qed.

Lemma pump_buffer_pos : (0 < pump_buffer)%nat.
Proof. by apply Nat.ltb_lt. Qed.

(** ** One direction *)

(** The bytes observed in one direction. *)
Fixpoint data_of (d : Direction) (obs : list ObservationKind) : bytes :=
  match obs with
  | [] => []
  | Data d' s :: obs => if bool_decide (d' = d) then s ++ data_of d obs else data_of d obs
  | _ :: obs => data_of d obs
  end.

Lemma data_of_app d a b : data_of d (a ++ b) = data_of d a ++ data_of d b.
Proof.
  induction a as [|k a IH]; [done|]. destruct k; cbn [data_of app]; try done.
  case_bool_decide; by rewrite IH, ?app_assoc.
Qed.

(** [carried src w0 sent p]: a pump from [src] to [w0] has carried [sent]. *)
Definition carried (src : stream) (w0 : Writer) (sent : bytes) (p : Pump) : Prop :=
  transferred p = Z.min u64_max (blen sent) /\
  match phase p with
  | Reading =>
      content src = sent ++ content (reader p) /\ ends_well src = ends_well (reader p) /\
      written (writer p) = written w0 ++ sent
  | Writing chunk =>
      chunk <> [] /\ content src = sent ++ chunk ++ content (reader p) /\ ends_well src = ends_well (reader p) /\
      written (writer p) = written w0 ++ sent
  | Done (Ok n) =>
      content src = sent /\ ends_well src = true /\ written (writer p) = written w0 ++ sent /\
      shut_down (writer p) = true /\ n = transferred p
  | Done (Err _) | Aborted =>
      exists part, (sent ++ part) `prefix_of` content src /\ written (writer p) = written w0 ++ sent ++ part
  end.

Lemma carried_start src w0 : carried src w0 [] (start_pump src w0).
Proof. by unfold carried; cbn; rewrite app_nil_r. Qed.

Lemma carried_step d inspect src w0 sent p p' obs :
  carried src w0 sent p -> pump_step d inspect p = Some (p', obs) ->
  exists more, carried src w0 (sent ++ more) p' /\ obs = if inspect then match more with [] => [] | _ => [Data d more] end else [].
Proof.
  unfold pump_step, carried. intros [Ht Hp]. destruct (phase p) as [|chunk|r|] eqn:Eph; try done.
  - destruct Hp as (Hc & He & Hw). destruct (read pump_buffer (reader p)) as [res rest] eqn:Er.
    pose proof (read_content _ _ _ _ pump_buffer_pos Er) as Hr.
    destruct res as [[|b s]|e|e].
    + intros [= <- <-]. exists []. cbn [phase transferred writer]. rewrite !app_nil_r. destruct Hr as [Hr1 Hr2].
      split; [|by destruct inspect]. split; [done|]. rewrite Hc, Hr1, app_nil_r, He, Hr2. done.
    + intros [= <- <-]. exists []. cbn [phase transferred writer reader]. rewrite !app_nil_r. destruct Hr as (Hr1 & Hr2 & _).
      split; [|by destruct inspect]. split; [done|]. split; [done|]. by rewrite Hc, Hr1, He, Hr2.
    + intros [= <- <-]. exists []. cbn [phase transferred writer]. rewrite !app_nil_r.
      split; [|by destruct inspect]. split; [done|]. exists []. rewrite !app_nil_r. split; [rewrite Hc; by apply prefix_app_r|done].
    + intros [= <- <-]. exists []. cbn [phase transferred writer]. rewrite !app_nil_r. destruct Hr as [Hr1 Hr2].
      split; [|by destruct inspect]. split; [done|]. rewrite Hc, Hr1, app_nil_r, He, Hr2. done.
  - destruct Hp as (Hne & Hc & He & Hw). destruct (write_all (writer p) chunk) as [w [u|e]] eqn:Ew.
    + apply write_all_ok in Ew. intros [= <- <-]. exists chunk. cbn [phase transferred writer reader].
      rewrite Ew, Hw, Hc, He, Ht, !app_assoc. repeat split; [|by destruct inspect, chunk].
      unfold sat_add. rewrite blen_app. pose proof (blen_nonneg chunk). unfold u64_max. lia.
    + apply write_all_err in Ew as (part & [rest ->] & Hw'). intros [= <- <-]. exists []. cbn [phase transferred writer].
      rewrite !app_nil_r. split; [|by destruct inspect]. split; [done|]. exists part. rewrite Hw', Hw, Hc, <- !app_assoc.
      split; [|done]. rewrite (app_assoc sent). by apply prefix_app_r.
Qed.

(** ** Both directions *)

Definition source_of (client upstream : Socket) (d : Direction) : stream :=
  match d with ClientToServer => incoming client | ServerToClient => incoming upstream end.
Definition sink_of (client upstream : Socket) (d : Direction) : Writer :=
  match d with ClientToServer => outgoing upstream | ServerToClient => outgoing client end.

Definition is_data (k : ObservationKind) : Prop := match k with Data _ _ => True | _ => False end.

Lemma side_set m d p obs d' : side (set_side m d p obs) d' = if bool_decide (d = d') then p else side m d'.
Proof. by destruct d, d'. Qed.
Lemma joined_set_side m d p obs d' : joined (set_side m d p obs) d' = joined m d'.
Proof. by destruct d, d'. Qed.
Lemma observed_set_side m d p obs : observed (set_side m d p obs) = observed m ++ obs.
Proof. by destruct d. Qed.
Lemma failing_set_side m d p obs : failing (set_side m d p obs) = failing m.
Proof. by destruct d. Qed.
Lemma outcome_set_side m d p obs : outcome (set_side m d p obs) = outcome m.
Proof. by destruct d. Qed.
Lemma side_set_joined m d n d' : side (set_joined m d n) d' = side m d'.
Proof. by destruct d, d'. Qed.
Lemma joined_set_joined m d n d' : joined (set_joined m d n) d' = if bool_decide (d = d') then Some n else joined m d'.
Proof. by destruct d, d'. Qed.
Lemma rest_set_joined m d n :
  observed (set_joined m d n) = observed m /\ failing (set_joined m d n) = failing m /\ outcome (set_joined m d n) = outcome m.
Proof. by destruct d. Qed.

Create Rewrite HintDb mirror.
#[local] Hint Rewrite side_set joined_set_side observed_set_side failing_set_side outcome_set_side
  side_set_joined joined_set_joined : mirror.

Section Relay.
Context (inspect : bool) (client upstream : Socket).

(** The state of a relay between [client] and [upstream]. *)
Record relayed (m : Mirror) : Prop := {
  relayed_sides d : exists sent,
    carried (source_of client upstream d) (sink_of client upstream d) sent (side m d) /\
    data_of d (observed m) = if inspect then sent else [];
  relayed_data : Forall is_data (observed m);
  relayed_joined d n : joined m d = Some n -> phase (side m d) = Done (Ok n);
  relayed_failing e : failing m = Some e -> exists d, phase (side m d) = Done (Err e);
  relayed_aborted d : phase (side m d) = Aborted -> failing m <> None;
  relayed_ok a b : outcome m = Some (Ok (a, b)) -> joined m ClientToServer = Some a /\ joined m ServerToClient = Some b;
  relayed_err x : outcome m = Some (Err x) -> exists e, failing m = Some e /\ Err x = failed (A := unit) "forward" e }.

Lemma relayed_start : relayed (mirror_start client upstream).
Proof.
  split; try done.
  - intros d. exists []. split; [by destruct d; apply carried_start|by destruct inspect].
  - by intros [].
  - by intros [].
Qed.

Lemma pump_step_stopped d i p r : pump_step d i p = Some r -> running p = true.
Proof. unfold pump_step, running. by destruct (phase p). Qed.

Lemma pump_step_not_aborted d i p p' obs : pump_step d i p = Some (p', obs) -> phase p' <> Aborted.
Proof.
  unfold pump_step. destruct (phase p) as [|chunk|r|]; try done.
  - destruct (read _ _) as [[[|b c]|e|e] rest]; by intros [= <- _].
  - destruct (write_all _ _) as [w [u|e]]; by intros [= <- _].
Qed.

Lemma relayed_side_step m d p obs :
  relayed m -> running (side m d) = true -> outcome m = None -> Forall is_data obs ->
  (forall d' sent,
     carried (source_of client upstream d') (sink_of client upstream d') sent (side m d') ->
     d = d' ->
     exists more, carried (source_of client upstream d') (sink_of client upstream d') (sent ++ more) p /\
                  data_of d' obs = if inspect then more else []) ->
  (forall d', d <> d' -> data_of d' obs = []) ->
  (phase p = Aborted -> failing m <> None) ->
  relayed (set_side m d p obs).
Proof.
  intros Hm Hrun Hout Hobs Hsame Hother Hnab. destruct Hm as [Hs Hd Hj Hf Hab Ho He].
  assert (Hphase : forall r, phase (side m d) = Done r -> False) by (intros r E; unfold running in Hrun; by rewrite E in Hrun).
  split; autorewrite with mirror.
  - intros d'. destruct (Hs d') as (sent & Hc & Hdata). autorewrite with mirror. rewrite data_of_app, Hdata.
    case_bool_decide as Hdd.
    + destruct (Hsame d' sent Hc Hdd) as (more & Hmore & ->). exists (sent ++ more). split; [done|]. by destruct inspect.
    + rewrite (Hother _ Hdd), app_nil_r. eauto.
  - by apply Forall_app_2.
  - intros d' n. autorewrite with mirror. intros Hjn. apply Hj in Hjn. case_bool_decide; subst; [|done].
    by destruct (Hphase _ Hjn).
  - intros e Hfe. destruct (Hf e Hfe) as [d' Hd']. exists d'. autorewrite with mirror. case_bool_decide; subst; [|done].
    by destruct (Hphase _ Hd').
  - intros d'. autorewrite with mirror. case_bool_decide; [done|apply Hab].
  - by rewrite Hout.
  - by rewrite Hout.
Qed.

Lemma relayed_step m m' : relayed m -> mirror_step inspect m m' -> relayed m'.
Proof.
  intros Hm Hstep. destruct Hstep as [m d p obs Ho Hp|m d n Ho Hf Hp Hj|m d e Ho Hf Hp|m d e k Ho Hf Hr|m e Ho Hf H1 H2|m a b Ho Ha Hb].
  - apply relayed_side_step; [done|by eapply pump_step_stopped|done|..].
    + destruct (relayed_sides _ Hm d) as (sent & Hc & _). destruct (carried_step _ _ _ _ _ _ _ _ Hc Hp) as ([|b more] & _ & ->);
        destruct inspect; by repeat constructor.
    + intros d' sent Hc <-. destruct (carried_step _ _ _ _ _ _ _ _ Hc Hp) as (more & Hc' & ->). exists more. split; [done|].
      destruct inspect, more; try done. cbn. by rewrite bool_decide_eq_true_2, app_nil_r.
    + intros d' Hd. destruct (relayed_sides _ Hm d) as (sent & Hc & _).
      destruct (carried_step _ _ _ _ _ _ _ _ Hc Hp) as ([|b more] & _ & ->); destruct inspect; try done.
      cbn. by rewrite bool_decide_eq_false_2.
    + intros Hab. by destruct (pump_step_not_aborted _ _ _ _ _ Hp).
  - destruct Hm as [Hs Hd Hj' Hf' Hab' Ho' He']. destruct (rest_set_joined m d n) as (E1 & E2 & E3).
    split; rewrite ?E1, ?E2, ?E3.
    + intros d'. autorewrite with mirror. apply Hs.
    + done.
    + intros d' n'. autorewrite with mirror. case_bool_decide; subst; [by intros [= <-]|apply Hj'].
    + intros e' Hfe. by rewrite Hf in Hfe.
    + intros d'. autorewrite with mirror. apply Hab'.
    + by rewrite Ho.
    + by rewrite Ho.
  - destruct Hm as [Hs Hd Hj' Hf' Hab' Ho' He']. split; cbn; try done.
    + intros e' [= <-]. exists d. by destruct d.
    + by rewrite Ho.
  - apply relayed_side_step; [done..| |done|by rewrite Hf]. intros d' sent [Ht Hc] <-. exists []. rewrite app_nil_r. split; [|by destruct inspect].
    unfold carried, abort, running in *. destruct (phase (side m d)) as [|chunk|r|]; try done; cbn [transferred phase writer written].
    + destruct Hc as (Hc & _ & Hw). split; [done|]. exists []. rewrite !app_nil_r. split; [rewrite Hc; by apply prefix_app_r|done].
    + destruct Hc as (_ & Hc & _ & Hw). split; [done|]. exists (take k chunk). rewrite Hc, Hw, <- app_assoc. split; [|done].
      apply prefix_app, prefix_app_r, prefix_take.
  - destruct Hm as [Hs Hd Hj' Hf' Hab' Ho' He']. split; cbn; try done. intros x [= <-]. eauto.
  - destruct Hm as [Hs Hd Hj' Hf' Hab' Ho' He']. split; cbn; try done. by intros a' b' [= <- <-].
Qed.

Lemma relayed_run m : rtc (mirror_step inspect) (mirror_start client upstream) m -> relayed m.
Proof.
  generalize relayed_start. intros Hs Hr. induction Hr as [|m m' m'' Hstep _ IH]; [done|]. eauto using relayed_step.
Qed.
End Relay.

(** C4. Forwarding is transparent: in every interleaving of the two pumps, and
    whatever the peers do, each peer has received a prefix of what the other
    sent, in order, and what is observed of a direction is exactly what was
    completely forwarded (nothing for uninspected traffic); when forwarding
    succeeds, each peer has received everything the other sent before its end,
    the end was passed on, and the counts are the numbers of bytes. *)
Theorem mirror_transparent (inspect : bool) (client upstream : Socket) (m : Mirror) (d : Direction) :
  rtc (mirror_step inspect) (mirror_start client upstream) m ->
  Forall is_data (observed m) /\
  (exists sent part,
     (sent ++ part) `prefix_of` content (source_of client upstream d) /\
     written (writer (side m d)) = written (sink_of client upstream d) ++ sent ++ part /\
     data_of d (observed m) = if inspect then sent else []) /\
  (forall a b, outcome m = Some (Ok (a, b)) ->
     written (writer (side m d)) = written (sink_of client upstream d) ++ content (source_of client upstream d) /\
     data_of d (observed m) = (if inspect then content (source_of client upstream d) else []) /\
     ends_well (source_of client upstream d) = true /\ shut_down (writer (side m d)) = true /\
     match d with ClientToServer => a | ServerToClient => b end
     = Z.min u64_max (blen (content (source_of client upstream d)))).
Proof.
  intros Hm%relayed_run. destruct (relayed_sides _ _ _ _ Hm d) as (sent & [Ht Hc] & Hd).
  split; [apply (relayed_data _ _ _ _ Hm)|]. split.
  - exists sent. rewrite Hd. destruct (phase (side m d)) as [|chunk|[n|e]|]; try (destruct Hc as (part & Hp & ->); by exists part); exists [];
      rewrite app_nil_r.
    + destruct Hc as (-> & _ & ->). split; [by apply prefix_app_r|done].
    + destruct Hc as (_ & -> & _ & ->). split; [by apply prefix_app_r|done].
    + by destruct Hc as (-> & _ & -> & _).
  - intros a b Ho. destruct (relayed_ok _ _ _ _ Hm _ _ Ho) as [Ha Hb].
    assert (Hph : phase (side m d) = Done (Ok (match d with ClientToServer => a | ServerToClient => b end)))
      by (destruct d; by apply (relayed_joined _ _ _ _ Hm)).
    rewrite Hph in Hc. destruct Hc as (-> & He & Hw & Hsd & Hn). by rewrite Hd, Hn, Ht.
Qed.

(** ** Forwarding ends *)

Definition pump_measure (p : Pump) : nat :=
  match phase p with
  | Reading => 2 * stream_size (reader p) + 2
  | Writing _ => 2 * stream_size (reader p) + 3
  | _ => 0
  end.

Definition pending {A} (o : option A) : nat := match o with None => 1 | Some _ => 0 end.

Definition mirror_measure (m : Mirror) : nat :=
  pump_measure (up m) + pump_measure (down m) + pending (client_to_upstream m) + pending (upstream_to_client m)
  + pending (failing m) + pending (outcome m).

Lemma pump_step_measure d i p p' obs : pump_step d i p = Some (p', obs) -> (pump_measure p' < pump_measure p)%nat.
Proof.
  unfold pump_step, pump_measure. destruct (phase p) as [|chunk|r|]; try done.
  - destruct (read pump_buffer (reader p)) as [res rest] eqn:Er.
    pose proof (read_content _ _ _ _ pump_buffer_pos Er) as Hr.
    destruct res as [[|b c]|e|e]; intros [= <- <-]; cbn [phase reader]; lia.
  - destruct (write_all _ _) as [w [u|e]]; intros [= <- <-]; cbn [phase reader]; lia.
Qed.

Lemma mirror_step_measure inspect m m' : mirror_step inspect m m' -> (mirror_measure m' < mirror_measure m)%nat.
Proof.
  unfold mirror_measure.
  intros [m0 d p obs Ho Hp|m0 d n Ho Hf Hp Hj|m0 d e Ho Hf Hp|m0 d e k Ho Hf Hr|m0 e Ho Hf H1 H2|m0 a b Ho Ha Hb].
  - apply pump_step_measure in Hp. destruct d; cbn in *; lia.
  - destruct d; cbn in *; rewrite Hj; cbn; lia.
  - cbn. rewrite Hf. cbn. lia.
  - assert ((0 < pump_measure (side m0 d))%nat)
      by (unfold running, pump_measure in *; destruct (phase (side m0 d)); try done; lia).
    destruct d; cbn in *; lia.
  - cbn. rewrite Ho. cbn. lia.
  - cbn. rewrite Ho. cbn. lia.
Qed.

(** A schedule: the client's pump first, then the other, then the joins. *)
Definition mirror_next (inspect : bool) (m : Mirror) : option Mirror :=
  match outcome m, failing m with
  | Some _, _ => None
  | None, _ =>
      match pump_step ClientToServer inspect (up m), pump_step ServerToClient inspect (down m) with
      | Some (p, obs), _ => Some (set_side m ClientToServer p obs)
      | None, Some (p, obs) => Some (set_side m ServerToClient p obs)
      | None, None =>
          match failing m, phase (up m), phase (down m) with
          | Some e, _, _ => Some (set_outcome m (failed "forward" e))
          | None, Done (Err e), _ => Some (set_failing m e)
          | None, _, Done (Err e) => Some (set_failing m e)
          | None, Done (Ok a), Done (Ok b) =>
              match client_to_upstream m, upstream_to_client m with
              | None, _ => Some (set_joined m ClientToServer a)
              | _, None => Some (set_joined m ServerToClient b)
              | Some a, Some b => Some (set_outcome m (Ok (a, b)))
              end
          | _, _, _ => None
          end
      end
  end.

Lemma pump_step_none d i p : pump_step d i p = None -> running p = false.
Proof.
  unfold pump_step, running. destruct (phase p) as [|chunk|r|]; try done.
  - by destruct (read _ _) as [[[|b c]|e|e] rest].
  - by destruct (write_all _ _) as [w [u|e]].
Qed.

Lemma mirror_next_step inspect m m' : mirror_next inspect m = Some m' -> mirror_step inspect m m'.
Proof.
  unfold mirror_next. destruct (outcome m) eqn:Ho; [done|].
  destruct (pump_step ClientToServer inspect (up m)) as [[p obs]|] eqn:E1.
  { intros <-%(inj Some). by apply pump_runs. }
  destruct (pump_step ServerToClient inspect (down m)) as [[p obs]|] eqn:E2.
  { intros <-%(inj Some). by apply pump_runs. }
  apply pump_step_none in E1, E2. destruct (failing m) as [e|] eqn:Hf.
  { intros <-%(inj Some). by apply all_stopped. }
  destruct (phase (up m)) as [| |[a|e]|] eqn:P1, (phase (down m)) as [| |[b|e']|] eqn:P2; try done;
    try (intros <-%(inj Some); by eapply (pump_fails _ _ ClientToServer)); try (intros <-%(inj Some); by eapply (pump_fails _ _ ServerToClient)).
  destruct (client_to_upstream m) eqn:J1; [|intros <-%(inj Some); by apply (pump_joins _ _ ClientToServer)].
  destruct (upstream_to_client m) eqn:J2; intros <-%(inj Some); [by apply all_joined|by apply (pump_joins _ _ ServerToClient)].
Qed.

Lemma mirror_next_none inspect client upstream m :
  relayed inspect client upstream m -> mirror_next inspect m = None -> outcome m <> None.
Proof.
  intros Hm. unfold mirror_next. destruct (outcome m) eqn:Ho; [done|].
  destruct (pump_step ClientToServer inspect (up m)) as [[p obs]|] eqn:E1; [done|].
  destruct (pump_step ServerToClient inspect (down m)) as [[p obs]|] eqn:E2; [done|].
  apply pump_step_none in E1, E2. unfold running in E1, E2. destruct (failing m) as [e|] eqn:Hf; [done|].
  pose proof (relayed_aborted _ _ _ _ Hm ClientToServer) as A1. pose proof (relayed_aborted _ _ _ _ Hm ServerToClient) as A2.
  cbn [side] in A1, A2. destruct (phase (up m)) as [| |[a|e]|], (phase (down m)) as [| |[b|e']|]; try done; try (by destruct A1); try (by destruct A2).
  by destruct (client_to_upstream m), (upstream_to_client m).
Qed.

(** A complete run under that schedule. *)
Definition scheduled (inspect : bool) (client upstream : Socket) : Mirror :=
  iterate mirror_measure (fun m => match mirror_next inspect m with Some m' => inl m' | None => inr m end)
    (fun m => m) (mirror_start client upstream).

(** Complete runs of [mirror_bidirectional]. *)
Definition complete (mirror : bool -> Socket -> Socket -> Mirror) : Prop :=
  forall inspect client upstream,
    rtc (mirror_step inspect) (mirror_start client upstream) (mirror inspect client upstream) /\
    outcome (mirror inspect client upstream) <> None.

Lemma scheduled_complete : complete scheduled.
Proof.
  intros inspect client upstream. unfold scheduled.
  apply (iterate_ind mirror_measure _ (relayed inspect client upstream) (fun m => m)
           (fun m r => rtc (mirror_step inspect) m r /\ outcome r <> None)).
  - intros m m' Hm. destruct (mirror_next inspect m) as [m''|] eqn:E; [|done]. intros [= <-]. apply mirror_next_step in E.
    split; [by eapply relayed_step|by eapply mirror_step_measure].
  - intros m r Hm. destruct (mirror_next inspect m) as [m''|] eqn:E; [done|]. intros [= <-].
    split; [done|by eapply mirror_next_none].
  - intros m m' r Hm. destruct (mirror_next inspect m) as [m''|] eqn:E; [|done]. intros [= <-] [Hr Ho].
    split; [|done]. eapply rtc_l; [by apply mirror_next_step|done].
  - apply relayed_start.
Qed.

(** C11. Forwarding ends: every interleaving of the pumps of a connection whose
    peers send finitely much is finite, and it can only stop with a result. *)
Theorem mirror_terminates (inspect : bool) (client upstream : Socket) :
  sn (mirror_step inspect) (mirror_start client upstream) /\
  (forall m, rtc (mirror_step inspect) (mirror_start client upstream) m -> nf (mirror_step inspect) m -> outcome m <> None).
Proof.
  split.
  - apply (Wf_nat.well_founded_lt_compat _ mirror_measure). intros m m'. apply mirror_step_measure.
  - intros m Hm%relayed_run Hnf. apply (mirror_next_none inspect client upstream _ Hm).
    destruct (mirror_next inspect m) as [m'|] eqn:E; [|done]. destruct Hnf. exists m'. by apply mirror_next_step.
Qed.

(** An example: both peers send and close. *)
Definition peer (s : string) : Socket := mkSocket [Chunk (lit s)] (mkWriter [] None false).

Lemma mirror_transparent_witness :
  written (writer (up (scheduled true (peer "ping") (peer "pong")))) = lit "ping".
Proof.
  destruct (mirror_transparent true (peer "ping") (peer "pong") (scheduled true (peer "ping") (peer "pong"))
              ClientToServer (proj1 (scheduled_complete _ _ _))) as (_ & _ & Hok).
  destruct (Hok 4 4) as (Hw & _); [by vm_compute|]. exact Hw.
Defined.

(** ** Routing by the first request *)

(** A stream that starts with a request head of acceptable size. *)
Record starts_with_head (client : stream) (head rest : bytes) : Prop := {
  head_content : content client = head ++ crlf2 ++ rest;
  head_end : find_header_end (head ++ crlf2) = Some (length head);
  head_size : blen head + 4 <= MAX_HTTP_HEAD_BYTES }.

(** What was read while the head was incomplete. *)
Definition collecting (client : stream) (st : HeadRead) : Prop :=
  content client = head_buffer st ++ content (head_client st) /\
  ends_well client = ends_well (head_client st) /\ find_header_end (head_buffer st) = None.

Lemma route_chunk_pos : (0 < route_read_chunk)%nat.
Proof. by apply Nat.ltb_lt. Qed.

Lemma head_decreasing client :
  decreasing (fun st => stream_size (head_client st)) head_step (collecting client).
Proof.
  intros st st' (Hc & He & Hf). unfold head_step. destruct (_ <=? _); [done|].
  destruct (read route_read_chunk (head_client st)) as [res r] eqn:Er.
  pose proof (read_content _ _ _ _ route_chunk_pos Er) as Hr. destruct res as [[|b s]|e|e]; try done.
  destruct (find_header_end (head_buffer st ++ b :: s)) eqn:E; [done|]. intros [= <-]. cbn [head_client].
  destruct Hr as (H1 & H2 & H3). split; [|done]. split; cbn [head_buffer head_client].
  - by rewrite Hc, H1, app_assoc.
  - by rewrite He, H2.
Qed.

Lemma collecting_short client st head rest :
  starts_with_head client head rest -> collecting client st -> (length (head_buffer st) < length head + 4)%nat.
Proof.
  intros [Hc Hf _] (Hb & _ & Hn). destruct (Nat.lt_ge_cases (length (head_buffer st)) (length head + 4)) as [|Hl]; [done|].
  rewrite Hb in Hc. rewrite app_assoc in Hc.
  assert (Hp : head_buffer st = (head ++ crlf2) ++ drop (length (head ++ crlf2)) (head_buffer st)).
  { apply (f_equal (take (length (head ++ crlf2)))) in Hc. rewrite (take_app_length (head ++ crlf2)) in Hc.
    rewrite take_app_le in Hc by (rewrite length_app; cbn; lia).
    rewrite <- (take_drop (length (head ++ crlf2)) (head_buffer st)) at 1. by rewrite Hc. }
  unfold find_header_end in *. rewrite Hp in Hn. by rewrite (find_bytes_app _ _ _ _ Hf) in Hn.
Qed.

Lemma read_head_exact client head rest :
  starts_with_head client head rest ->
  exists ahead later, read_head client = (Ok (head ++ crlf2 ++ ahead, length head), later) /\
    ahead ++ content later = rest /\ ends_well later = ends_well client.
Proof.
  intros Hh. unfold read_head.
  apply (iterate_ind (fun st => stream_size (head_client st)) head_step (collecting client) _
           (fun _ r => exists ahead later, r = (Ok (head ++ crlf2 ++ ahead, length head), later) /\
              ahead ++ content later = rest /\ ends_well later = ends_well client)); [apply head_decreasing| |done|].
  - intros st r Hst. pose proof (collecting_short _ _ _ _ Hh Hst) as Hshort. destruct Hh as [Hc Hf Hs], Hst as (Hb & He & Hn).
    unfold head_step. destruct (Z.leb_spec MAX_HTTP_HEAD_BYTES (blen (head_buffer st))); [unfold blen in *; lia|].
    destruct (read route_read_chunk (head_client st)) as [res later] eqn:Er.
    pose proof (read_content _ _ _ _ route_chunk_pos Er) as Hr.
    assert (Hne : content (head_client st) <> []).
    { intros E. rewrite Hb, E, app_nil_r in Hc. rewrite Hc, !length_app in Hshort. cbn in Hshort. lia. }
    destruct res as [[|b s]|e|e]; try (by destruct Hr). destruct Hr as (H1 & H2 & _).
    destruct (find_header_end (head_buffer st ++ b :: s)) as [i|] eqn:E; [|done]. intros [= <-].
    assert (Hbuf : (head_buffer st ++ b :: s) ++ content later = head ++ crlf2 ++ rest)
      by (rewrite <- Hc, Hb, H1; by rewrite <- app_assoc).
    assert (i = length head) as ->.
    { unfold find_header_end in *. apply (find_bytes_app _ _ (content later)) in E. rewrite Hbuf, app_assoc in E.
      rewrite (find_bytes_app _ _ rest _ Hf) in E. congruence. }
    pose proof (find_bytes_bound _ _ _ E) as Hbound. change (length crlf2) with 4%nat in Hbound.
    exists (drop (length head + 4) (head_buffer st ++ b :: s)), later. split; [|split].
    + do 2 f_equal. rewrite app_assoc. rewrite <- (take_drop (length head + 4) (head_buffer st ++ b :: s)) at 1. f_equal. f_equal.
      apply (f_equal (take (length head + 4))) in Hbuf. rewrite take_app_le in Hbuf by lia.
      rewrite Hbuf, app_assoc, take_app_length' by (rewrite length_app; cbn; lia). done.
    + apply (f_equal (drop (length head + 4))) in Hbuf. rewrite drop_app_le in Hbuf by lia. rewrite Hbuf.
      rewrite app_assoc, drop_app_length' by (rewrite length_app; cbn; lia). done.
    + by rewrite He, H2.
  - by destruct Hh as [Hc Hf Hs].
Qed.

(** Routing does not depend on how the request arrives: when the client's
    stream starts with a head of at most 64 KiB, the route is that of the
    head, what was read behind the head goes with it, and what remains to be
    read is exactly the rest. *)
Theorem http_route_exact `{Http} (client : stream) (head rest : bytes) :
  starts_with_head client head rest ->
  exists ahead later, read_http_route client = (route_of head ahead, later) /\
    ahead ++ content later = rest /\ ends_well later = ends_well client.
Proof.
  intros Hh. destruct (read_head_exact _ _ _ Hh) as (ahead & later & E & Hrest & He). exists ahead, later. split; [|done].
  unfold read_http_route. rewrite E. f_equal. f_equal; [apply take_app_length|].
  by rewrite app_assoc, drop_app_length' by (rewrite length_app; cbn; lia).
Qed.

(** *** What rewriting does to a request *)

(** A word of visible ASCII characters, and the request line of three. *)
Definition word (s : bytes) : Prop := s <> [] /\ forallb (in_range 33 126) s = true.
Definition request_line (method target version : bytes) : bytes := method ++ lit " " ++ target ++ lit " " ++ version.

Lemma visible_ws b r : in_range 33 126 b = true -> ws_len (b :: r) = 0%nat.
Proof.
  unfold in_range. rewrite andb_true_iff, !Z.leb_le. intros Hb. unfold ws_len.
  assert (in_range 9 13 b = false) as -> by (unfold in_range; apply andb_false_iff; right; apply Z.leb_gt; lia).
  assert (forall c, byte_val c < 33 \/ 126 < byte_val c -> (b =b c) = false) as Hne.
  { intros c Hc. apply byte_eqb_neq. intros ->. lia. }
  by rewrite !Hne by (vm_compute; auto).
Qed.

Lemma visible_ascii b : in_range 33 126 b = true -> is_ascii b = true /\ b <> x0d.
Proof.
  unfold in_range, is_ascii. rewrite andb_true_iff, !Z.leb_le. intros Hb. split; [apply Z.ltb_lt; lia|]. intros ->.
  vm_compute in Hb. by destruct Hb.
Qed.

Lemma split_word cur s rest :
  forallb (in_range 33 126) s = true -> split_ws_go 0 cur (s ++ rest) = split_ws_go 0 (cur ++ s) rest.
Proof.
  revert cur. induction s as [|b s IH]; intros cur; [by rewrite app_nil_r|]. cbn [forallb app split_ws_go].
  rewrite andb_true_iff. intros [Hb Hs]. rewrite visible_ws by done. rewrite IH by done. by rewrite <- app_assoc.
Qed.

Lemma flush_word s : s <> [] -> flush s = [s].
Proof. by destruct s. Qed.

Lemma split_request_line m t v : word m -> word t -> word v -> split_whitespace (request_line m t v) = [m; t; v].
Proof.
  intros [Hm Vm] [Ht Vt] [Hv Vv]. unfold split_whitespace, request_line. rewrite split_word by done. cbn [app].
  change (lit " ") with [" "%byte]. cbn [app split_ws_go]. change (ws_len (" "%byte :: _)) with 1%nat. cbn [split_ws_go].
  rewrite flush_word by done. cbn [app]. f_equal. rewrite split_word by done. cbn [app split_ws_go].
  change (ws_len (" "%byte :: _)) with 1%nat. rewrite flush_word by done. cbn [app]. f_equal.
  rewrite <- (app_nil_r v) at 1. rewrite split_word by done. cbn [app split_ws_go]. by apply flush_word.
Qed.

Lemma trim_end_visible s b : in_range 33 126 b = true -> trim_end (s ++ [b]) = s ++ [b].
Proof.
  intros Hb. assert (Hws : forall t, all_ws (t ++ [b]) = false).
  { unfold all_ws, trim_start. intros t.
    assert (Hgo : forall k, (k <= length t)%nat -> trim_start_go k (t ++ [b]) <> []).
    { induction t as [|c t IH]; intros k Hk.
      - destruct k; [|cbn in Hk; lia]. cbn [app trim_start_go]. by rewrite visible_ws.
      - cbn [app trim_start_go]. destruct k as [|k]; [|apply IH; cbn in Hk; lia].
        destruct (ws_len (c :: t ++ [b])) as [|k] eqn:E; [done|]. apply IH.
        assert (Hlen : (ws_len (c :: t ++ [b]) <= S (length t))%nat); [|lia].
        clear -Hb. unfold ws_len. assert (Hn : forall i q, (forall x, q x = true -> in_range 33 126 x = false) ->
           nth_is q (t ++ [b]) i = true -> (i < length t)%nat).
        { intros i q Hq. unfold nth_is. destruct (Nat.lt_trichotomy i (length t)) as [|[->|]]; [done|..].
          - rewrite list_lookup_middle by done. intros K. by rewrite (Hq _ K) in Hb.
          - rewrite lookup_ge_None_2 by (rewrite length_app; cbn; lia). done. }
        repeat case_match; try lia;
          repeat match goal with
          | K : _ && _ = true |- _ => apply andb_true_iff in K as [? ?]
          | K : _ || _ = true |- _ => apply orb_true_iff in K as [?|?]
          end;
          repeat match goal with
          | K : nth_is _ _ _ = true |- _ => apply Hn in K; [|by intros []]
          end; lia. }
    specialize (Hgo 0%nat ltac:(lia)). by destruct (trim_start_go 0 (t ++ [b])). }
  induction s as [|c s IH]; cbn [app trim_end].
  - specialize (Hws []). cbn [app] in Hws. by rewrite Hws.
  - specialize (Hws (c :: s)). cbn [app] in Hws. by rewrite Hws, IH.
Qed.

Lemma word_snoc s : word s -> exists t b, s = t ++ [b] /\ in_range 33 126 b = true.
Proof.
  intros [Hne Hv]. destruct s as [|b t] using rev_ind; [done|]. exists t, b. split; [done|].
  rewrite forallb_app in Hv. apply andb_true_iff in Hv as [_ Hv]. cbn in Hv. by rewrite andb_true_r in Hv.
Qed.

Lemma trim_request_line m t v : word m -> word v -> trim (request_line m t v) = request_line m t v.
Proof.
  intros [Hm Vm] (v0 & b & -> & Hb)%word_snoc. unfold trim.
  assert (trim_start (request_line m t (v0 ++ [b])) = request_line m t (v0 ++ [b])) as ->.
  { unfold request_line. destruct m as [|c m]; [done|]. cbn [app forallb] in *. apply andb_true_iff in Vm as [Vc _].
    unfold trim_start. cbn [trim_start_go]. by rewrite visible_ws. }
  unfold request_line. rewrite !app_assoc. by apply trim_end_visible.
Qed.

Lemma visible_line_ok s : forallb (fun b => in_range 32 126 b) s = true -> line_ok s = true /\ utf8_valid s = true.
Proof.
  intros Hs. split.
  - unfold line_ok, contains. induction s as [|b s IH]; [done|]. cbn [forallb] in Hs. apply andb_true_iff in Hs as [Hb Hs].
    cbn [find_bytes]. assert (starts_with crlf (b :: s) = false) as ->.
    { cbn [starts_with crlf]. apply andb_false_iff. left. apply byte_eqb_neq. by intros <-. }
    specialize (IH Hs). by destruct (find_bytes s crlf).
  - apply ascii_valid. rewrite forallb_forall in *. intros b Hb. specialize (Hs b Hb). unfold in_range in Hs.
    rewrite andb_true_iff, !Z.leb_le in Hs. apply Z.ltb_lt. lia.
Qed.

Lemma word_printable s : word s -> forallb (fun b => in_range 32 126 b) s = true.
Proof.
  intros [_ Hv]. rewrite forallb_forall in *. intros b Hb. specialize (Hv b Hb). unfold in_range in *.
  rewrite andb_true_iff, !Z.leb_le in *. lia.
Qed.

Lemma request_line_printable m t v : word m -> word t -> word v -> forallb (fun b => in_range 32 126 b) (request_line m t v) = true.
Proof. intros Hm Ht Hv. unfold request_line. by rewrite !forallb_app, (word_printable m), (word_printable t), (word_printable v). Qed.

(** The header lines that are passed on, and the headers. *)
Definition kept_lines (ls : list bytes) : list bytes := List.filter (fun l => negb (proxy_line l)) ls.
Definition proxy_header (h : bytes * bytes) : bool :=
  eq_ignore_ascii_case (fst h) (lit "proxy-connection") || eq_ignore_ascii_case (fst h) (lit "proxy-authorization").
Definition kept_headers (hs : list (bytes * bytes)) : list (bytes * bytes) := List.filter (fun h => negb (proxy_header h)) hs.

Lemma rewrite_lines_join l ls rest :
  l ++ crlf ++ rewrite_lines ls ++ crlf ++ rest = join crlf (l :: kept_lines ls) ++ crlf2 ++ rest.
Proof.
  unfold crlf2. revert l. induction ls as [|l' ls IH]; intros l; [by rewrite <- app_assoc|].
  cbn [rewrite_lines kept_lines List.filter]. destruct (proxy_line l') eqn:E; cbn [negb]; [apply IH|].
  rewrite join_cons by done. rewrite <- !app_assoc. do 2 f_equal. rewrite (IH l'). by rewrite <- !app_assoc.
Qed.

Lemma ignore_case_other n (a b : string) :
  to_ascii_lowercase (lit a) <> to_ascii_lowercase (lit b) ->
  eq_ignore_ascii_case n (lit a) = true -> eq_ignore_ascii_case n (lit b) = false.
Proof. unfold eq_ignore_ascii_case. rewrite bytes_eqb_eq, bytes_eqb_neq. congruence. Qed.

Lemma proxy_header_inert h :
  proxy_header h = true ->
  eq_ignore_ascii_case (fst h) (lit "content-length") = false /\
  eq_ignore_ascii_case (fst h) (lit "transfer-encoding") = false.
Proof.
  unfold proxy_header. rewrite orb_true_iff.
  intros [E|E]; split; (eapply ignore_case_other; [|exact E]); by vm_compute.
Qed.

Lemma parse_kept_lines ls hs cl ch hs' cl' ch' :
  Http1.parse_header_lines ls hs cl ch = Ok (hs', cl', ch') ->
  exists more, hs' = hs ++ more /\
    forall g, Http1.parse_header_lines (kept_lines ls) g cl ch = Ok (g ++ kept_headers more, cl', ch').
Proof.
  revert hs cl ch. induction ls as [|l ls IH]; intros hs cl ch; cbn [Http1.parse_header_lines].
  { intros [= <- <- <-]. exists []. split; [by rewrite app_nil_r|]. intros g. cbn. by rewrite app_nil_r. }
  destruct (split_once ":"%byte l) as [[name value]|] eqn:El; [|done].
  set (h := (trim name, trim value)). match goal with |- context [let? content_length := ?e in _] => set (cl1 := e) end.
  destruct cl1 as [cl1'|] eqn:Ecl; [|done]. subst cl1. intros Hp. apply IH in Hp as (more & -> & Hmore).
  exists (h :: more). split; [by rewrite <- app_assoc|]. intros g.
  assert (Hline : proxy_line l = proxy_header h) by (unfold proxy_line, proxy_header; by rewrite El).
  cbn [kept_lines kept_headers List.filter]. rewrite Hline. destruct (proxy_header h) eqn:Eh; cbn [negb].
  - apply proxy_header_inert in Eh as [E1 E2]. cbn [fst h] in E1, E2. rewrite E1 in Ecl. injection Ecl as <-.
    specialize (Hmore g). by rewrite E2, andb_false_l, orb_false_r in Hmore.
  - cbn [Http1.parse_header_lines]. rewrite El, Ecl, Hmore. by rewrite <- app_assoc.
Qed.

Lemma Ok_inj {A} (a b : A) : Ok a = Ok b -> a = b.
Proof. by intros [= ->]. Qed.

Lemma starts_with_word n m x :
  forallb (fun b => negb (b =b " "%byte)) n = true -> starts_with n (m ++ lit " " ++ x) = starts_with n m.
Proof.
  revert m. induction n as [|c n IH]; intros m; [by destruct m|]. cbn [forallb]. rewrite andb_true_iff. intros [Hc Hn].
  destruct m as [|b m]; cbn [app starts_with].
  - apply negb_true_iff in Hc. change (lit " " ++ x) with (" "%byte :: x). cbn [starts_with]. by rewrite Hc.
  - by rewrite IH.
Qed.

(** A parsed request head: its lines, and what was found in them. *)
Lemma parsed_head head parsed line :
  Http1.parse head = Ok parsed -> hd_error (split_crlf head) = Some line ->
  exists ls, split_crlf head = line :: ls /\ utf8_valid head = true /\ Http1.is_response parsed = starts_with (lit "HTTP/1.") (trim line) /\
    Http1.parse_header_lines ls [] None false = Ok (Http1.head_headers parsed, Http1.content_length parsed, Http1.chunked parsed).
Proof.
  unfold Http1.parse, from_utf8. destruct (utf8_valid head); [|done].
  destruct (split_crlf head) as [|l ls]; [done|]. intros Hp [= ->]. exists ls. revert Hp. cbn [hd_error default from_option drop id].
  destruct (trim line =s []); [done|]. destruct (negb _ && negb _); [done|].
  match goal with |- (let? status := ?e in _) = _ -> _ => destruct e as [status|]; [|done] end.
  rewrite drop_0. destruct (Http1.parse_header_lines ls [] None false) as [[[hs cl] ch]|]; [|done]. by intros [= <-].
Qed.

(** The head of a request that was composed of a request line and header lines. *)
Lemma parse_composed m t v ls hs cl ch :
  word m -> word t -> word v -> starts_with (lit "HTTP/1.") v = true ->
  starts_with (lit "HTTP/1.") (request_line m t v) = false ->
  Forall full_line ls -> forallb utf8_valid ls = true ->
  Http1.parse_header_lines ls [] None false = Ok (hs, cl, ch) ->
  Http1.parse (join crlf (request_line m t v :: ls)) = Ok (Http1.mkHead (request_line m t v) hs false false cl ch).
Proof.
  intros Hm Ht Hv Hver Hreq Hls Hu Hp. pose proof (request_line_printable _ _ _ Hm Ht Hv) as Hpr.
  apply visible_line_ok in Hpr as [Hl Hlu].
  unfold Http1.parse, from_utf8. rewrite utf8_valid_join. cbn [forallb]. rewrite Hlu, Hu. cbn [andb].
  rewrite split_crlf_join by (done || (constructor; [done|by apply full_lines_ok])). cbn [hd_error default from_option drop id].
  rewrite trim_request_line by done.
  assert ((request_line m t v =s []) = false) as ->.
  { apply bytes_eqb_neq. unfold request_line. destruct Hm as [Hm _]. by destruct m. }
  rewrite Hreq. cbn [negb andb]. unfold Http1.request_line_ok. rewrite split_request_line, Hver by done. cbn [negb].
  by rewrite drop_0, Hp.
Qed.

(** Rewriting a proxied request changes only what concerns the proxy: for
    a well-formed request head, what is sent upstream is a head with the same
    method and version, the path of the absolute URI as its target, exactly
    the other headers in order without Proxy-Connection and
    Proxy-Authorization, the same body framing, and behind it exactly the
    bytes that followed (given that paths of URIs are visible ASCII). *)
Theorem route_rewrites `{Http} (head rest method target version request : bytes) (parsed : Http1.ParsedHead) (r : Route) :
  (forall u path, path_and_query u = Some path -> word path) ->
  find_header_end (head ++ crlf2) = Some (length head) ->
  hd_error (split_crlf head) = Some (request_line method target version) ->
  word method -> word target -> word version ->
  Http1.parse head = Ok parsed -> Http1.is_response parsed = false ->
  route_of head rest = Ok r -> behavior r = Forward request ->
  exists head' path,
    request = head' ++ crlf2 ++ rest /\ find_header_end (head' ++ crlf2) = Some (length head') /\ word path /\
    Http1.parse head' = Ok (Http1.mkHead (request_line method path version) (kept_headers (Http1.head_headers parsed))
                              false false (Http1.content_length parsed) (Http1.chunked parsed)).
Proof.
  intros Hpath Hend Hline Hm Ht Hv Hparse Hres Hroute Hfwd.
  destruct (parsed_head _ _ _ Hparse Hline) as (ls & Hls & Hu & Hr & Hh). rewrite trim_request_line, Hres in Hr by done.
  assert (Hfull : Forall full_line ls).
  { apply (find_blank_full (request_line method target version)); rewrite <- Hls; [apply split_crlf_ok|].
    rewrite join_split_crlf. exact Hend. }
  assert (Hus : forallb utf8_valid ls = true).
  { rewrite <- (join_split_crlf head), Hls, utf8_valid_join in Hu. cbn in Hu. by apply andb_true_iff in Hu as [_ Hu]. }
  destruct (parse_kept_lines _ _ _ _ _ _ _ Hh) as (more & Hmore & Hkept). cbn [app] in Hmore. subst more. specialize (Hkept []).
  unfold route_of, from_utf8 in Hroute. rewrite Hu, Hls in Hroute. cbn [hd_error default from_option drop id] in Hroute.
  rewrite split_request_line in Hroute by done.
  destruct (starts_with (lit "HTTP/1.") version) eqn:Ev; cbn [negb] in Hroute; [|done].
  destruct (eq_ignore_ascii_case method _).
  { destruct (authority_parse target); [|done]. injection Hroute as <-. done. }
  destruct (uri_parse target) as [u|]; [|done]. destruct (negb _); [done|]. destruct (authority u) as [auth|]; [|done].
  apply Ok_inj in Hroute as <-. cbn [behavior] in Hfwd. injection Hfwd as <-.
  set (path := default (lit "/") (path_and_query u)).
  assert (Hw : word path) by (unfold path; destruct (path_and_query u) as [q|] eqn:Eq; [by eapply Hpath|done]).
  exists (join crlf (request_line method path version :: kept_lines ls)), path.
  assert (Hkf : Forall full_line (kept_lines ls)).
  { unfold kept_lines. rewrite List.Forall_forall in *. intros l Hl. apply List.filter_In in Hl as [Hl _]. by apply Hfull. }
  assert (Hku : forallb utf8_valid (kept_lines ls) = true).
  { unfold kept_lines. rewrite forallb_forall in *. intros l Hl. apply List.filter_In in Hl as [Hl _]. by apply Hus. }
  split; [|split; [|split; [done|]]].
  - rewrite <- rewrite_lines_join, drop_0. unfold request_line. by rewrite <- !app_assoc.
  - unfold find_header_end, crlf2. pose proof (find_blank_join (request_line method path version :: kept_lines ls) []) as Hf.
    rewrite app_nil_r in Hf. apply Hf; [done|]. constructor; [|done]. split.
    + by apply visible_line_ok, request_line_printable.
    + unfold request_line. destruct Hm as [Hm _]. by destruct method.
  - apply parse_composed; try done. unfold request_line in *. by rewrite starts_with_word in * by done.
Qed.

(** ** The observations of a flow *)

(** What is observed of a flow between its opening and its end: at most one
    detected protocol, then data. *)
Definition in_flight (obs : list ObservationKind) : Prop :=
  exists detected data, obs = detected ++ data /\ Forall is_data data /\
    (detected = [] \/ exists protocol, detected = [ProtocolDetected protocol]).

Lemma in_flight_data obs : Forall is_data obs -> in_flight obs.
Proof. intros Hd. exists [], obs. eauto. Qed.

Lemma in_flight_nil : in_flight [].
Proof. by apply in_flight_data. Qed.

Section Traces.
Context `{Http} `{Tls} (mirror : bool -> Socket -> Socket -> Mirror) (Hmirror : complete mirror).

Lemma mirror_data inspect client upstream : Forall is_data (ss_events (mirror_bidirectional mirror inspect client upstream)).
Proof. destruct (Hmirror inspect client upstream) as [Hm%relayed_run _]. apply (relayed_data _ _ _ _ Hm). Qed.

Lemma intercept_in_flight client upstream prefetched endpoint t timeout :
  in_flight (ss_events (intercept_connect mirror client upstream prefetched endpoint t timeout)).
Proof.
  unfold intercept_connect. destruct (server_config _ _); [|apply in_flight_nil].
  destruct (write_all _ _) as [w [u|e]]; [|apply in_flight_nil].
  destruct (tls_accept _ _ _ _) as [alpn client_tls|e|]; try apply in_flight_nil.
  destruct (alpn_label _) as [protocol|]; [|apply in_flight_nil].
  match goal with |- in_flight (ss_events (before _ ?s)) => set (inner := s) end.
  assert (Hd : Forall is_data (ss_events inner)).
  { unfold inner. destruct (server_name _); [|done]. destruct (tls_connect _ _ _ _ _) as [v upstream_tls|e|]; try done.
    case_bool_decide; [apply mirror_data|done]. }
  exists [ProtocolDetected protocol], (ss_events inner). eauto.
Qed.

Lemma transport_in_flight config route client upstream :
  in_flight (ss_events (transport mirror config route client upstream)).
Proof.
  unfold transport. destruct (behavior route) as [|request|prefetched].
  - apply in_flight_data, mirror_data.
  - destruct (write_all _ _) as [w [u|e]]; [|apply in_flight_nil]. apply in_flight_data. constructor; [done|apply mirror_data].
  - destruct (https_mode config); [destruct (tls config); [apply intercept_in_flight|apply in_flight_nil]| |apply in_flight_nil].
    destruct (write_all _ _) as [w [u|e]]; [|apply in_flight_nil].
    destruct (write_all _ _) as [w' [u'|e]]; [|apply in_flight_nil]. apply in_flight_data, mirror_data.
Qed.
End Traces.

Definition endpoint_of (peer : SocketAddr.t) : Endpoint :=
  mkEndpoint (IpAddr.to_string (SocketAddr.ip peer)) (SocketAddr.port peer).

(** The error of a connection and the reason its flow failed with: the error
    itself, or the cause that the error names. *)
Definition explains (reason e : bytes) : Prop :=
  e = reason \/ exists operation, @failed unit operation reason = Err e.

(** How the observations of a connection end: with the counts it completed
    with, or with the reason it failed. *)
Inductive flow_end (counters : RuntimeCounters) (f : Forwarded) : list ObservationKind -> Prop :=
| ended_well up down :
    fw_result f = Ok tt -> fw_counters f = count_completed counters up down ->
    flow_end counters f [Transferred ClientToServer up; Transferred ServerToClient down; ObsClosed]
| ended_badly reason e :
    fw_result f = Err e -> explains reason e -> fw_counters f = counters -> flow_end counters f [ObsFailed reason].

Section Observed.
Context `{Http} `{Tls}.

(** The observations of a connection, for the route that was chosen for it:
    none when there is none, and the connection fails for that reason; else
    its opening, what passed and its end. *)
Inductive flow_trace (config : ProxyRuntimeConfig) (chosen : result Route) (peer : SocketAddr.t)
    (counters : RuntimeCounters) (f : Forwarded) : Prop :=
| unrouted e :
    chosen = Err e -> fw_result f = Err e -> fw_counters f = counters -> fw_events f = [] -> fw_background f = [] ->
    flow_trace config chosen peer counters f
| routed route passing ending :
    chosen = Ok route -> in_flight passing -> flow_end counters f ending ->
    fw_events f = Opened (endpoint_of peer) (route_upstream route) (Some (opened_protocol config route)) :: passing ++ ending ->
    flow_trace config chosen peer counters f.

Lemma refuse_trace config route peer counters background client operation reason :
  flow_trace config (Ok route) peer counters
    (refuse [Opened (endpoint_of peer) (route_upstream route) (Some (opened_protocol config route))]
       background counters client operation reason).
Proof.
  eapply (routed _ _ _ _ _ route []); [done|apply in_flight_nil| |done]. eapply ended_badly; [done| |done]. right. by exists operation.
Qed.

Lemma conclude_trace config route peer counters background s :
  in_flight (ss_events s) ->
  flow_trace config (Ok route) peer counters
    (conclude [Opened (endpoint_of peer) (route_upstream route) (Some (opened_protocol config route))] background counters s).
Proof.
  intros Hf. unfold conclude. destruct (ss_result s) as [[up down]|e]; (eapply routed; [done|exact Hf| |done]).
  - by eapply ended_well.
  - eapply ended_badly; [done|by left|done].
Qed.

Lemma flow_trace_forward (mirror : bool -> Socket -> Socket -> Mirror)
    (config : ProxyRuntimeConfig) (platform : Platform) (peer : SocketAddr.t) (counters : RuntimeCounters) (client : Socket) :
  complete mirror ->
  flow_trace config (choose_route config platform client).1 peer counters
    (forward_connection mirror config platform peer counters client).
Proof.
  intros Hm. unfold forward_connection. destruct (choose_route config platform client) as [[route|e] client']; cbn [fst].
  2: { by eapply unrouted. }
  destruct (is_connect route && bool_decide (https_mode config = Reject)); [apply refuse_trace|].
  destruct (is_connect route && bool_decide (https_mode config = Intercept) && _); [apply refuse_trace|].
  destruct (connect platform _ _) as [upstream|e|]; [|apply refuse_trace..].
  apply conclude_trace, (transport_in_flight mirror Hm).
Qed.

(** C10. Every connection is observed completely and in order: whatever the
    peers, the platform and the interleaving do, a connection for which a
    route was chosen is reported as opened between its peer and the upstream
    of that route, then with what passed, then either with both byte counts
    and as closed, exactly when it is counted as completed and succeeds, or
    as failed with the reason that its error carries; one for which no route
    could be chosen fails with that error and is not reported. *)
Theorem proxy_flow_trace (mirror : bool -> Socket -> Socket -> Mirror)
    (config : ProxyRuntimeConfig) (platform : Platform) (peer : SocketAddr.t) (counters : RuntimeCounters) (client : Socket) :
  complete mirror ->
  flow_trace config (choose_route config platform client).1 peer counters
    (forward_connection mirror config platform peer counters client).
Proof. apply flow_trace_forward. Qed.
End Observed.

(** ** What the peers receive *)

(** What goes upstream ahead of the client's stream, what the client is told
    first, and whether the traffic is inspected. *)
Definition sent_ahead (r : Route) : bytes :=
  match behavior r with BehaveFixed => [] | Forward request => request | Connect prefetched => prefetched end.
Definition greeting (r : Route) : bytes := if is_connect r then established else [].
Definition inspects (r : Route) : bool :=
  match behavior r with BehaveFixed => negb (route_protocol r =s lit "tcp") | Forward _ => true | Connect _ => false end.

(** The route with more bytes read ahead. *)
Definition with_ahead (r : Route) (s : bytes) : Route :=
  mkRoute (route_upstream r) (route_protocol r)
    (match behavior r with
     | BehaveFixed => BehaveFixed
     | Forward request => Forward (request ++ s)
     | Connect prefetched => Connect (prefetched ++ s)
     end).

Section Delivery.
Context `{Http} `{Tls} (mirror : bool -> Socket -> Socket -> Mirror) (Hmirror : complete mirror).

Lemma mirror_delivers inspect client upstream a b :
  ss_result (mirror_bidirectional mirror inspect client upstream) = Ok (a, b) ->
  let s := mirror_bidirectional mirror inspect client upstream in
  written (ss_upstream s) = written (outgoing upstream) ++ content (incoming client) /\
  written (ss_client s) = written (outgoing client) ++ content (incoming upstream) /\
  data_of ClientToServer (ss_events s) = (if inspect then content (incoming client) else []) /\
  data_of ServerToClient (ss_events s) = (if inspect then content (incoming upstream) else []).
Proof.
  cbn. destruct (Hmirror inspect client upstream) as [Hm%relayed_run Hout].
  destruct (outcome (mirror inspect client upstream)) as [r|] eqn:Eo; [cbn; intros ->|done].
  destruct (relayed_ok _ _ _ _ Hm _ _ Eo) as [Ja Jb]. apply (relayed_joined _ _ _ _ Hm) in Ja, Jb.
  destruct (relayed_sides _ _ _ _ Hm ClientToServer) as (s1 & [_ C1] & ->).
  destruct (relayed_sides _ _ _ _ Hm ServerToClient) as (s2 & [_ C2] & ->).
  rewrite Ja in C1. rewrite Jb in C2. destruct C1 as (<- & _ & W1 & _), C2 as (<- & _ & W2 & _).
  cbn [side source_of sink_of] in *. by rewrite W1, W2.
Qed.

Lemma transport_delivers config route client upstream a b :
  is_connect route && bool_decide (https_mode config = Intercept) = false ->
  is_connect route && bool_decide (https_mode config = Reject) = false ->
  ss_result (transport mirror config route client upstream) = Ok (a, b) ->
  let s := transport mirror config route client upstream in
  let all := sent_ahead route ++ content (incoming client) in
  written (ss_upstream s) = written (outgoing upstream) ++ all /\
  written (ss_client s) = written (outgoing client) ++ greeting route ++ content (incoming upstream) /\
  data_of ClientToServer (ss_events s) = (if inspects route then all else []) /\
  data_of ServerToClient (ss_events s) = (if inspects route then content (incoming upstream) else []).
Proof.
  intros Hi Hr. unfold transport, sent_ahead, greeting, inspects, opened_protocol. rewrite Hi. unfold is_connect in *.
  destruct (behavior route) as [|request|prefetched]; cbn [andb] in *.
  - intros Hs. apply (mirror_delivers _ _ _ _ _ Hs).
  - destruct (write_all (outgoing upstream) request) as [w [u|e]] eqn:Ew; [|done]. apply write_all_ok in Ew.
    cbn [before add_up ss_result ss_upstream ss_client ss_events].
    destruct (ss_result (mirror_bidirectional mirror true client (with_outgoing upstream w))) as [[a' b']|] eqn:Em; [|done].
    intros _. destruct (mirror_delivers _ _ _ _ _ Em) as (H1 & H2 & H3 & H4). rewrite H1, H2, !data_of_app, H3, H4.
    cbn [with_outgoing outgoing incoming]. rewrite Ew, <- app_assoc. cbn. by rewrite app_nil_r.
  - destruct (https_mode config); [done| |done].
    destruct (write_all (outgoing client) established) as [w [u|e]] eqn:Ew; [|done]. apply write_all_ok in Ew.
    destruct (write_all (outgoing upstream) prefetched) as [w' [u'|e]] eqn:Ew'; [|done]. apply write_all_ok in Ew'.
    cbn [add_up ss_result ss_upstream ss_client ss_events].
    destruct (ss_result (mirror_bidirectional mirror false _ _)) as [[a' b']|] eqn:Em; [|done].
    intros _. destruct (mirror_delivers _ _ _ _ _ Em) as (H1 & H2 & H3 & H4). rewrite H1, H2, H3, H4.
    cbn [with_outgoing outgoing incoming]. by rewrite Ew, Ew', <- !app_assoc.
Qed.

Lemma route_of_ahead head ahead r : route_of head [] = Ok r -> route_of head ahead = Ok (with_ahead r ahead).
Proof.
  unfold route_of. destruct (from_utf8 head) as [h|]; [|done].
  destruct (split_whitespace _) as [|method [|tgt [|version [|]]]]; try done. destruct (negb _); [done|].
  destruct (eq_ignore_ascii_case _ _).
  - destruct (authority_parse tgt); [|done]. by intros [= <-].
  - destruct (uri_parse tgt) as [u|]; [|done]. destruct (negb _); [done|]. destruct (authority u); [|done]. intros <-%Ok_inj.
    unfold with_ahead. cbn [behavior route_upstream route_protocol]. by rewrite <- !app_assoc.
Qed.

(** [routed_as config platform client r rest]: the connection is routed as
    [r], where [rest] is what the client sends behind its routing request. *)
Definition routed_as (config : ProxyRuntimeConfig) (platform : Platform) (client : Socket) (r : Route) (rest : bytes) : Prop :=
  match target config with
  | Fixed upstream => r = mkRoute upstream (label (fixed_protocol config)) BehaveFixed /\ rest = content (incoming client)
  | HttpTarget => exists head, starts_with_head (incoming client) head rest /\ route_of head [] = Ok r
  | Transparent =>
      exists upstream, target_lookup platform = Some (Ok upstream) /\
        r = mkRoute upstream (label (fixed_protocol config)) BehaveFixed /\ rest = content (incoming client)
  end.

Lemma choose_route_exact config platform client r rest :
  routed_as config platform client r rest ->
  exists ahead later,
    choose_route config platform client = (Ok (with_ahead r ahead), mkSocket later (outgoing client)) /\
    sent_ahead (with_ahead r ahead) ++ content later = sent_ahead r ++ rest.
Proof.
  unfold routed_as, choose_route. destruct (target config) as [upstream| |].
  - intros [-> ->]. exists [], (incoming client). by destruct client.
  - intros (head & Hh & Hr). destruct (read_head_exact _ _ _ Hh) as (ahead & later & E & Hrest & _).
    exists ahead, later. unfold read_http_route. rewrite E, take_app_length.
    rewrite (app_assoc head), drop_app_length' by (rewrite length_app; cbn; lia). rewrite (route_of_ahead _ _ _ Hr). split; [done|].
    assert (Hb : behavior r <> BehaveFixed).
    { clear -Hr. unfold route_of in Hr. repeat case_match; try done; by injection Hr as <-. }
    unfold sent_ahead, with_ahead. cbn [behavior]. destruct (behavior r); [done|..]; by rewrite <- app_assoc, Hrest.
  - intros (upstream & -> & -> & ->). exists [], (incoming client). by destruct client.
Qed.
End Delivery.

(** C6. The peers of a forwarded connection receive exactly what belongs to
    them: when forwarding succeeds (and the tunnel is not intercepted), the
    upstream has received the routed request and everything the client sent
    behind it, the client the answer to its tunnel request and everything the
    upstream sent, however the bytes arrived; and the observed data is exactly
    what the upstream and the client received, or nothing for uninspected
    traffic. *)
Theorem proxy_delivers `{Http} `{Tls} (mirror : bool -> Socket -> Socket -> Mirror)
    (config : ProxyRuntimeConfig) (platform : Platform) (peer : SocketAddr.t) (counters : RuntimeCounters)
    (client upstream : Socket) (r : Route) (rest : bytes) :
  complete mirror -> routed_as config platform client r rest ->
  is_connect r && bool_decide (https_mode config = Intercept) = false ->
  connect platform (route_upstream r) (connect_timeout config) = Established upstream ->
  let f := forward_connection mirror config platform peer counters client in
  fw_result f = Ok tt ->
  option_map written (fw_upstream f) = Some (written (outgoing upstream) ++ sent_ahead r ++ rest) /\
  written (fw_client f) = written (outgoing client) ++ greeting r ++ content (incoming upstream) /\
  data_of ClientToServer (fw_events f) = (if inspects r then sent_ahead r ++ rest else []) /\
  data_of ServerToClient (fw_events f) = (if inspects r then content (incoming upstream) else []).
Proof.
  intros Hm Hr Hi Hc. cbn zeta. unfold forward_connection.
  destruct (choose_route_exact _ _ _ _ _ Hr) as (ahead & later & -> & Hall).
  assert (Hcon : is_connect (with_ahead r ahead) = is_connect r) by (unfold is_connect, with_ahead; cbn; by destruct (behavior r)).
  assert (Hins : inspects (with_ahead r ahead) = inspects r) by (unfold inspects, with_ahead; cbn; by destruct (behavior r)).
  rewrite Hcon, Hi. cbn [andb]. destruct (is_connect r && bool_decide (https_mode config = Reject)) eqn:Erej; [done|].
  change (route_upstream (with_ahead r ahead)) with (route_upstream r). rewrite Hc. unfold conclude.
  destruct (ss_result (transport mirror config (with_ahead r ahead) (mkSocket later (outgoing client)) upstream)) as [[a b]|e] eqn:Es; [|done].
  intros _. cbn [fw_upstream fw_client fw_events option_map].
  destruct (transport_delivers mirror Hm config (with_ahead r ahead) (mkSocket later (outgoing client)) upstream a b)
    as (H1 & H2 & H3 & H4); [by rewrite Hcon|by rewrite Hcon|done|].
  cbn [incoming outgoing] in *. rewrite Hall in H1, H3. rewrite Hins in H3, H4. unfold greeting in *. rewrite Hcon in H2.
  rewrite H1, H2, !data_of_app, H3, H4. cbn [data_of]. by rewrite !app_nil_r.
Qed.

(** ** The observation channel *)

Inductive SinkOp := Emit (e : ObservationEvent) | Recv | Close.

Definition sink_op (s : ObservationSink) (op : SinkOp) : ObservationSink :=
  match op with Emit e => emit s e | Recv => recv s | Close => close s end.
Definition sink_run (s : ObservationSink) (ops : list SinkOp) : ObservationSink := fold_left sink_op ops s.

Fixpoint emitted (ops : list SinkOp) : list ObservationEvent :=
  match ops with [] => [] | Emit e :: ops => e :: emitted ops | _ :: ops => emitted ops end.
Definition never_closed (ops : list SinkOp) : bool :=
  forallb (fun op => match op with Close => false | _ => true end) ops.

Lemma emitted_app a b : emitted (a ++ b) = emitted a ++ emitted b.
Proof. induction a as [|[] a IH]; cbn; by rewrite ?IH. Qed.

(** What a channel of capacity [n] has done with the emitted events. *)
Definition sink_inv (n : nat) (es : list ObservationEvent) (open : bool) (s : ObservationSink) : Prop :=
  capacity s = n /\ (length (queue s) <= n)%nat /\ (received s ++ queue s) `sublist_of` es /\
  (open = true -> closed s = false /\ dropped s = (blen es - blen (received s ++ queue s)) mod 2 ^ 64).

Lemma sink_inv_op n es open s op :
  sink_inv n es open s ->
  sink_inv n (es ++ emitted [op]) (open && match op with Close => false | _ => true end) (sink_op s op).
Proof.
  intros (Hc & Hq & Hs & Ho). destruct op as [e| |]; cbn [sink_op emitted].
  - unfold emit. rewrite andb_true_r. destruct (closed s || (capacity s <=? length (queue s))%nat) eqn:E.
    + split; [done|]. split; [done|]. split; [by apply sublist_inserts_r|]. cbn [closed dropped received queue]. intros Hop.
      destruct (Ho Hop) as [Hcl Hd]. split; [done|]. unfold fetch_add. rewrite Hd, (blen_app es), Zplus_mod_idemp_l. f_equal.
      change (blen [e]) with 1. lia.
    + apply orb_false_iff in E as [E1 E2%Nat.leb_gt]. rewrite E1. unfold sink_inv. cbn. split; [done|]. split; [rewrite length_app; cbn; lia|].
      split; [rewrite app_assoc; by apply sublist_app|]. intros Hop. destruct (Ho Hop) as [Hcl Hd]. split; [done|].
      rewrite Hd. f_equal. rewrite app_assoc, !(blen_app _ [e]). lia.
  - rewrite app_nil_r, andb_true_r. unfold recv. destruct (queue s) as [|e q] eqn:E; [unfold sink_inv; rewrite E; done|].
    unfold sink_inv. cbn. split; [done|]. cbn in Hq. split; [lia|]. by rewrite <- app_assoc.
  - rewrite app_nil_r, andb_false_r. unfold sink_inv. cbn. split; [done|]. split; [lia|]. split; [|done].
    rewrite app_nil_r. etrans; [|exact Hs]. by apply sublist_inserts_r.
Qed.

Lemma sink_run_inv n s es open ops :
  sink_inv n es open s -> sink_inv n (es ++ emitted ops) (open && never_closed ops) (sink_run s ops).
Proof.
  revert s es open. induction ops as [|op ops IH]; intros s es open Hs; cbn [sink_run fold_left].
  - by rewrite app_nil_r, andb_true_r.
  - apply (sink_inv_op _ _ _ _ op), IH in Hs. rewrite <- app_assoc, <- emitted_app in Hs. cbn [app] in Hs.
    cbn [never_closed forallb]. by rewrite andb_assoc.
Qed.

(** Observing never holds up forwarding and loses nothing silently: however
    emissions and receptions interleave, at most [n] events wait in a channel
    of capacity [n], the receiver gets events in the order they were emitted,
    and as long as it listens the number of events it never gets is the number
    reported as dropped. *)
Theorem sink_accounts (n : nat) (s0 : ObservationSink) (ops : list SinkOp) :
  channel n = Some s0 ->
  let s := sink_run s0 ops in
  (length (queue s) <= n)%nat /\ (received s ++ queue s) `sublist_of` emitted ops /\
  (never_closed ops = true -> dropped s = (blen (emitted ops) - blen (received s) - blen (queue s)) mod 2 ^ 64).
Proof.
  unfold channel. destruct (n =? 0)%nat; [done|]. intros [= <-]. cbn zeta.
  destruct (sink_run_inv n (mkSink n [] [] false 0) [] true ops) as (_ & Hq & Hs & Ho).
  { split; [done|]. split; [cbn; lia|]. done. }
  cbn [app andb] in *. split; [done|]. split; [done|]. intros Hn. rewrite (proj2 (Ho Hn)), blen_app. f_equal. lia.
Qed.

Definition demo_event (k : ObservationKind) : ObservationEvent := mkObservation 1 (mkTimestamp 0 0) k.

Lemma sink_accounts_witness :
  dropped (sink_run (mkSink 1 [] [] false 0) [Emit (demo_event ObsClosed); Emit (demo_event ObsClosed); Recv]) = 1.
Proof.
  rewrite (proj2 (proj2 (sink_accounts 1 (mkSink 1 [] [] false 0)
    [Emit (demo_event ObsClosed); Emit (demo_event ObsClosed); Recv] eq_refl)) eq_refl). by vm_compute.
Defined.

(** ** The counters of the server *)

(** Connections not yet counted: running, or to be counted when joined. *)
Definition uncounted (t : FlowId * Task) : bool := match snd t with TaskRunning | TaskOver true => true | TaskOver false => false end.
Definition owed (ts : list (FlowId * Task)) : Z := blen (List.filter uncounted ts).

Lemma owed_app a b : owed (a ++ b) = owed a + owed b.
Proof. unfold owed. by rewrite List.filter_app, blen_app. Qed.
Lemma owed_cons t ts : owed (t :: ts) = (if uncounted t then 1 else 0) + owed ts.
Proof. unfold owed. cbn. destruct (uncounted t); unfold blen; cbn; lia. Qed.

Definition balanced (accepted completed failed owed : Z) : Prop := (completed + failed + owed - accepted) mod 2 ^ 64 = 0.

Definition server_inv (s : Server) : Prop :=
  let c := counters s in
  match stage s with
  | Accepting | Draining => balanced (accepted c) (completed c) (failures c) (owed (tasks s))
  | Aborting | Stopped false _ => True
  | Stopped true st => balanced (st_accepted st) (st_completed st) (st_failed st) 0
  end.

Lemma balanced_eq a c f o a' c' f' o' :
  balanced a c f o -> ((c' + f' + o' - a') - (c + f + o - a)) mod 2 ^ 64 = 0 -> balanced a' c' f' o'.
Proof.
  unfold balanced. intros H1 H2. replace (c' + f' + o' - a') with ((c + f + o - a) + ((c' + f' + o' - a') - (c + f + o - a))) by lia.
  by rewrite Zplus_mod, H1, H2.
Qed.

Lemma fetch_add_drift a b : exists k, fetch_add a b = a + b + k * 2 ^ 64.
Proof. exists (- ((a + b) / 2 ^ 64)). unfold fetch_add. rewrite (Z.mod_eq (a + b)) by lia. lia. Qed.

(** One tactic for the steps: unfold the additions and compare. *)
Ltac drift :=
  repeat match goal with |- context [fetch_add ?a ?b] => let k := fresh "k" in destruct (fetch_add_drift a b) as [k ->] end.


Lemma server_inv_step s s' : server_inv s -> server_step s s' -> server_inv s'.
Proof.
  intros Hi Hs. destruct Hs as [c ts|c a id b s up down Hl|c a id b s Hl|c a id b s Hl|c a id p b s Hor|c ts|c n|c t ts|c a t b|c n];
    unfold server_inv in *; cbn [counters stage tasks] in *; try done.
  - eapply balanced_eq; [exact Hi|]. cbn. drift. rewrite owed_app, owed_cons. cbn. change (owed []) with 0.
    apply Z.mod_divide; [lia|]. exists (- k). lia.
  - destruct s as [| | |[]]; try done; (eapply balanced_eq; [exact Hi|]); cbn; drift; rewrite !owed_app, !owed_cons; cbn;
      apply Z.mod_divide; try lia; exists k; lia.
  - destruct s as [| | |[]]; try done; (eapply balanced_eq; [exact Hi|]); cbn; drift; rewrite !owed_app, !owed_cons; cbn;
      apply Z.mod_divide; try lia; exists k; lia.
  - destruct s as [| | |[]]; try done; (eapply balanced_eq; [exact Hi|]); rewrite !owed_app, !owed_cons; cbn;
      apply Z.mod_divide; try lia; exists 0; lia.
  - destruct Hor as [-> | ->]; destruct p; (eapply balanced_eq; [exact Hi|]); cbn; drift; rewrite !owed_app, !owed_cons; cbn;
      apply Z.mod_divide; try lia; first [exists k; lia | exists 0; lia].
Qed.

(** C23. The server's counters add up: in every interleaving of accepting,
    completing, failing, panicking and joining, accepted connections are
    completed, failed or still running, and after a drained shutdown every
    accepted connection is counted exactly once (modulo 2^64). *)
Theorem server_accounts (s : Server) :
  rtc server_step server_start s ->
  match stage s with
  | Accepting | Draining =>
      (completed (counters s) + failures (counters s) + owed (tasks s) - accepted (counters s)) mod 2 ^ 64 = 0
  | Stopped true st => (st_completed st + st_failed st - st_accepted st) mod 2 ^ 64 = 0
  | _ => True
  end.
Proof.
  intros Hr. assert (Hi : server_inv s).
  { remember server_start as s0 eqn:E. assert (H0 : server_inv s0) by (by subst). clear E.
    induction Hr as [|s0 s1 s2 Hstep _ IH]; [done|]. eauto using server_inv_step. }
  unfold server_inv, balanced in Hi. destruct (stage s) as [| | |[] st]; try done. by rewrite Z.add_0_r in Hi.
Qed.

(** ** Examples

    Absolute URIs without user information, and no interception. *)

Definition visible (s : bytes) : bool := negb (s =s []) && forallb (in_range 33 126) s.

Definition absolute_uris : Http :=
  {| uri := bytes * bytes;
     uri_parse t :=
       match strip_prefix (lit "http://") t with
       | Some r => Some (match split_once "/"%byte r with Some (a, p) => (a, lit "/" ++ p) | None => (r, lit "/") end)
       | None => None
       end;
     scheme_str _ := Some (lit "http"); authority u := Some (fst u);
     path_and_query u := if visible (snd u) then Some (snd u) else None;
     uri_host u := Some (fst u); authority_parse := Some;
     authority_host a := match split_once ":"%byte a with Some (h, _) => h | None => a end;
     authority_port a := match split_once ":"%byte a with Some (_, p) => parse_unsigned 10 u16_max p | None => None end;
     method_ok _ := true; header_name_ok _ := true; header_value_ok _ := true |}.

Definition no_tls : Tls :=
  {| interception := unit; server_config _ _ := Err (lit "none"); tls_accept _ _ _ _ := HandshakeTimedOut;
     server_name _ := Ok tt; tls_connect _ _ _ _ _ := HandshakeTimedOut |}.

Lemma visible_word s : visible s = true -> word s.
Proof. unfold visible, word. rewrite andb_true_iff, negb_true_iff, bytes_eqb_neq. done. Qed.

Definition demo_head : bytes :=
  lit "GET http://shop:8080/cart HTTP/1.1" ++ crlf ++ lit "Host: shop" ++ crlf ++ lit "Proxy-Connection: keep-alive".
Definition demo_rewritten : bytes := lit "GET /cart HTTP/1.1" ++ crlf ++ lit "Host: shop" ++ crlf2.

(** The head arrives in two pieces, with a byte of what follows. *)
Definition demo_client : Socket :=
  mkSocket [Chunk (take 20 demo_head); Chunk (drop 20 demo_head ++ crlf2 ++ lit "m"); Chunk (lit "ore")] (mkWriter [] None false).
Definition demo_upstream : Socket := mkSocket [Chunk (lit "HTTP/1.1 200 OK")] (mkWriter [] None false).
Definition demo_platform : Platform := mkPlatform (fun _ _ => Established demo_upstream) None None.
Definition demo_peer : SocketAddr.t := SocketAddr.mk (IpAddr.V4 127 0 0 1) 50000 0.
Definition demo_route : Route := mkRoute (mkEndpoint (lit "shop") 8080) (lit "http1") (Forward demo_rewritten).

Lemma demo_starts : starts_with_head (incoming demo_client) demo_head (lit "more").
Proof. split; by vm_compute. Qed.

Lemma http_route_exact_witness :
  exists ahead later, @read_http_route absolute_uris (incoming demo_client) = (@route_of absolute_uris demo_head ahead, later) /\
    ahead ++ content later = lit "more".
Proof.
  destruct (@http_route_exact absolute_uris (incoming demo_client) demo_head (lit "more")) as (ahead & later & E & Hr & _).
  - split; by vm_compute.
  - by exists ahead, later.
Defined.

Lemma route_rewrites_witness :
  exists head' path, demo_rewritten ++ lit "more" = head' ++ crlf2 ++ lit "more" /\ word path /\
    is_ok (Http1.parse head') = true.
Proof.
  destruct (@route_rewrites absolute_uris demo_head (lit "more") (lit "GET") (lit "http://shop:8080/cart") (lit "HTTP/1.1")
              (demo_rewritten ++ lit "more")
              (Http1.mkHead (lit "GET http://shop:8080/cart HTTP/1.1")
                 [(lit "Host", lit "shop"); (lit "Proxy-Connection", lit "keep-alive")] false false None false)
              (mkRoute (mkEndpoint (lit "shop") 8080) (lit "http1") (Forward (demo_rewritten ++ lit "more"))))
    as (head' & path & E & _ & Hw & Hp).
  - intros u path. cbn [path_and_query absolute_uris]. destruct (visible (snd u)) eqn:E; [|done]. intros [= <-]. by apply visible_word.
  - by vm_compute.
  - by vm_compute.
  - by apply visible_word.
  - by apply visible_word.
  - by apply visible_word.
  - by vm_compute.
  - done.
  - by vm_compute.
  - done.
  - exists head', path. by rewrite Hp.
Defined.

Lemma proxy_flow_trace_witness :
  flow_trace (@http no_tls) (@choose_route absolute_uris no_tls (@http no_tls) demo_platform demo_client).1 demo_peer counters_default
    (@forward_connection absolute_uris no_tls scheduled (@http no_tls) demo_platform demo_peer counters_default demo_client).
Proof. apply proxy_flow_trace. exact scheduled_complete. Defined.

Lemma proxy_delivers_witness :
  let f := @forward_connection absolute_uris no_tls scheduled (@http no_tls) demo_platform demo_peer counters_default demo_client in
  option_map written (fw_upstream f) = Some (demo_rewritten ++ lit "more") /\
  written (fw_client f) = lit "HTTP/1.1 200 OK".
Proof.
  destruct (@proxy_delivers absolute_uris no_tls scheduled (@http no_tls) demo_platform demo_peer counters_default
              demo_client demo_upstream demo_route (lit "more")) as (H1 & H2 & _).
  - exact scheduled_complete.
  - exists demo_head. split; [split; by vm_compute|by vm_compute].
  - done.
  - done.
  - by vm_compute.
  - cbn zeta. split; [exact H1|exact H2].
Defined.

(** One connection that completes, and a shutdown that waits for it. *)
Definition demo_counters : RuntimeCounters := count_completed (count_accepted counters_default) 4 2.

Lemma demo_server : rtc server_step server_start (mkServer demo_counters [] (Stopped true (stats demo_counters 0))).
Proof.
  eapply rtc_l; [apply accepts|]. eapply rtc_l; [by apply (task_completes _ [] 1 [] Accepting 4 2)|].
  eapply rtc_l; [apply shuts_down|]. eapply rtc_l; [apply (joins _ [] 1 false []); by right|].
  eapply rtc_l; [apply drains|]. apply rtc_refl.
Qed.

Lemma server_accounts_witness :
  (completed demo_counters + failures demo_counters - accepted demo_counters) mod 2 ^ 64 = 0.
Proof. exact (server_accounts (mkServer demo_counters [] (Stopped true (stats demo_counters 0))) demo_server). Defined.

(** A connection that completed but was not joined when the grace period ended
    is counted twice. *)
Lemma abort_counts_twice :
  exists s, rtc server_step server_start s /\ stage s = Stopped false (mkStats 1 1 1 4 2 0).
Proof.
  eexists. split.
  - eapply rtc_l; [apply accepts|]. eapply rtc_l; [by apply (task_completes _ [] 1 [] Accepting 4 2)|].
    eapply rtc_l; [apply shuts_down|]. eapply rtc_l; [apply grace_expires|]. eapply rtc_l; [apply (aborts _ [] _ [])|].
    eapply rtc_l; [apply (aborted _ 0)|]. apply rtc_refl.
  - by vm_compute.
Qed.
