(* ===== verification/Pipeline.v ===== *)
(** * Pipeline: from the proxy's observations to the flows of the store.

    What the store shows of a flow refines a small machine over the
    observations of that flow alone; with the shape of the observations the
    proxy emits, every forwarded connection ends up in the store as closed with
    its byte counts, or as failed with its reason. *)

From stdpp Require Import gmap.
From S2P Require Import Prelude RustStd Net Core Protocol Redact Plugin Http2 Http2Wire Store StoreFacts Proxy ProxyFacts.
Import Store.
#[local] Open Scope lens_scope.
#[local] Existing Instances Http2Wire.literal_hpack Redact.no_json_secret Plugin.echo_wasm.

(** ** The abstract flow *)

Record Overview := mkOverview {
  ov_client : Endpoint; ov_upstream : Endpoint; ov_state : FlowState;
  ov_up : Z; ov_down : Z; ov_failure : option bytes }.

Definition overview (f : StoredFlow) : Overview :=
  mkOverview (client (record f)) (upstream (record f)) (flow_state (record f))
    (client_to_upstream_bytes f) (upstream_to_client_bytes f) (failure f).

(** What an observation of a flow does to its overview. *)
Definition observe (v : option Overview) (k : ObservationKind) : option Overview :=
  match v, k with
  | None, Opened c u _ => Some (mkOverview c u FlowOpen 0 0 None)
  | Some v, Transferred ClientToServer n =>
      Some (mkOverview (ov_client v) (ov_upstream v) (ov_state v) (sat_add (ov_up v) n) (ov_down v) (ov_failure v))
  | Some v, Transferred ServerToClient n =>
      Some (mkOverview (ov_client v) (ov_upstream v) (ov_state v) (ov_up v) (sat_add (ov_down v) n) (ov_failure v))
  | Some v, ObsClosed =>
      Some (mkOverview (ov_client v) (ov_upstream v) FlowClosed (ov_up v) (ov_down v) (ov_failure v))
  | Some v, ObsFailed reason =>
      Some (mkOverview (ov_client v) (ov_upstream v) FlowFailed (ov_up v) (ov_down v) (Some reason))
  | v, _ => v
  end.

(** The observations of one flow, in order. *)
Definition kinds_of (id : FlowId) (es : list ObservationEvent) : list ObservationKind :=
  map ev_kind (List.filter (fun e => ev_flow_id e =? id) es).

Section Refinement.
Context `{Http2.Hpack} `{Redact.JsonSecret} `{Plugin.Wasm}.

Definition shown (id : FlowId) (a : StoreActor) : option Overview := overview <$> flow_of id (flows (state a)).

(** ** Edits that do not show *)

Definition unseen (g : StoredFlow -> StoredFlow) : Prop := keeps_id g /\ forall f, overview (g f) = overview f.

Lemma flow_of_edit_same id g fs : keeps_id g -> flow_of id (update_flow g id fs) = g <$> flow_of id fs.
Proof.
  intros Hg. induction fs as [|f fs IH]; [done|]. cbn [update_flow].
  destruct (bool_decide (stored_id f = Some id)) eqn:E; unfold flow_of in *; cbn [List.find].
  - apply bool_decide_eq_true in E. rewrite Hg, !bool_decide_eq_true_2 by done. done.
  - by rewrite E, IH.
Qed.

Lemma shown_edit id a g h :
  keeps_id g -> (forall f, overview (g f) = h (overview f)) -> shown id (edit_flow a id g) = h <$> shown id a.
Proof.
  intros Hk Hg. unfold shown. change (flows (state (edit_flow a id g))) with (update_flow g id (flows (state a))). rewrite flow_of_edit_same by done. destruct (flow_of id _) as [f|]; [|done].
  cbn. by rewrite Hg.
Qed.

Lemma shown_unseen id a g : unseen g -> shown id (edit_flow a id g) = shown id a.
Proof. intros [Hk Hg]. rewrite (shown_edit _ _ _ (fun v => v)) by done. by destruct (shown id a). Qed.

Lemma unseen_message grpc i m r : unseen (add_message grpc i m r).
Proof. split; [apply add_message_keeps|]. intros f. unfold add_message. by destruct r, grpc. Qed.
Lemma unseen_decoder_error r : unseen (with_decoder_error r).
Proof. done. Qed.

Lemma shown_message id t a m : shown id (store_message id t a m) = shown id a.
Proof.
  destruct (store_message_shape id t a m) as (grpc & rec & rep & E & _). cbv zeta in E. rewrite E.
  by rewrite shown_unseen by apply unseen_message.
Qed.

Lemma shown_batch id t a b : shown id (store_batch a id t b) = shown id a.
Proof.
  unfold store_batch. set (a0 := match desynchronized b with Some r => _ | None => _ end).
  assert (K : shown id a0 = shown id a) by (unfold a0; destruct (desynchronized b); [by apply shown_unseen|done]).
  rewrite <- K. generalize a0. clear a0 K. induction (Protocol.messages b) as [|m ms IH]; intros a0; [done|].
  cbn [fold_left]. by rewrite IH, shown_message.
Qed.

Lemma shown_end id t a : shown id (end_decoder a id t) = shown id a.
Proof.
  unfold end_decoder. destruct (decoders a !! id) as [d|]; [|done].
  destruct (decoder_finish d ClientToServer) as [d1 b1]. destruct (decoder_finish d1 ServerToClient) as [d2 b2].
  change (shown id (set_pending ?x ?p)) with (shown id x). by rewrite !shown_batch.
Qed.

Lemma shown_open id t a c u p :
  ~ evicts a id ->
  shown id (open_flow a id t c u p) = match shown id a with Some v => Some v | None => Some (mkOverview c u FlowOpen 0 0 None) end.
Proof.
  intros Hev. unfold open_flow. cbv zeta. set (f := opened_flow _ _ _ _ _ _).
  assert (Hf : stored_id f = Some id /\ overview f = mkOverview c u FlowOpen 0 0 None) by (unfold f; by destruct p).
  assert (K : flow_of id (flows (state (evict a))) = flow_of id (flows (state a))) by apply (same_evict id a Hev).
  assert (E : shown id (set_flows (evict a) (flows (state (evict a)) ++ [f]))
              = match shown id a with Some v => Some v | None => Some (mkOverview c u FlowOpen 0 0 None) end).
  { unfold shown. cbn. rewrite <- K. clear K. destruct Hf as [Hi Ho]. unfold flow_of.
    induction (flows (state (evict a))) as [|x xs IH]; cbn [app List.find].
    - rewrite bool_decide_eq_true_2 by done. cbn. by rewrite Ho.
    - destruct (bool_decide _); [done|apply IH]. }
  by destruct (_ ≫= _).
Qed.

Lemma shown_apply id a e :
  ev_flow_id e = id -> opened_id e = None \/ ~ evicts a id -> shown id (apply a e) = observe (shown id a) (ev_kind e).
Proof.
  destruct e as [id' t k]. cbn [ev_flow_id ev_kind]. intros -> Hev. unfold apply. cbn [ev_flow_id ev_kind ev_timestamp].
  destruct k as [c u p|i|p|[] n|d s| |r].
  - destruct Hev as [?|Hev]; [done|]. rewrite shown_open by done. by destruct (shown id a).
  - rewrite shown_unseen by done. by destruct (shown id a).
  - unfold detect_protocol. set (a' := edit_flow _ _ _).
    assert (K : shown id a' = shown id a) by (by apply shown_unseen). destruct (shown id a) eqn:E; by destruct (decoder_for _ _).
  - rewrite (shown_edit _ _ _ (fun v => default v (observe (Some v) (Transferred ClientToServer n)))) by done. by destruct (shown id a).
  - rewrite (shown_edit _ _ _ (fun v => default v (observe (Some v) (Transferred ServerToClient n)))) by done. by destruct (shown id a).
  - assert (observe (shown id a) (Data d s) = shown id a) as -> by (by destruct (shown id a)).
    unfold apply_data. destruct (decoders a !! id) as [dec|]; [|done]. destruct (decoder_push dec d s) as [dec' b].
    by rewrite shown_batch.
  - rewrite (shown_edit _ _ _ (fun v => default v (observe (Some v) ObsClosed))) by done. rewrite shown_end. by destruct (shown id a).
  - rewrite (shown_edit _ _ _ (fun v => default v (observe (Some v) (ObsFailed r)))) by done. rewrite shown_end. by destruct (shown id a).
Qed.

(** ** Room for the flows *)

(** Enough room for every flow that is still opened. *)
Definition roomy (a : StoreActor) (es : list ObservationEvent) : Prop :=
  blen (flows (state a)) + blen (opened_ids es) <= max_flows a.

Lemma roomy_evicts a e es id : opened_id e <> None -> roomy a (e :: es) -> ~ evicts a id.
Proof.
  unfold roomy, opened_ids. cbn [omap list_omap]. destruct (opened_id e) as [i|]; [|done]. intros _ Hr [Hfull _].
  revert Hr. rewrite Hfull. unfold blen. cbn [length]. lia.
Qed.

Lemma roomy_apply a e es : roomy a (e :: es) -> roomy (apply a e) es.
Proof.
  intros Hr. destruct (opened_id e) as [i|] eqn:Eo.
  - pose proof Hr as Hr'. unfold roomy, opened_ids in Hr. cbn [omap list_omap] in Hr. rewrite Eo in Hr.
    assert (Hk : exists c u p, ev_kind e = Opened c u p) by (unfold opened_id in Eo; destruct (ev_kind e); try done; eauto).
    destruct Hk as (c & u & p & Hk). unfold apply. rewrite Hk.
    destruct (open_flow_ids a (ev_flow_id e) (ev_timestamp e) c u p) as (F1 & _ & F2). unfold roomy. rewrite F2.
    apply (f_equal length) in F1. rewrite !length_app, !length_map in F1.
    rewrite decide_False in F1 by (unfold blen in *; cbn [length] in Hr; unfold opened_ids in *; lia).
    rewrite length_map in F1. unfold blen, opened_ids in *. cbn [length] in *. lia.
  - destruct (apply_ids a e Eo) as (F1 & _ & F2). unfold roomy in *. rewrite F2.
    apply (f_equal length) in F1. rewrite !length_map in F1. unfold opened_ids in *. cbn [omap list_omap] in Hr. rewrite Eo in Hr.
    unfold blen in *. lia.
Qed.

(** What the store shows of a flow is what its observations say. *)
Lemma shown_run id a es :
  roomy a es -> shown id (run a es) = fold_left observe (kinds_of id es) (shown id a).
Proof.
  revert a. induction es as [|e es IH]; intros a Hr; [done|]. cbn [run fold_left]. fold (run (apply a e) es).
  rewrite IH by (by apply roomy_apply). unfold kinds_of. cbn [List.filter].
  assert (Hev : opened_id e = None \/ ~ evicts a id).
  { destruct (opened_id e) eqn:Eo; [right|by left]. eapply roomy_evicts; [|exact Hr]. by rewrite Eo. }
  destruct (Z.eqb_spec (ev_flow_id e) id) as [He|He]; cbn [map fold_left].
  - by rewrite (shown_apply id a e He Hev).
  - unfold shown. by rewrite (same_stored _ _ _ (apply_same_flow a e id He Hev)).
Qed.
End Refinement.

(** C7. The store refines the abstract flow: as long as there is room for the
    flows that are opened, what the store shows of a flow (its endpoints,
    state, byte counts and failure) after any interleaving of observations of
    any flows is what the observations of that flow alone say, in order. *)
Theorem store_refines_flow `{Http2.Hpack} `{Redact.JsonSecret} `{Plugin.Wasm}
    (a : StoreActor) (es : list ObservationEvent) (id : FlowId) :
  blen (flows (state a)) + blen (opened_ids es) <= max_flows a ->
  overview <$> flow_of id (flows (state (run a es)))
  = fold_left observe (kinds_of id es) (overview <$> flow_of id (flows (state a))).
Proof. apply shown_run. Qed.

Definition two_flows : list ObservationEvent :=
  [opens 1 None; opens 2 None; mkObservation 1 (at_time 5) (Transferred ClientToServer 7);
   mkObservation 2 (at_time 6) (ObsFailed (lit "reset")); mkObservation 1 (at_time 7) ObsClosed].

Lemma store_refines_flow_witness :
  (ov_state <$> (overview <$> flow_of 1 (flows (state (run (small_store 2 false) two_flows))))) = Some FlowClosed.
Proof. rewrite (store_refines_flow (small_store 2 false) two_flows 1); by vm_compute. Defined.

(** ** Forwarded connections *)

Definition identifies (k : ObservationKind) : bool := match k with Identified _ => true | _ => false end.
Definition unidentified (ks : list ObservationKind) : list ObservationKind := List.filter (fun k => negb (identifies k)) ks.

Lemma observe_unidentified ks v : fold_left observe ks v = fold_left observe (unidentified ks) v.
Proof.
  revert v. induction ks as [|k ks IH]; intros v; [done|]. cbn [fold_left unidentified List.filter].
  destruct k; cbn [identifies negb fold_left]; try apply IH. rewrite <- IH. by destruct v.
Qed.

Lemma observe_in_flight obs v : in_flight obs -> fold_left observe obs (Some v) = Some v.
Proof.
  intros (detected & data & -> & Hd & Hdet). rewrite fold_left_app.
  assert (fold_left observe detected (Some v) = Some v) as -> by (by destruct Hdet as [->|[p ->]]).
  induction Hd as [|k data Hk _ IH]; [done|]. by destruct k.
Qed.

Section Recorded.
Context `{HT : Http} `{T : Proxy.Tls}.

(** What a connection leaves in the store: nothing exactly when no route could
    be chosen for it. *)
Inductive recorded (chosen : result Proxy.Route) (peer : SocketAddr.t) (counters : Proxy.RuntimeCounters)
    (f : Proxy.Forwarded) : option Overview -> Prop :=
| nothing_recorded e :
    chosen = Err e -> Proxy.fw_result f = Err e -> Proxy.fw_counters f = counters -> recorded chosen peer counters f None
| recorded_closed route up down :
    chosen = Ok route -> Proxy.fw_result f = Ok tt -> Proxy.fw_counters f = Proxy.count_completed counters up down ->
    recorded chosen peer counters f
      (Some (mkOverview (endpoint_of peer) (Proxy.route_upstream route) FlowClosed (sat_add 0 up) (sat_add 0 down) None))
| recorded_failed route reason e :
    chosen = Ok route -> Proxy.fw_result f = Err e -> explains reason e -> Proxy.fw_counters f = counters ->
    recorded chosen peer counters f
      (Some (mkOverview (endpoint_of peer) (Proxy.route_upstream route) FlowFailed 0 0 (Some reason))).

Lemma observe_trace config chosen peer counters f :
  flow_trace config chosen peer counters f -> recorded chosen peer counters f (fold_left observe (Proxy.fw_events f) None).
Proof.
  intros [e Hch Hr Hc He _|route passing ending Hch Hp Hend He]; rewrite He; [by eapply nothing_recorded|].
  cbn [fold_left observe]. rewrite fold_left_app, observe_in_flight by done.
  destruct Hend as [up down Hr Hc|reason e Hr Hx Hc];
    cbn [fold_left observe ov_client ov_upstream ov_state ov_up ov_down ov_failure].
  - by eapply recorded_closed.
  - by eapply recorded_failed.
Qed.

(** Every connection the proxy forwards is recorded: when its observations
    reach the store, in any interleaving with those of other flows and with
    its own identification, a connection that succeeds is shown as closed with
    the byte counts the proxy counted, one that fails after it was routed as
    failed with its reason, and one that could not be routed not at all. *)
Theorem pipeline_records `{Http2.Hpack} `{Redact.JsonSecret} `{Plugin.Wasm}
    (mirror : bool -> Proxy.Socket -> Proxy.Socket -> Proxy.Mirror)
    (config : Proxy.ProxyRuntimeConfig) (platform : Proxy.Platform) (peer : SocketAddr.t)
    (counters : Proxy.RuntimeCounters) (client : Proxy.Socket)
    (a : StoreActor) (es : list ObservationEvent) (id : FlowId) :
  complete mirror ->
  let f := Proxy.forward_connection mirror config platform peer counters client in
  unidentified (kinds_of id es) = Proxy.fw_events f ->
  flow_of id (flows (state a)) = None ->
  blen (flows (state a)) + blen (opened_ids es) <= max_flows a ->
  recorded (Proxy.choose_route config platform client).1 peer counters f (overview <$> flow_of id (flows (state (run a es)))).
Proof.
  intros Hm f Hk Hnew Hroom. pose proof (shown_run id a es Hroom) as Hs. unfold shown in Hs. rewrite Hs, Hnew.
  rewrite observe_unidentified, Hk. by eapply observe_trace, flow_trace_forward.
Qed.
End Recorded.

(** The demonstration connection of the proxy, recorded as flow 1. *)
Definition demo_forwarded : Proxy.Forwarded :=
  @Proxy.forward_connection absolute_uris no_tls scheduled (@Proxy.http no_tls) demo_platform demo_peer
    Proxy.counters_default demo_client.

Definition demo_chosen : result Proxy.Route :=
  (@Proxy.choose_route absolute_uris no_tls (@Proxy.http no_tls) demo_platform demo_client).1.

Definition stamped (id : FlowId) (ks : list ObservationKind) : list ObservationEvent :=
  map (mkObservation id (at_time 5)) ks.

Lemma pipeline_records_witness :
  recorded demo_chosen demo_peer Proxy.counters_default demo_forwarded
    (overview <$> flow_of 1 (flows (state (run (small_store 2 false) (stamped 1 (Proxy.fw_events demo_forwarded)))))).
Proof.
  apply (@pipeline_records absolute_uris no_tls _ _ _ scheduled (@Proxy.http no_tls) demo_platform demo_peer
           Proxy.counters_default demo_client (small_store 2 false) (stamped 1 (Proxy.fw_events demo_forwarded)) 1).
  - exact scheduled_complete.
  - by vm_compute.
  - done.
  - by vm_compute.
Defined.

Example demo_recorded :
  overview <$> flow_of 1 (flows (state (run (small_store 2 false) (stamped 1 (Proxy.fw_events demo_forwarded)))))
  = Some (mkOverview (mkEndpoint (lit "127.0.0.1") 50000) (mkEndpoint (lit "shop") 8080) FlowClosed (blen (demo_rewritten ++ lit "more")) 15 None).
Proof. by vm_compute. Qed.
