(* ===== verification/Tls.v ===== *)
(** * Tls: the local certificate authority of [crates/lens-tls].

    The files of the authority and how they are created and loaded, the reader
    of DER that compares certificate and key and tells whether the certificate
    is valid now, leaf certificates and their bounded cache.  Keys, signatures,
    PEM and TLS configurations are those of the crates [rcgen], [rustls],
    [rustls_pemfile] and [sha2], the calendar that of [time]: class [Crypto]. *)

From stdpp Require Import gmap.
From S2P Require Import Prelude RustStd Disk.
#[local] Open Scope lens_scope.

Module Tls.

Definition CA_COMMON_NAME : bytes := lit "Lens Local Development CA".
Definition DEFAULT_LEAF_CACHE_CAPACITY : Z := 256.

(** [TlsError] as it is displayed. *)
Definition tls_error (operation : string) (detail : bytes) : bytes := lit operation ++ lit ": " ++ detail.
Definition tls_io (operation : string) (path : bytes) (e : Disk.IoError) : bytes :=
  tls_error operation (path ++ lit ": " ++ Disk.text e).

(** A computation that returns or panics. *)
Inductive run (A : Type) : Type := Returns (a : A) | Panics.
Arguments Returns {A} a.
Arguments Panics {A}.

Notation "'do?' x := e 'in' k" :=
  (match e with Returns (Ok x) => k | Returns (Err reason) => Returns (Err reason) | Panics => Panics end)
  (at level 10, x name, e at level 200, k at level 200).

(** ** DER *)

(** [slice.get(i)] and [slice.get(a..b)]. *)
Definition get {A} (s : list A) (i : Z) : option A :=
  if (0 <=? i) && (i <? blen s) then s !! Z.to_nat i else None.
Definition get_range {A} (s : list A) (a b : Z) : option (list A) :=
  if (0 <=? a) && (a <=? b) && (b <=? blen s) then Some (take (Z.to_nat (b - a)) (drop (Z.to_nat a) s)) else None.

Record Tlv := mkTlv { tag : Z; start : Z; content : bytes; next : Z }.

Definition parse_error (field : string) (what : string) : bytes :=
  tls_error "parse CA certificate" (lit field ++ lit what).

(** The loop over the octets of a long length. *)
Fixpoint long_length (field : string) (length : Z) (octets : bytes) : result Z :=
  match octets with
  | [] => Ok length
  | b :: r =>
      match checked_mul length 256 ≫= fun value => checked_add value (byte_val b) with
      | None => Err (parse_error field " is too large")
      | Some length => long_length field length r
      end
  end.

Definition read_tlv (input : bytes) (start : Z) (field : string) : result Tlv :=
  let? tag := ok_or (get input start) (parse_error field " is missing") in
  let? first_length := ok_or (get input (start + 1)) (parse_error field " length is missing") in
  let? '(length, header_length) :=
    (if Z.land (byte_val first_length) 128 =? 0 then Ok (byte_val first_length, 2)
     else
       let octets := Z.land (byte_val first_length) 127 in
       if (octets =? 0) || (8 <? octets) then Err (parse_error field " uses an unsupported length")
       else
         let? slice := ok_or (get_range input (start + 2) (start + 2 + octets))
                             (parse_error field " length is truncated") in
         let? length := long_length field 0 slice in
         Ok (length, 2 + octets)) in
  let? content_start := ok_or (checked_add start header_length) (parse_error field " offset overflowed") in
  let? next := ok_or (checked_add content_start length) (parse_error field " length overflowed") in
  let? content := ok_or (get_range input content_start next) (parse_error field " is truncated") in
  Ok (mkTlv (byte_val tag) start content next).

Definition expect_tlv (input : bytes) (expected : Z) (field : string) : result Tlv :=
  let? value := read_tlv input 0 field in
  if negb (tag value =? expected) then Err (parse_error field " has an unexpected ASN.1 tag")
  else Ok value.

(** [&value[..2]] panics when byte 2 lies within a character. *)
Definition year_slice (value : bytes) : run bytes :=
  if nth_is is_cont value 2 then Panics else Returns (take 2 value).

Definition normalized_asn1_time (tag : Z) (value : bytes) : run (result bytes) :=
  if negb (utf8_valid value) then Returns (Err (tls_error "parse CA certificate time" (utf8_error value)))
  else if (tag =? 23) && (blen value =? 13) && ends_with (lit "Z") value then
    match year_slice value with
    | Panics => Panics
    | Returns text =>
        match parse_unsigned 10 255 text with
        | None => Returns (Err (tls_error "parse CA certificate UTC year" (lit "invalid digit found in string")))
        | Some year => Returns (Ok (lit (if 50 <=? year then "19" else "20") ++ value))
        end
    end
  else if (tag =? 24) && (blen value =? 15) && ends_with (lit "Z") value then Returns (Ok value)
  else Returns (Err (tls_error "parse CA certificate time" (lit "expected UTC or generalized Zulu time"))).

(** The fields of an [OffsetDateTime] in UTC. *)
Record Civil := mkCivil { year : Z; month : Z; day : Z; hour : Z; minute : Z; second : Z }.

Definition generalized_time (value : Civil) : bytes :=
  pad 4 (year value) ++ pad 2 (month value) ++ pad 2 (day value)
  ++ pad 2 (hour value) ++ pad 2 (minute value) ++ pad 2 (second value) ++ lit "Z".

(** [<=] of strings. *)
Definition bytes_le (a b : bytes) : bool := match bytes_cmp a b with Gt => false | _ => true end.

Record ParsedCa := mkParsed { subject_public_key_info : bytes; valid_now : bool }.

Definition parse_ca_certificate (der : bytes) (now : Civil) : run (result ParsedCa) :=
  do? certificate := Returns (expect_tlv der 48 "certificate") in
  do? tbs := Returns (expect_tlv (content certificate) 48 "TBSCertificate") in
  let input := content tbs in
  do? offset := (match input with
                 | b :: _ => if b =b xa0
                             then do? version := Returns (read_tlv input 0 "version") in Returns (Ok (next version))
                             else Returns (Ok 0)
                 | [] => Returns (Ok 0)
                 end) in
  do? serial := Returns (read_tlv input offset "serial number") in
  do? signature := Returns (read_tlv input (next serial) "signature algorithm") in
  do? issuer := Returns (read_tlv input (next signature) "issuer") in
  do? validity := Returns (read_tlv input (next issuer) "validity") in
  if negb (tag validity =? 48)
  then Returns (Err (tls_error "parse CA certificate" (lit "validity is not a sequence")))
  else
  do? subject := Returns (read_tlv input (next validity) "subject") in
  do? spki := Returns (read_tlv input (next subject) "subject public key info") in
  if negb (tag spki =? 48)
  then Returns (Err (tls_error "parse CA certificate" (lit "subject public key info is not a sequence")))
  else
  do? not_before := Returns (read_tlv (content validity) 0 "notBefore") in
  do? not_after := Returns (read_tlv (content validity) (next not_before) "notAfter") in
  let now := generalized_time now in
  do? from := normalized_asn1_time (tag not_before) (content not_before) in
  do? until := normalized_asn1_time (tag not_after) (content not_after) in
  Returns (Ok (mkParsed (default [] (get_range input (start spki) (next spki)))
                        (bytes_le from now && bytes_le now until))).

(** ** Files of the authority *)

Record CaPaths := mkPaths { directory : bytes; certificate : bytes; private_key : bytes; client_bundle : bytes }.

Definition from_directory (directory : bytes) : CaPaths :=
  mkPaths directory (Disk.join directory (lit "lens-ca.pem")) (Disk.join directory (lit "lens-ca-key.pem"))
    (Disk.join directory (lit "lens-ca-bundle.pem")).

(** [ProjectDirs::from("dev", "Lens", "Lens")] gives the configuration
    directory of the user, or nothing. *)
Definition for_user (config_dir : option bytes) : result CaPaths :=
  match config_dir with
  | None =>
      Err (tls_error "resolve CA directory"
             (lit "the operating system did not provide a user configuration directory"))
  | Some dir => Ok (from_directory (Disk.join dir (lit "tls")))
  end.

Inductive CaMaterialState := Missing | Ready | Incomplete | InvalidMaterial.

Definition CaMaterialState_display (s : CaMaterialState) : bytes :=
  match s with
  | Missing => lit "missing"
  | Ready => lit "ready"
  | Incomplete => lit "incomplete"
  | InvalidMaterial => lit "invalid"
  end.

Record CaStatus := mkStatus {
  paths : CaPaths; state : CaMaterialState; status_fingerprint : option bytes;
  status_valid_now : option bool; detail : bytes }.

(** ** Certificates and keys *)

Inductive KeyUsagePurpose := DigitalSignature | KeyEncipherment | KeyCertSign | CrlSign.
Inductive ExtendedKeyUsagePurpose := ServerAuth.

(** What the sources set of [CertificateParams]; times are seconds since the
    epoch, [is_ca] the path length constraint of an authority. *)
Record CertificateParams := mkParams {
  subject_alt_names : list bytes; common_name : bytes; not_before : Z; not_after : Z;
  is_ca : option Z; use_authority_key_identifier_extension : bool;
  key_usages : list KeyUsagePurpose; extended_key_usages : list ExtendedKeyUsagePurpose }.

Record ServerConfig := mkServerConfig {
  cert_chain : list bytes; config_key : bytes; alpn_protocols : list bytes }.

Definition day_seconds : Z := 86400.

Definition ca_parameters (now : Z) : CertificateParams :=
  mkParams [] CA_COMMON_NAME (now - day_seconds) (now + 3650 * day_seconds) (Some 0) false
    [DigitalSignature; KeyCertSign; CrlSign] [].

(** Parameters of a leaf for [host]. *)
Definition leaf_parameters (host : bytes) (now : Z) : CertificateParams :=
  mkParams [host] host (now - day_seconds) (now + 30 * day_seconds) None true
    [DigitalSignature; KeyEncipherment] [ServerAuth].

Class Crypto := {
  KeyPair : Type;
  key_from_pem : bytes -> result KeyPair;
  serialize_pem : KeyPair -> bytes;
  serialize_der : KeyPair -> bytes;
  public_key_info : KeyPair -> bytes;
  valid_names : list bytes -> result unit;
  self_signed : CertificateParams -> KeyPair -> result bytes;
  signed_by : CertificateParams -> KeyPair -> CertificateParams -> KeyPair -> result bytes;
  certificate_pem : bytes -> bytes;
  first_pem_certificate : bytes -> option (result bytes);
  add_root : bytes -> result unit;
  with_single_cert : list bytes -> bytes -> result unit;
  sha256_digest : bytes -> bytes;
  civil : Z -> Civil }.

(** Errors of other crates get the operation in front. *)
Definition source {A} (operation : string) (r : result A) : result A :=
  match r with Ok a => Ok a | Err reason => Err (tls_error operation reason) end.

Definition io_source {A} (operation : string) (path : bytes) (r : Disk.io A) : result A :=
  match r with inl a => Ok a | inr e => Err (tls_io operation path e) end.

(** ** The leaf cache *)

Record LeafCache := mkCache { capacity : Z; entries : gmap bytes ServerConfig; order : list bytes }.

Definition new_cache (capacity : Z) : LeafCache := mkCache capacity ∅ [].

Definition cache_get (c : LeafCache) (host : bytes) : option ServerConfig * LeafCache :=
  match entries c !! host with
  | None => (None, c)
  | Some value =>
      (Some value,
       mkCache (capacity c) (entries c)
         (List.filter (fun entry => negb (entry =s host)) (order c) ++ [host]))
  end.

Definition cache_insert (c : LeafCache) (host : bytes) (config : ServerConfig) : LeafCache :=
  let '(entries', order') :=
    if Z.of_nat (size (entries c)) =? capacity c then
      match order c with
      | oldest :: rest => (base.delete oldest (entries c), rest)
      | [] => (entries c, [])
      end
    else (entries c, order c) in
  mkCache (capacity c) (<[host := config]> entries') (order' ++ [host]).

(** [trim_matches(['[', ']'])] and [trim_end_matches('.')]. *)
Fixpoint drop_while (p : byte -> bool) (s : bytes) : bytes :=
  match s with [] => [] | b :: r => if p b then drop_while p r else s end.
Definition trim_matches (p : byte -> bool) (s : bytes) : bytes := rev (drop_while p (rev (drop_while p s))).
Definition trim_end_matches (p : byte -> bool) (s : bytes) : bytes := rev (drop_while p (rev s)).

Definition normalize_host (host : bytes) : result bytes :=
  let host := trim_end_matches (Byte.eqb "."%byte)
                (trim_matches (fun b => (b =b "["%byte) || (b =b "]"%byte)) (trim host)) in
  if host =s [] then Err (tls_error "issue leaf certificate" (lit "host is empty"))
  else Ok (to_ascii_lowercase host).

Section Authority.
Context `{Crypto}.

(** [format!("{byte:02X}")]. *)
Definition fingerprint (certificate : bytes) : bytes :=
  join (lit ":") (map (fun b => to_ascii_uppercase (hex2 b)) (sha256_digest certificate)).

Record LoadedMaterial := mkMaterial {
  material_params : CertificateParams; material_key : KeyPair;
  material_der : bytes; material_valid : bool }.

Definition first_certificate (pem : bytes) : result bytes :=
  match first_pem_certificate pem with
  | Some r => source "decode CA certificate PEM" r
  | None => Err (tls_error "decode CA certificate PEM" (lit "no certificate was found"))
  end.

(** The part of [load_material] behind the two reads; [now] is the time the
    certificate is held against, [issued] the time given to the issuer. *)
Definition check_material (certificate_pem private_key_pem : bytes) (now issued : Z) : run (result LoadedMaterial) :=
  do? key := Returns (source "parse CA private key" (key_from_pem private_key_pem)) in
  do? certificate_der := Returns (first_certificate certificate_pem) in
  do? parsed := parse_ca_certificate certificate_der (civil now) in
  if negb (subject_public_key_info parsed =s public_key_info key) then
    Returns (Err (tls_error "load local CA" (lit "certificate does not match the stored private key")))
  else
    do? _u := Returns (source "validate CA certificate" (add_root certificate_der)) in
    Returns (Ok (mkMaterial (ca_parameters issued) key certificate_der (valid_now parsed))).

Definition load_material (d : Disk.t) (paths : CaPaths) (now issued : Z) : run (result LoadedMaterial) * Disk.t :=
  match Disk.read_to_string d (certificate paths) with
  | (inr e, d) => (Returns (Err (tls_io "read CA certificate" (certificate paths) e)), d)
  | (inl certificate_pem, d) =>
      match Disk.read_to_string d (private_key paths) with
      | (inr e, d) => (Returns (Err (tls_io "read CA private key" (private_key paths) e)), d)
      | (inl private_key_pem, d) => (check_material certificate_pem private_key_pem now issued, d)
      end
  end.

Definition inspect (d : Disk.t) (ca_paths : CaPaths) (now issued : Z) : run CaStatus * Disk.t :=
  match Disk.is_file d (certificate ca_paths), Disk.is_file d (private_key ca_paths) with
  | false, false =>
      (Returns (mkStatus ca_paths Missing None None
                  (lit "run `lens cert install` to create and trust the local CA")), d)
  | true, true =>
      match load_material d ca_paths now issued with
      | (Panics, d) => (Panics, d)
      | (Returns (Ok material), d) =>
          (Returns (mkStatus ca_paths Ready (Some (fingerprint (material_der material)))
                      (Some (material_valid material)) (lit "local CA material is valid")), d)
      | (Returns (Err error), d) => (Returns (mkStatus ca_paths InvalidMaterial None None error), d)
      end
  | _, _ =>
      (Returns (mkStatus ca_paths Incomplete None None
         (lit "CA material is incomplete; move the remaining file aside and run `lens cert install` again")), d)
  end.

(** [write_new_file] with the options of [write_secret_new] (0o600) and
    [write_public_new] (0o644). *)
Definition write_new_file (d : Disk.t) (path contents : bytes) (mode : Z) : result unit * Disk.t :=
  match Disk.open_new d path mode with
  | (inr e, d) => (Err (tls_io "create CA file" path e), d)
  | (inl _, d) =>
      match Disk.write_all d path contents with
      | (inr e, d) => (Err (tls_io "write CA file" path e), d)
      | (inl _, d) =>
          let '(r, d) := Disk.sync_all d in (io_source "write CA file" path r, d)
      end
  end.

Definition write_secret_new (d : Disk.t) (path contents : bytes) := write_new_file d path contents 384.
Definition write_public_new (d : Disk.t) (path contents : bytes) := write_new_file d path contents 420.

Definition write_public_replace (d : Disk.t) (path contents : bytes) : result unit * Disk.t :=
  match Disk.open_truncate d path 420 with
  | (inr e, d) => (Err (tls_io "create client CA bundle" path e), d)
  | (inl _, d) =>
      match Disk.write_all d path contents with
      | (inr e, d) => (Err (tls_io "write client CA bundle" path e), d)
      | (inl _, d) =>
          let '(r, d) := Disk.sync_all d in (io_source "write client CA bundle" path r, d)
      end
  end.

Definition secure_directory (d : Disk.t) (path : bytes) : result unit * Disk.t :=
  let '(r, d) := Disk.set_permissions d path 448 in (io_source "secure CA directory" path r, d).

(** [generated] is the answer of [KeyPair::generate]. *)
Definition create_material (d : Disk.t) (paths : CaPaths) (generated : result KeyPair) (now : Z) :
    result unit * Disk.t :=
  match Disk.create_dir_all d (directory paths) with
  | (inr e, d) => (Err (tls_io "create CA directory" (directory paths) e), d)
  | (inl _, d) =>
      match secure_directory d (directory paths) with
      | (Err e, d) => (Err e, d)
      | (Ok _, d) =>
          match source "generate CA key" generated with
          | Err e => (Err e, d)
          | Ok key =>
              match source "generate CA certificate" (self_signed (ca_parameters now) key) with
              | Err e => (Err e, d)
              | Ok der =>
                  match write_secret_new d (private_key paths) (serialize_pem key) with
                  | (Err e, d) => (Err e, d)
                  | (Ok _, d) => write_public_new d (certificate paths) (certificate_pem der)
                  end
              end
          end
      end
  end.

Record CertificateAuthority := mkAuthority {
  ca_paths : CaPaths; issuer : CertificateParams; issuer_key : KeyPair;
  certificate_der : bytes; ca_fingerprint : bytes; cache : LeafCache }.

(** The end of [load_or_create_with_capacity], once the material exists. *)
Definition load_authority (d : Disk.t) (paths : CaPaths) (cache_capacity now issued : Z) :
    run (result CertificateAuthority) * Disk.t :=
  match load_material d paths now issued with
  | (Panics, d) => (Panics, d)
  | (Returns (Err e), d) => (Returns (Err e), d)
  | (Returns (Ok material), d) =>
      if negb (material_valid material) then
        (Returns (Err (tls_error "load local CA" (lit "certificate is outside its validity window"))), d)
      else
        (Returns (Ok (mkAuthority paths (material_params material) (material_key material)
           (material_der material) (fingerprint (material_der material)) (new_cache cache_capacity))), d)
  end.

Definition load_or_create_with_capacity (d : Disk.t) (paths : CaPaths) (cache_capacity : Z)
    (generated : result KeyPair) (created now issued : Z) : run (result CertificateAuthority) * Disk.t :=
  if cache_capacity =? 0 then
    (Returns (Err (tls_error "configure leaf cache" (lit "capacity must be positive"))), d)
  else
    match Disk.exists_ d (certificate paths), Disk.exists_ d (private_key paths) with
    | false, false =>
        match create_material d paths generated created with
        | (Err e, d) => (Returns (Err e), d)
        | (Ok _, d) => load_authority d paths cache_capacity now issued
        end
    | true, true => load_authority d paths cache_capacity now issued
    | _, _ =>
        (Returns (Err (tls_error "load local CA"
           (lit "certificate and private key must either both exist or both be absent"))), d)
    end.

Definition load_or_create (d : Disk.t) (paths : CaPaths) (generated : result KeyPair) (created now issued : Z) :=
  load_or_create_with_capacity d paths DEFAULT_LEAF_CACHE_CAPACITY generated created now issued.

Definition status (ca : CertificateAuthority) : CaStatus :=
  mkStatus (ca_paths ca) Ready (Some (ca_fingerprint ca)) (Some true) (lit "local CA material is valid").

(** Issuing a leaf: the steps of [server_config] behind a miss. *)
Definition issue_leaf (ca : CertificateAuthority) (host : bytes) (generated : result KeyPair) (now : Z) :
    result ServerConfig :=
  let? key := source "generate leaf key" generated in
  let? _u := source "configure leaf certificate" (valid_names [host]) in
  let? leaf := source "issue leaf certificate"
                 (signed_by (leaf_parameters host now) key (issuer ca) (issuer_key ca)) in
  let chain := [leaf; certificate_der ca] in
  let? _u := source "build TLS server configuration" (with_single_cert chain (serialize_der key)) in
  Ok (mkServerConfig chain (serialize_der key) [lit "h2"; lit "http/1.1"]).

Definition with_cache (ca : CertificateAuthority) (c : LeafCache) : CertificateAuthority :=
  mkAuthority (ca_paths ca) (issuer ca) (issuer_key ca) (certificate_der ca) (ca_fingerprint ca) c.

Definition server_config (ca : CertificateAuthority) (host : bytes) (generated : result KeyPair) (now : Z) :
    result ServerConfig * CertificateAuthority :=
  match normalize_host host with
  | Err e => (Err e, ca)
  | Ok host =>
      match cache_get (cache ca) host with
      | (Some config, c) => (Ok config, with_cache ca c)
      | (None, c) =>
          match issue_leaf ca host generated now with
          | Err e => (Err e, with_cache ca c)
          | Ok config => (Ok config, with_cache ca (cache_insert c host config))
          end
      end
  end.

Definition cached_leaf_count (ca : CertificateAuthority) : Z := Z.of_nat (size (entries (cache ca))).

(** [ssl_cert_file] is the environment variable of that name. *)
Definition system_ca_bundle (d : Disk.t) (ssl_cert_file : option bytes) (excluded : bytes) : option bytes :=
  match (match ssl_cert_file with
         | Some path => if negb (path =s excluded) && Disk.is_file d path then Some path else None
         | None => None
         end) with
  | Some path => Some path
  | None =>
      List.find (Disk.is_file d)
        [lit "/etc/ssl/certs/ca-certificates.crt"; lit "/etc/pki/tls/certs/ca-bundle.crt";
         lit "/etc/ssl/ca-bundle.pem"; lit "/etc/pki/ca-trust/extracted/pem/tls-ca-bundle.pem"]
  end.

Definition write_linux_client_bundle (ca : CertificateAuthority) (d : Disk.t) (linux : bool)
    (ssl_cert_file : option bytes) : result bytes * Disk.t :=
  if negb linux then
    (Err (tls_error "create client CA bundle" (lit "the bundle fallback is only required on Linux")), d)
  else
    match system_ca_bundle d ssl_cert_file (client_bundle (ca_paths ca)) with
    | None =>
        (Err (tls_error "create client CA bundle"
           (lit "no system CA bundle was found; configure the client with the Lens CA explicitly")), d)
    | Some system_bundle =>
        match Disk.read d system_bundle with
        | (inr e, d) => (Err (tls_io "read system CA bundle" system_bundle e), d)
        | (inl contents, d) =>
            let contents := if ends_with [x0a] contents then contents else contents ++ [x0a] in
            match Disk.read d (certificate (ca_paths ca)) with
            | (inr e, d) => (Err (tls_io "read Lens CA certificate" (certificate (ca_paths ca)) e), d)
            | (inl own, d) =>
                match write_public_replace d (client_bundle (ca_paths ca)) (contents ++ own) with
                | (Err e, d) => (Err e, d)
                | (Ok _, d) => (Ok (client_bundle (ca_paths ca)), d)
                end
            end
        end
    end.
End Authority.
End Tls.
