(* ===== verification/TlsFacts.v ===== *)
(** * TlsFacts: theorems about the certificate authority of [Tls].

    What the reader of DER makes of certificates, exact recency of the leaf
    cache, what happens to the files of the authority. *)

From stdpp Require Import gmap.
From S2P Require Import Prelude RustStd Disk Tls.
#[local] Open Scope lens_scope.
Import Tls.

(** ** Reading DER *)

Definition octets_of (n : Z) : nat := S (Z.to_nat (Z.log2 n / 8)).

(** The length octets of DER, and an element with its tag. *)
Definition der_length (n : Z) : bytes :=
  if n <? 128 then [byte_of n]
  else byte_of (128 + Z.of_nat (octets_of n)) :: be_bytes (octets_of n) n.

Definition tlv (tag : Z) (content : bytes) : bytes := byte_of tag :: der_length (blen content) ++ content.

Lemma octets_of_enough n : 0 < n -> n < 256 ^ Z.of_nat (octets_of n).
Proof.
  intros Hn. unfold octets_of. pose proof (Z.log2_nonneg n).
  rewrite Nat2Z.inj_succ, Z2Nat.id by (apply Z.div_pos; lia).
  pose proof (Z.log2_spec n Hn) as [_ Hl]. eapply Z.lt_le_trans; [exact Hl|].
  change 256 with (2 ^ 8). rewrite <- Z.pow_mul_r by (try apply Z.le_le_succ_r; try apply Z.div_pos; lia).
  apply Z.pow_le_mono_r; [lia|]. pose proof (Z.div_mod (Z.log2 n) 8). pose proof (Z.mod_pos_bound (Z.log2 n) 8). lia.
Qed.

Lemma octets_of_bound n : 0 < n <= usize_max -> (1 <= octets_of n <= 8)%nat.
Proof.
  intros [H0 Hn]. unfold octets_of. split; [lia|]. apply le_n_S.
  assert (Z.log2 n < 64) by (apply Z.log2_lt_pow2; [lia|]; unfold usize_max, u64_max in Hn; lia).
  assert (Z.log2 n / 8 < 8) by (apply Z.div_lt_upper_bound; lia). pose proof (Z.log2_nonneg n). lia.
Qed.

Lemma get_app {A} (pre post : list A) b : get (pre ++ b :: post) (blen pre) = Some b.
Proof.
  unfold get. rewrite blen_app. pose proof (blen_nonneg pre). pose proof (blen_nonneg post).
  replace (_ && _) with true by (symmetry; rewrite andb_true_iff, Z.leb_le, Z.ltb_lt; len).
  unfold blen. rewrite Nat2Z.id, lookup_app_r, Nat.sub_diag by lia. done.
Qed.

Lemma get_range_app {A} (pre mid post : list A) :
  get_range (pre ++ mid ++ post) (blen pre) (blen pre + blen mid) = Some mid.
Proof.
  unfold get_range. pose proof (blen_nonneg pre). pose proof (blen_nonneg mid). pose proof (blen_nonneg post).
  rewrite !blen_app.
  replace (_ && _ && _) with true by (symmetry; rewrite !andb_true_iff, !Z.leb_le; lia).
  f_equal. replace (blen pre + blen mid - blen pre) with (blen mid) by lia.
  unfold blen. rewrite !Nat2Z.id, drop_app_length, take_app_length. done.
Qed.

Lemma be_uint_acc s acc : fold_left (fun a b => a * 256 + byte_val b) s acc = acc * 256 ^ blen s + be_uint s.
Proof.
  revert acc. induction s as [|b s IH]; intros acc; [cbn [fold_left]; change (256 ^ blen (@nil byte)) with 1; change (be_uint []) with 0; lia|].
  cbn [fold_left]. rewrite IH. unfold be_uint at 2. cbn [fold_left]. rewrite IH.
  unfold blen. cbn [length]. rewrite Nat2Z.inj_succ, Z.pow_succ_r by lia. lia.
Qed.

Lemma long_length_exact field s acc :
  0 <= acc -> acc * 256 ^ blen s + be_uint s <= usize_max ->
  long_length field acc s = Ok (acc * 256 ^ blen s + be_uint s).
Proof.
  revert acc. induction s as [|b s IH]; intros acc Ha Hb; [cbn [long_length]; f_equal; change (256 ^ blen (@nil byte)) with 1; change (be_uint []) with 0; lia|].
  assert (acc * 256 ^ blen (b :: s) + be_uint (b :: s)
          = (acc * 256 + byte_val b) * 256 ^ blen s + be_uint s) as E.
  { unfold be_uint at 1. cbn [fold_left]. rewrite be_uint_acc. unfold blen. cbn [length].
    rewrite Nat2Z.inj_succ, Z.pow_succ_r by lia. lia. }
  rewrite E in *. pose proof (byte_val_range b). pose proof (be_uint_bounds s).
  assert (1 <= 256 ^ blen s) by (pose proof (Z.pow_pos_nonneg 256 (blen s) ltac:(lia) (blen_nonneg s)); lia).
  cbn [long_length]. unfold checked_mul, checked_add.
  destruct (Z.leb_spec (acc * 256) usize_max); [|nia]. cbn [mbind option_bind].
  destruct (Z.leb_spec (acc * 256 + byte_val b) usize_max); [|nia]. apply IH; lia.
Qed.

Lemma der_length_size n : 0 <= n <= usize_max ->
  blen (der_length n) = if n <? 128 then 1 else 1 + Z.of_nat (octets_of n).
Proof.
  intros Hn. unfold der_length. destruct (Z.ltb_spec n 128); [done|].
  unfold blen. cbn [length]. rewrite length_be_bytes. lia.
Qed.

Lemma long_form k : (1 <= k <= 8)%nat ->
  (Z.land (byte_val (byte_of (128 + Z.of_nat k))) 128 =? 0) = false /\
  Z.land (byte_val (byte_of (128 + Z.of_nat k))) 127 = Z.of_nat k.
Proof. intros Hk. do 9 (destruct k as [|k]; [try lia; by vm_compute|]). lia. Qed.

Lemma short_form n : 0 <= n < 128 -> Z.land n 128 = 0.
Proof.
  intros Hn. apply Z.bits_inj'. intros i Hi. rewrite Z.land_spec, Z.bits_0.
  destruct (Z.eq_dec i 7) as [->|Hne].
  - rewrite (Z.bits_above_log2 n 7); [done|lia|].
    destruct (Z.eq_dec n 0) as [->|]; [done|]. apply Z.log2_lt_pow2; lia.
  - change 128 with (2 ^ 7). rewrite Z.pow2_bits_false by lia. by rewrite andb_false_r.
Qed.

(** An element is read where it stands. *)
Lemma read_tlv_exact field pre t content post :
  0 <= t < 256 -> blen (pre ++ tlv t content ++ post) <= usize_max ->
  read_tlv (pre ++ tlv t content ++ post) (blen pre) field
  = Ok (mkTlv t (blen pre) content (blen pre + blen (tlv t content))).
Proof.
  intros Ht Hb. unfold read_tlv. set (n := blen content).
  pose proof (blen_nonneg pre). pose proof (blen_nonneg post). pose proof (blen_nonneg content).
  assert (Hsize : blen (tlv t content) = 1 + blen (der_length n) + n).
  { unfold tlv. fold n. unfold blen in *. cbn [length]. rewrite length_app. lia. }
  rewrite !blen_app in Hb.
  assert (0 <= n <= usize_max) as Hn by (unfold n in *; pose proof (blen_nonneg (der_length (blen content))); lia).
  set (input := pre ++ tlv t content ++ post).
  assert (E0 : input = pre ++ byte_of t :: (der_length n ++ content ++ post)).
  { unfold input, tlv. fold n. by rewrite <- app_comm_cons, <- app_assoc. }
  rewrite E0 at 1. rewrite get_app. cbn [ok_or].
  destruct (der_length n) as [|first octets] eqn:El; [unfold der_length in El; by destruct (n <? 128)|].
  assert (E1 : input = (pre ++ [byte_of t]) ++ first :: octets ++ content ++ post).
  { rewrite E0. by rewrite <- app_assoc. }
  replace (blen pre + 1) with (blen (pre ++ [byte_of t])) by (rewrite blen_app; len).
  rewrite E1 at 1. rewrite get_app. cbn [ok_or].
  assert (E2 : input = (pre ++ [byte_of t; first]) ++ octets ++ content ++ post) by (rewrite E1; by rewrite <- !app_assoc).
  assert (E3 : input = (pre ++ byte_of t :: first :: octets) ++ content ++ post) by (rewrite E2; by rewrite <- !app_assoc).
  rewrite byte_val_of by done.
  assert (Hend : forall k, k = blen (byte_of t :: first :: octets) ->
    (let? content_start := ok_or (checked_add (blen pre) k) (parse_error field " offset overflowed") in
     let? next := ok_or (checked_add content_start n) (parse_error field " length overflowed") in
     let? content := ok_or (get_range input content_start next) (parse_error field " is truncated") in
     Ok (mkTlv t (blen pre) content next)) = Ok (mkTlv t (blen pre) content (blen pre + blen (tlv t content)))).
  { intros k ->. set (k := blen (byte_of t :: first :: octets)).
    assert (k = 1 + blen (first :: octets)) as Ek by (unfold k; len).
    unfold checked_add. destruct (Z.leb_spec (blen pre + k) usize_max); [|lia]. cbn [ok_or].
    destruct (Z.leb_spec (blen pre + k + n) usize_max); [|lia]. cbn [ok_or].
    replace (blen pre + k) with (blen (pre ++ byte_of t :: first :: octets)) by (rewrite blen_app; unfold k; done).
    rewrite E3 at 1. unfold n. rewrite get_range_app. cbn [ok_or]. do 2 f_equal.
    rewrite blen_app. fold k. rewrite Hsize. unfold n in *. lia. }
  unfold der_length in El. destruct (Z.ltb_spec n 128) as [Hs|Hl].
  - injection El as <- <-. rewrite byte_val_of by lia. rewrite short_form by lia. cbn [Z.eqb].
    change (0 =? 0) with true. cbn iota. by apply Hend.
  - injection El as <- <-. pose proof (octets_of_bound n ltac:(lia)) as Hk.
    destruct (long_form _ Hk) as [F1 F2]. rewrite F1, F2.
    destruct (Z.eqb_spec (Z.of_nat (octets_of n)) 0); [lia|].
    destruct (Z.ltb_spec 8 (Z.of_nat (octets_of n))); [lia|]. cbn [orb].
    assert (get_range input (blen pre + 2) (blen pre + 2 + Z.of_nat (octets_of n))
            = Some (be_bytes (octets_of n) n)) as ->.
    { rewrite E2, <- (get_range_app (pre ++ [byte_of t; byte_of (128 + Z.of_nat (octets_of n))])
                                    (be_bytes (octets_of n) n) (content ++ post)).
      f_equal; unfold blen; rewrite ?length_app, ?length_be_bytes; cbn [length]; lia. }
    cbn [ok_or].
    pose proof (octets_of_enough n ltac:(lia)) as Hfit.
    pose proof (be_uint_be_bytes (octets_of n) n ltac:(lia)) as Hbe.
    rewrite long_length_exact, Hbe by lia.
    rewrite Z.mul_0_l, Z.add_0_l. apply Hend. unfold blen. cbn [length]. rewrite length_be_bytes. lia.
Qed.

(** ** Times *)

Definition civil_ok (c : Civil) : Prop :=
  0 <= year c < 10000 /\ 0 <= month c < 100 /\ 0 <= day c < 100 /\
  0 <= hour c < 100 /\ 0 <= minute c < 100 /\ 0 <= second c < 100.

#[export] Instance civil_ok_dec c : Decision (civil_ok c).
Proof. unfold civil_ok. apply _. Defined.

(** The order of times: by year, then by month, and so on. *)
Definition then_cmp (c d : comparison) : comparison := match c with Eq => d | _ => c end.
Definition civil_cmp (a b : Civil) : comparison :=
  then_cmp (year a ?= year b) (then_cmp (month a ?= month b) (then_cmp (day a ?= day b)
    (then_cmp (hour a ?= hour b) (then_cmp (minute a ?= minute b) (second a ?= second b))))).
Definition civil_le (a b : Civil) : bool := match civil_cmp a b with Gt => false | _ => true end.

Lemma generalized_digits c : civil_ok c ->
  generalized_time c = digits_of 4 (year c) ++ digits_of 2 (month c) ++ digits_of 2 (day c)
    ++ digits_of 2 (hour c) ++ digits_of 2 (minute c) ++ digits_of 2 (second c) ++ lit "Z".
Proof.
  intros (Hy & Hm & Hd & Hh & Hmi & Hs). unfold generalized_time.
  rewrite (pad_digits 3 (year c)) by (change (10 ^ Z.of_nat 4) with 10000; lia).
  rewrite !(pad_digits 1) by (change (10 ^ Z.of_nat 2) with 100; lia). done.
Qed.

Lemma digits_cmp_app width m n x y :
  0 <= m < 10 ^ Z.of_nat width -> 0 <= n < 10 ^ Z.of_nat width ->
  bytes_cmp (digits_of width m ++ x) (digits_of width n ++ y) = then_cmp (m ?= n) (bytes_cmp x y).
Proof.
  intros Hm Hn. rewrite bytes_cmp_app by by rewrite !length_digits_of.
  rewrite digits_of_cmp by done. by destruct (m ?= n).
Qed.

(** Texts of times are ordered as the times are. *)
Lemma generalized_order a b : civil_ok a -> civil_ok b ->
  bytes_le (generalized_time a) (generalized_time b) = civil_le a b.
Proof.
  intros Ha Hb. unfold bytes_le, civil_le, civil_cmp. rewrite !generalized_digits by done.
  destruct Ha as (?&?&?&?&?&?), Hb as (?&?&?&?&?&?).
  rewrite (digits_cmp_app 4) by (change (10 ^ Z.of_nat 4) with 10000; lia).
  rewrite !(digits_cmp_app 2) by (change (10 ^ Z.of_nat 2) with 100; lia).
  change (bytes_cmp (lit "Z") (lit "Z")) with Eq.
  assert (forall c, then_cmp c Eq = c) as -> by by intros []. done.
Qed.

(** UTCTime has the last two digits of a year from 1950 to 2049. *)
Definition utc_year (y : Z) : bool := (1950 <=? y) && (y <=? 2049).

Definition century_ok (y : Z) : bool :=
  match parse_unsigned 10 255 (drop 2 (digits_of 4 y)) with
  | Some short => lit (if 50 <=? short then "19" else "20") =s take 2 (digits_of 4 y)
  | None => false
  end.

Lemma century_exact y : utc_year y = true -> century_ok y = true.
Proof.
  intros Hy. assert (forallb (fun k => century_ok (1950 + Z.of_nat k)) (seq 0 100) = true) as K by by vm_compute.
  rewrite forallb_forall in K. unfold utc_year in Hy. rewrite andb_true_iff, !Z.leb_le in Hy.
  specialize (K (Z.to_nat (y - 1950))). rewrite Z2Nat.id in K by lia.
  replace (1950 + (y - 1950)) with y in K by lia. apply K, in_seq. lia.
Qed.

Lemma digits_of_ascii width n : forallb is_ascii_digit (digits_of width n) = true.
Proof.
  revert n; induction width as [|w IH]; intros n; [done|]. cbn [digits_of].
  rewrite forallb_app, IH. cbn. rewrite digit_byte_digit by (apply Z.mod_pos_bound; lia). done.
Qed.

(** Twelve or fourteen digits and a final Z: lengths, text and end. *)
Lemma digits_Z ds : forallb is_ascii_digit ds = true ->
  utf8_valid (ds ++ lit "Z") = true /\ ends_with (lit "Z") (ds ++ lit "Z") = true.
Proof.
  intros Hd. split.
  - apply ascii_valid. rewrite forallb_app, (digits_ascii _ Hd). done.
  - unfold ends_with. by rewrite rev_app_distr.
Qed.

Lemma digit_not_cont b : is_ascii_digit b = true -> is_cont b = false.
Proof.
  intros Hb. assert (implb (is_ascii_digit b) (negb (is_cont b)) = true) as K.
  { clear. revert b. apply byte_all. by vm_compute. }
  rewrite Hb in K. by apply negb_true_iff.
Qed.

Lemma read_utc yy ds short :
  forallb is_ascii_digit yy = true -> forallb is_ascii_digit ds = true ->
  length yy = 2%nat -> length ds = 10%nat -> parse_unsigned 10 255 yy = Some short ->
  normalized_asn1_time 23 (yy ++ ds ++ lit "Z")
  = Returns (Ok (lit (if 50 <=? short then "19" else "20") ++ yy ++ ds ++ lit "Z")).
Proof.
  intros Hy Hd Ly Ld Hp. destruct (digits_Z (yy ++ ds)) as [E1 E2]; [by rewrite forallb_app, Hy, Hd|].
  rewrite <- app_assoc in E1, E2. unfold normalized_asn1_time. rewrite E1, E2.
  replace (blen (yy ++ ds ++ lit "Z")) with 13 by (unfold blen; rewrite !length_app, Ly, Ld; done).
  change ((23 =? 23) && (13 =? 13) && true) with true. cbn [negb]. cbn iota. unfold year_slice.
  destruct (nth_is is_cont _ 2) eqn:En.
  { unfold nth_is in En. rewrite lookup_app_r, lookup_app_l in En by lia.
    rewrite Ly in En. destruct ds as [|d0 ds']; [done|]. cbn in En, Hd. rewrite andb_true_iff in Hd.
    destruct Hd as [Hd0 _]. by rewrite (digit_not_cont _ Hd0) in En. }
  rewrite <- Ly, take_app_length. by rewrite Hp.
Qed.

Lemma read_generalized ds :
  forallb is_ascii_digit ds = true -> length ds = 14%nat ->
  normalized_asn1_time 24 (ds ++ lit "Z") = Returns (Ok (ds ++ lit "Z")).
Proof.
  intros Hd Ld. destruct (digits_Z ds Hd) as [E1 E2]. unfold normalized_asn1_time. rewrite E1, E2.
  replace (blen (ds ++ lit "Z")) with 15 by (unfold blen; rewrite !length_app, Ld; done). done.
Qed.

(** The text of a time: its year, ten digits, Z. *)
Lemma generalized_parts c : civil_ok c ->
  exists ds, generalized_time c = digits_of 4 (year c) ++ ds ++ lit "Z" /\
             forallb is_ascii_digit ds = true /\ length ds = 10%nat.
Proof.
  intros Hc. rewrite (generalized_digits c Hc).
  exists (digits_of 2 (month c) ++ digits_of 2 (day c) ++ digits_of 2 (hour c)
          ++ digits_of 2 (minute c) ++ digits_of 2 (second c)).
  rewrite !forallb_app, !digits_of_ascii, !length_app, !length_digits_of, <- !app_assoc. done.
Qed.

Definition time_tag (c : Civil) : Z := if utc_year (year c) then 23 else 24.
Definition time_text (c : Civil) : bytes :=
  if utc_year (year c) then drop 2 (generalized_time c) else generalized_time c.
Definition asn1_time (c : Civil) : bytes := tlv (time_tag c) (time_text c).

(** Both forms of a time are read as its text. *)
Lemma asn1_time_exact c :
  civil_ok c -> normalized_asn1_time (time_tag c) (time_text c) = Returns (Ok (generalized_time c)).
Proof.
  intros Hc. unfold time_tag, time_text. destruct (generalized_parts c Hc) as (ds & -> & Hd & Ld).
  destruct (utc_year (year c)) eqn:Hy.
  - pose proof (century_exact _ Hy) as Hcy. unfold century_ok in Hcy.
    pose proof (digits_of_ascii 4 (year c)) as Hyd. pose proof (length_digits_of 4 (year c)) as Hyl.
    rewrite <- (take_drop 2 (digits_of 4 (year c))) in Hyd |- *.
    rewrite forallb_app, andb_true_iff in Hyd. destruct Hyd as [_ Hyd].
    destruct (parse_unsigned 10 255 (drop 2 (digits_of 4 (year c)))) as [short|] eqn:Ep; [|done].
    rewrite bytes_eqb_eq in Hcy. rewrite <- !app_assoc.
    rewrite (drop_app_length' (take 2 _)) by (rewrite length_take; lia).
    rewrite (read_utc _ _ short) by (done || rewrite length_drop; lia). by rewrite Hcy.
  - rewrite !app_assoc. apply read_generalized; [by rewrite forallb_app, digits_of_ascii|].
    rewrite length_app, length_digits_of. lia.
Qed.

(** ** Certificates *)

(** A certificate: its elements in their order, the ones the reader only
    passes over with any tag. *)
Record Certificate := mkCertificate {
  version_of : option bytes; serial : Z * bytes; algorithm : Z * bytes; issuer_name : Z * bytes;
  valid_from : Civil; valid_until : Civil; subject : Z * bytes; public_key : bytes;
  extensions : bytes; signature : bytes }.

Definition element (e : Z * bytes) : bytes := tlv (fst e) (snd e).
Definition spki_der (c : Certificate) : bytes := tlv 48 (public_key c).
Definition validity_der (c : Certificate) : bytes := asn1_time (valid_from c) ++ asn1_time (valid_until c).

Definition tbs_der (c : Certificate) : bytes :=
  match version_of c with Some v => tlv 160 v | None => [] end
  ++ element (serial c) ++ element (algorithm c) ++ element (issuer_name c) ++ tlv 48 (validity_der c)
  ++ element (subject c) ++ spki_der c ++ extensions c.

Definition certificate_of (c : Certificate) : bytes := tlv 48 (tlv 48 (tbs_der c) ++ signature c).

Definition tag_ok (t : Z) : Prop := 0 <= t < 256.

Record certificate_ok (c : Certificate) : Prop := {
  ok_serial : 0 <= fst (serial c) < 256 /\ fst (serial c) <> 160;
  ok_algorithm : tag_ok (fst (algorithm c));
  ok_issuer : tag_ok (fst (issuer_name c));
  ok_subject : tag_ok (fst (subject c));
  ok_from : civil_ok (valid_from c);
  ok_until : civil_ok (valid_until c);
  ok_size : blen (certificate_of c) <= usize_max }.

Lemma tlv_size t content : blen content < blen (tlv t content).
Proof. unfold tlv. pose proof (blen_nonneg (der_length (blen content))). len. Qed.

Lemma read_tlv_first field t content post :
  0 <= t < 256 -> blen (tlv t content ++ post) <= usize_max ->
  read_tlv (tlv t content ++ post) 0 field = Ok (mkTlv t 0 content (blen (tlv t content))).
Proof. intros Ht Hb. exact (read_tlv_exact field [] t content post Ht Hb). Qed.

Lemma expect_tlv_exact field t content post :
  0 <= t < 256 -> blen (tlv t content ++ post) <= usize_max ->
  expect_tlv (tlv t content ++ post) t field = Ok (mkTlv t 0 content (blen (tlv t content))).
Proof. intros Ht Hb. unfold expect_tlv. rewrite read_tlv_first by done. cbn. by rewrite Z.eqb_refl. Qed.

(** An element at a known offset. *)
Lemma read_at field input pre t content post off :
  input = pre ++ tlv t content ++ post -> off = blen pre -> 0 <= t < 256 -> blen input <= usize_max ->
  read_tlv input off field = Ok (mkTlv t off content (off + blen (tlv t content))).
Proof. intros -> -> Ht Hb. by apply read_tlv_exact. Qed.

Lemma range_at {A} (input pre mid post : list A) a b :
  input = pre ++ mid ++ post -> a = blen pre -> b = a + blen mid -> get_range input a b = Some mid.
Proof. intros -> -> ->. apply get_range_app. Qed.

Lemma blen_middle {A} (a m b : list A) : blen m <= blen (a ++ m ++ b).
Proof. rewrite !blen_app. pose proof (blen_nonneg a). pose proof (blen_nonneg b). lia. Qed.

(** The parts of a certificate fit when the whole does. *)
Lemma certificate_sizes c : blen (certificate_of c) <= usize_max ->
  blen (tlv 48 (tbs_der c) ++ signature c) <= usize_max /\ blen (tbs_der c) <= usize_max /\
  blen (validity_der c) <= usize_max.
Proof.
  intros Hs. unfold certificate_of in Hs.
  pose proof (tlv_size 48 (tlv 48 (tbs_der c) ++ signature c)) as H1.
  pose proof (tlv_size 48 (tbs_der c)) as H2. pose proof (tlv_size 48 (validity_der c)) as H3.
  assert (blen (tlv 48 (validity_der c)) <= blen (tbs_der c)) as H4.
  { unfold tbs_der. set (v := match version_of c with Some _ => _ | None => _ end).
    rewrite (app_assoc (element (algorithm c))), (app_assoc (element (serial c))), (app_assoc v). apply blen_middle. }
  rewrite blen_app in *. pose proof (blen_nonneg (signature c)). lia.
Qed.

(** The offset at which the serial number is looked for. *)
Lemma version_passed c :
  certificate_ok c ->
  match tbs_der c with
  | b :: _ => if b =b xa0
              then do? version := Returns (read_tlv (tbs_der c) 0 "version") in Returns (Ok (next version))
              else Returns (Ok 0)
  | [] => Returns (Ok 0)
  end = Returns (Ok (blen (match version_of c with Some v => tlv 160 v | None => [] end))).
Proof.
  intros [[Hser Hne] _ _ _ _ _ Hsize]. destruct (certificate_sizes c Hsize) as (_ & Htbs & _).
  destruct (version_of c) as [v|] eqn:Ev.
  - unfold tbs_der in *. rewrite Ev in *. rewrite read_tlv_first by done. done.
  - unfold tbs_der in *. rewrite Ev in *. cbn [app]. unfold element at 1, tlv at 1. rewrite <- app_comm_cons.
    replace (byte_of (fst (serial c)) =b xa0) with false; [done|]. symmetry. apply byte_eqb_neq. intros E.
    apply (f_equal byte_val) in E. rewrite byte_val_of in E by done. apply Hne. exact E.
Qed.

(** Reads the element behind [pre] of an input that [E] takes apart. *)
Ltac read_element E pre :=
  erewrite (read_at _ _ pre);
  [ cbn [next tag content start]; change (negb (48 =? 48)) with false; cbn iota
  | etrans; [exact E|]; unfold element; rewrite <- ?app_assoc; reflexivity
  | unfold element; try subst pre; rewrite ?blen_app; lia
  | done | done ].

Lemma parse_exact (c : Certificate) (now : Civil) :
  certificate_ok c -> civil_ok now ->
  parse_ca_certificate (certificate_of c) now
  = Returns (Ok (mkParsed (spki_der c) (civil_le (valid_from c) now && civil_le now (valid_until c)))).
Proof.
  intros Hok Hnow. destruct (certificate_sizes c (ok_size c Hok)) as (Hout & Htbs & Hval).
  unfold parse_ca_certificate.
  rewrite <- (app_nil_r (certificate_of c)). unfold certificate_of at 1.
  rewrite expect_tlv_exact by (rewrite ?app_nil_r; destruct Hok; (done || lia)). cbn [content].
  rewrite expect_tlv_exact by (done || lia). cbn [content].
  rewrite (version_passed c Hok).
  set (v := match version_of c with Some v => tlv 160 v | None => [] end).
  assert (Et : tbs_der c = v ++ element (serial c) ++ element (algorithm c) ++ element (issuer_name c)
    ++ tlv 48 (validity_der c) ++ element (subject c) ++ spki_der c ++ extensions c) by done.
  destruct Hok as [[Hser _] Halg Hiss Hsub Hfrom Huntil _]. unfold tag_ok in *. unfold element in Et.
  read_element Et v. read_element Et (v ++ element (serial c)).
  read_element Et (v ++ element (serial c) ++ element (algorithm c)).
  read_element Et (v ++ element (serial c) ++ element (algorithm c) ++ element (issuer_name c)).
  read_element Et (v ++ element (serial c) ++ element (algorithm c) ++ element (issuer_name c)
                   ++ tlv 48 (validity_der c)).
  set (before := v ++ element (serial c) ++ element (algorithm c) ++ element (issuer_name c)
                 ++ tlv 48 (validity_der c) ++ element (subject c)).
  assert (Es : tbs_der c = before ++ tlv 48 (public_key c) ++ extensions c).
  { rewrite Et. unfold before, element. by rewrite <- !app_assoc. }
  unfold element in before. read_element Es before.
  unfold validity_der, asn1_time.
  rewrite read_tlv_first; [|by unfold time_tag; case_match|done]. cbn [next tag content].
  rewrite (read_at "notAfter" _ (asn1_time (valid_from c)) (time_tag (valid_until c)) (time_text (valid_until c)) []);
    [|by rewrite app_nil_r|done|by unfold time_tag; case_match|done]. cbn [tag content].
  rewrite !asn1_time_exact by done. rewrite !generalized_order by done.
  erewrite range_at; [done|exact Es| |reflexivity].
  unfold before. rewrite ?blen_app. unfold validity_der, asn1_time. lia.
Qed.

(** C24. A certificate is read exactly: from the DER of a certificate the
    reader takes the whole subject public key info and finds it valid now
    exactly when the present lies between its two times, whichever form each
    of them is written in; it neither fails nor panics. *)
Theorem ca_certificate_parsed (c : Certificate) (now : Civil) :
  certificate_ok c -> civil_ok now ->
  parse_ca_certificate (certificate_of c) now
  = Returns (Ok (mkParsed (spki_der c) (civil_le (valid_from c) now && civil_le now (valid_until c)))).
Proof. apply parse_exact. Qed.

Definition demo_certificate : Certificate :=
  mkCertificate (Some (tlv 2 [x02])) (2, [x01]) (48, []) (48, lit "Lens") (mkCivil 2026 3 1 0 0 0)
    (mkCivil 2051 2 28 12 30 59) (48, lit "Lens") (repeat x07 200) [] (lit "sig").

Lemma ca_certificate_parsed_witness :
  certificate_ok demo_certificate /\
  parse_ca_certificate (certificate_of demo_certificate) (mkCivil 2026 11 5 8 0 0)
  = Returns (Ok (mkParsed (tlv 48 (repeat x07 200)) true)).
Proof.
  assert (certificate_ok demo_certificate) as Hok.
  { split; try (unfold tag_ok; cbn; lia); try (by apply (bool_decide_unpack _); vm_compute). }
  split; [exact Hok|].
  refine (eq_trans (ca_certificate_parsed demo_certificate (mkCivil 2026 11 5 8 0 0) Hok _) _).
  - by apply (bool_decide_unpack _); vm_compute.
  - by vm_compute.
Defined.

(** ** The leaf cache *)

(** The hosts asked for, newest first, each once: what an unbounded list of
    uses looks like. *)
Definition touch (host : bytes) (uses : list bytes) : list bytes :=
  host :: List.filter (fun entry => negb (entry =s host)) uses.

Definition recency (hosts : list bytes) : list bytes := fold_left (fun uses host => touch host uses) hosts [].

Lemma filter_absent h l : h ∉ l -> List.filter (fun entry => negb (entry =s h)) l = l.
Proof.
  induction l as [|x l IH]; intros Hn; [done|]. cbn. rewrite not_elem_of_cons in Hn.
  rewrite (proj2 (bytes_eqb_neq x h)) by (intros ->; tauto). cbn. rewrite IH by tauto. done.
Qed.

Lemma elem_of_filter_ne x h l : x ∈ List.filter (fun entry => negb (entry =s h)) l <-> x ∈ l /\ x <> h.
Proof.
  rewrite !list_elem_of_In, filter_In, negb_true_iff. rewrite bytes_eqb_neq. tauto.
Qed.

Lemma NoDup_touch h l : NoDup l -> NoDup (touch h l).
Proof.
  intros Hn. constructor; [rewrite elem_of_filter_ne; tauto|].
  apply NoDup_ListNoDup. apply NoDup_ListNoDup in Hn. by apply NoDup_filter.
Qed.

Lemma NoDup_recency hosts : NoDup (recency hosts).
Proof.
  unfold recency. rewrite <- fold_left_rev_right. induction (rev hosts) as [|h l IH]; [constructor|].
  cbn. by apply NoDup_touch.
Qed.

(** A use of a host among the newest [n] only moves it to the front. *)
Lemma take_touch_hit n h l :
  NoDup l -> h ∈ take n l ->
  take n (touch h l) = h :: List.filter (fun entry => negb (entry =s h)) (take n l).
Proof.
  destruct n as [|n]; [cbn; by intros _ ?%not_elem_of_nil|]. unfold touch. cbn [take]. intros Hn Hh. f_equal.
  revert n Hn Hh. induction l as [|x l IH]; intros n Hn Hh; [by destruct n|].
  pose proof (NoDup_cons_1_1 _ _ Hn) as Hx. apply NoDup_cons_1_2 in Hn. cbn [take List.filter] in *.
  destruct (bytes_eqb x h) eqn:E; cbn [negb].
  - apply bytes_eqb_eq in E as ->. rewrite !filter_absent; [done| |done].
    intros Hin. apply Hx. by apply elem_of_take in Hin as (i & Hi & _); apply list_elem_of_lookup_2 in Hi.
  - apply bytes_eqb_neq in E. apply elem_of_cons in Hh as [->|Hh]; [done|].
    destruct n as [|n]; [by apply not_elem_of_nil in Hh|]. cbn [take]. f_equal. by apply IH.
Qed.

(** A use of any other host drops the oldest of them when there are [n]. *)
Lemma take_touch_miss n h l : h ∉ take (S n) l -> take (S n) (touch h l) = h :: take n l.
Proof.
  unfold touch. cbn [take]. intros Hh. f_equal. revert n Hh.
  induction l as [|x l IH]; intros n Hh; [done|]. cbn [take] in Hh. rewrite not_elem_of_cons in Hh.
  cbn [List.filter]. rewrite (proj2 (bytes_eqb_neq x h)) by (intros ->; tauto). cbn [negb].
  destruct n as [|n]; [done|]. cbn [take]. f_equal. apply IH. tauto.
Qed.

Section Cache.
Context `{Crypto}.

(** Whether a configuration was issued by [ca] for a host. *)
Definition issued_for (ca : CertificateAuthority) (host : bytes) (config : ServerConfig) : Prop :=
  exists generated now, issue_leaf ca host generated now = Ok config.

(** The cache holds exactly the [capacity] newest of the hosts [uses]. *)
Record cache_inv (ca : CertificateAuthority) (uses : list bytes) : Prop := {
  inv_order : rev (order (cache ca)) = take (Z.to_nat (capacity (cache ca))) uses;
  inv_dom : forall h, is_Some (entries (cache ca) !! h) <-> h ∈ order (cache ca);
  inv_issued : forall h config, entries (cache ca) !! h = Some config -> issued_for ca h config }.

Lemma elem_of_rev_list (x : bytes) l : x ∈ rev l <-> x ∈ l.
Proof. rewrite !list_elem_of_In. symmetry. apply in_rev. Qed.

Lemma NoDup_unrev (l : list bytes) : NoDup (rev l) -> NoDup l.
Proof. rewrite !NoDup_ListNoDup. intros Hn. rewrite <- (rev_involutive l). by apply NoDup_rev. Qed.

Lemma NoDup_prefix n (l : list bytes) : NoDup l -> NoDup (take n l).
Proof. rewrite !NoDup_ListNoDup. intros Hn. apply (NoDup_app_remove_r _ (drop n l)). by rewrite take_drop. Qed.

(** The number of entries is the number of hosts in the order. *)
Lemma entries_count ca uses :
  cache_inv ca uses -> NoDup uses -> size (entries (cache ca)) = length (order (cache ca)).
Proof.
  intros [Ho Hd _] Hn.
  assert (NoDup (order (cache ca))) as Hnd.
  { apply NoDup_unrev. rewrite Ho. by apply NoDup_prefix. }
  rewrite <- size_dom, <- (size_list_to_set (C := gset bytes) _ Hnd). f_equal. apply set_eq. intros h.
  rewrite elem_of_dom, elem_of_list_to_set. apply Hd.
Qed.

(** A new authority has used no host. *)
Lemma cache_inv_new ca : cache ca = new_cache (capacity (cache ca)) -> cache_inv ca [].
Proof.
  intros Hc. split; rewrite Hc; cbn.
  - by rewrite take_nil.
  - intros h. rewrite lookup_empty. split; [by intros []|by intros ?%not_elem_of_nil].
  - intros h config. by rewrite lookup_empty.
Qed.

(** A hit moves its host to the newest place. *)
Lemma cache_hit ca uses h config :
  cache_inv ca uses -> NoDup uses -> entries (cache ca) !! h = Some config ->
  cache_inv (with_cache ca (snd (cache_get (cache ca) h))) (touch h uses).
Proof.
  intros [Ho Hd Hi] Hn He. unfold cache_get. rewrite He. cbn [snd].
  assert (h ∈ order (cache ca)) as Hin by (apply Hd; by eexists).
  split; cbn [cache with_cache order entries capacity].
  - rewrite rev_app_distr. cbn [rev app]. rewrite take_touch_hit; [|done|by rewrite <- Ho, elem_of_rev_list].
    f_equal. rewrite <- Ho. clear. induction (order (cache ca)) as [|x l IH]; [done|]. cbn [List.filter rev].
    rewrite filter_app. cbn [List.filter]. destruct (negb (x =s h)); cbn [rev]; rewrite IH, ?app_nil_r; done.
  - intros k. rewrite Hd, elem_of_app, elem_of_filter_ne, list_elem_of_singleton.
    split; [|intros [[]| ->]; done]. intros Hk. destruct (decide (k = h)); tauto.
  - intros k c Hk. by apply Hi.
Qed.

(** A miss issues, and drops the oldest host when the cache is full. *)
Lemma cache_miss ca uses h config :
  0 < capacity (cache ca) -> cache_inv ca uses -> NoDup uses -> entries (cache ca) !! h = None ->
  issued_for ca h config ->
  cache_inv (with_cache ca (cache_insert (cache ca) h config)) (touch h uses).
Proof.
  intros Hcap Hinv Hn He Hiss. pose proof (entries_count ca uses Hinv Hn) as Hcount. destruct Hinv as [Ho Hd Hi].
  assert (h ∉ order (cache ca)) as Hout by (intros Hin; apply Hd in Hin as [c Hc]; congruence).
  set (n := Z.to_nat (capacity (cache ca))) in *.
  destruct n as [|n'] eqn:En; [unfold n in En; lia|].
  assert (h ∉ take (S n') uses) as Hout' by by rewrite <- Ho, elem_of_rev_list.
  pose proof (f_equal (@length bytes) Ho) as Hlen. rewrite length_rev, length_take in Hlen.
  unfold cache_insert. destruct (Z.eqb_spec (Z.of_nat (size (entries (cache ca)))) (capacity (cache ca))) as [Hfull|Hroom].
  - destruct (order (cache ca)) as [|oldest rest] eqn:Eo; [cbn in *; lia|].
    assert (NoDup (oldest :: rest)) as Hnd.
    { apply NoDup_unrev. rewrite Ho. by apply NoDup_prefix. }
    pose proof (NoDup_cons_1_1 _ _ Hnd) as Hold. rewrite not_elem_of_cons in Hout.
    split; cbn [cache with_cache order entries capacity].
    + rewrite rev_app_distr. cbn [rev app]. fold n. rewrite En, take_touch_miss by done. f_equal.
      cbn [rev length] in *. transitivity (take n' (rev rest ++ [oldest])).
      * rewrite take_app_le by (rewrite length_rev; lia). rewrite take_ge; [done|rewrite length_rev; lia].
      * rewrite Ho, take_take. f_equal. lia.
    + intros k. rewrite elem_of_app, list_elem_of_singleton. destruct (decide (k = h)) as [->|Hk].
      { rewrite lookup_insert_eq. split; [auto|by eexists]. }
      rewrite lookup_insert_ne by congruence. destruct (decide (k = oldest)) as [->|Hko].
      * rewrite lookup_delete_eq. split; [by intros []|intros [|]; [done|congruence]].
      * rewrite lookup_delete_ne, Hd, elem_of_cons by congruence. tauto.
    + intros k c. destruct (decide (k = h)) as [->|Hk]; [rewrite lookup_insert_eq; by intros [= <-]|].
      rewrite lookup_insert_ne by congruence. intros [_ Hk']%lookup_delete_Some. by apply Hi.
  - split; cbn [cache with_cache order entries capacity].
    + rewrite rev_app_distr. cbn [rev app]. fold n. rewrite En, take_touch_miss by done. f_equal.
      rewrite Ho. rewrite !take_ge by lia. done.
    + intros k. rewrite elem_of_app, list_elem_of_singleton. destruct (decide (k = h)) as [->|Hk].
      { rewrite lookup_insert_eq. split; [auto|by eexists]. }
      rewrite lookup_insert_ne, Hd by congruence. tauto.
    + intros k c. destruct (decide (k = h)) as [->|Hk]; [rewrite lookup_insert_eq; by intros [= <-]|].
      rewrite lookup_insert_ne by congruence. by apply Hi.
Qed.

(** Requests in their order, with the key and the time each would issue with. *)
Record Request := mkRequest { asked : bytes; key_made : result KeyPair; asked_at : Z }.

Fixpoint serve (ca : CertificateAuthority) (rs : list Request) : list (result ServerConfig) * CertificateAuthority :=
  match rs with
  | [] => ([], ca)
  | r :: rs =>
      let '(answer, ca) := server_config ca (asked r) (key_made r) (asked_at r) in
      let '(answers, ca) := serve ca rs in
      (answer :: answers, ca)
  end.

(** The host of an answered request. *)
Definition answered (q : Request * result ServerConfig) : option bytes :=
  match normalize_host (asked (fst q)), snd q with Ok h, Ok _ => Some h | _, _ => None end.

Lemma issued_with_cache ca c h config : issued_for (with_cache ca c) h config <-> issued_for ca h config.
Proof. done. Qed.

(** One request: what it answers, and the uses it leaves. *)
Lemma server_config_step ca uses r answer ca' :
  0 < capacity (cache ca) -> cache_inv ca uses -> NoDup uses ->
  server_config ca (asked r) (key_made r) (asked_at r) = (answer, ca') ->
  capacity (cache ca') = capacity (cache ca) /\
  (exists c, ca' = with_cache ca c) /\
  cache_inv ca' (match answered (r, answer) with Some h => touch h uses | None => uses end) /\
  (forall config, answer = Ok config -> exists h, normalize_host (asked r) = Ok h /\ issued_for ca h config).
Proof.
  intros Hcap Hinv Hn. unfold server_config, answered. cbn [fst snd].
  destruct (normalize_host (asked r)) as [h|e].
  2:{ intros [= <- <-]. split; [done|]. split; [exists (cache ca); by destruct ca|]. split; [done|]. done. }
  destruct (entries (cache ca) !! h) as [config|] eqn:He.
  - pose proof (cache_hit ca uses h config Hinv Hn He) as Hnew. unfold cache_get in *. rewrite He in *.
    intros [= <- <-]. split; [done|]. split; [by eexists|]. split; [done|].
    intros c [= <-]. exists h. split; [done|]. by apply (inv_issued ca uses Hinv).
  - unfold cache_get. rewrite He. destruct (issue_leaf ca h (key_made r) (asked_at r)) as [config|e] eqn:Ei.
    + assert (issued_for ca h config) as Hi by by eexists _, _.
      intros [= <- <-]. split; [by unfold with_cache, cache_insert; cbn; destruct (_ =? _), (order _)|].
      split; [by eexists|]. split; [by apply cache_miss|]. intros c [= <-]. by exists h.
    + intros [= <- <-]. split; [done|]. split; [by eexists|]. split; [by destruct ca|]. done.
Qed.

Lemma serve_inv ca uses rs answers ca' :
  0 < capacity (cache ca) -> cache_inv ca uses -> NoDup uses -> serve ca rs = (answers, ca') ->
  capacity (cache ca') = capacity (cache ca) /\
  (exists c, ca' = with_cache ca c) /\
  cache_inv ca' (fold_left (fun uses h => touch h uses) (omap answered (zip rs answers)) uses) /\
  Forall2 (fun r answer => forall config, answer = Ok config ->
             exists h, normalize_host (asked r) = Ok h /\ issued_for ca h config) rs answers.
Proof.
  revert ca uses answers. induction rs as [|r rs IH]; intros ca uses answers Hcap Hinv Hn; cbn [serve].
  { intros [= <- <-]. split; [done|]. split; [exists (cache ca); by destruct ca|]. split; [done|constructor]. }
  destruct (server_config ca (asked r) (key_made r) (asked_at r)) as [answer ca1] eqn:E1.
  destruct (serve ca1 rs) as [answers1 ca2] eqn:E2. intros [= <- <-].
  destruct (server_config_step ca uses r answer ca1 Hcap Hinv Hn E1) as (Hc1 & [c1 ->] & Hinv1 & Hans).
  set (uses1 := match answered (r, answer) with Some h => touch h uses | None => uses end) in *.
  assert (NoDup uses1) as Hn1 by (unfold uses1; case_match; [by apply NoDup_touch|done]).
  destruct (IH (with_cache ca c1) uses1 answers1 ltac:(lia) Hinv1 Hn1 E2) as (Hc2 & [c2 ->] & Hinv2 & Hrest).
  split; [lia|]. split; [by eexists|]. split; [|by constructor].
  cbn [zip zip_with omap list_omap]. unfold uses1 in Hinv2. by destruct (answered (r, answer)).
Qed.

(** C25. The leaf cache is an exact least-recently-used cache: after any
    requests to a new authority, failed ones included, it holds the hosts of
    the answered requests that were asked for last, at most as many as its
    capacity, oldest use first; a request for one of them is answered from the
    cache without a new key, any other one is issued; and every answer is a
    certificate issued for the host that was asked for. *)
Theorem leaf_cache_lru (ca : CertificateAuthority) (n : Z) (rs : list Request) :
  0 < n -> cache ca = new_cache n ->
  let '(answers, ca') := serve ca rs in
  let kept := take (Z.to_nat n) (recency (omap answered (zip rs answers))) in
  order (cache ca') = rev kept /\
  cached_leaf_count ca' = blen kept /\
  (forall r h, normalize_host (asked r) = Ok h ->
     (h ∈ kept -> exists config, forall key now, fst (server_config ca' (asked r) key now) = Ok config) /\
     (h ∉ kept -> forall key now, fst (server_config ca' (asked r) key now) = issue_leaf ca h key now)) /\
  Forall2 (fun r answer => forall config, answer = Ok config ->
             exists h, normalize_host (asked r) = Ok h /\ issued_for ca h config) rs answers.
Proof.
  intros Hn Hca. destruct (serve ca rs) as [answers ca'] eqn:E.
  assert (cache_inv ca []) as Hinv by (apply cache_inv_new; by rewrite Hca).
  destruct (serve_inv ca [] rs answers ca') as (Hcap & [c ->] & Hinv' & Hans); [by rewrite Hca|done|constructor|done|].
  fold (recency (omap answered (zip rs answers))) in Hinv'.
  set (uses := recency (omap answered (zip rs answers))) in *.
  assert (NoDup uses) as Hnd by apply NoDup_recency.
  pose proof (entries_count _ _ Hinv' Hnd) as Hcount. destruct Hinv' as [Ho Hd Hi].
  rewrite Hcap, Hca in Ho. cbn [capacity new_cache] in Ho.
  assert (order c = rev (take (Z.to_nat n) uses)) as Ho'.
  { rewrite <- Ho. cbn. by rewrite rev_involutive. }
  assert (forall h, is_Some (entries c !! h) <-> h ∈ take (Z.to_nat n) uses) as Hmem.
  { intros h. rewrite <- elem_of_rev_list, <- Ho'. apply Hd. }
  split; [done|]. split; [|split; [|done]].
  { unfold cached_leaf_count, blen. rewrite Hcount. cbn [cache with_cache]. by rewrite Ho', length_rev. }
  intros r h Hr. unfold server_config. rewrite Hr. unfold cache_get. cbn [cache with_cache]. split.
  - intros [config Hc]%Hmem. exists config. by rewrite Hc.
  - intros Hout key now. destruct (entries c !! h) eqn:He; [destruct Hout; apply Hmem; by eexists|].
    change (issue_leaf (with_cache ca c) h key now) with (issue_leaf ca h key now).
    by destruct (issue_leaf ca h key now).
Qed.
End Cache.

(** A toy of the crates for examples: a key is its own text, a certificate
    names its host and its issuer. *)
Definition toy_crypto : Crypto := {|
  KeyPair := bytes;
  key_from_pem := Ok;
  serialize_pem k := k;
  serialize_der k := k;
  public_key_info k := tlv 48 k;
  valid_names _ := Ok tt;
  self_signed p k :=
    Ok (certificate_of (mkCertificate None (2, [x01]) (48, []) (48, common_name p)
          (mkCivil (not_before p) 1 1 0 0 0) (mkCivil (not_after p) 1 1 0 0 0) (48, common_name p) k [] []));
  signed_by p k _ ik := Ok (common_name p ++ k ++ ik);
  certificate_pem der := der;
  first_pem_certificate pem := Some (Ok pem);
  add_root _ := Ok tt;
  with_single_cert _ _ := Ok tt;
  sha256_digest s := take 2 s;
  civil t := mkCivil t 1 1 0 0 0 |}.

Definition demo_authority : @CertificateAuthority toy_crypto :=
  @mkAuthority toy_crypto (from_directory []) (ca_parameters 0) (lit "k") [] [] (new_cache 2).

Definition demo_requests : list (@Request toy_crypto) :=
  map (fun h => @mkRequest toy_crypto h (Ok (lit "leaf")) 0)
    [lit "a.test"; lit "b.test"; lit "A.test."; lit "[]"; lit "c.test"].

Lemma leaf_cache_lru_witness :
  order (cache (snd (@serve toy_crypto demo_authority demo_requests))) = [lit "a.test"; lit "c.test"].
Proof.
  pose proof (@leaf_cache_lru toy_crypto demo_authority 2 demo_requests eq_refl eq_refl) as W.
  destruct (serve demo_authority demo_requests) as [answers ca'] eqn:E. destruct W as (W & _).
  cbn [snd]. rewrite W.
  assert (answers = fst (answers, ca')) as -> by done. rewrite <- E. by vm_compute.
Defined.

(** ** Files *)

Section Files.
Context `{Crypto}.
Import Disk.

Lemma write_new_file_spec d p s mode :
  let '(r, d') := write_new_file d p s mode in
  umask d' = umask d /\
  (((exists e, r = Err e) /\ nodes d' = nodes d) \/
   (nodes d !! p = None /\
    exists k, nodes d' = <[p := File (take k s) (masked d mode)]> (nodes d) /\ (r = Ok tt -> take k s = s))).
Proof.
  unfold write_new_file. pose proof (open_new_spec d p mode) as Ho.
  destruct (open_new d p mode) as [[[]|e] d1]; [destruct Ho as (Hu1 & Hnone & H1)|destruct Ho; split; eauto].
  pose proof (write_all_spec d1 p s [] (masked d mode)) as Hw. rewrite H1, lookup_insert_eq in Hw. specialize (Hw eq_refl).
  destruct (write_all d1 p s) as [[[]|e] d2]; destruct Hw as (Hu2 & k & H2 & Hk); cbn [app] in H2; rewrite insert_insert_eq in H2.
  - pose proof (sync_all_spec d2) as [H3 Hu3]. destruct (sync_all d2) as [r d3]. cbn in *.
    split; [congruence|]. right. split; [done|]. exists k. split; [congruence|]. intros _. by apply Hk.
  - split; [congruence|]. right. split; [done|]. by exists k.
Qed.

Lemma owner_only d : Z.land (masked d 384) 63 = 0.
Proof.
  unfold masked. apply Z.bits_inj'. intros i Hi. rewrite Z.land_spec, Z.ldiff_spec, Z.bits_0.
  pose proof (f_equal (fun z => Z.testbit z i) (eq_refl : Z.land 384 63 = 0)) as K.
  cbv beta in K. rewrite Z.land_spec, Z.bits_0 in K. destruct (Z.testbit 384 i), (Z.testbit 63 i); try done.
  by rewrite andb_false_r.
Qed.

Lemma load_material_nodes d paths now issued : nodes (snd (load_material d paths now issued)) = nodes d.
Proof.
  unfold load_material. pose proof (read_to_string_nodes d (certificate paths)) as E1.
  destruct (read_to_string d (certificate paths)) as [[c|e] d1]; [|done]. cbn in E1.
  pose proof (read_to_string_nodes d1 (private_key paths)) as E2.
  destruct (read_to_string d1 (private_key paths)) as [[k|e] d2]; cbn in *; congruence.
Qed.

(** The files of an authority differ. *)
Lemma ca_files_differ dir : private_key (from_directory dir) <> certificate (from_directory dir).
Proof.
  unfold from_directory. cbn [private_key certificate]. unfold Disk.join.
  change (starts_with [slash] (lit "lens-ca-key.pem")) with false. change (starts_with [slash] (lit "lens-ca.pem")) with false.
  destruct (dir =s []); [done|]. destruct (ends_with [slash] dir); intros E%app_inv_head; done.
Qed.

(** Every file is still there with its contents and permissions. *)
Definition files_kept (d d' : t) : Prop :=
  forall p c m, nodes d !! p = Some (File c m) -> nodes d' !! p = Some (File c m).

(** New files are those of the authority: a private key for its owner only,
    and a certificate behind a complete key. *)
Definition files_new (paths : CaPaths) (generated : result KeyPair) (created : Z) (d d' : t) : Prop :=
  forall p c m, is_file d p = false -> nodes d' !! p = Some (File c m) ->
  exists key der, generated = Ok key /\ self_signed (ca_parameters created) key = Ok der /\
    ((p = private_key paths /\ Z.land m 63 = 0 /\ exists k, c = take k (serialize_pem key)) \/
     (p = certificate paths /\ (exists k, c = take k (certificate_pem der)) /\
      exists m', nodes d' !! private_key paths = Some (File (serialize_pem key) m'))).

(** Same files as before, directories apart. *)
Definition same_files (d d' : t) : Prop :=
  umask d' = umask d /\ forall p c m, nodes d' !! p = Some (File c m) <-> nodes d !! p = Some (File c m).

#[local] Instance same_files_preorder : PreOrder same_files.
Proof.
  split; [by intros d|]. intros d1 d2 d3 [U1 H1] [U2 H2]. split; [congruence|]. intros. by rewrite H2.
Qed.

Lemma same_files_nodes d d' : nodes d' = nodes d -> umask d' = umask d -> same_files d d'.
Proof. intros E U. split; [done|]. intros. by rewrite E. Qed.

Lemma dirs_added_same d d' : dirs_added d d' -> same_files d d'.
Proof.
  intros [U Hd]. split; [done|]. intros p c m. destruct (Hd p) as [->|[-> [m' ->]]]; [done|]. split; congruence.
Qed.

(** Creating and securing the directory touches no file. *)
Lemma directory_prepared d dir d1 :
  create_dir_all d dir = (inl tt, d1) -> same_files d (snd (secure_directory d1 dir)).
Proof.
  intros E. pose proof (create_tree_spec (S (length dir)) d dir) as [Ha Hd]. fold (create_dir_all d dir) in Ha, Hd.
  rewrite E in *. cbn in Ha, Hd. trans d1; [by apply dirs_added_same|].
  pose proof (set_permissions_dir d1 dir 448 (Hd eq_refl)) as [Hu Hp]. unfold secure_directory.
  destruct (set_permissions d1 dir 448) as [r d2]. cbn in *. split; [done|]. intros p c m.
  destruct (Hp p) as [->|(-> & m' & -> & ->)]; [done|]. split; congruence.
Qed.

Lemma files_of_same d d' paths generated created :
  same_files d d' -> files_kept d d' /\ files_new paths generated created d d'.
Proof.
  intros [_ Hs]. split; [intros p c m Hp; by apply Hs|].
  intros p c m Hf Hp%Hs. unfold is_file in Hf. by rewrite Hp in Hf.
Qed.

(** The two files, written one after the other. *)
Lemma files_of_material d1 d paths key der created :
  same_files d d1 -> private_key paths <> certificate paths ->
  self_signed (ca_parameters created) key = Ok der ->
  let '(_, d') := match write_secret_new d1 (private_key paths) (serialize_pem key) with
                  | (Err e, d) => (Err e, d)
                  | (Ok _, d) => write_public_new d (certificate paths) (certificate_pem der)
                  end in
  files_kept d d' /\ files_new paths (Ok key) created d d'.
Proof.
  intros Hs Hne Hder. pose proof (write_new_file_spec d1 (private_key paths) (serialize_pem key) 384) as Hk.
  unfold write_secret_new, write_public_new.
  destruct (write_new_file d1 (private_key paths) (serialize_pem key) 384) as [rk d2].
  destruct Hk as [Uk [[[e ->] E2]|(Hnone & k & E2 & Hfull)]].
  { apply files_of_same. trans d1; [done|]. by apply same_files_nodes. }
  destruct Hs as [U1 Hs].
  assert (files_kept d d2 /\ files_new paths (Ok key) created d d2) as [K2 N2].
  { split.
    - intros p c m Hp%Hs. rewrite E2, lookup_insert_ne; [done|]. intros <-. congruence.
    - intros p c m Hf Hp. rewrite E2 in Hp. exists key, der. split; [done|]. split; [done|]. left.
      destruct (decide (private_key paths = p)) as [<-|Hp'].
      + rewrite lookup_insert_eq in Hp. injection Hp as <- <-. split; [done|]. split; [apply owner_only|]. by exists k.
      + rewrite lookup_insert_ne in Hp by done. apply Hs in Hp. unfold is_file in Hf. by rewrite Hp in Hf. }
  destruct rk as [[]|e]; [|done]. specialize (Hfull eq_refl). rewrite Hfull in E2.
  pose proof (write_new_file_spec d2 (certificate paths) (certificate_pem der) 420) as Hc.
  destruct (write_new_file d2 (certificate paths) (certificate_pem der) 420) as [rc d3].
  destruct Hc as [Uc [[_ E3]|(Hnone' & k' & E3 & _)]].
  { unfold files_kept, files_new. rewrite E3. done. }
  split.
  - intros p c m Hp%K2. rewrite E3, lookup_insert_ne; [done|]. intros <-. congruence.
  - intros p c m Hf Hp. rewrite E3 in Hp. destruct (decide (certificate paths = p)) as [<-|Hp'].
    + rewrite lookup_insert_eq in Hp. injection Hp as <- <-. exists key, der. split; [done|]. split; [done|]. right.
      split; [done|]. split; [by exists k'|]. rewrite E3, lookup_insert_ne, E2, lookup_insert_eq by done. by eexists.
    + rewrite lookup_insert_ne in Hp by done. destruct (N2 p c m Hf Hp) as (ky & dr & Hg & Hsig & [Hl|[-> _]]); [|done].
      exists ky, dr. auto.
Qed.

Lemma create_material_files dir d generated created :
  let '(_, d') := create_material d (from_directory dir) generated created in
  files_kept d d' /\ files_new (from_directory dir) generated created d d'.
Proof.
  unfold create_material. cbn [directory from_directory].
  pose proof (create_tree_spec (S (length dir)) d dir) as [Ha _]. fold (create_dir_all d dir) in Ha.
  destruct (create_dir_all d dir) as [[[]|e] d1] eqn:E1; [|by apply files_of_same, dirs_added_same].
  pose proof (directory_prepared d dir d1 E1) as Hs. destruct (secure_directory d1 dir) as [[[]|e] d2]; cbn in Hs;
    [|by apply files_of_same].
  destruct generated as [key|e]; cbn [source]; [|by apply files_of_same].
  destruct (self_signed (ca_parameters created) key) as [der|e] eqn:Eder; cbn [source]; [|by apply files_of_same].
  exact (files_of_material d2 d (from_directory dir) key der created Hs (ca_files_differ dir) Eder).
Qed.

(** C26. Loading or creating an authority harms nothing: whatever calls of the
    file system fail, and whether the operation succeeds or not, every file
    that was there keeps its contents and permissions, the only new files are
    the private key, readable by its owner alone, and the certificate, and the
    certificate is created only behind a private key that is complete. *)
Theorem ca_files_safe (dir : bytes) (d : t) (n : Z) (generated : result KeyPair) (created now issued : Z) :
  let '(_, d') := load_or_create_with_capacity d (from_directory dir) n generated created now issued in
  files_kept d d' /\ files_new (from_directory dir) generated created d d'.
Proof.
  unfold load_or_create_with_capacity. set (paths := from_directory dir).
  destruct (n =? 0); [by apply files_of_same|].
  assert (forall d1, files_kept d d1 /\ files_new paths generated created d d1 ->
    let '(_, d') := load_authority d1 paths n now issued in
    files_kept d d' /\ files_new paths generated created d d') as Hload.
  { intros d1 Hd1. unfold load_authority. pose proof (load_material_nodes d1 paths now issued) as En.
    destruct (load_material d1 paths now issued) as [[[material|e]|] d2]; cbn in En;
      [destruct (negb _)|..]; unfold files_kept, files_new in *; by rewrite En. }
  destruct (exists_ d (certificate paths)), (exists_ d (private_key paths));
    try (by apply files_of_same); try (apply Hload; by apply files_of_same).
  pose proof (create_material_files dir d generated created) as Hc. fold paths in Hc.
  destruct (create_material d paths generated created) as [[u|e] d1]; [by apply Hload|done].
Qed.

(** What [rcgen], [rustls] and [time] make of a key of the authority: the
    certificate [c] as DER, with the public key and the two times it was given,
    a root that is accepted, and PEM texts that are read back. *)
Record rcgen_authority (key : KeyPair) (c : Certificate) (created now : Z) : Prop := {
  rc_signed : self_signed (ca_parameters created) key = Ok (certificate_of c);
  rc_shape : certificate_ok c;
  rc_public : spki_der c = public_key_info key;
  rc_from : valid_from c = civil (created - day_seconds);
  rc_until : valid_until c = civil (created + 3650 * day_seconds);
  rc_key_pem : key_from_pem (serialize_pem key) = Ok key;
  rc_key_text : utf8_valid (serialize_pem key) = true;
  rc_pem : first_pem_certificate (certificate_pem (certificate_of c)) = Some (Ok (certificate_of c));
  rc_pem_text : utf8_valid (certificate_pem (certificate_of c)) = true;
  rc_root : add_root (certificate_of c) = Ok tt;
  rc_now : civil_ok (civil now);
  rc_after : civil_le (civil (created - day_seconds)) (civil now) = true;
  rc_before : civil_le (civil now) (civil (created + 3650 * day_seconds)) = true }.

(** A disk that holds the material and fails no call. *)
Definition holds_material (d : t) (paths : CaPaths) (key : KeyPair) (c : Certificate) : Prop :=
  faults d = [] /\
  (exists m, nodes d !! private_key paths = Some (File (serialize_pem key) m)) /\
  (exists m, nodes d !! certificate paths = Some (File (certificate_pem (certificate_of c)) m)).

Lemma load_material_holds d paths key c created now issued :
  rcgen_authority key c created now -> holds_material d paths key c ->
  load_material d paths now issued
  = (Returns (Ok (mkMaterial (ca_parameters issued) key (certificate_of c) true)), d).
Proof.
  intros Hrc (Hq & [mk Hk] & [mc Hc]). unfold load_material, read_to_string, read.
  rewrite call_quiet, Hc by done. rewrite (rc_pem_text _ _ _ _ Hrc).
  rewrite call_quiet, Hk by done. rewrite (rc_key_text _ _ _ _ Hrc).
  unfold check_material, first_certificate. destruct Hrc as [_ Hok Hpub Hf Hu Hkp _ Hpem _ Hroot Hnow Ha Hb].
  rewrite Hkp. cbn [source]. rewrite Hpem. cbn [source].
  rewrite parse_exact by done. cbn [subject_public_key_info valid_now].
  rewrite Hpub, bytes_eqb_refl, Hroot. cbn [negb source]. by rewrite Hf, Hu, Ha, Hb.
Qed.

Lemma load_authority_holds d paths key c created now issued n :
  rcgen_authority key c created now -> holds_material d paths key c ->
  load_authority d paths n now issued
  = (Returns (Ok (mkAuthority paths (ca_parameters issued) key (certificate_of c)
                    (fingerprint (certificate_of c)) (new_cache n))), d).
Proof. intros Hrc Hd. unfold load_authority. by rewrite (load_material_holds d paths key c created). Qed.

(** A new file in a directory that is there. *)
Lemma write_new_file_quiet d dir name s mode :
  faults d = [] -> plain_dir dir = true -> plain_name name = true -> is_dir d dir = true ->
  exists_ d (Disk.join dir name) = false ->
  write_new_file d (Disk.join dir name) s mode
  = (Ok tt, set_nodes d (<[Disk.join dir name := File s (masked d mode)]> (nodes d))).
Proof.
  intros Hq Hd Hn Hdir Hex. unfold write_new_file, open_new, write_all, sync_all, parent_exists.
  rewrite call_quiet, Hex, parent_join, Hdir by done. unfold tick. cbn [faults set_nodes].
  rewrite Hq. cbn [nodes set_nodes]. unfold append. rewrite lookup_insert_eq. cbn [app].
  rewrite call_quiet by done. cbn [io_source]. unfold set_nodes. cbn. by rewrite insert_insert_eq.
Qed.

Lemma exists_other d p q n : p <> q -> exists_ (set_nodes d (<[p := n]> (nodes d))) q = exists_ d q.
Proof. intros Hne. unfold exists_, is_file, is_dir. cbn. by rewrite lookup_insert_ne. Qed.

Lemma is_dir_other d p q n : p <> q -> is_dir (set_nodes d (<[p := n]> (nodes d))) q = is_dir d q.
Proof. intros Hne. unfold is_dir. cbn. by rewrite lookup_insert_ne. Qed.

(** Material is created when nothing stands in the way. *)
Lemma create_material_holds d dir d1 d2 key c created now :
  rcgen_authority key c created now -> faults d = [] -> plain_dir dir = true ->
  create_dir_all d dir = (inl tt, d1) -> secure_directory d1 dir = (Ok tt, d2) -> is_dir d2 dir = true ->
  faults d2 = [] ->
  exists_ d2 (certificate (from_directory dir)) = false -> exists_ d2 (private_key (from_directory dir)) = false ->
  exists d', create_material d (from_directory dir) (Ok key) created = (Ok tt, d') /\
             holds_material d' (from_directory dir) key c.
Proof.
  intros Hrc Hq Hd E1 E2 Hdir Hq2 Hc Hk. pose proof (ca_files_differ dir) as Hne. unfold create_material.
  cbn [from_directory directory certificate private_key] in *. rewrite E1, E2. cbn [source].
  rewrite (rc_signed _ _ _ _ Hrc). cbn [source]. unfold write_secret_new, write_public_new.
  rewrite write_new_file_quiet by done.
  assert (Disk.join dir (lit "lens-ca-key.pem") <> dir) as Hnd.
  { rewrite join_plain by done. intros E%(f_equal length). rewrite length_app in E. cbn in E. lia. }
  rewrite write_new_file_quiet; try done; [|by rewrite is_dir_other|by rewrite exists_other].
  eexists. split; [done|]. split; [done|]. cbn. split; eexists.
  - by rewrite lookup_insert_ne, lookup_insert_eq by done.
  - by rewrite lookup_insert_eq.
Qed.

(** What a directory for the authority is before its first use. *)
Record unused (d : t) (dir : bytes) : Prop := {
  un_quiet : faults d = [];
  un_plain : plain_dir dir = true;
  un_creatable : fst (create_dir_all d dir) = inl tt;
  un_certificate : exists_ d (certificate (from_directory dir)) = false;
  un_key : exists_ d (private_key (from_directory dir)) = false }.

(** The directory is there and secured, and holds nothing yet. *)
Lemma unused_prepared d dir :
  unused d dir ->
  exists d1 d2, create_dir_all d dir = (inl tt, d1) /\ secure_directory d1 dir = (Ok tt, d2) /\
    is_dir d2 dir = true /\ faults d2 = [] /\
    exists_ d2 (certificate (from_directory dir)) = false /\ exists_ d2 (private_key (from_directory dir)) = false.
Proof.
  intros [Hq Hd Hcr Hc Hk]. destruct (create_dir_all d dir) as [r d1] eqn:E1. cbn [fst] in Hcr. subst r.
  destruct (create_dir_all_ready d dir d1 E1 Hq) as (Hdir & Hq1 & Hshort).
  destruct (set_permissions_quiet d1 dir 448 Hq1 Hdir) as (F1 & F2 & F3 & F4).
  exists d1, (snd (set_permissions d1 dir 448)). unfold secure_directory.
  destruct (set_permissions d1 dir 448) as [r d2]. cbn [fst snd] in *. subst r.
  assert (forall name, plain_name name = true -> exists_ d (Disk.join dir name) = false -> exists_ d2 (Disk.join dir name) = false) as K.
  { intros name Hn Hx. rewrite <- Hx. apply exists_longer. rewrite (join_plain _ _ Hd Hn).
    rewrite F4, Hshort; [done|..].
    - rewrite length_app. cbn. lia.
    - intros E%(f_equal length). rewrite length_app in E. cbn in E. lia. }
  split; [done|]. split; [done|]. split; [done|]. split; [done|]. split; by apply K.
Qed.

(** C27. An authority that was created is found again: where nothing stands in
    the way, the first use creates key and certificate and succeeds; after it
    every later use, whatever key could be generated then, loads the same
    authority and changes nothing, and inspection reports it ready and valid
    with the same fingerprint. *)
Theorem ca_created_then_loaded (d : t) (dir : bytes) (key : KeyPair) (c : Certificate) (n created now issued : Z) :
  unused d dir -> rcgen_authority key c created now -> 0 < n ->
  let paths := from_directory dir in
  let ca := mkAuthority paths (ca_parameters issued) key (certificate_of c)
              (fingerprint (certificate_of c)) (new_cache n) in
  exists d', load_or_create_with_capacity d paths n (Ok key) created now issued = (Returns (Ok ca), d') /\
    (forall generated again,
       load_or_create_with_capacity d' paths n generated again now issued = (Returns (Ok ca), d')) /\
    inspect d' paths now issued
    = (Returns (mkStatus paths Ready (Some (fingerprint (certificate_of c))) (Some true)
                  (lit "local CA material is valid")), d').
Proof.
  intros Hun Hrc Hn. cbv zeta. destruct (unused_prepared d dir Hun) as (d1 & d2 & E1 & E2 & Hdir & Hq2 & Hc & Hk).
  destruct Hun as [Hq Hd _ Hc0 Hk0].
  destruct (create_material_holds d dir d1 d2 key c created now) as (d' & Hcr & Hd'); try done. exists d'.
  assert ((n =? 0) = false) as Hn0 by lia.
  pose proof (load_authority_holds d' _ key c created now issued n Hrc Hd') as Hload.
  split; [|split].
  - unfold load_or_create_with_capacity. by rewrite Hn0, Hc0, Hk0, Hcr.
  - intros generated again. unfold load_or_create_with_capacity. rewrite Hn0.
    destruct Hd' as (_ & [mk Ek] & [mc Ec]). unfold exists_, is_file. by rewrite Ek, Ec.
  - unfold inspect. rewrite (load_material_holds d' _ key c created now issued Hrc Hd').
    destruct Hd' as (_ & [mk Ek] & [mc Ec]). unfold is_file. by rewrite Ek, Ec.
Qed.
End Files.

(** The toy with a calendar of years of 365 days. *)
Definition year_crypto : Crypto := {|
  KeyPair := bytes;
  key_from_pem := Ok;
  serialize_pem k := k;
  serialize_der k := k;
  public_key_info k := tlv 48 k;
  valid_names _ := Ok tt;
  self_signed p k :=
    Ok (certificate_of (mkCertificate None (2, [x01]) (48, []) (48, common_name p)
          (mkCivil (not_before p / 31536000) 1 1 0 0 0) (mkCivil (not_after p / 31536000) 1 1 0 0 0)
          (48, common_name p) k [] []));
  signed_by p k _ ik := Ok (common_name p ++ k ++ ik);
  certificate_pem der := map (fun b => if is_ascii b then b else x3f) der;
  first_pem_certificate pem := Some (Ok pem);
  add_root _ := Ok tt;
  with_single_cert _ _ := Ok tt;
  sha256_digest s := take 2 s;
  civil t := mkCivil (t / 31536000) 1 1 0 0 0 |}.

Definition demo_disk : Disk.t := Disk.mk ∅ 18 [].
Definition demo_material : Certificate :=
  mkCertificate None (2, [x01]) (48, []) (48, CA_COMMON_NAME) (mkCivil 57 1 1 0 0 0) (mkCivil 67 1 1 0 0 0)
    (48, CA_COMMON_NAME) (lit "secret") [] [].

Lemma ca_created_then_loaded_witness :
  exists d', @load_or_create_with_capacity year_crypto demo_disk (from_directory (lit "/home/tls")) 1
               (Ok (lit "secret")) 1800000000 1800000000 1800000000
             = (Returns (Ok (@mkAuthority year_crypto (from_directory (lit "/home/tls")) (ca_parameters 1800000000)
                 (lit "secret") (certificate_of demo_material) (@fingerprint year_crypto (certificate_of demo_material))
                 (new_cache 1))), d').
Proof.
  destruct (@ca_created_then_loaded year_crypto demo_disk (lit "/home/tls") (lit "secret") demo_material 1
              1800000000 1800000000 1800000000) as (d' & E & _).
  - by split; vm_compute.
  - split; try (by vm_compute); try (by apply (bool_decide_unpack _); vm_compute).
  - done.
  - by exists d'.
Defined.

(** A UTCTime whose year ends within a character stops the process: the
    certificate below makes inspection of the authority panic instead of
    reporting invalid material. *)
Definition odd_time : bytes := lit "2" ++ [xc3; xa9] ++ lit "030100000" ++ lit "Z".
Definition odd_certificate : bytes :=
  tlv 48 (tlv 48 (tlv 2 [x01] ++ tlv 48 [] ++ tlv 48 [] ++ tlv 48 (tlv 23 odd_time ++ tlv 23 odd_time)
                  ++ tlv 48 [] ++ tlv 48 (lit "secret"))).

Example inspect_panics :
  let paths := from_directory (lit "/tls") in
  let d := Disk.mk {[certificate paths := Disk.File odd_certificate 420;
                     private_key paths := Disk.File (lit "secret") 384]} 18 [] in
  fst (@inspect year_crypto d paths 0 0) = Panics.
Proof. by vm_compute. Qed.
