(* ===== verification/PluginDir.v ===== *)
(** * PluginDir: the installation directory of [crates/lens-plugin].

    Installing, listing, removing and loading plugins on the file system of
    [Disk].  Digests are those of the [sha2] crate, and creating an engine of
    [wasmtime] may fail: class [Digests]. *)

From stdpp Require Import gmap.
From S2P Require Import Prelude RustStd Disk Plugin.
#[local] Open Scope lens_scope.
Import Plugin.

Module PluginDir.

Definition MANIFEST_FILE : bytes := lit "plugin.manifest".

Class Digests := { sha256_digest : bytes -> bytes; engine_new : result unit }.

Section Directory.
Context `{Wasm} `{Digests}.

(** [format!("{:x}", Sha256::digest(bytes))]. *)
Definition sha256_hex (s : bytes) : bytes := List.concat (map hex2 (sha256_digest s)).

Definition io_error {A} (path : bytes) (r : Disk.io A) : outcome A :=
  match r with inl a => inl a | inr e => inr (Io path (Disk.text e)) end.

Definition read_bounded (d : Disk.t) (path : bytes) (limit : Z) : outcome bytes * Disk.t :=
  match Disk.metadata d path with
  | (inr e, d) => (inr (Io path (Disk.text e)), d)
  | (inl (is_file, size), d) =>
      if negb is_file then (inr (Io path (lit "not a regular file")), d)
      else if limit <? size then
        (inr (Limit (path ++ lit " exceeds the " ++ dec limit ++ lit " byte limit")), d)
      else let '(r, d) := Disk.read d path in (io_error path r, d)
  end.

Definition write_new (d : Disk.t) (path s : bytes) : outcome unit * Disk.t :=
  match Disk.open_new d path 438 with
  | (inr e, d) => (inr (Io path (Disk.text e)), d)
  | (inl _, d) => let '(r, d) := Disk.write_all d path s in (io_error path r, d)
  end.

(** The checks of [install] that need nothing but the module. *)
Definition new_manifest (name version s : bytes) : outcome PluginManifest :=
  try! _u := map_err engine_new Runtime in
  try! _u := compile s in
  inl (mkManifest name version ABI_VERSION (sha256_hex s)).

(** The closure of [install] that writes both files. *)
Definition write_files (d : Disk.t) (target s : bytes) (manifest : PluginManifest) : outcome PluginManifest * Disk.t :=
  match write_new d (Disk.join target MODULE_FILE) s with
  | (inr e, d) => (inr e, d)
  | (inl _, d) =>
      match write_new d (Disk.join target MANIFEST_FILE) (render manifest) with
      | (inr e, d) => (inr e, d)
      | (inl _, d) => (inl manifest, d)
      end
  end.

(** What [install] removes again when writing failed. *)
Definition clean_up (d : Disk.t) (target : bytes) : Disk.t :=
  let d := snd (Disk.remove_file d (Disk.join target MODULE_FILE)) in
  let d := snd (Disk.remove_file d (Disk.join target MANIFEST_FILE)) in
  snd (Disk.remove_dir d target).

Definition already_installed (e : Disk.IoError) : bytes :=
  match Disk.kind e with
  | Disk.AlreadyExists => lit "plugin is already installed; remove it explicitly before reinstalling"
  | _ => Disk.text e
  end.

Definition install (d : Disk.t) (root source name version : bytes) : outcome PluginManifest * Disk.t :=
  match validate_name name with
  | inr e => (inr e, d)
  | inl _ =>
  match validate_version version with
  | inr e => (inr e, d)
  | inl _ =>
  match read_bounded d source MAX_MODULE_BYTES with
  | (inr e, d) => (inr e, d)
  | (inl s, d) =>
  match new_manifest name version s with
  | inr e => (inr e, d)
  | inl manifest =>
  match Disk.create_dir_all d root with
  | (inr e, d) => (inr (Io root (Disk.text e)), d)
  | (inl _, d) =>
      let target := Disk.join root name in
      match Disk.create_dir d target with
      | (inr e, d) => (inr (Io target (already_installed e)), d)
      | (inl _, d) =>
          match write_files d target s manifest with
          | (inl manifest, d) => (inl manifest, d)
          | (inr e, d) => (inr e, clean_up d target)
          end
      end
  end end end end end.

(** One entry of the directory: [None] when it is not a directory. *)
Definition list_entry (d : Disk.t) (root entry : bytes) : outcome (option PluginManifest) * Disk.t :=
  match Disk.next_entry d with
  | (inr e, d) => (inr (Io root (Disk.text e)), d)
  | (inl _, d) =>
  match Disk.entry_is_dir d entry with
  | (inr e, d) => (inr (Io entry (Disk.text e)), d)
  | (inl false, d) => (inl None, d)
  | (inl true, d) =>
      let manifest_path := Disk.join entry MANIFEST_FILE in
      match Disk.read_to_string d manifest_path with
      | (inr e, d) => (inr (Io manifest_path (Disk.text e)), d)
      | (inl contents, d) =>
          match parse contents with
          | inr e => (inr e, d)
          | inl manifest =>
              match read_bounded d (Disk.join entry MODULE_FILE) MAX_MODULE_BYTES with
              | (inr e, d) => (inr e, d)
              | (inl s, d) =>
                  if negb (sha256_hex s =s sha256 manifest) then (inr (Integrity (name manifest)), d)
                  else (inl (Some manifest), d)
              end
          end
      end
  end end.

Fixpoint list_entries (d : Disk.t) (root : bytes) (entries : List.list bytes) (manifests : List.list PluginManifest) :
    outcome (List.list PluginManifest) * Disk.t :=
  match entries with
  | [] => (inl manifests, d)
  | entry :: entries =>
      match list_entry d root entry with
      | (inr e, d) => (inr e, d)
      | (inl None, d) => list_entries d root entries manifests
      | (inl (Some m), d) => list_entries d root entries (manifests ++ [m])
      end
  end.

(** [manifests.sort_by(|left, right| left.name.cmp(&right.name))], stable. *)
Fixpoint insert_by_name (m : PluginManifest) (ms : list PluginManifest) : list PluginManifest :=
  match ms with
  | [] => [m]
  | x :: xs => match bytes_cmp (name m) (name x) with Gt => x :: insert_by_name m xs | _ => m :: ms end
  end.
Definition sort_by_name (ms : list PluginManifest) : list PluginManifest := foldr insert_by_name [] ms.

Definition list (d : Disk.t) (root : bytes) : outcome (List.list PluginManifest) * Disk.t :=
  match Disk.read_dir d root with
  | (inr e, d) =>
      (match Disk.kind e with Disk.NotFound => inl [] | _ => inr (Io root (Disk.text e)) end, d)
  | (inl entries, d) =>
      match list_entries d root entries [] with
      | (inr e, d) => (inr e, d)
      | (inl manifests, d) => (inl (sort_by_name manifests), d)
      end
  end.

(** One of the two files of [remove]. *)
Definition remove_known (d : Disk.t) (path : bytes) : outcome unit * Disk.t :=
  match Disk.remove_file d path with
  | (inl _, d) => (inl tt, d)
  | (inr e, d) =>
      (match Disk.kind e with Disk.NotFound => inl tt | _ => inr (Io path (Disk.text e)) end, d)
  end.

Definition remove (d : Disk.t) (root name : bytes) : outcome unit * Disk.t :=
  match validate_name name with
  | inr e => (inr e, d)
  | inl _ =>
      let target := Disk.join root name in
      match remove_known d (Disk.join target MANIFEST_FILE) with
      | (inr e, d) => (inr e, d)
      | (inl _, d) =>
          match remove_known d (Disk.join target MODULE_FILE) with
          | (inr e, d) => (inr e, d)
          | (inl _, d) =>
              let '(r, d) := Disk.remove_dir d target in (io_error target r, d)
          end
      end
  end.

Fixpoint load_listed (d : Disk.t) (root : bytes) (manifests : List.list PluginManifest) (plugins : List.list LoadedPlugin) :
    outcome PluginHost * Disk.t :=
  match manifests with
  | [] => (inl (mkHost plugins), d)
  | m :: manifests =>
      if negb (abi_version m =? ABI_VERSION) then (inr (UnsupportedAbi (abi_version m)), d)
      else
        match read_bounded d (Disk.join (Disk.join root (name m)) MODULE_FILE) MAX_MODULE_BYTES with
        | (inr e, d) => (inr e, d)
        | (inl s, d) =>
            match compile s with
            | inr e => (inr e, d)
            | inl module => load_listed d root manifests (plugins ++ [mkLoaded m module])
            end
        end
  end.

Definition load (d : Disk.t) (root : bytes) : outcome PluginHost * Disk.t :=
  match map_err engine_new Runtime with
  | inr e => (inr e, d)
  | inl _ =>
      match list d root with
      | (inr e, d) => (inr e, d)
      | (inl manifests, d) => load_listed d root manifests []
      end
  end.
End Directory.
End PluginDir.

(** ** What installing does to the disk *)

Module PluginDirFacts.
Import Disk PluginDir.

Section Facts.
Context `{W : Wasm} `{G : Digests}.

Lemma valid_name_plain name : validate_name name = inl tt -> plain_name name = true.
Proof.
  unfold validate_name, plain_name. destruct (_ || _) eqn:E; [done|]. intros _.
  rewrite !orb_false_iff, negb_false_iff in E. destruct E as [[-> _] Hs]. cbn [negb andb].
  revert Hs. apply forallb_bytes, byte_all. by vm_compute.
Qed.

Lemma read_bounded_nodes d path limit :
  nodes (snd (read_bounded d path limit)) = nodes d /\ umask (snd (read_bounded d path limit)) = umask d.
Proof.
  unfold read_bounded. assert (nodes (snd (metadata d path)) = nodes d /\ umask (snd (metadata d path)) = umask d) as [E1 U1].
  { unfold metadata. by apply call_cases; intros. }
  destruct (metadata d path) as [[[b n]|e] d1]; [|done]. cbn in E1, U1. destruct (negb b), (limit <? n); try done.
  pose proof (read_nodes d1 path) as [E2 U2]. destruct (read d1 path) as [r d2]. cbn in *. split; congruence.
Qed.

(** The files of an installation. *)
Definition plugin_files (target : bytes) : List.list bytes :=
  [Disk.join target MODULE_FILE; Disk.join target MANIFEST_FILE].

Lemma write_new_only d p s : only [p] d (snd (write_new d p s)).
Proof.
  unfold write_new. pose proof (open_new_only d p 438) as Ho1. destruct (open_new d p 438) as [[[]|e] d1]; [|done].
  pose proof (write_all_only d1 p s) as Ho2. destruct (write_all d1 p s) as [r d2].
  by eapply only_trans.
Qed.

Lemma write_files_only d target s m : only (plugin_files target) d (snd (write_files d target s m)).
Proof.
  unfold write_files. pose proof (write_new_only d (Disk.join target MODULE_FILE) s) as Ho1.
  destruct (write_new d (Disk.join target MODULE_FILE) s) as [[[]|e] d1];
    [|eapply only_weaken; [exact Ho1|]; unfold plugin_files; set_solver].
  pose proof (write_new_only d1 (Disk.join target MANIFEST_FILE) (render m)) as Ho2.
  destruct (write_new d1 (Disk.join target MANIFEST_FILE) (render m)) as [[[]|e] d2]; cbn in *;
    (eapply only_trans; [eapply only_weaken; [exact Ho1|]|eapply only_weaken; [exact Ho2|]]); unfold plugin_files; set_solver.
Qed.

Lemma clean_up_only d target :
  only (target :: plugin_files target) d (clean_up d target) /\
  (target ∉ plugin_files target ->
   nodes (clean_up d target) !! target = nodes d !! target \/ nodes (clean_up d target) !! target = None).
Proof.
  unfold clean_up. set (d1 := snd (remove_file d _)). set (d2 := snd (remove_file d1 _)).
  assert (only (plugin_files target) d d2) as Ho2.
  { apply (only_trans _ d d1 d2).
    - apply (only_weaken [Disk.join target MODULE_FILE]); [apply remove_file_only|unfold plugin_files; set_solver].
    - apply (only_weaken [Disk.join target MANIFEST_FILE]); [apply remove_file_only|unfold plugin_files; set_solver]. }
  split.
  - eapply only_trans; [eapply only_weaken; [exact Ho2|set_solver]|].
    apply (only_weaken [target]); [apply remove_dir_only|set_solver].
  - intros Hout. rewrite <- (Ho2 target Hout). unfold remove_dir.
    apply call_cases; [intros d' e En _; left; cbn; by rewrite En|]. intros d' En _. rewrite <- En.
    destruct (nodes d' !! target) as [[]|] eqn:E; cbn; auto. destruct (children d' target); cbn; auto.
    right. by rewrite lookup_delete_eq.
Qed.

(** A successful write leaves exactly the file. *)
Lemma write_new_ok d p s d' : write_new d p s = (inl tt, d') ->
  nodes d' = <[p := File s (masked d 438)]> (nodes d) /\ umask d' = umask d.
Proof.
  unfold write_new. pose proof (open_new_spec d p 438) as Ho. destruct (open_new d p 438) as [[[]|e] d1]; [|done].
  destruct Ho as (Hu & _ & E1). pose proof (write_all_spec d1 p s [] (masked d 438)) as Hw.
  rewrite E1, lookup_insert_eq in Hw. specialize (Hw eq_refl). destruct (write_all d1 p s) as [[[]|e] d2]; [|done].
  destruct Hw as (Hu2 & k & E2 & Hk). cbn [io_error]. intros [= <-]. rewrite E2, (Hk eq_refl), insert_insert_eq. cbn.
  split; [done|congruence].
Qed.

Lemma write_files_ok d target s m m' d' : write_files d target s m = (inl m', d') ->
  m' = m /\ nodes d' = <[Disk.join target MANIFEST_FILE := File (render m) (masked d 438)]>
                        (<[Disk.join target MODULE_FILE := File s (masked d 438)]> (nodes d)).
Proof.
  unfold write_files. destruct (write_new d (Disk.join target MODULE_FILE) s) as [[[]|e] d1] eqn:E1; [|done].
  apply write_new_ok in E1 as [E1 U1].
  destruct (write_new d1 (Disk.join target MANIFEST_FILE) (render m)) as [[[]|e] d2] eqn:E2; [|done].
  apply write_new_ok in E2 as [E2 U2]. intros [= <- <-]. split; [done|]. rewrite E2, E1. unfold masked. by rewrite U1.
Qed.

(** Where the target of an installation stands. *)
Lemma target_files root name : validate_name name = inl tt ->
  let target := Disk.join root name in
  plain_dir target = true /\ (forall q, q ∈ plugin_files target -> parent q = Some target) /\
  (target ∉ plugin_files target) /\ Disk.join target MODULE_FILE <> Disk.join target MANIFEST_FILE.
Proof.
  intros Hn%valid_name_plain. cbv zeta. pose proof (plain_join root name Hn) as Hd.
  assert (forall f, plain_name f = true -> Disk.join root name <> Disk.join (Disk.join root name) f) as Hne.
  { intros f Hf E%(f_equal length). rewrite (join_plain (Disk.join root name) f Hd Hf), length_app in E. cbn in E. lia. }
  split; [done|]. unfold plugin_files. split; [|split].
  - intros q. rewrite !elem_of_cons. intros [-> |[-> |?%not_elem_of_nil]]; [by apply parent_join..|done].
  - rewrite !not_elem_of_cons. split; [by apply Hne|]. split; [by apply Hne|by apply not_elem_of_nil].
  - rewrite (join_plain _ MODULE_FILE Hd eq_refl), (join_plain _ MANIFEST_FILE Hd eq_refl). by intros E%app_inv_head.
Qed.

(** What was on the disk is there, and new files are those of the plugin. *)
Definition untouched (target : bytes) (d d' : Disk.t) : Prop :=
  (forall p n, nodes d !! p = Some n -> nodes d' !! p = Some n) /\
  (forall p c m, nodes d !! p = None -> nodes d' !! p = Some (File c m) -> p ∈ plugin_files target).

Lemma untouched_dirs target d d' : dirs_added d d' -> untouched target d d'.
Proof.
  intros [_ Hd]. split.
  - intros p n Hp. destruct (Hd p) as [->|[Hnone _]]; congruence.
  - intros p c m Hp Hp'. destruct (Hd p) as [E|[_ [m' E]]]; congruence.
Qed.

Lemma untouched_same target d d' : nodes d' = nodes d -> umask d' = umask d -> untouched target d d'.
Proof. intros E U. apply untouched_dirs. split; [done|]. rewrite E. auto. Qed.

(** Changes below a target that was not there before. *)
Lemma untouched_target root name d d2 d3 d' :
  validate_name name = inl tt -> wf d -> dirs_added d d2 ->
  let target := Disk.join root name in
  create_dir d2 target = (inl tt, d3) -> only (target :: plugin_files target) d3 d' ->
  (forall c m, nodes d' !! target <> Some (File c m)) -> untouched target d d'.
Proof.
  intros Hn Hwf [_ A2] target E3 Ho Ht. destruct (target_files root name Hn) as (Hplain & Hpar & _). fold target in Hplain, Hpar.
  destruct (create_dir_new d2 target d3 E3) as (Hex & N3 & _ & _).
  assert (nodes d !! target = None) as Hnone.
  { apply exists_false in Hex. destruct (A2 target) as [<-|[? _]]; done. }
  assert (is_dir d target = false) as Hnodir.
  { unfold is_dir. rewrite Hnone. unfold plain_dir in Hplain. rewrite andb_true_iff, !negb_true_iff in Hplain.
    destruct Hplain as [-> Hsl]. rewrite orb_false_r. cbn. destruct (target =s [slash]) eqn:Es; [|done].
    apply bytes_eqb_eq in Es. by rewrite Es in Hsl. }
  assert (forall q, q ∈ target :: plugin_files target -> nodes d !! q = None) as Habsent.
  { intros q. rewrite elem_of_cons. intros [->|Hq]; [done|]. by apply (wf_absent d target), Hpar. }
  split.
  - intros p n Hp. assert (p ∉ target :: plugin_files target) as Hout by (intros Hin%Habsent; congruence).
    rewrite (Ho p Hout), N3, lookup_insert_ne by (intros <-; congruence). destruct (A2 p) as [->|[? _]]; congruence.
  - intros p c m Hp Hp'. destruct (decide (p ∈ target :: plugin_files target)) as [Hin|Hout].
    + rewrite elem_of_cons in Hin. destruct Hin as [->|Hin]; [by destruct (Ht c m)|done].
    + rewrite (Ho p Hout), N3, lookup_insert_ne in Hp' by (intros <-; apply Hout; set_solver).
      destruct (A2 p) as [E|[_ [m' E]]]; congruence.
Qed.

(** C28. Installing a plugin harms nothing: whatever calls of the file system
    fail, everything on a well-formed disk stays as it is, and only
    directories, the module and the manifest of the new plugin may be added;
    an installation that succeeds leaves the module it read and the manifest
    with its digest. *)
Theorem plugin_install_safe (d : Disk.t) (root source name version : bytes) :
  wf d ->
  let target := Disk.join root name in
  let '(r, d') := install d root source name version in
  untouched target d d' /\
  (forall manifest, r = inl manifest ->
     exists s m, new_manifest name version s = inl manifest /\
       nodes d' !! Disk.join target MODULE_FILE = Some (File s m) /\
       nodes d' !! Disk.join target MANIFEST_FILE = Some (File (render manifest) m)).
Proof.
  intros Hwf. cbv zeta. unfold install. set (target := Disk.join root name).
  destruct (validate_name name) as [[]|e] eqn:En; [|split; [by apply untouched_same|done]].
  destruct (validate_version version) as [[]|e] eqn:Ev; [|split; [by apply untouched_same|done]].
  pose proof (read_bounded_nodes d source MAX_MODULE_BYTES) as [E1 U1].
  destruct (read_bounded d source MAX_MODULE_BYTES) as [[s|e] d1]; cbn [snd] in E1, U1; [|split; [by apply untouched_same|done]].
  destruct (new_manifest name version s) as [manifest|e] eqn:Em; [|split; [by apply untouched_same|done]].
  pose proof (create_tree_spec (S (length root)) d1 root) as [A2 _]. fold (create_dir_all d1 root) in A2.
  assert (dirs_added d (snd (create_dir_all d1 root))) as A2'.
  { trans d1; [|done]. split; [done|]. rewrite E1. auto. }
  clear A2. destruct (create_dir_all d1 root) as [[[]|e] d2]; cbn [snd] in A2'; [|split; [by apply untouched_dirs|done]].
  destruct (create_dir d2 target) as [[[]|e] d3] eqn:E3.
  2:{ pose proof (create_dir_spec d2 target) as [A3 _]. rewrite E3 in A3. split; [|done].
      apply untouched_dirs. by trans d2. }
  destruct (target_files root name En) as (_ & _ & Hout & Hne). fold target in Hout, Hne.
  destruct (create_dir_new d2 target d3 E3) as (_ & N3 & _ & _).
  pose proof (write_files_only d3 target s manifest) as Hw. pose proof (Hw target Hout) as Ht. rewrite N3, lookup_insert_eq in Ht.
  destruct (write_files d3 target s manifest) as [[m|e] d4] eqn:E4; cbn [snd] in Hw, Ht.
  - split; [apply (untouched_target root name d d2 d3 d4 En Hwf A2' E3)|].
    + eapply only_weaken; [exact Hw|set_solver].
    + intros c m'. fold target. congruence.
    + intros manifest' [= <-]. apply write_files_ok in E4 as [-> E4]. exists s, (masked d3 438). split; [done|].
      rewrite E4, lookup_insert_eq, lookup_insert_ne, lookup_insert_eq by done. done.
  - split; [|done]. destruct (clean_up_only d4 target) as [Hc Hct]. specialize (Hct Hout).
    apply (untouched_target root name d d2 d3 _ En Hwf A2' E3).
    + eapply only_trans; [eapply only_weaken; [exact Hw|set_solver]|exact Hc].
    + intros c m'. fold target. destruct Hct; congruence.
Qed.

(** ** Installing and removing *)

Lemma create_dir_all_existing d root : faults d = [] -> is_dir d root = true -> create_dir_all d root = (inl tt, d).
Proof.
  intros Hq Hd. unfold create_dir_all. cbn [create_tree]. destruct (root =s []); [done|].
  assert (create_dir d root = (inr eexist, d)) as ->.
  { unfold create_dir. rewrite call_quiet by done. unfold exists_. by rewrite Hd, orb_true_r. }
  cbn [kind eexist]. by rewrite Hd.
Qed.

Lemma read_bounded_quiet d p limit c m :
  faults d = [] -> nodes d !! p = Some (File c m) -> blen c <= limit -> read_bounded d p limit = (inl c, d).
Proof.
  intros Hq Hp Hl. unfold read_bounded, metadata, read. rewrite call_quiet, Hp by done. cbn [negb].
  destruct (Z.ltb_spec limit (blen c)); [lia|]. by rewrite call_quiet, Hp.
Qed.

Lemma hex_lower s : forallb lower_hexdigit (List.concat (map hex2 s)) = true.
Proof.
  induction s as [|b s IH]; [done|]. cbn [map List.concat]. rewrite forallb_app, IH, andb_true_r.
  revert b. apply byte_all. by vm_compute.
Qed.

Lemma hex_length s : blen (List.concat (map hex2 s)) = 2 * blen s.
Proof. induction s as [|b s IH]; [done|]. cbn [map List.concat]. rewrite blen_app, IH.
  change (blen (hex2 b)) with 2. unfold blen. cbn [length]. lia. Qed.

Lemma new_manifest_spec name version s m :
  new_manifest name version s = inl m ->
  m = mkManifest name version ABI_VERSION (sha256_hex s) /\ blen s <= MAX_MODULE_BYTES.
Proof.
  unfold new_manifest, map_err. destruct engine_new; [|done]. unfold compile.
  destruct (Z.ltb_spec MAX_MODULE_BYTES (blen s)); [done|]. destruct (module_new s); [|done]. cbn [map_err].
  destruct (first_import a0) as [[]|]; [done|]. destruct (validate_abi a0); [|done]. by intros [= <-].
Qed.

Lemma new_manifest_valid name version s m :
  (forall s, blen (sha256_digest s) = 32) ->
  validate_name name = inl tt -> validate_version version = inl tt -> new_manifest name version s = inl m ->
  valid_manifest m.
Proof.
  intros Hsha Hn Hv [-> _]%new_manifest_spec. split; cbn; try done.
  - unfold sha256_hex. by rewrite hex_length, Hsha.
  - apply hex_lower.
Qed.

Lemma text_app a b : forallb is_ascii a = true -> utf8_valid (a ++ [x0a] ++ b) = utf8_valid b.
Proof. intros Ha. change ([x0a] ++ b) with (x0a :: b). rewrite utf8_valid_split by done. by rewrite ascii_valid. Qed.

Lemma render_text m : valid_manifest m -> utf8_valid (version m) = true -> utf8_valid (render m) = true.
Proof.
  intros [Hn _ Ha _ Hs] Hv. unfold render.
  assert (forallb is_ascii (name m) = true) as Hna.
  { unfold validate_name in Hn. destruct (_ || _) eqn:E; [done|]. rewrite !orb_false_iff, negb_false_iff in E.
    destruct E as [_ E]. revert E. apply forallb_bytes, byte_all. by vm_compute. }
  rewrite (app_assoc (lit "name=")), text_app by by rewrite forallb_app, Hna.
  rewrite (app_assoc (lit "version=")). change ([x0a] ++ ?r) with (x0a :: r). rewrite utf8_valid_split by done.
  assert (utf8_valid (lit "version=" ++ version m) = true) as ->.
  { replace (lit "version=" ++ version m) with (lit "version" ++ "="%byte :: version m) by done.
    by rewrite utf8_valid_split, Hv by done. }
  assert (forallb is_ascii (dec (abi_version m)) = true) as Hab by (apply digits_ascii, dec_digits; lia).
  cbn [andb]. rewrite (app_assoc (lit "abi=")), text_app by by rewrite forallb_app, Hab.
  rewrite (app_assoc (lit "sha256=")), text_app; [done|].
  rewrite forallb_app. cbn. revert Hs. apply forallb_bytes, byte_all. by vm_compute.
Qed.

Lemma write_new_quiet d p s : faults d = [] -> faults (snd (write_new d p s)) = [].
Proof.
  intros Hq. unfold write_new, open_new, write_all. rewrite call_quiet by done.
  destruct (exists_ d p), (parent_exists d p); try done. unfold tick. cbn [faults set_nodes]. by rewrite Hq.
Qed.

(** What a successful installation without faults did. *)
Lemma install_quiet d root source name version m d' :
  faults d = [] -> is_dir d root = true -> install d root source name version = (inl m, d') ->
  let target := Disk.join root name in
  exists s mode mode', validate_name name = inl tt /\ validate_version version = inl tt /\
    new_manifest name version s = inl m /\ faults d' = [] /\ exists_ d target = false /\
    nodes d' = <[Disk.join target MANIFEST_FILE := File (render m) mode]>
                 (<[Disk.join target MODULE_FILE := File s mode]> (<[target := Dir mode']> (nodes d))).
Proof.
  intros Hq Hd. unfold install. destruct (validate_name name) as [[]|] eqn:En; [|done].
  destruct (validate_version version) as [[]|] eqn:Ev; [|done].
  assert (snd (read_bounded d source MAX_MODULE_BYTES) = d) as E1.
  { unfold read_bounded, metadata, read. rewrite call_quiet by done.
    destruct (nodes d !! source) as [[]|]; cbn [negb]; try done.
    - destruct (_ <? _); [done|]. rewrite call_quiet by done. by destruct (nodes d !! source) as [[]|].
    - by destruct (is_dir d source). }
  destruct (read_bounded d source MAX_MODULE_BYTES) as [[s|] d1]; [|done]. cbn [snd] in E1. subst d1.
  destruct (new_manifest name version s) as [m0|] eqn:Em; [|done].
  rewrite create_dir_all_existing by done. set (target := Disk.join root name).
  pose proof (create_dir_quiet d target Hq) as Hq3.
  destruct (create_dir d target) as [[[]|] d3] eqn:E3; [|done]. cbn [snd] in Hq3.
  destruct (create_dir_new d target d3 E3) as (Hex & N3 & _ & _).
  assert (faults (snd (write_files d3 target s m0)) = []) as Hq4.
  { unfold write_files. pose proof (write_new_quiet d3 (Disk.join target MODULE_FILE) s Hq3) as Ha.
    destruct (write_new d3 _ s) as [[[]|] da]; [|done]. cbn [snd] in Ha.
    pose proof (write_new_quiet da (Disk.join target MANIFEST_FILE) (render m0) Ha) as Hb.
    by destruct (write_new da _ (render m0)) as [[[]|] db]. }
  destruct (write_files d3 target s m0) as [[m1|] d4] eqn:E4; [|done]. cbn [snd] in Hq4.
  intros [= <- <-]. apply write_files_ok in E4 as [-> E4]. rewrite N3 in E4. do 3 eexists. split_and!; try done.
Qed.

Lemma absent_target root name d :
  validate_name name = inl tt -> exists_ d (Disk.join root name) = false -> is_dir d (Disk.join root name) = false.
Proof. intros _ Hex. unfold exists_ in Hex. apply orb_false_iff in Hex. tauto. Qed.

Lemma children_nil d p : (forall q n, nodes d !! q = Some n -> parent q <> Some p) -> children d p = [].
Proof.
  intros Hno. destruct (children d p) as [|q l] eqn:E; [done|].
  assert (q ∈ children d p) as Hq by (rewrite E; set_solver). unfold children in Hq.
  apply list_elem_of_filter in Hq as [Hp Hq]. apply list_elem_of_fmap in Hq as ([q' n] & -> & Hin).
  apply elem_of_map_to_list in Hin. by destruct (Hno q' n).
Qed.

Lemma remove_known_file d p c m : faults d = [] -> nodes d !! p = Some (File c m) ->
  remove_known d p = (inl tt, set_nodes d (base.delete p (nodes d))).
Proof. intros Hq Hp. unfold remove_known, remove_file. by rewrite call_quiet, Hp. Qed.

(** Installing and removing are inverse: on a well-formed disk without
    faults a plugin that was installed is verified by every later listing with
    the manifest the installation returned, and removing it leaves the disk
    exactly as it was before the installation.  Digests have 32 bytes, and the
    version is text. *)
Theorem plugin_install_roundtrip (d d' : Disk.t) (root source name version : bytes) (m : PluginManifest) :
  (forall s, blen (sha256_digest s) = 32) -> utf8_valid version = true ->
  wf d -> faults d = [] -> is_dir d root = true ->
  install d root source name version = (inl m, d') ->
  list_entry d' root (Disk.join root name) = (inl (Some m), d') /\
  exists d'', remove d' root name = (inl tt, d'') /\ nodes d'' = nodes d.
Proof.
  intros Hsha Htext Hwf Hq Hd Hi. destruct (install_quiet _ _ _ _ _ _ _ Hq Hd Hi) as (s & mo & mo' & Hn & Hv & Hm & Hq' & Hex & N).
  destruct (target_files root name Hn) as (Hplain & Hpar & Hout & Hne).
  pose proof (absent_target root name d Hn Hex) as Hnodir. pose proof (exists_false _ _ Hex) as Hnone.
  set (target := Disk.join root name) in *. set (pm := Disk.join target MODULE_FILE) in *. set (pf := Disk.join target MANIFEST_FILE) in *.
  unfold plugin_files in Hout, Hpar. fold pm pf in Hout, Hpar. rewrite !not_elem_of_cons in Hout. destruct Hout as (Hpm & Hpf & _).
  assert (nodes d !! pm = None) as Hm0 by (apply (wf_absent d target); [done..|apply Hpar; set_solver]).
  assert (nodes d !! pf = None) as Hf0 by (apply (wf_absent d target); [done..|apply Hpar; set_solver]).
  assert (nodes d' !! target = Some (Dir mo')) as Lt by (rewrite N, !lookup_insert_ne, lookup_insert_eq by congruence; done).
  assert (nodes d' !! pm = Some (File s mo)) as Lm by (rewrite N, lookup_insert_ne, lookup_insert_eq by congruence; done).
  assert (nodes d' !! pf = Some (File (render m) mo)) as Lf by (by rewrite N, lookup_insert_eq).
  pose proof (new_manifest_valid name version s m Hsha Hn Hv Hm) as Hval. destruct (new_manifest_spec _ _ _ _ Hm) as [Em Hsize].
  split.
  - unfold list_entry, next_entry, entry_is_dir, read_to_string, read. rewrite !call_quiet by done.
    assert (is_dir d' target = true) as -> by (unfold is_dir; by rewrite Lt, orb_true_r).
    fold pf pm. rewrite Lf. rewrite render_text by (done || by rewrite Em).
    rewrite manifest_roundtrip by done. rewrite (read_bounded_quiet d' pm _ s mo) by done.
    rewrite Em at 1. cbn [sha256]. by rewrite bytes_eqb_refl.
  - unfold remove. rewrite Hn. fold target pf pm. clearbody pf pm. clearbody target. rewrite (remove_known_file d' pf (render m) mo) by done.
    rewrite (remove_known_file _ pm s mo); [|done|cbn [nodes set_nodes]; rewrite lookup_delete_ne by (intros E; by apply Hne); exact Lm].
    unfold remove_dir. rewrite call_quiet by done. cbn [nodes set_nodes].
    rewrite !lookup_delete_ne, Lt by congruence. rewrite children_nil.
    + eexists. split; [done|]. cbn. apply map_eq. intros q.
      destruct (decide (q = target)) as [->|Hqt]; [by rewrite lookup_delete_eq|].
      destruct (decide (q = pm)) as [->|Hqm]; [by rewrite lookup_delete_ne, lookup_delete_eq by congruence|].
      destruct (decide (q = pf)) as [->|Hqf]; [by rewrite !lookup_delete_ne, lookup_delete_eq by congruence|].
      rewrite !lookup_delete_ne, N, !lookup_insert_ne by congruence. done.
    + cbn. intros q n. rewrite !lookup_delete_Some. intros (Hq1 & Hq2 & Hq3) Hp.
      rewrite N, !lookup_insert_ne in Hq3 by congruence. destruct (decide (q = target)) as [->|Hqt].
      * apply parent_length in Hp. lia.
      * rewrite lookup_insert_ne in Hq3 by congruence. rewrite (wf_absent d target q) in Hq3; done.
Qed.
End Facts.

(** A disk with a module and a directory for plugins. *)
Definition zero_digests : Digests := {| sha256_digest _ := repeat x00 32; engine_new := Ok tt |}.

Definition demo_disk : Disk.t :=
  mk {[lit "/echo.wasm" := File (lit "seen") 420; lit "/plugins" := Dir 493]} 18 [].

Lemma demo_wf : wf demo_disk.
Proof.
  assert (map_Forall (fun p _ => parent_exists demo_disk p = true) (nodes demo_disk)) as K
    by by apply (bool_decide_unpack _); vm_compute.
  exact K.
Qed.

Definition demo_install := @install echo_wasm zero_digests demo_disk (lit "/plugins") (lit "/echo.wasm") (lit "echo") (lit "1.0").

Lemma plugin_install_safe_witness :
  untouched (lit "/plugins/echo") demo_disk (snd demo_install) /\
  nodes (snd demo_install) !! lit "/plugins/echo/plugin.wasm" = Some (File (lit "seen") 420).
Proof.
  pose proof (@plugin_install_safe echo_wasm zero_digests demo_disk (lit "/plugins") (lit "/echo.wasm") (lit "echo")
    (lit "1.0") demo_wf) as W.
  split; [|by vm_compute]. unfold demo_install.
  destruct (@install echo_wasm zero_digests demo_disk (lit "/plugins") (lit "/echo.wasm") (lit "echo") (lit "1.0")) as [r d'].
  exact (proj1 W).
Defined.

Lemma plugin_install_roundtrip_witness :
  exists d'', remove (snd demo_install) (lit "/plugins") (lit "echo") = (inl tt, d'') /\
              nodes d'' = nodes demo_disk.
Proof.
  apply (@plugin_install_roundtrip echo_wasm zero_digests demo_disk (snd demo_install) (lit "/plugins") (lit "/echo.wasm")
    (lit "echo") (lit "1.0") (mkManifest (lit "echo") (lit "1.0") 1 (repeat x30 64))); try (by vm_compute).
  exact demo_wf.
Defined.
End PluginDirFacts.
