(* ===== verification/Tui.v ===== *)
(** * Tui: the terminal UI of [crates/lens-tui].

    The view model of the UI: filters, selection, keys, refreshes, and the
    text that is drawn.  Layout and colours are those of the [ratatui] crate
    and are left out: [draw] gives the text of every widget. *)

From S2P Require Import Prelude RustStd RustText Core Plugin Store.
#[local] Open Scope lens_scope.
Import Store.

Module Tui.

(** ** Configuration; durations are milliseconds *)

Definition MIN_REFRESH : Z := 50.
Definition MAX_REFRESH : Z := 2000.
Definition MAX_INSPECTOR_CHARS : Z := 16384.

Record TuiConfig := mkTuiConfig { refresh_rate : Z; config_reveal : bool }.

Definition new_config (refresh_rate : Z) (reveal : bool) : TuiConfig :=
  mkTuiConfig (Z.max MIN_REFRESH (Z.min MAX_REFRESH refresh_rate)) reveal.

(** ** Text *)

Definition format_latency (nanos : Z) : bytes :=
  if 1000000000 <=? nanos then fixed_quotient 2 nanos 1000000000 ++ lit "s"
  else if 1000000 <=? nanos then fixed_quotient 1 nanos 1000000 ++ lit "ms"
  else if 1000 <=? nanos then fixed_quotient 1 nanos 1000 ++ lit "us"
  else dec nanos ++ lit "ns".

(** The maximum of an iterator, if it yields anything. *)
Definition max_of (l : list Z) : option Z :=
  match l with [] => None | x :: xs => Some (fold_left Z.max xs x) end.

Definition flow_latency (f : StoredFlow) : option Z := max_of (omap latency_nanos (messages f)).

(** One character of [sanitize]. *)
Definition safe_char (c : bytes) : bytes :=
  if (c =s [x0a]) || (c =s [x09]) then c
  else if c =s [x0d] then []
  else if is_control c then lit "?"
  else c.

Fixpoint sanitize_chars (count max_chars : Z) (cs : list bytes) : bytes :=
  match cs with
  | [] => []
  | c :: cs =>
      if count =? max_chars then lit "..."
      else safe_char c ++ sanitize_chars (count + 1) max_chars cs
  end.

Definition sanitize (value : bytes) (max_chars : Z) : bytes := sanitize_chars 0 max_chars (chars value).

(** [value.chars().count()]. *)
Definition char_count (s : bytes) : Z := blen (chars s).

(** ** Filters *)

Record FlowFilter := mkFilter {
  f_protocol : option bytes; f_state : option FlowState; min_latency_nanos : option Z; search : bytes }.

Definition filter_default : FlowFilter := mkFilter None None None [].

Definition identity_text (f : StoredFlow) (get : ServiceIdentity -> bytes) : bytes :=
  match identity (record f) with Some i => get i | None => [] end.

Definition haystack (f : StoredFlow) : bytes :=
  join (lit " ")
    [Endpoint_display (client (record f)); Endpoint_display (upstream (record f));
     default (lit "unknown") (protocol_label (record f)); FlowState_display (flow_state (record f));
     default [] (failure f); identity_text f Identity.display_name;
     identity_text f (fun i => default [] (process i)); identity_text f (fun i => default [] (container i));
     join (lit " ") (map msg_summary (messages f))].

Definition matches (q : FlowFilter) (f : StoredFlow) : bool :=
  if match f_protocol q with
     | Some p => negb (bool_decide (protocol_label (record f) = Some p))
     | None => false
     end then false
  else if match f_state q with
          | Some s => negb (bool_decide (flow_state (record f) = s))
          | None => false
          end then false
  else if match min_latency_nanos q with
          | Some minimum => default 0 (flow_latency f) <? minimum
          | None => false
          end then false
  else if trim (search q) =s [] then true
  else contains (to_ascii_lowercase (search q)) (to_ascii_lowercase (haystack f)).

Definition filter_summary (q : FlowFilter) : bytes :=
  lit "proto=" ++ default (lit "all") (f_protocol q)
  ++ lit " state=" ++ match f_state q with Some s => FlowState_display s | None => lit "all" end
  ++ lit " latency=" ++ match min_latency_nanos q with Some n => format_latency n | None => lit "all" end
  ++ lit " search=" ++ (if search q =s [] then lit "-" else search q).

(** ** The view model *)

Record TuiApp := mkApp {
  snapshot : StoreSnapshot; filter : FlowFilter; selected : Z; inspector_scroll : Z;
  dropped : Z; app_reveal : bool; search_mode : bool; follow_tail : bool }.

Definition set_view (a : TuiApp) (sel scroll : Z) (follow : bool) : TuiApp :=
  mkApp (snapshot a) (filter a) sel scroll (dropped a) (app_reveal a) (search_mode a) follow.
Definition set_filter (a : TuiApp) (q : FlowFilter) : TuiApp :=
  mkApp (snapshot a) q (selected a) (inspector_scroll a) (dropped a) (app_reveal a) (search_mode a) (follow_tail a).
Definition set_search_mode (a : TuiApp) (on : bool) : TuiApp :=
  mkApp (snapshot a) (filter a) (selected a) (inspector_scroll a) (dropped a) (app_reveal a) on (follow_tail a).
Definition set_search (q : FlowFilter) (s : bytes) : FlowFilter :=
  mkFilter (f_protocol q) (f_state q) (min_latency_nanos q) s.

(** [iter().enumerate().filter_map(...)]. *)
Fixpoint indices_from (q : FlowFilter) (index : Z) (fs : list StoredFlow) : list Z :=
  match fs with
  | [] => []
  | f :: fs => (if matches q f then [index] else []) ++ indices_from q (index + 1) fs
  end.

Definition visible_indices (a : TuiApp) : list Z := indices_from (filter a) 0 (snapshot_flows (snapshot a)).

Definition selected_flow (a : TuiApp) : option StoredFlow :=
  match visible_indices a !! Z.to_nat (selected a) with
  | Some index => snapshot_flows (snapshot a) !! Z.to_nat index
  | None => None
  end.

Definition select_tail (a : TuiApp) : TuiApp :=
  set_view a (sat_sub (blen (visible_indices a)) 1) 0 (follow_tail a).

Definition select_next (a : TuiApp) : TuiApp :=
  let length := blen (visible_indices a) in
  if 0 <? length then set_view a (Z.min (selected a + 1) (length - 1)) 0 false else a.

Definition select_previous (a : TuiApp) : TuiApp := set_view a (sat_sub (selected a) 1) 0 false.

Definition clamp_selection (a : TuiApp) : TuiApp :=
  set_view a (Z.min (selected a) (sat_sub (blen (visible_indices a)) 1)) (inspector_scroll a) (follow_tail a).

Definition reset_after_filter (a : TuiApp) : TuiApp :=
  select_tail (set_view a (selected a) (inspector_scroll a) true).

Definition new (s : StoreSnapshot) (reveal : bool) (dropped : Z) : TuiApp :=
  select_tail (mkApp s filter_default 0 0 dropped reveal false true).

Definition refresh (a : TuiApp) (s : StoreSnapshot) (dropped : Z) : TuiApp :=
  let a := mkApp s (filter a) (selected a) (inspector_scroll a) dropped (app_reveal a) (search_mode a) (follow_tail a) in
  if follow_tail a then select_tail a else clamp_selection a.

(** ** Keys *)

Inductive KeyCode :=
| Char (c : bytes) | Esc | Enter | Backspace | Down | Up | Home | End_ | PageDown | PageUp | OtherKey.

Record KeyEvent := mkKey { code : KeyCode; control : bool }.

Definition next_protocol (p : option bytes) : option bytes :=
  match p with
  | None => Some (lit "http1")
  | Some p => if p =s lit "http1" then Some (lit "postgres")
              else if p =s lit "postgres" then Some (lit "tcp") else None
  end.

Definition next_state (s : option FlowState) : option FlowState :=
  match s with
  | None => Some FlowOpen
  | Some FlowOpen => Some FlowClosed
  | Some FlowClosed => Some FlowFailed
  | Some FlowFailed => None
  end.

Definition next_latency (l : option Z) : option Z :=
  match l with
  | None => Some 1000000
  | Some l => if l =? 1000000 then Some 10000000
              else if l =? 10000000 then Some 100000000
              else if l =? 100000000 then Some 1000000000 else None
  end.

(** Keys of the search prompt. *)
Definition search_key (a : TuiApp) (key : KeyEvent) : TuiApp :=
  match code key with
  | Esc | Enter => set_search_mode a false
  | Backspace => reset_after_filter (set_filter a (set_search (filter a) (pop (search (filter a)))))
  | Char c =>
      if negb (control key)
      then reset_after_filter (set_filter a (set_search (filter a) (search (filter a) ++ c)))
      else a
  | _ => a
  end.

(** Characters with a meaning of their own. *)
Definition letter_key (a : TuiApp) (c : bytes) : bool * TuiApp :=
  let q := filter a in
  if c =s lit "q" then (true, a)
  else if c =s lit "j" then (false, select_next a)
  else if c =s lit "k" then (false, select_previous a)
  else if c =s lit "p" then
    (false, reset_after_filter (set_filter a
       (mkFilter (next_protocol (f_protocol q)) (f_state q) (min_latency_nanos q) (search q))))
  else if c =s lit "s" then
    (false, reset_after_filter (set_filter a
       (mkFilter (f_protocol q) (next_state (f_state q)) (min_latency_nanos q) (search q))))
  else if c =s lit "l" then
    (false, reset_after_filter (set_filter a
       (mkFilter (f_protocol q) (f_state q) (next_latency (min_latency_nanos q)) (search q))))
  else if c =s lit "/" then
    (false, reset_after_filter (set_filter (set_search_mode a true) (set_search q [])))
  else if c =s lit "x" then (false, reset_after_filter (set_filter a filter_default))
  else (false, a).

(** Whether the UI should exit, and its state. *)
Definition handle_key (a : TuiApp) (key : KeyEvent) : bool * TuiApp :=
  if control key && match code key with Char c => c =s lit "c" | _ => false end then (true, a)
  else if search_mode a then (false, search_key a key)
  else
    match code key with
    | Char c => letter_key a c
    | Down => (false, select_next a)
    | Up => (false, select_previous a)
    | Home => (false, set_view a 0 0 false)
    | End_ => (false, select_tail (set_view a (selected a) (inspector_scroll a) true))
    | PageDown => (false, set_view a (selected a) (Z.min u16_max (inspector_scroll a + 8)) (follow_tail a))
    | PageUp => (false, set_view a (selected a) (sat_sub (inspector_scroll a) 8) (follow_tail a))
    | _ => (false, a)
    end.

(** ** Drawing *)

Definition message_flags (m : MessageRecord) : bytes :=
  (if msg_truncated m then lit " truncated" else [])
  ++ (if bool_decide (sensitivity (msg_envelope m) = Redacted) then lit " redacted" else []).

(** The lines of one message, and the characters that remain for others. *)
Definition message_lines (m : MessageRecord) (remaining : Z) : list bytes * Z :=
  let direction := match env_direction (msg_envelope m) with Some d => Direction_display d | None => lit "?" end in
  let latency := match latency_nanos m with Some l => lit "  " ++ format_latency l | None => [] end in
  let summary := sanitize (msg_summary m) (Z.min remaining 2048) in
  let remaining := sat_sub remaining (char_count summary) in
  let body := sanitize (from_utf8_lossy (msg_body m)) (Z.min remaining 4096) in
  let remaining := sat_sub remaining (char_count body) in
  ([lit "[" ++ direction ++ lit "] " ++ summary ++ latency ++ message_flags m]
   ++ (if trim body =s [] then [] else map (fun line => lit "  " ++ line) (lines body))
   ++ [[]], remaining).

Fixpoint messages_lines (ms : list MessageRecord) (remaining : Z) : list bytes :=
  match ms with
  | [] => []
  | m :: ms =>
      if remaining =? 0 then [lit "... inspector character limit reached ..."]
      else let '(ls, remaining) := message_lines m remaining in ls ++ messages_lines ms remaining
  end.

(** The lines in front of the messages. *)
Definition flow_lines (f : StoredFlow) : list bytes :=
  [lit "route: " ++ Endpoint_display (client (record f)) ++ lit " -> " ++ Endpoint_display (upstream (record f));
   lit "protocol: " ++ default (lit "unknown") (protocol_label (record f)) ++ lit "  state: "
   ++ FlowState_display (flow_state (record f)) ++ lit "  bytes: " ++ dec (client_to_upstream_bytes f)
   ++ lit " / " ++ dec (upstream_to_client_bytes f)]
  ++ match identity (record f) with
     | Some i =>
         [lit "service: " ++ Identity.display_name i ++ lit "  process: " ++ default (lit "unknown") (process i)
          ++ lit "  pid: " ++ match pid i with Some p => dec p | None => lit "unknown" end
          ++ lit "  container: " ++ default (lit "-") (container i)]
     | None => []
     end
  ++ match failure f with Some e => [lit "failure: " ++ sanitize e 1024] | None => [] end
  ++ match decoder_error f with Some e => [lit "decoder: " ++ sanitize e 1024] | None => [] end
  ++ map (fun a => lit "plugin " ++ sanitize (Plugin.plugin a) 64 ++ lit ": " ++ sanitize (Plugin.annotation a) 4096)
       (plugin_annotations f)
  ++ (if 0 <? plugin_failures f
      then [lit "plugin failures contained: " ++ dec (plugin_failures f)] else [])
  ++ [[]]
  ++ match messages f with [] => [lit "No decoded messages."] | _ => [] end.

Definition inspector_text (flow : option StoredFlow) : list bytes :=
  match flow with
  | None => [lit "No flow matches the active filters."]
  | Some f =>
      let first_message := (length (messages f) - 200)%nat in
      flow_lines f
      ++ (if (0 <? first_message)%nat
          then [lit "... " ++ dec (Z.of_nat first_message) ++ lit " older messages omitted from this view ..."]
          else [])
      ++ messages_lines (drop first_message (messages f)) MAX_INSPECTOR_CHARS
  end.

Definition flow_row (f : StoredFlow) : list bytes :=
  [dec (default 0 (stored_id f)); default (lit "unknown") (protocol_label (record f));
   FlowState_display (flow_state (record f));
   Endpoint_display (client (record f)) ++ lit " -> " ++ Endpoint_display (upstream (record f));
   match flow_latency f with Some l => format_latency l | None => lit "-" end].

Definition service_row (n : ServiceNode) : list bytes :=
  [node_service n; dec (node_flows n); dec (node_failed n);
   join (lit ", ") (map (fun e => edge_upstream e ++ lit " (" ++ dec (edge_flows e) ++ lit ")") (node_upstreams n))].

(** The text of every widget. *)
Record Screen := mkScreen {
  header_text : bytes; services : list (list bytes); services_title : bytes;
  rows : list (list bytes); rows_title : bytes; highlighted : option Z;
  inspector : list bytes; prompt : bytes }.

Definition draw (a : TuiApp) : Screen :=
  let fs := snapshot_flows (snapshot a) in
  let visible := visible_indices a in
  let service_map := service_map (snapshot a) in
  mkScreen
    (lit "lens" ++ lit "  live traffic  " ++ lit (if app_reveal a then "reveal enabled" else "redaction on")
     ++ lit "  ·  " ++ dec (blen fs) ++ lit " retained  ·  " ++ dec (snapshot_evicted (snapshot a))
     ++ lit " evicted  ·  " ++ dec (dropped a) ++ lit " dropped")
    (map service_row service_map)
    (lit " service map " ++ dec (blen service_map) ++ lit " ")
    (omap (fun index => flow_row <$> fs !! Z.to_nat index) visible)
    (lit " flows " ++ dec (blen visible) ++ lit "/" ++ dec (blen fs) ++ lit " ")
    (match visible with [] => None | _ => Some (selected a) end)
    (inspector_text (selected_flow a))
    (if search_mode a
     then lit "/ " ++ search (filter a) ++ lit "_  Enter to finish · Esc to cancel"
     else filter_summary (filter a)
          ++ lit "  ·  j/k move  PgUp/PgDn scroll  p protocol  s state  l latency  / find  x clear  q quit").
End Tui.
