(* ===== verification/TuiFacts.v ===== *)
(** * TuiFacts: theorems about the terminal UI of [Tui].

    The selection in every state the UI can reach, and what the inspector can
    show of captured text. *)

From S2P Require Import Prelude RustStd RustText Core Plugin Store Tui.
#[local] Open Scope lens_scope.
Import Store Tui.

(** ** Selection *)

(** The flows that pass the filter, in their order. *)
Definition shown (a : TuiApp) : list StoredFlow :=
  List.filter (matches (filter a)) (snapshot_flows (snapshot a)).

Lemma indices_from_bound q k fs : 0 <= k -> Forall (fun i => k <= i) (indices_from q k fs).
Proof.
  revert k. induction fs as [|f fs IH]; intros k Hk; [constructor|]. cbn [indices_from].
  assert (Forall (fun i => k <= i) (indices_from q (k + 1) fs)) as Hr.
  { eapply Forall_impl; [|apply IH; lia]. intros i Hi. cbn in Hi. lia. }
  destruct (matches q f); cbn [app]; [constructor; [lia|done]|done].
Qed.

(** Following the indices is filtering. *)
Lemma indices_filter q k fs :
  0 <= k -> map (fun i => fs !! Z.to_nat (i - k)) (indices_from q k fs) = map Some (List.filter (matches q) fs).
Proof.
  revert k. induction fs as [|f fs IH]; intros k Hk; [done|]. cbn [indices_from List.filter].
  assert (map (fun i => (f :: fs) !! Z.to_nat (i - k)) (indices_from q (k + 1) fs)
          = map Some (List.filter (matches q) fs)) as Hr.
  { rewrite <- (IH (k + 1)) by lia. apply map_ext_in. intros i Hi.
    pose proof (indices_from_bound q (k + 1) fs ltac:(lia)) as Hb. rewrite List.Forall_forall in Hb. specialize (Hb i Hi).
    replace (Z.to_nat (i - k)) with (S (Z.to_nat (i - (k + 1)))) by lia. done. }
  destruct (matches q f); cbn [app map]; [|done]. rewrite Hr, Z.sub_diag. done.
Qed.

Lemma visible_shown a :
  map (fun i => snapshot_flows (snapshot a) !! Z.to_nat i) (visible_indices a) = map Some (shown a).
Proof.
  unfold visible_indices, shown. rewrite <- (indices_filter (filter a) 0) by lia.
  apply map_ext. intros i. by rewrite Z.sub_0_r.
Qed.

Lemma visible_length a : blen (visible_indices a) = blen (shown a).
Proof.
  pose proof (f_equal length (visible_shown a)) as E. rewrite !length_map in E. unfold blen. by rewrite E.
Qed.

Lemma selected_shown a : selected_flow a = shown a !! Z.to_nat (selected a).
Proof.
  unfold selected_flow. pose proof (f_equal (fun l => l !! Z.to_nat (selected a)) (visible_shown a)) as E.
  cbv beta in E. rewrite !list_lookup_fmap in E.
  destruct (visible_indices a !! Z.to_nat (selected a)), (shown a !! Z.to_nat (selected a)); cbn in E; congruence.
Qed.

Lemma rows_shown a : rows (draw a) = map flow_row (shown a).
Proof.
  unfold draw. cbn [rows]. pose proof (visible_shown a) as E. revert E. generalize (shown a).
  induction (visible_indices a) as [|i ix IH]; intros [|f fs] E; try done.
  cbn [map] in E. injection E as Ei E. cbn [omap list_omap]. rewrite Ei. cbn. by rewrite (IH fs E).
Qed.

(** The selection lies within what is shown, and at its end while the tail is
    followed; the scroll position fits its type. *)
Record selection_ok (a : TuiApp) : Prop := {
  sel_low : 0 <= selected a;
  sel_high : selected a <= sat_sub (blen (shown a)) 1;
  sel_tail : follow_tail a = true -> selected a = sat_sub (blen (shown a)) 1;
  scroll_ok : 0 <= inspector_scroll a <= u16_max }.

Lemma shown_set_view a s c t : shown (set_view a s c t) = shown a.
Proof. done. Qed.

Ltac selection :=
  unfold select_next, select_previous, reset_after_filter, select_tail, clamp_selection;
  rewrite ?visible_length; unfold set_view, sat_sub in *; cbn [snd selected follow_tail inspector_scroll] in *;
  unfold shown in *; cbn [snd snapshot filter] in *; unfold u16_max in *; (lia || (intros; lia) || done || idtac).

Lemma select_tail_ok a : selection_ok (select_tail a).
Proof. pose proof (blen_nonneg (shown a)). split; selection. Qed.

Lemma select_next_ok a : selection_ok a -> selection_ok (select_next a).
Proof.
  intros [H1 H2 H3 H4]. pose proof (blen_nonneg (shown a)). unfold select_next. rewrite visible_length.
  destruct (Z.ltb_spec 0 (blen (shown a))); [split; selection|done].
Qed.

Lemma select_previous_ok a : selection_ok a -> selection_ok (select_previous a).
Proof. intros [H1 H2 H3 H4]. pose proof (blen_nonneg (shown a)). split; selection. Qed.

Lemma clamp_ok a : 0 <= selected a -> follow_tail a = false -> 0 <= inspector_scroll a <= u16_max ->
  selection_ok (clamp_selection a).
Proof. intros H1 H2 H3. pose proof (blen_nonneg (shown a)). split; selection. intros; congruence. Qed.

Lemma refresh_ok a s d : selection_ok a -> selection_ok (refresh a s d).
Proof.
  intros [H1 H2 H3 H4]. unfold refresh. cbn [follow_tail]. destruct (follow_tail a) eqn:E; [apply select_tail_ok|].
  by apply clamp_ok.
Qed.

Lemma search_key_ok a key : selection_ok a -> selection_ok (search_key a key).
Proof.
  intros Ha. unfold search_key. destruct (code key); try done; try apply select_tail_ok; try by destruct Ha.
  destruct (negb (control key)); [apply select_tail_ok|done].
Qed.

Lemma letter_key_ok a c : selection_ok a -> selection_ok (snd (letter_key a c)).
Proof.
  intros Ha. unfold letter_key.
  repeat (case_match; [first [done|by apply select_next_ok|by apply select_previous_ok|apply select_tail_ok]|]). done.
Qed.

Lemma handle_key_ok a key : selection_ok a -> selection_ok (snd (handle_key a key)).
Proof.
  intros Ha. unfold handle_key. destruct (control key && _); [done|].
  destruct (search_mode a); [by apply search_key_ok|].
  destruct (code key); try done.
  - by apply letter_key_ok.
  - by apply select_next_ok.
  - by apply select_previous_ok.
  - destruct Ha. pose proof (blen_nonneg (shown a)). split; selection.
  - apply select_tail_ok.
  - destruct Ha. split; selection.
  - destruct Ha. split; selection.
Qed.

(** What happens to the UI: a refresh or a key. *)
Inductive Step := Refreshed (s : StoreSnapshot) (drops : Z) | Pressed (key : KeyEvent).

Definition step (a : TuiApp) (s : Step) : TuiApp :=
  match s with Refreshed s d => refresh a s d | Pressed key => snd (handle_key a key) end.

(** The snapshot of the last refresh. *)
Definition latest (s : StoreSnapshot) (steps : list Step) : StoreSnapshot :=
  fold_left (fun s st => match st with Refreshed s' _ => s' | Pressed _ => s end) steps s.

Lemma key_keeps a key :
  snapshot (snd (handle_key a key)) = snapshot a /\ app_reveal (snd (handle_key a key)) = app_reveal a.
Proof.
  unfold handle_key, search_key, letter_key, select_next.
  repeat (case_match; try done).
Qed.

Lemma step_keeps a st :
  snapshot (step a st) = latest (snapshot a) [st] /\ app_reveal (step a st) = app_reveal a.
Proof.
  destruct st as [s d|key]; [|apply key_keeps]. cbn. unfold refresh. cbn [follow_tail]. by destruct (follow_tail a).
Qed.

Lemma steps_ok a steps : selection_ok a ->
  selection_ok (fold_left step steps a) /\
  snapshot (fold_left step steps a) = latest (snapshot a) steps /\
  app_reveal (fold_left step steps a) = app_reveal a.
Proof.
  revert a. induction steps as [|st steps IH]; intros a Ha; [done|]. cbn [fold_left].
  assert (selection_ok (step a st)) as Hs by (destruct st; [by apply refresh_ok|by apply handle_key_ok]).
  destruct (step_keeps a st) as [E1 E2]. destruct (IH (step a st) Hs) as (F1 & F2 & F3).
  split; [done|]. split; [rewrite F2, E1; by destruct st|congruence].
Qed.

(** C33. The selection of the UI is right in every state it can reach: after
    any refreshes and keys the table lists exactly the flows of the latest
    snapshot that pass the filter; a flow is selected exactly when there is
    one, and it is one of them, the last one while the tail is followed; and
    no key changes the snapshot or the mark that secrets are revealed. *)
Theorem tui_selection (s : StoreSnapshot) (reveal : bool) (drops : Z) (steps : list Step) :
  let a := fold_left step steps (new s reveal drops) in
  snapshot a = latest s steps /\ app_reveal a = reveal /\
  rows (draw a) = map flow_row (shown a) /\
  (selected_flow a = None <-> shown a = []) /\
  (forall f, selected_flow a = Some f -> In f (snapshot_flows (snapshot a)) /\ matches (filter a) f = true) /\
  (follow_tail a = true -> selected_flow a = list.last (shown a)).
Proof.
  intros a. destruct (steps_ok (new s reveal drops) steps (select_tail_ok _)) as ([Hl Hh Ht _] & Hs & Hr).
  fold a in Hl, Hh, Ht, Hs, Hr. split; [done|]. split; [done|]. split; [apply rows_shown|].
  rewrite selected_shown. unfold sat_sub, blen in Hh, Ht. split; [|split].
  - rewrite lookup_ge_None. split; [|intros ->; cbn; lia]. intros Hn. destruct (shown a); [done|]. cbn [length] in *. lia.
  - intros f Hf%list_elem_of_lookup_2%list_elem_of_In. by apply filter_In in Hf.
  - intros Hf. rewrite (Ht Hf), last_lookup. f_equal. lia.
Qed.

(** ** Text for a terminal *)

(** Characters that do nothing to a terminal but show. *)
Definition harmless (c : bytes) : bool := negb (is_control c) || (c =s [x0a]) || (c =s [x09]).
Definition safe_text (s : bytes) : Prop := utf8_valid s = true /\ forallb harmless (chars s) = true.

Lemma safe_app a b : safe_text a -> safe_text b -> safe_text (a ++ b).
Proof.
  intros [Ha Ha'] [Hb Hb']. split; [by rewrite utf8_valid_app|]. by rewrite chars_app, forallb_app, Ha', Hb'.
Qed.

Lemma safe_ascii s : forallb (fun b => is_ascii b && negb (is_ascii_control b)) s = true -> safe_text s.
Proof.
  induction s as [|b s IH]; [by split|]. cbn [forallb]. rewrite !andb_true_iff, negb_true_iff. intros [[Ha Hc] Hs].
  change (b :: s) with ([b] ++ s). apply safe_app; [|by apply IH].
  assert (char_ok [b]) as Hok by (split; [done|]; cbn; unfold is_ascii in Ha; by rewrite Ha).
  split; [rewrite <- (app_nil_r [b]); by rewrite utf8_valid_char|].
  rewrite <- (app_nil_r [b]), char_ok_app by done. cbn. unfold harmless. cbn. by rewrite Hc.
Qed.

Lemma safe_dec n : 0 <= n -> safe_text (dec n).
Proof.
  intros Hn. apply safe_ascii. pose proof (dec_digits n Hn) as Hd. revert Hd.
  apply Plugin.forallb_bytes, byte_all. by vm_compute.
Qed.

(** What [sanitize] makes of any text shows safely, and is not much longer
    than it was asked to be. *)
Lemma safe_char_ok c : char_ok c -> safe_text (safe_char c) /\ char_count (safe_char c) <= 1.
Proof.
  intros Hc. unfold safe_char.
  assert (harmless c = true -> safe_text c /\ char_count c <= 1) as K.
  { intros Hh. unfold safe_text, char_count. rewrite <- (app_nil_r c). rewrite utf8_valid_char, char_ok_app by done.
    cbn. by rewrite Hh. }
  destruct ((c =s [x0a]) || (c =s [x09])) eqn:E1.
  { apply K. unfold harmless. destruct (c =s [x0a]), (c =s [x09]); try done; by rewrite !orb_true_r. }
  destruct (c =s [x0d]); [by split|]. destruct (is_control c) eqn:E2; [split; [by split|done]|].
  apply K. unfold harmless. by rewrite E2.
Qed.

Lemma char_count_app a b : utf8_valid a = true -> char_count (a ++ b) = char_count a + char_count b.
Proof. intros Ha. unfold char_count. by rewrite chars_app, blen_app. Qed.

Lemma sanitize_chars_safe count max cs : Forall char_ok cs -> count <= max ->
  safe_text (sanitize_chars count max cs) /\ char_count (sanitize_chars count max cs) <= max - count + 3.
Proof.
  intros Hok. revert count. induction Hok as [|c cs Hc _ IH]; intros count Hm; cbn [sanitize_chars].
  { split; [by split|]. unfold char_count, blen. cbn. lia. }
  destruct (Z.eqb_spec count max) as [->|Hne]; [split; [by split|]; change (char_count (lit "...")) with 3; lia|].
  destruct (safe_char_ok c Hc) as [Hs Hl]. destruct (IH (count + 1) ltac:(lia)) as [Hr Hn].
  split; [by apply safe_app|]. rewrite char_count_app by apply Hs. lia.
Qed.

Lemma sanitize_safe v max : utf8_valid v = true -> 0 <= max ->
  safe_text (sanitize v max) /\ char_count (sanitize v max) <= max + 3.
Proof.
  intros Hv Hm. destruct (sanitize_chars_safe 0 max (chars v) (chars_ok v Hv) Hm). split; [done|].
  unfold sanitize. lia.
Qed.

(** The lines of safe text are safe. *)
Lemma safe_split s : safe_text s -> Forall safe_text (split_on (fun b => b =b x0a) s).
Proof.
  induction s as [s IH] using (induction_ltof1 _ (@length byte)). unfold ltof in IH. intros [Hv Hh].
  destruct (existsb (fun b => b =b x0a) s) eqn:Ex.
  - assert (exists l t, s = l ++ x0a :: t /\ forallb (fun b => negb (b =b x0a)) l = true) as (l & t & -> & Hl).
    { clear -Ex. induction s as [|b s IH]; [done|]. cbn in Ex. destruct (b =b x0a) eqn:E.
      - apply byte_eqb_eq in E as ->. by exists [], s.
      - cbn in Ex. destruct (IH Ex) as (l & t & -> & Hl). exists (b :: l), t. cbn. by rewrite E, Hl. }
    assert (split_on (fun b => b =b x0a) (l ++ x0a :: t) = l :: split_on (fun b => b =b x0a) t) as ->.
    { clear -Hl. induction l as [|b l IH]; [done|]. cbn in Hl. apply andb_true_iff in Hl as [Hb Hl].
      apply negb_true_iff in Hb. cbn [app split_on]. by rewrite Hb, (IH Hl). }
    rewrite utf8_valid_split in Hv by done. apply andb_true_iff in Hv as [Hvl Hvt].
    rewrite chars_app, forallb_app, andb_true_iff in Hh by done. destruct Hh as [Hhl Hht].
    change (x0a :: t) with ([x0a] ++ t) in Hht. rewrite char_ok_app in Hht by done. cbn [forallb] in Hht.
    apply andb_true_iff in Hht as [_ Hht]. constructor; [done|]. apply IH; [|done]. rewrite length_app. cbn. lia.
  - assert (split_on (fun b => b =b x0a) s = [s]) as ->; [|by apply Forall_singleton].
    clear -Ex. induction s as [|b s IH]; [done|]. cbn in Ex. apply orb_false_iff in Ex as [Hb Ex].
    cbn [split_on]. by rewrite Hb, (IH Ex).
Qed.

Lemma safe_no_cr s : safe_text s -> strip_cr s = s.
Proof.
  intros [Hv Hh]. unfold strip_cr. destruct (rev s) as [|b r] eqn:E; [done|].
  destruct (b =b x0d) eqn:Eb; [|done]. apply byte_eqb_eq in Eb as ->.
  apply (f_equal (@rev byte)) in E. rewrite rev_involutive in E. cbn in E. subst s.
  rewrite utf8_valid_split in Hv by done. apply andb_true_iff in Hv as [Hv _].
  rewrite chars_app, forallb_app in Hh by done. apply andb_true_iff in Hh as [_ Hh]. done.
Qed.

Lemma safe_lines s : safe_text s -> Forall safe_text (lines s).
Proof.
  intros Hs. unfold lines. pose proof (safe_split s Hs) as Hp. revert Hp.
  induction (split_on (fun b => b =b x0a) s) as [|l ls IH]; intros Hp; [constructor|]. inversion_clear Hp.
  destruct ls as [|l' ls]; [destruct l; cbn [finish_lines]; [done|by apply Forall_singleton]|].
  cbn [finish_lines]. constructor; [by rewrite safe_no_cr|by apply IH].
Qed.

(** Numbers and latencies are plain text. *)
Lemma round_div_nonneg a b : 0 <= a -> 0 < b -> 0 <= round_div a b.
Proof.
  intros Ha Hb. unfold round_div. assert (0 <= a / b) by (apply Z.div_pos; lia). repeat case_match; lia.
Qed.

Lemma to_f64_sign a b : 0 <= a -> 0 < b -> 0 <= fst (to_f64 a b) /\ 0 < snd (to_f64 a b).
Proof.
  intros Ha Hb. unfold to_f64. destruct (a =? 0); [done|]. cbv zeta.
  set (scaled := fun e => if 0 <=? e then (a, b * 2 ^ e) else (a * 2 ^ (- e), b)).
  set (e := if _ <? _ then _ else _). clearbody e. destruct (Z.leb_spec 0 e); cbn [fst snd].
  - assert (0 < 2 ^ e) by (apply Z.pow_pos_nonneg; lia). split; [|lia].
    apply Z.mul_nonneg_nonneg; [apply round_div_nonneg; nia|lia].
  - assert (0 < 2 ^ (- e)) by (apply Z.pow_pos_nonneg; lia). split; [apply round_div_nonneg; nia|done].
Qed.

Lemma safe_pad width n : 0 <= n -> safe_text (pad width n).
Proof.
  intros Hn. unfold pad. destruct (Z.ltb_spec n 0); [lia|]. apply safe_app; [|by apply safe_dec].
  apply safe_ascii. apply forallb_forall. by intros b ->%repeat_spec.
Qed.

Lemma safe_fixed places n d : 0 <= n -> 0 < d -> safe_text (fixed_quotient places n d).
Proof.
  intros Hn Hd. unfold fixed_quotient. destruct (to_f64_sign n 1 Hn ltac:(lia)) as [H1 H2].
  destruct (to_f64 n 1) as [x y]. cbn in H1, H2. destruct (to_f64_sign x (y * d) H1 ltac:(nia)) as [H3 H4].
  destruct (to_f64 x (y * d)) as [x' y']. cbn in H3, H4.
  assert (0 < 10 ^ Z.of_nat places) as Hp by (apply Z.pow_pos_nonneg; lia).
  pose proof (round_div_nonneg (x' * 10 ^ Z.of_nat places) y' ltac:(nia) H4).
  apply safe_app; [apply safe_dec, Z.div_pos; lia|]. apply safe_app; [by split|].
  apply safe_pad, Z.mod_pos_bound. lia.
Qed.

Lemma safe_latency n : 0 <= n -> safe_text (format_latency n).
Proof.
  intros Hn. unfold format_latency. repeat case_match; (apply safe_app; [|by split]);
    first [by apply safe_fixed|by apply safe_dec].
Qed.

(** What a flow holds besides captured text: names without control characters
    and counters; the captured texts are any strings. *)
Definition safe_option (o : option bytes) : Prop := forall s, o = Some s -> safe_text s.
Definition text_option (o : option bytes) : Prop := forall s, o = Some s -> utf8_valid s = true.

Record plain_names (f : StoredFlow) : Prop := {
  pn_client : safe_text (Endpoint_display (client (record f)));
  pn_upstream : safe_text (Endpoint_display (upstream (record f)));
  pn_protocol : safe_option (protocol_label (record f));
  pn_identity : forall i, identity (record f) = Some i ->
    safe_option (process i) /\ safe_option (service i) /\ safe_option (container i) /\
    (forall p, pid i = Some p -> 0 <= p);
  pn_counts : 0 <= client_to_upstream_bytes f /\ 0 <= upstream_to_client_bytes f }.

Record captured_texts (f : StoredFlow) : Prop := {
  ct_failure : text_option (failure f);
  ct_decoder : text_option (decoder_error f);
  ct_plugins : Forall (fun a => utf8_valid (Plugin.plugin a) = true /\ utf8_valid (Plugin.annotation a) = true)
                 (plugin_annotations f);
  ct_messages : Forall (fun m => utf8_valid (msg_summary m) = true /\
                                 forall l, latency_nanos m = Some l -> 0 <= l) (messages f) }.

(** Safe text put together. *)
Ltac safe_pieces :=
  repeat lazymatch goal with
  | |- safe_text (lit _ ++ _) => apply safe_app; [by split|]
  | |- safe_text (lit _) => by split
  | |- safe_text (_ ++ _) => apply safe_app
  end.

Lemma safe_default d o : safe_text d -> safe_option o -> safe_text (default d o).
Proof. intros Hd Ho. destruct o; cbn; [by apply Ho|done]. Qed.

Lemma flow_lines_safe f : plain_names f -> captured_texts f -> Forall safe_text (flow_lines f).
Proof.
  intros [Hc Hu Hp Hi [Hb1 Hb2]] [Hf He Ha _]. unfold flow_lines. rewrite !Forall_app.
  split; [|split; [|split; [|split; [|split; [|split; [|split]]]]]].
  - constructor; [safe_pieces; done|]. constructor; [|constructor]. safe_pieces; try by apply safe_dec.
    + apply safe_default; [by split|done].
    + by destruct (flow_state (record f)).
  - destruct (identity (record f)) as [i|]; [|constructor]. destruct (Hi i eq_refl) as (H1 & H2 & H3 & H4).
    apply Forall_singleton. safe_pieces; try (apply safe_default; [by split|done]).
    + unfold Identity.display_name. destruct (service i); [by apply H2|]. destruct (process i); [by apply H1|by split].
    + destruct (pid i); [by apply safe_dec, H4|by split].
  - destruct (failure f) as [e|]; [|constructor]. apply Forall_singleton. safe_pieces. apply sanitize_safe; [by apply Hf|done].
  - destruct (decoder_error f) as [e|]; [|constructor]. apply Forall_singleton. safe_pieces. apply sanitize_safe; [by apply He|done].
  - apply List.Forall_map. eapply Forall_impl; [|exact Ha]. intros a [H1 H2]. safe_pieces; by apply sanitize_safe.
  - destruct (Z.ltb_spec 0 (plugin_failures f)); [|constructor]. apply Forall_singleton. safe_pieces. apply safe_dec. lia.
  - apply Forall_singleton. by split.
  - destruct (messages f); [apply Forall_singleton; by split|constructor].
Qed.

Lemma message_lines_safe m remaining :
  utf8_valid (msg_summary m) = true -> (forall l, latency_nanos m = Some l -> 0 <= l) -> 0 <= remaining ->
  Forall safe_text (fst (message_lines m remaining)) /\ 0 <= snd (message_lines m remaining).
Proof.
  intros Hs Hl Hr. unfold message_lines. cbn [fst snd]. set (sm := sanitize (msg_summary m) _).
  set (rem := sat_sub remaining (char_count sm)). assert (0 <= rem) as Hrem by apply sat_sub_nonneg.
  split; [|apply sat_sub_nonneg]. rewrite !Forall_app. split; [|split; [|apply Forall_singleton; by split]].
  - apply Forall_singleton. safe_pieces.
    + destruct (env_direction (msg_envelope m)) as [[]|]; by split.
    + apply sanitize_safe; [done|lia].
    + destruct (latency_nanos m) as [l|]; [|by split]. safe_pieces. by apply safe_latency, Hl.
    + unfold message_flags. destruct (msg_truncated m), (bool_decide _); by split.
  - destruct (_ =s []); [constructor|]. apply List.Forall_map.
    eapply Forall_impl; [|apply safe_lines, sanitize_safe; [apply lossy_valid|lia]]. intros l Hsafe. by safe_pieces.
Qed.

Lemma messages_lines_safe ms remaining :
  Forall (fun m => utf8_valid (msg_summary m) = true /\ forall l, latency_nanos m = Some l -> 0 <= l) ms ->
  0 <= remaining -> Forall safe_text (messages_lines ms remaining).
Proof.
  intros Hm. revert remaining. induction Hm as [|m ms [H1 H2] _ IH]; intros remaining Hr; cbn [messages_lines]; [constructor|].
  destruct (remaining =? 0); [apply Forall_singleton; by split|].
  pose proof (message_lines_safe m remaining H1 H2 Hr) as [Hs Hr']. destruct (message_lines m remaining) as [ls r].
  cbn in Hs, Hr'. apply Forall_app. split; [done|by apply IH].
Qed.

(** The lines of a message of which the summary and the body read as given. *)
Definition message_block (m : MessageRecord) (shown : bytes * bytes) : list bytes :=
  let direction := match env_direction (msg_envelope m) with Some d => Direction_display d | None => lit "?" end in
  let latency := match latency_nanos m with Some l => lit "  " ++ format_latency l | None => [] end in
  [lit "[" ++ direction ++ lit "] " ++ fst shown ++ latency ++ message_flags m]
  ++ (if trim (snd shown) =s [] then [] else map (fun line => lit "  " ++ line) (lines (snd shown)))
  ++ [[]].

Definition shown_chars (shown : list (bytes * bytes)) : Z :=
  fold_right (fun '(s, b) n => char_count s + char_count b + n) 0 shown.

(** What a list of messages shows when [limit] characters may be: the blocks of
    the first ones, each capped, and a note when there are others. *)
Record shows (limit : Z) (ms : list MessageRecord) (ls : list bytes) (shown : list (bytes * bytes)) : Prop := {
  sh_lines : exists note, ls = concat (zip_with message_block ms shown) ++ note /\
    (length shown = length ms /\ note = [] \/
     (length shown < length ms)%nat /\ note = [lit "... inspector character limit reached ..."] /\ limit <= shown_chars shown);
  sh_chars : shown_chars shown <= limit + 6;
  sh_capped : Forall (fun '(s, b) => char_count s <= 2048 + 3 /\ char_count b <= 4096 + 3) shown }.

Lemma char_count_nonneg s : 0 <= char_count s.
Proof. apply blen_nonneg. Qed.

Lemma messages_lines_shows ms remaining :
  Forall (fun m => utf8_valid (msg_summary m) = true /\ forall l, latency_nanos m = Some l -> 0 <= l) ms ->
  0 <= remaining -> exists shown, shows remaining ms (messages_lines ms remaining) shown /\ (remaining = 0 -> shown = []).
Proof.
  intros Hm. revert remaining. induction Hm as [|m ms [H1 _] _ IH]; intros remaining Hr; cbn [messages_lines].
  { exists []. split; [|done]. split; [exists []; split; [done|by left]|cbn; lia|constructor]. }
  destruct (Z.eqb_spec remaining 0) as [->|Hne].
  { exists []. split; [|done]. split; [|done|constructor]. eexists. split; [by destruct ms|]. right. cbn. split; [lia|]. split; [done|lia]. }
  unfold message_lines. cbv zeta.
  destruct (sanitize_safe (msg_summary m) (Z.min remaining 2048) H1 ltac:(lia)) as [_ Hs].
  set (s := sanitize (msg_summary m) (Z.min remaining 2048)) in *.
  assert (0 <= sat_sub remaining (char_count s)) as Hrest by apply sat_sub_nonneg.
  destruct (sanitize_safe (from_utf8_lossy (msg_body m)) (Z.min (sat_sub remaining (char_count s)) 4096) (lossy_valid _) ltac:(lia)) as [_ Hb].
  set (b := sanitize (from_utf8_lossy (msg_body m)) _) in *.
  pose proof (char_count_nonneg s). pose proof (char_count_nonneg b).
  destruct (IH (sat_sub (sat_sub remaining (char_count s)) (char_count b)) (sat_sub_nonneg _ _)) as [shown [[[note [E Hn]] Hc Hcap] Hz]].
  assert (sat_sub (sat_sub remaining (char_count s)) (char_count b) = 0 -> shown_chars shown = 0) as Hz0 by (intros Ez; by rewrite (Hz Ez)).
  exists ((s, b) :: shown). split; [|done]. split.
  - exists note. split; [rewrite E; exact (app_assoc (message_block m (s, b)) _ note)|].
    cbn [length]. destruct Hn as [[Hl ->]|(Hl & -> & Hlim)]; [left; split; [lia|done]|right].
    split; [lia|]. split; [done|]. unfold sat_sub in *. cbn [shown_chars fold_right]. fold (shown_chars shown). lia.
  - cbn [shown_chars fold_right]. fold (shown_chars shown). unfold sat_sub in *. lia.
  - constructor; [split; lia|done].
Qed.

(** C34. The inspector cannot be used against the terminal: whatever was
    captured, every line it shows is well-formed text without control
    characters other than line breaks and tabs; behind the lines of the flow
    and a note on omitted messages it shows the last 200 messages at most, in
    order, with at most 2048 characters of each summary and 4096 of each body
    (and an ellipsis each), until 16384 characters are shown (and two
    ellipses), which it notes.  The names that are shown as they are
    (addresses, protocol, service) must be free of control characters. *)
Theorem inspector_safe (f : StoredFlow) :
  plain_names f -> captured_texts f ->
  let recent := drop (length (messages f) - 200) (messages f) in
  Forall safe_text (inspector_text (Some f)) /\
  exists ls shown,
    inspector_text (Some f)
    = flow_lines f
      ++ (if (200 <? length (messages f))%nat
          then [lit "... " ++ dec (Z.of_nat (length (messages f) - 200)) ++ lit " older messages omitted from this view ..."]
          else []) ++ ls /\
    shows 16384 recent ls shown.
Proof.
  intros Hn Ht recent. pose proof (ct_messages f Ht) as Hm.
  assert (Forall (fun m => utf8_valid (msg_summary m) = true /\ forall l, latency_nanos m = Some l -> 0 <= l) recent) as Hd
    by by apply Forall_drop.
  split.
  - cbn [inspector_text]. rewrite !Forall_app. split; [by apply flow_lines_safe|]. split; [|by apply messages_lines_safe].
    destruct (0 <? _)%nat; [|constructor]. apply Forall_singleton. safe_pieces. apply safe_dec. lia.
  - destruct (messages_lines_shows recent 16384 Hd ltac:(lia)) as [shown [Hs _]].
    exists (messages_lines recent 16384), shown. split; [|done]. cbn [inspector_text].
    replace (0 <? length (messages f) - 200)%nat with (200 <? length (messages f))%nat; [done|].
    apply eq_true_iff_eq. rewrite !Nat.ltb_lt. lia.
Qed.

(** A flow whose captured texts try to move the cursor. *)
Definition hostile_flow : StoredFlow :=
  mkStored (Flow.new (Envelope.new (lit "flow.opened") 1 SrcProxy) (mkEndpoint (lit "127.0.0.1") 5000)
              (mkEndpoint (lit "api.test") 443)) 10 20 (Some (lit "reset " ++ [x1b] ++ lit "[2J")) None
    [Message.new (Envelope.new (lit "message.decoded") 1 SrcDecoder) (lit "GET /" ++ [x1b; x0d]) [xff; x07]] [] 0.

Lemma inspector_safe_witness :
  Forall safe_text (inspector_text (Some hostile_flow)) /\
  nth_error (inspector_text (Some hostile_flow)) 2 = Some (lit "failure: reset ?[2J").
Proof.
  split; [|by vm_compute]. apply inspector_safe.
  - split; try (by vm_compute); try by split.
  - split; try done; [by intros s [= <-]|]. by repeat constructor.
Defined.

(** Leaving the search prompt with Escape keeps the search as Enter does,
    although the prompt offers it as a way to cancel. *)
Lemma escape_keeps_search a key :
  search_mode a = true -> code key = Esc ->
  handle_key a key = handle_key a (mkKey Enter (control key)) /\ search (filter (snd (handle_key a key))) = search (filter a).
Proof.
  intros Hm Hk. unfold handle_key, search_key. cbn [code control]. rewrite Hk, Hm, andb_false_r. done.
Qed.

(** The protocol filter never reaches Redis, HTTP/2 or gRPC. *)
Lemma protocol_filter_cycle p :
  p = None \/ p = Some (lit "http1") \/ p = Some (lit "postgres") \/ p = Some (lit "tcp") ->
  let q := next_protocol p in
  q = None \/ q = Some (lit "http1") \/ q = Some (lit "postgres") \/ q = Some (lit "tcp").
Proof. intros [->|[->|[->| ->]]]; cbn; auto. Qed.
