(* ===== verification/Terminal.v ===== *)
(** * Terminal: the session of [crates/lens-tui] with the terminal.

    [run] takes the terminal into raw mode and to the alternate screen, runs
    the event loop and brings the terminal back.  The terminal (crossterm and
    ratatui), the clock and the store that changes meanwhile are parameters:
    class [Console], with what the crates document about the modes of the
    terminal as [ConsoleLaws]. *)

From S2P Require Import Prelude RustStd Core Store Tui.
Import Tui.
#[local] Open Scope lens_scope.

Module Terminal.

(** What is read from the terminal. *)
Inductive Event := OtherEvent | KeyPressed (key : KeyEvent).

(** The terminal, the clock and the store's handle; instants are [Z]. *)
Class Console := {
  world : Type;
  enable_raw_mode : world -> result unit * world;
  disable_raw_mode : world -> result unit * world;
  enter_alternate_screen : world -> result unit * world;
  leave_alternate_screen : world -> result unit * world;
  terminal_new : world -> result unit * world;
  draw_frame : Screen -> world -> result unit * world;
  show_cursor : world -> result unit * world;
  event_poll : Z -> world -> result bool * world;
  event_read : world -> result Event * world;
  instant_now : world -> Z * world;
  handle_snapshot : world -> Store.StoreSnapshot * world;
  observations_dropped : world -> Z * world }.

Section Terminal.
Context `{Console}.

(** [app.refresh(handle.snapshot(), dropped())] and the drawing of it. *)
Definition refresh_screen (a : TuiApp) : call world TuiApp :=
  let* current := call_sure handle_snapshot in
  let* drops := call_sure observations_dropped in
  let a := refresh a current drops in
  let* _u := draw_frame (draw a) in call_ret a.

(** The handling of what was read. *)
Definition take_event (a : TuiApp) (next_refresh : Z) (e : Event) : call world ((TuiApp * Z) + Store.StoreSnapshot) :=
  match e with
  | KeyPressed key =>
      match handle_key a key with
      | (true, a) => let* last := call_sure handle_snapshot in call_ret (inr last)
      | (false, a) => let* _u := draw_frame (draw a) in call_ret (inl (a, next_refresh))
      end
  | OtherEvent => call_ret (inl (a, next_refresh))
  end.

(** One round of the loop: it goes on, or the UI exits with a snapshot. *)
Definition loop_round (config : TuiConfig) (a : TuiApp) (next_refresh : Z) : call world ((TuiApp * Z) + Store.StoreSnapshot) :=
  let* now := call_sure instant_now in
  let* shown := (if next_refresh <=? now
               then let* a := refresh_screen a in call_ret (a, now + refresh_rate config)
               else call_ret (a, next_refresh)) in
  let '(a, next_refresh) := shown in
  let* now := call_sure instant_now in
  let* ready := event_poll (Z.max 0 (next_refresh - now)) in
  if negb ready then call_ret (inl (a, next_refresh))
  else let* e := event_read in take_event a next_refresh e.

(** [run_loop] for so many rounds; [None] while it has not returned. *)
Fixpoint rounds (fuel : nat) (config : TuiConfig) (a : TuiApp) (next_refresh : Z) (w : world) :
    option (result Store.StoreSnapshot * world) :=
  match fuel with
  | O => None
  | S fuel =>
      match loop_round config a next_refresh w with
      | (Err e, w) => Some (Err e, w)
      | (Ok (inr last), w) => Some (Ok last, w)
      | (Ok (inl (a, next_refresh)), w) => rounds fuel config a next_refresh w
      end
  end.

Definition run_loop (fuel : nat) (config : TuiConfig) (a : TuiApp) (w : world) : option (result Store.StoreSnapshot * world) :=
  let '(next_refresh, w) := instant_now w in rounds fuel config a next_refresh w.

(** [raw.and(screen).and(cursor)]: all three are called. *)
Definition restore_terminal (w : world) : result unit * world :=
  let '(raw, w) := disable_raw_mode w in
  let '(screen, w) := leave_alternate_screen w in
  let '(cursor, w) := show_cursor w in
  (match raw, screen with Ok _, Ok _ => cursor | Ok _, Err e => Err e | Err e, _ => Err e end, w).

Definition run (fuel : nat) (config : TuiConfig) (w : world) : option (result Store.StoreSnapshot * world) :=
  match enable_raw_mode w with
  | (Err e, w) => Some (Err e, w)
  | (Ok _, w) =>
      match enter_alternate_screen w with
      | (Err e, w) => let '(_, w) := disable_raw_mode w in Some (Err e, w)
      | (Ok _, w) =>
          match terminal_new w with
          | (Err e, w) =>
              let '(_, w) := disable_raw_mode w in
              let '(_, w) := leave_alternate_screen w in
              Some (Err e, w)
          | (Ok _, w) =>
              let '(current, w) := handle_snapshot w in
              let '(drops, w) := observations_dropped w in
              match run_loop fuel config (new current (config_reveal config) drops) w with
              | None => None
              | Some (result, w) =>
                  let '(cleanup, w) := restore_terminal w in
                  Some (match result, cleanup with
                        | Ok last, Ok _ => Ok last
                        | Err e, _ => Err e
                        | Ok _, Err e => Err e
                        end, w)
              end
          end
      end
  end.

(** ** The modes of the terminal *)

Record Modes := mkModes { raw : bool; alternate : bool; cursor : bool }.
Definition normal : Modes := mkModes false false true.

(** What the calls do to the modes, as the crates document them: each sets
    one of them, or fails and leaves them.  Nothing is said of the calls of the
    loop. *)
Class ConsoleLaws (modes : world -> Modes) : Prop := {
  raw_on w : modes (enable_raw_mode w).2 =
    match (enable_raw_mode w).1 with Ok _ => mkModes true (alternate (modes w)) (cursor (modes w)) | Err _ => modes w end;
  raw_off w : modes (disable_raw_mode w).2 =
    match (disable_raw_mode w).1 with Ok _ => mkModes false (alternate (modes w)) (cursor (modes w)) | Err _ => modes w end;
  alternate_on w : modes (enter_alternate_screen w).2 =
    match (enter_alternate_screen w).1 with Ok _ => mkModes (raw (modes w)) true (cursor (modes w)) | Err _ => modes w end;
  alternate_off w : modes (leave_alternate_screen w).2 =
    match (leave_alternate_screen w).1 with Ok _ => mkModes (raw (modes w)) false (cursor (modes w)) | Err _ => modes w end;
  cursor_on w : modes (show_cursor w).2 =
    match (show_cursor w).1 with Ok _ => mkModes (raw (modes w)) (alternate (modes w)) true | Err _ => modes w end;
  creates w : modes (terminal_new w).2 = modes w }.

Section Laws.
Context (modes : world -> Modes) `{L : !ConsoleLaws modes}.

(** The calls that bring the terminal back do not fail. *)
Definition restorable : Prop :=
  forall w, (disable_raw_mode w).1 = Ok tt /\ (leave_alternate_screen w).1 = Ok tt /\ (show_cursor w).1 = Ok tt.

Lemma restore_modes w :
  let '(r, w') := restore_terminal w in r = Ok tt \/ restorable -> modes w' = normal.
Proof.
  unfold restore_terminal. pose proof (raw_off w) as H1. destruct (disable_raw_mode w) as [r1 w1] eqn:E1.
  pose proof (alternate_off w1) as H2. destruct (leave_alternate_screen w1) as [r2 w2] eqn:E2.
  pose proof (cursor_on w2) as H3. destruct (show_cursor w2) as [r3 w3] eqn:E3. cbn [fst snd] in *. intros Hr.
  assert (r1 = Ok tt /\ r2 = Ok tt /\ r3 = Ok tt) as (-> & -> & ->).
  { destruct Hr as [Hr|Hr].
    - by destruct r1 as [[]|], r2 as [[]|], r3 as [[]|].
    - destruct (Hr w) as (A & _). destruct (Hr w1) as (_ & B & _). destruct (Hr w2) as (_ & _ & D).
      rewrite E1 in A. rewrite E2 in B. by rewrite E3 in D. }
  by rewrite H3, H2, H1.
Qed.

(** C35. The terminal is left as it was found: whichever call of the session
    with the terminal fails, when [run] returns after any number of rounds raw
    mode is off, the alternate screen was left and the cursor is shown,
    provided that [run] succeeds or that the calls that bring the terminal
    back do not fail themselves. *)
Theorem terminal_restored (fuel : nat) (config : TuiConfig) (w w' : world) (r : result Store.StoreSnapshot) :
  modes w = normal -> run fuel config w = Some (r, w') ->
  (exists last, r = Ok last) \/ restorable -> modes w' = normal.
Proof.
  intros Hn Hrun Hok. unfold run in Hrun. pose proof (raw_on w) as H1. rewrite Hn in H1.
  destruct (enable_raw_mode w) as [[[]|e] w1]; cbn [fst snd] in H1; [|by injection Hrun as <- <-].
  pose proof (alternate_on w1) as H2. rewrite H1 in H2. destruct (enter_alternate_screen w1) as [[[]|e] w2]; cbn [fst snd] in H2.
  2: { pose proof (raw_off w2) as H3. destruct (disable_raw_mode w2) as [r3 w3] eqn:E3. injection Hrun as <- <-.
       destruct Hok as [[? [=]]|Hok]. destruct (Hok w2) as (A & _). rewrite E3 in A. cbn [fst snd] in *. subst r3. by rewrite H3, H2. }
  pose proof (creates w2) as H3. rewrite H2 in H3. destruct (terminal_new w2) as [[[]|e] w3]; cbn [fst snd] in H3.
  2: { pose proof (raw_off w3) as H4. destruct (disable_raw_mode w3) as [r4 w4] eqn:E4.
       pose proof (alternate_off w4) as H5. destruct (leave_alternate_screen w4) as [r5 w5] eqn:E5. injection Hrun as <- <-.
       destruct Hok as [[? [=]]|Hok]. destruct (Hok w3) as (A & _). destruct (Hok w4) as (_ & B & _). rewrite E4 in A. rewrite E5 in B.
       cbn [fst snd] in *. subst r4 r5. by rewrite H5, H4, H3. }
  destruct (handle_snapshot w3) as [current w4]. destruct (observations_dropped w4) as [drops w5].
  destruct (run_loop fuel config _ w5) as [[result w6]|]; [|done]. pose proof (restore_modes w6) as Hres.
  destruct (restore_terminal w6) as [cleanup w7]. injection Hrun as <- <-. apply Hres.
  destruct Hok as [[last Hok]|Hok]; [left|by right]. by destruct result, cleanup as [[]|].
Qed.
End Laws.
End Terminal.

(** A terminal that only keeps its modes, and one key after the other. *)
Definition keys_world : Type := Modes * list KeyEvent.
Definition set_modes (f : Modes -> Modes) (w : keys_world) : result unit * keys_world := (Ok tt, (f w.1, w.2)).
#[local] Instance keyboard : Console := {|
  world := keys_world;
  enable_raw_mode := set_modes (fun m => mkModes true (alternate m) (cursor m));
  disable_raw_mode := set_modes (fun m => mkModes false (alternate m) (cursor m));
  enter_alternate_screen := set_modes (fun m => mkModes (raw m) true (cursor m));
  leave_alternate_screen := set_modes (fun m => mkModes (raw m) false (cursor m));
  terminal_new w := (Ok tt, w);
  draw_frame _ := set_modes (fun m => mkModes (raw m) (alternate m) false);
  show_cursor := set_modes (fun m => mkModes (raw m) (alternate m) true);
  event_poll _ w := (Ok (negb (length w.2 =? 0)%nat), w);
  event_read w := match w.2 with key :: ks => (Ok (KeyPressed key), (w.1, ks)) | [] => (Err (lit "closed"), w) end;
  instant_now w := (0, w);
  handle_snapshot w := (Store.mkSnapshot [] 0, w);
  observations_dropped w := (0, w) |}.

Definition keyboard_modes (w : world) : Modes := fst (w : keys_world).
#[local] Instance keyboard_laws : ConsoleLaws keyboard_modes.
Proof. by split. Qed.

Definition pressed (c : byte) (control : bool) : KeyEvent := mkKey (Char [c]) control.

Lemma terminal_restored_witness :
  exists w, run 3 (new_config 100 false) (normal, [pressed "j" false; pressed "c" true]) = Some (Ok (Store.mkSnapshot [] 0), w)
  /\ keyboard_modes w = normal.
Proof.
  eexists. split; [by vm_compute|].
  eapply (terminal_restored keyboard_modes 3 (new_config 100 false) (normal, [pressed "j" false; pressed "c" true])); [done|by vm_compute|].
  left. by eexists.
Defined.
End Terminal.
