(* ===== verification/Platform.v ===== *)
(** * Platform: the operating-system adapters of [crates/lens-platform].

    Trust stores driven through platform utilities, the records exchanged with
    the redirecting driver, and the lookup of the process behind a socket.
    Running a program and the contents of /proc are parameters: classes
    [Commands] and [Proc]. *)

From S2P Require Import Prelude RustStd RustText Disk Net Core Tls.
#[local] Open Scope lens_scope.

Module Platform.

Inductive PlatformKind := Windows | MacOs | Linux | Unsupported.
#[global] Instance PlatformKind_eq_dec : EqDecision PlatformKind.
Proof. solve_decision. Defined.

Definition PlatformKind_display (p : PlatformKind) : bytes :=
  match p with
  | Windows => lit "windows-current-user"
  | MacOs => lit "macos-login-keychain"
  | Linux => lit "linux-user-nss"
  | Unsupported => lit "unsupported"
  end.

(** [std::process::Output], with the text of its exit status. *)
Record Output := mkOutput { success : bool; status_text : bytes; stdout : bytes; stderr : bytes }.

(** The system a program runs on, its files included. *)
Class Commands := {
  system : Type;
  disk : system -> Disk.t;
  set_disk : system -> Disk.t -> system;
  run_program : bytes -> list bytes -> system -> Disk.io Output * system }.

(** ** Trust stores *)

Inductive TrustState := Installed | NotInstalled | Unavailable.
#[global] Instance TrustState_eq_dec : EqDecision TrustState.
Proof. solve_decision. Defined.

Definition TrustState_display (s : TrustState) : bytes :=
  match s with
  | Installed => lit "installed"
  | NotInstalled => lit "not-installed"
  | Unavailable => lit "unavailable"
  end.

Record TrustReport := mkReport { report_platform : PlatformKind; state : TrustState; detail : bytes }.
Record CommandSpec := mkSpec { program : bytes; args : list bytes }.
Record UserTrustStore := mkStore { platform : PlatformKind; home : bytes }.

(** [TrustError] as it is displayed. *)
Definition trust_error (operation : string) (detail : bytes) : bytes := lit operation ++ lit ": " ++ detail.

(** [HOME] or [USERPROFILE]. *)
Definition current_store (kind : PlatformKind) (home userprofile : option bytes) : result UserTrustStore :=
  match home, userprofile with
  | Some h, _ => Ok (mkStore kind h)
  | None, Some h => Ok (mkStore kind h)
  | None, None => Err (trust_error "resolve user trust store" (lit "home directory is unavailable"))
  end.

Definition nss_directory (s : UserTrustStore) : bytes :=
  Disk.join (Disk.join (home s) (lit ".pki")) (lit "nssdb").
Definition linux_nss_database (s : UserTrustStore) : bytes := lit "sql:" ++ nss_directory s.
Definition macos_keychain (s : UserTrustStore) : bytes :=
  Disk.join (Disk.join (Disk.join (home s) (lit "Library")) (lit "Keychains")) (lit "login.keychain-db").

Definition status_command (s : UserTrustStore) : option CommandSpec :=
  match platform s with
  | Windows => Some (mkSpec (lit "certutil") [lit "-user"; lit "-store"; lit "Root"; Tls.CA_COMMON_NAME])
  | MacOs =>
      Some (mkSpec (lit "security") [lit "find-certificate"; lit "-c"; Tls.CA_COMMON_NAME; macos_keychain s])
  | Linux =>
      Some (mkSpec (lit "certutil") [lit "-L"; lit "-d"; linux_nss_database s; lit "-n"; Tls.CA_COMMON_NAME])
  | Unsupported => None
  end.

Definition install_command (s : UserTrustStore) (certificate : bytes) : option CommandSpec :=
  match platform s with
  | Windows => Some (mkSpec (lit "certutil") [lit "-user"; lit "-addstore"; lit "Root"; certificate])
  | MacOs =>
      Some (mkSpec (lit "security")
              [lit "add-trusted-cert"; lit "-r"; lit "trustRoot"; lit "-k"; macos_keychain s; certificate])
  | Linux =>
      Some (mkSpec (lit "certutil")
              [lit "-A"; lit "-d"; linux_nss_database s; lit "-n"; Tls.CA_COMMON_NAME; lit "-t"; lit "C,,";
               lit "-i"; certificate])
  | Unsupported => None
  end.

Definition uninstall_command (s : UserTrustStore) : option CommandSpec :=
  match platform s with
  | Windows => Some (mkSpec (lit "certutil") [lit "-user"; lit "-delstore"; lit "Root"; Tls.CA_COMMON_NAME])
  | MacOs =>
      Some (mkSpec (lit "security") [lit "delete-certificate"; lit "-c"; Tls.CA_COMMON_NAME; macos_keychain s])
  | Linux =>
      Some (mkSpec (lit "certutil") [lit "-D"; lit "-d"; linux_nss_database s; lit "-n"; Tls.CA_COMMON_NAME])
  | Unsupported => None
  end.

Definition missing_tool_remediation (s : UserTrustStore) : bytes :=
  match platform s with
  | Linux =>
      lit "NSS certutil is unavailable; install `libnss3-tools` (Debian/Ubuntu) or `nss-tools` (Fedora)"
  | Windows => lit "Windows certutil is unavailable"
  | MacOs => lit "macOS security utility is unavailable"
  | Unsupported => lit "this operating system has no Lens trust-store adapter"
  end.

Section Trust.
Context `{Commands}.

Definition execute (spec : CommandSpec) (w : system) : Disk.io Output * system :=
  run_program (program spec) (args spec) w.

(** [detail.chars().take(512).collect()]. *)
Definition first_chars (n : nat) (s : bytes) : bytes := List.concat (take n (chars s)).

Definition run_required (operation : string) (spec : CommandSpec) (w : system) : result unit * system :=
  match execute spec w with
  | (inr e, w) =>
      (Err (trust_error operation
         (match Disk.kind e with
          | Disk.NotFound => lit "required utility `" ++ from_utf8_lossy (program spec) ++ lit "` was not found"
          | _ => Disk.text e
          end)), w)
  | (inl output, w) =>
      if success output then (Ok tt, w)
      else
        let detail := trim (from_utf8_lossy (stderr output)) in
        (Err (trust_error operation
           (if detail =s [] then lit "platform command exited with " ++ status_text output
            else first_chars 512 detail)), w)
  end.

Definition status (s : UserTrustStore) (w : system) : TrustReport * system :=
  match status_command s with
  | None =>
      (mkReport (platform s) Unavailable (lit "this operating system has no Lens trust-store adapter"), w)
  | Some spec =>
      match execute spec w with
      | (inl output, w) =>
          (if success output
           then mkReport (platform s) Installed (Tls.CA_COMMON_NAME ++ lit " is trusted for the current user")
           else mkReport (platform s) NotInstalled (lit "run `lens cert install` before inspecting HTTPS"), w)
      | (inr e, w) =>
          (match Disk.kind e with
           | Disk.NotFound => mkReport (platform s) Unavailable (missing_tool_remediation s)
           | _ => mkReport (platform s) Unavailable (lit "trust status failed: " ++ Disk.text e)
           end, w)
      end
  end.

Definition initialize_linux_nss (s : UserTrustStore) (w : system) : result unit * system :=
  let database := nss_directory s in
  let '(r, d) := Disk.create_dir_all (disk w) database in
  let w := set_disk w d in
  match r with
  | inr e => (Err (trust_error "initialize Linux trust store" (database ++ lit ": " ++ Disk.text e)), w)
  | inl _ =>
      if Disk.exists_ (disk w) (Disk.join database (lit "cert9.db")) then (Ok tt, w)
      else run_required "initialize Linux NSS database"
             (mkSpec (lit "certutil") [lit "-N"; lit "--empty-password"; lit "-d"; linux_nss_database s]) w
  end.

(** The steps of [install] once the database exists. *)
Definition install_checked (s : UserTrustStore) (certificate : bytes) (w : system) : result TrustReport * system :=
  match install_command s certificate with
  | None => (Err (trust_error "install trust" (lit "this operating system is unsupported")), w)
  | Some spec =>
      match run_required "install trust" spec w with
      | (Err e, w) => (Err e, w)
      | (Ok _, w) =>
          let '(report, w) := status s w in
          if negb (bool_decide (state report = Installed)) then
            (Err (trust_error "install trust"
               (lit "the platform command completed but the CA was not found afterward")), w)
          else (Ok report, w)
      end
  end.

Definition install (s : UserTrustStore) (certificate : bytes) (w : system) : result TrustReport * system :=
  if negb (Disk.is_file (disk w) certificate) then
    (Err (trust_error "install trust" (lit "certificate does not exist: " ++ certificate)), w)
  else if bool_decide (platform s = Linux) then
    match initialize_linux_nss s w with
    | (Err e, w) => (Err e, w)
    | (Ok _, w) => install_checked s certificate w
    end
  else install_checked s certificate w.

Definition uninstall (s : UserTrustStore) (w : system) : result TrustReport * system :=
  let '(report, w) := status s w in
  match state report with
  | NotInstalled => (Ok report, w)
  | Unavailable => (Err (trust_error "uninstall trust" (detail report)), w)
  | Installed =>
      match uninstall_command s with
      | None => (Err (trust_error "uninstall trust" (lit "this operating system is unsupported")), w)
      | Some spec =>
          match run_required "uninstall trust" spec w with
          | (Err e, w) => (Err e, w)
          | (Ok _, w) =>
              let '(report, w) := status s w in
              if bool_decide (state report = Installed) then
                (Err (trust_error "uninstall trust"
                   (lit "the CA is still present after the platform command completed")), w)
              else (Ok report, w)
          end
      end
  end.
End Trust.

(** ** Transparent redirection *)

Definition LENS_WFP_ABI_VERSION : Z := 1.
Definition ABI_HEADER_SIZE : Z := 8.
Definition CONFIG_SIZE : Z := 32.
Definition STATUS_SIZE : Z := 40.
Definition REDIRECT_CONTEXT_SIZE : Z := 48.
Definition OP_CONFIGURE : Z := 1.
Definition OP_STATUS : Z := 3.
Definition OP_REDIRECT_CONTEXT : Z := 4.

Inductive TransparentBackend := WindowsWfp | LinuxNftables | MacOsPf | NoBackend.

Definition TransparentBackend_display (b : TransparentBackend) : bytes :=
  match b with
  | WindowsWfp => lit "windows-wfp"
  | LinuxNftables => lit "linux-nftables"
  | MacOsPf => lit "macos-pf"
  | NoBackend => lit "unsupported"
  end.

Inductive TransparentPhase :=
| PhaseUnsupported | PhaseUnavailable | PhaseNotInstalled | Stopped | Ready | Active | RecoveryRequired.

Definition TransparentPhase_display (p : TransparentPhase) : bytes :=
  match p with
  | PhaseUnsupported => lit "unsupported"
  | PhaseUnavailable => lit "unavailable"
  | PhaseNotInstalled => lit "not-installed"
  | Stopped => lit "stopped"
  | Ready => lit "ready"
  | Active => lit "active"
  | RecoveryRequired => lit "recovery-required"
  end.

Record TransparentStatus := mkTransparentStatus {
  status_backend : TransparentBackend; phase : TransparentPhase; requires_admin : bool; status_detail : bytes }.

Record TransparentConfig := mkConfig { proxy_pid : Z; listen_port : Z; generation : Z; session_nonce : Z }.

Definition new_config (proxy_pid listen_port generation session_nonce : Z) : result TransparentConfig :=
  if proxy_pid =? 0 then Err (lit "proxy PID must be non-zero")
  else if listen_port =? 0 then Err (lit "listen port must be non-zero")
  else if generation =? 0 then Err (lit "generation must be non-zero")
  else if session_nonce =? 0 then Err (lit "session nonce must be non-zero")
  else Ok (mkConfig proxy_pid listen_port generation session_nonce).

(** [bytes[at..at + n].copy_from_slice(value)], within the record. *)
Definition copy_at (record : bytes) (at_ : nat) (value : bytes) : bytes :=
  take at_ record ++ value ++ drop (at_ + length value) record.

Definition write_header (record : bytes) (size operation : Z) : bytes :=
  copy_at (copy_at (copy_at record 0 (le_bytes 2 LENS_WFP_ABI_VERSION)) 2 (le_bytes 2 size)) 4 (le_bytes 4 operation).

Definition encode (c : TransparentConfig) : bytes :=
  let r := write_header (repeat x00 32) CONFIG_SIZE OP_CONFIGURE in
  let r := copy_at r 8 (le_bytes 8 (proxy_pid c)) in
  let r := copy_at r 16 (le_bytes 2 (listen_port c)) in
  let r := copy_at r 20 (le_bytes 4 (generation c)) in
  copy_at r 24 (le_bytes 8 (session_nonce c)).

Definition read_array (n : nat) (s : bytes) (offset : nat) : result bytes :=
  if (offset + n <=? length s)%nat then Ok (take n (drop offset s)) else Err (lit "driver record is truncated").

Definition read_le (n : nat) (s : bytes) (offset : nat) : result Z :=
  let? a := read_array n s offset in Ok (le_uint a).
Definition read_u16 := read_le 2.
Definition read_u32 := read_le 4.
Definition read_u64 := read_le 8.

Definition read_header (s : bytes) (size operation : Z) : result unit :=
  if negb (blen s =? size) || (size <? ABI_HEADER_SIZE) then Err (lit "driver record has an invalid size")
  else
    let? version := read_u16 s 0 in
    if negb (version =? LENS_WFP_ABI_VERSION) then Err (lit "driver ABI version does not match")
    else
      let? field := read_u16 s 2 in
      if negb (field =? size) then Err (lit "driver record size field does not match")
      else
        let? op := read_u32 s 4 in
        if negb (op =? operation) then Err (lit "driver record operation does not match") else Ok tt.

Record TransparentDriverStatus := mkDriver {
  active : bool; driver_generation : Z; redirected_connections : Z; redirect_errors : Z }.

Definition decode_status (s : bytes) : result TransparentDriverStatus :=
  let? _u := read_header s STATUS_SIZE OP_STATUS in
  let? state := read_u32 s 8 in
  if negb ((state =? 1) || (state =? 2)) then Err (lit "driver returned an invalid state")
  else
    let? flags := read_u32 s 12 in
    if negb (flags =? 0) then Err (lit "driver returned unknown status flags")
    else
      let? generation := read_u64 s 16 in
      let? redirected := read_u64 s 24 in
      let? errors := read_u64 s 32 in
      Ok (mkDriver (state =? 2) generation redirected errors).

Record RedirectContext := mkContext { destination : SocketAddr.t; process_id : Z; context_generation : Z }.

Definition decode_context (s : bytes) : result RedirectContext :=
  let? _u := read_header s REDIRECT_CONTEXT_SIZE OP_REDIRECT_CONTEXT in
  let? family := read_u16 s 8 in
  let? protocol := ok_or (s !! 10%nat) (lit "redirect context is truncated") in
  if negb (byte_val protocol =? 6) then Err (lit "redirect context is not a TCP connection")
  else
    let? port := read_array 2 s 12 in
    let? address := read_array 16 s 16 in
    let? ip := (if family =? 2 then Ok (IpAddr.ipv4_of address)
                else if family =? 23 then Ok (IpAddr.V6 (IpAddr.groups address))
                else Err (lit "unsupported address family")) in
    let? process_id := read_u64 s 32 in
    let? generation := read_u64 s 40 in
    Ok (mkContext (SocketAddr.mk ip (be_uint port) 0) process_id generation).

Definition backend (p : PlatformKind) : TransparentBackend :=
  match p with
  | Windows => WindowsWfp | Linux => LinuxNftables | MacOs => MacOsPf | Unsupported => NoBackend
  end.

Definition windows_status (output : option Output) : TransparentStatus :=
  match output with
  | None =>
      mkTransparentStatus WindowsWfp PhaseUnavailable true (lit "Windows Service Control Manager is unavailable")
  | Some output =>
      if negb (success output) then
        mkTransparentStatus WindowsWfp PhaseNotInstalled true (lit "the first-party Lens WFP driver is not installed")
      else
        let text := to_ascii_uppercase (from_utf8_lossy (stdout output)) in
        if contains (lit "RUNNING") text then
          mkTransparentStatus WindowsWfp Ready true
            (lit "the Lens WFP driver is running; redirect filters are not yet activated")
        else if contains (lit "STOPPED") text then
          mkTransparentStatus WindowsWfp Stopped true (lit "the Lens WFP driver is installed but stopped")
        else
          mkTransparentStatus WindowsWfp RecoveryRequired true
            (lit "the Lens WFP driver reported an unexpected service state")
  end.

Definition utility_status (b : TransparentBackend) (output : option Output) (available unavailable : bytes) :
    TransparentStatus :=
  match output with
  | Some _ => mkTransparentStatus b PhaseNotInstalled true available
  | None => mkTransparentStatus b PhaseUnavailable true unavailable
  end.

Section Controller.
Context `{Commands}.

Definition command_output (program : bytes) (arguments : list bytes) (w : system) : option Output * system :=
  match run_program program arguments w with (inl o, w) => (Some o, w) | (inr _, w) => (None, w) end.

Definition transparent_status (p : PlatformKind) (w : system) : TransparentStatus * system :=
  match p with
  | Windows =>
      let '(o, w) := command_output (lit "sc.exe") [lit "query"; lit "LensWfp"] w in (windows_status o, w)
  | Linux =>
      let '(o, w) := command_output (lit "nft") [lit "--version"] w in
      (utility_status (backend p) o (lit "nftables is available; the Lens ruleset is not installed")
         (lit "install nftables before enabling transparent mode"), w)
  | MacOs =>
      let '(o, w) := command_output (lit "pfctl") [lit "-s"; lit "info"] w in
      (utility_status (backend p) o (lit "PF is available; the isolated Lens anchor is not installed")
         (lit "PF is unavailable on this macOS host"), w)
  | Unsupported =>
      (mkTransparentStatus NoBackend PhaseUnsupported true
         (lit "this operating system has no Lens transparent adapter"), w)
  end.
End Controller.

(** ** The process behind a socket *)

Definition MAX_LABEL_CHARS : nat := 128.

(** The last component of a path when it is a name: empty components and, but
    for the first, those of a single dot are none. *)
Definition path_file_name (value : bytes) : option bytes :=
  let parts := split_on (fun b => b =b "/"%byte) value in
  let named := match parts with
               | [] => []
               | p :: ps => List.filter (fun c => negb (c =s [])) [p]
                            ++ List.filter (fun c => negb ((c =s []) || (c =s lit "."))) ps
               end in
  match rev named with
  | c :: _ => if (c =s lit ".") || (c =s lit "..") then None else Some c
  | [] => None
  end.

Definition safe_label (value : bytes) : bytes :=
  let basename := default value (path_file_name value) in
  trim (List.concat (take MAX_LABEL_CHARS (List.filter (fun c => negb (is_control c)) (chars basename)))).

(** [value.rsplit_once(':')]. *)
Definition rsplit_colon (s : bytes) : option (bytes * bytes) :=
  match split_once ":"%byte (rev s) with Some (a, b) => Some (rev b, rev a) | None => None end.

Definition socket_table_port (value : bytes) : option Z :=
  match rsplit_colon value with
  | Some (_, port) => parse_unsigned 16 u16_max port
  | None => None
  end.

(** A line of the socket table: [inl] to go on, [inr] to return. *)
Definition inode_line (client_port listener_port : Z) (line : bytes) : unit + option Z :=
  let fields := split_whitespace line in
  match fields !! 1%nat, fields !! 2%nat, fields !! 3%nat, fields !! 9%nat with
  | Some local, Some remote, Some st, Some inode =>
      if negb (st =s lit "01") then inl tt
      else
        match socket_table_port local with
        | None => inr None
        | Some local_port =>
            match socket_table_port remote with
            | None => inr None
            | Some remote_port =>
                if (local_port =? client_port) && (remote_port =? listener_port) then
                  match parse_unsigned 10 u64_max inode with
                  | Some inode => inr (Some inode)
                  | None => inl tt
                  end
                else inl tt
            end
        end
  | _, _, _, _ => inl tt
  end.

Fixpoint inode_lines (client_port listener_port : Z) (ls : list bytes) : option Z :=
  match ls with
  | [] => None
  | l :: ls =>
      match inode_line client_port listener_port l with
      | inl _ => inode_lines client_port listener_port ls
      | inr r => r
      end
  end.

Definition find_linux_inode (contents : bytes) (client_port listener_port : Z) : option Z :=
  inode_lines client_port listener_port (drop 1 (lines contents)).

Definition parse_owner_line (value : bytes) : option (Z * bytes) :=
  match split_once x09 (trim value) with
  | None => None
  | Some (pid, process) =>
      let process := trim process in
      if process =s [] then None
      else match parse_unsigned 10 u32_max (trim pid) with Some pid => Some (pid, process) | None => None end
  end.

Fixpoint lsof_lines (expected : bytes) (pid : option Z) (process : option bytes) (ls : list bytes) :
    option (Z * bytes) :=
  match ls with
  | [] => None
  | l :: ls =>
      match l with
      | b :: rest =>
          if b =b "p"%byte then lsof_lines expected (parse_unsigned 10 u32_max rest) process ls
          else if b =b "c"%byte then lsof_lines expected pid (Some rest) ls
          else if (b =b "n"%byte) && contains expected rest then
            match pid, process with
            | Some pid, Some process => Some (pid, process)
            | _, _ => lsof_lines expected pid None ls
            end
          else lsof_lines expected pid process ls
      | [] => lsof_lines expected pid process ls
      end
  end.

Definition parse_lsof_owner (value : bytes) (client listener : SocketAddr.t) : option (Z * bytes) :=
  lsof_lines (SocketAddr.to_string client ++ lit "->" ++ SocketAddr.to_string listener) None None (lines value).

(** /proc: files, the names in a directory, symbolic links. *)
Class Proc := {
  proc_read : bytes -> option bytes;
  proc_names : bytes -> option (list bytes);
  proc_link : bytes -> option bytes }.

Section Resolver.
Context `{Commands} `{Proc}.

(** [fs::read_to_string(path).ok()]. *)
Definition proc_text (path : bytes) : option bytes :=
  match proc_read path with Some contents => from_utf8 contents | None => None end.

Definition owns_socket (dir : bytes) (inode : Z) (descriptors : list bytes) : bool :=
  existsb (fun n => bool_decide (proc_link (Disk.join dir n) = Some (lit "socket:[" ++ dec inode ++ lit "]"))) descriptors.

Definition process_name (entry : bytes) : bytes :=
  match proc_text (Disk.join entry (lit "comm")) with
  | Some value => if trim value =s [] then lit "unknown" else trim value
  | None => lit "unknown"
  end.

Fixpoint find_owner (proc_root : bytes) (inode : Z) (names : list bytes) : option (Z * bytes) :=
  match names with
  | [] => None
  | n :: names =>
      let entry := Disk.join proc_root n in
      match parse_unsigned 10 u32_max (from_utf8_lossy n) with
      | None => find_owner proc_root inode names
      | Some pid =>
          match proc_names (Disk.join entry (lit "fd")) with
          | None => find_owner proc_root inode names
          | Some descriptors =>
              if owns_socket (Disk.join entry (lit "fd")) inode descriptors
              then Some (pid, process_name entry)
              else find_owner proc_root inode names
          end
      end
  end.

Definition table_inode (proc_root : bytes) (client listener : SocketAddr.t) (table : bytes) : option Z :=
  match proc_text (Disk.join (Disk.join proc_root (lit "net")) table) with
  | Some contents => find_linux_inode contents (SocketAddr.port client) (SocketAddr.port listener)
  | None => None
  end.

Definition resolve_linux (proc_root : bytes) (client listener : SocketAddr.t) : option (Z * bytes) :=
  match (match table_inode proc_root client listener (lit "tcp") with
         | Some i => Some i
         | None => table_inode proc_root client listener (lit "tcp6")
         end) with
  | None => None
  | Some inode =>
      match proc_names proc_root with
      | None => None
      | Some names => find_owner proc_root inode names
      end
  end.

Definition windows_script (client listener : SocketAddr.t) : bytes :=
  lit "$c=Get-NetTCPConnection -State Established -LocalAddress '" ++ IpAddr.to_string (SocketAddr.ip client)
  ++ lit "' -LocalPort " ++ dec (SocketAddr.port client) ++ lit " -RemoteAddress '"
  ++ IpAddr.to_string (SocketAddr.ip listener) ++ lit "' -RemotePort " ++ dec (SocketAddr.port listener)
  ++ lit " -ErrorAction SilentlyContinue | Select-Object -First 1; if($c){$p=Get-Process -Id $c.OwningProcess -ErrorAction SilentlyContinue; if($p){'{0}`t{1}' -f $c.OwningProcess,$p.ProcessName}}".

Definition resolve_windows (client listener : SocketAddr.t) (w : system) : option (Z * bytes) * system :=
  let '(o, w) := command_output (lit "powershell")
                   [lit "-NoProfile"; lit "-NonInteractive"; lit "-Command"; windows_script client listener] w in
  (match o with
   | Some output => if success output then parse_owner_line (from_utf8_lossy (stdout output)) else None
   | None => None
   end, w).

Definition resolve_macos (client listener : SocketAddr.t) (w : system) : option (Z * bytes) * system :=
  let '(o, w) := command_output (lit "lsof")
                   [lit "-nP"; lit "-a"; lit "-iTCP:" ++ dec (SocketAddr.port client);
                    lit "-sTCP:ESTABLISHED"; lit "-Fpcn"] w in
  (match o with
   | Some output =>
       if success output then parse_lsof_owner (from_utf8_lossy (stdout output)) client listener else None
   | None => None
   end, w).

Record Resolution := mkResolution { resolved : option ServiceIdentity; resolution_detail : bytes }.
Record ProcessResolver := mkResolver { resolver_platform : PlatformKind; resolver_service : option bytes; proc_root : bytes }.

Definition new_resolver (p : PlatformKind) (service : option bytes) (proc_root : bytes) : ProcessResolver :=
  mkResolver p (safe_label <$> service) proc_root.

(** The identity of an owner that was found, or of none. *)
Definition resolution (r : ProcessResolver) (owner : option (Z * bytes)) : Resolution :=
  match owner with
  | Some (pid, process) =>
      let process := safe_label process in
      let service := default process (resolver_service r) in
      mkResolution
        (Some (Identity.with_service (Identity.with_process (Identity.with_pid Identity.new pid) process) service))
        (lit "resolved")
  | None =>
      mkResolution
        ((fun service => Identity.with_service (Identity.with_process Identity.new (lit "unknown")) service)
           <$> resolver_service r)
        (match resolver_platform r with
         | Unsupported => lit "unsupported-platform"
         | _ => lit "owner-unavailable"
         end)
  end.

Definition resolve (r : ProcessResolver) (client listener : SocketAddr.t) (w : system) : Resolution * system :=
  let '(owner, w) :=
    match resolver_platform r with
    | Linux => (resolve_linux (proc_root r) client listener, w)
    | Windows => resolve_windows client listener w
    | MacOs => resolve_macos client listener w
    | Unsupported => (None, w)
    end in
  (resolution r owner, w).
End Resolver.
End Platform.
