(* ===== verification/PlatformFacts.v ===== *)
(** * PlatformFacts: what the operating-system adapters guarantee.

    Trust changes are confirmed by a second look at the store, driver records
    are read back exactly, and the names attached to connections are short
    lines of plain text. *)

From S2P Require Import Prelude RustStd RustText Disk Net Core Tls Platform.
Import Platform.
#[local] Open Scope lens_scope.

Module PlatformFacts.

(** ** Trust stores *)

Section Trust.
Context `{Commands}.

(** The status command tells whether the certificate is trusted and changes
    nothing, when it can be run at all. *)
Definition truthful (trusted : system -> bool) (s : UserTrustStore) : Prop :=
  forall spec w, status_command s = Some spec ->
  exists r, execute spec w = (r, w) /\ forall o, r = inl o -> success o = trusted w.

Lemma status_truthful trusted s w : truthful trusted s ->
  (status s w).2 = w
  /\ match state (status s w).1 with
     | Installed => trusted w = true
     | NotInstalled => trusted w = false
     | Unavailable => True
     end.
Proof.
  intros Ht. unfold status. destruct (status_command s) as [spec|] eqn:E; [|done].
  destruct (Ht spec w E) as (r & -> & Hr). destruct r as [o|e]; cbn [fst snd].
  - rewrite <- (Hr o eq_refl). by destruct (success o).
  - by destruct (Disk.kind e).
Qed.

Lemma install_checked_sound trusted s c w rep w' : truthful trusted s ->
  install_checked s c w = (Ok rep, w') -> state rep = Installed /\ trusted w' = true.
Proof.
  intros Ht. unfold install_checked. destruct (install_command s c) as [spec|]; [|done].
  destruct (run_required _ _ _) as [[u|e] w1]; [|done]. destruct (status s w1) as [r w2] eqn:Es.
  pose proof (status_truthful trusted s w1 Ht) as [Hw Hs]. rewrite Es in Hw, Hs. cbn [fst snd] in Hw, Hs. subst w2.
  case_bool_decide as Ei; [|done]. rewrite Ei in Hs. cbn [negb]. by intros [= <- <-].
Qed.

(** A successful installation leaves the certificate trusted.  A successful
    removal never leaves the report at installed; when it reports the
    certificate as absent the certificate is not trusted, and when it was
    absent to begin with nothing was changed.  Where no status can be had
    nothing is removed. *)
Theorem trust_verified (trusted : system -> bool) (s : UserTrustStore) :
  truthful trusted s ->
  (forall certificate w rep w', install s certificate w = (Ok rep, w') ->
     Disk.is_file (disk w) certificate = true /\ state rep = Installed /\ trusted w' = true)
  /\ (forall w rep w', uninstall s w = (Ok rep, w') ->
        state rep <> Installed
        /\ (state rep = NotInstalled -> trusted w' = false)
        /\ (trusted w = false -> w' = w /\ state rep = NotInstalled))
  /\ (forall w, state (status s w).1 = Unavailable -> exists e, uninstall s w = (Err e, w)).
Proof.
  intros Ht. split_and!.
  - intros c w rep w'. unfold install. destruct (Disk.is_file (disk w) c); cbn [negb]; [|done]. intros Hi. split; [done|].
    destruct (bool_decide (platform s = Linux)); [|by eapply install_checked_sound].
    destruct (initialize_linux_nss s w) as [[u|e] w1]; [|done]. by eapply install_checked_sound.
  - intros w rep w'. unfold uninstall. destruct (status s w) as [r1 w1] eqn:E1.
    pose proof (status_truthful trusted s w Ht) as [Hw1 Hs1]. rewrite E1 in Hw1, Hs1. cbn [fst snd] in Hw1, Hs1. subst w1.
    destruct (state r1) eqn:Est; [|intros [= <- <-]; rewrite Est; by repeat split|done].
    destruct (uninstall_command s) as [spec|]; [|done].
    destruct (run_required _ _ _) as [[u|e] w2]; [|done]. destruct (status s w2) as [r3 w3] eqn:E3.
    pose proof (status_truthful trusted s w2 Ht) as [Hw3 Hs3]. rewrite E3 in Hw3, Hs3. cbn [fst snd] in Hw3, Hs3. subst w3.
    case_bool_decide as Ei; [done|]. intros [= <- <-]. split; [done|]. split; [intros E; by rewrite E in Hs3|congruence].
  - intros w Hu. unfold uninstall. pose proof (status_truthful trusted s w Ht) as [Hw _].
    destruct (status s w) as [r w1]. cbn [fst snd] in Hu, Hw. rewrite Hu, Hw. by eexists.
Qed.
End Trust.

(** A current-user store that keeps its certificates in memory: [-addstore]
    and [-delstore] of Windows' certutil. *)
#[local] Instance memory_store : Commands := {|
  system := bool * Disk.t;
  disk := snd;
  set_disk w d := (w.1, d);
  run_program _ args w :=
    let ok b := inl (mkOutput b [] [] []) in
    if bool_decide (lit "-store" ∈ args) then (ok w.1, w)
    else if bool_decide (lit "-addstore" ∈ args) then (ok true, (true, w.2))
    else if bool_decide (lit "-delstore" ∈ args) then (ok true, (false, w.2))
    else (inr Disk.enoent, w) |}.

Definition demo_store : UserTrustStore := mkStore Windows (lit "C:").
Definition demo_disk : Disk.t := Disk.mk {[ lit "ca.pem" := Disk.File (lit "cert") 420 ]} 18 [].

Lemma memory_truthful : truthful (H := memory_store) fst demo_store.
Proof. intros spec w [= <-]. exists (inl (mkOutput w.1 [] [] [])). split; [done|]. by intros o [= <-]. Qed.

Lemma trust_verified_witness :
  exists rep w', install (H := memory_store) demo_store (lit "ca.pem") (false, demo_disk) = (Ok rep, w') /\ w'.1 = true
  /\ exists rep2 w2, uninstall (H := memory_store) demo_store w' = (Ok rep2, w2) /\ state rep2 <> Installed /\ w2.1 = false.
Proof.
  destruct (trust_verified (H := memory_store) fst demo_store memory_truthful) as (Hi & Hu & _).
  destruct (install (H := memory_store) demo_store (lit "ca.pem") (false, demo_disk)) as [r w'] eqn:Ei.
  assert (is_ok r = true) as Er by (apply (f_equal fst) in Ei; cbn [fst] in Ei; rewrite <- Ei; by vm_compute).
  destruct r as [rep|]; [|done]. destruct (Hi _ _ _ _ Ei) as (_ & _ & Ht). exists rep, w'. split; [done|]. split; [done|].
  assert (w' = (true, demo_disk)) as -> by (apply (f_equal snd) in Ei; cbn [snd] in Ei; rewrite <- Ei; by vm_compute).
  destruct (uninstall (H := memory_store) demo_store (true, demo_disk)) as [r2 w2] eqn:Eu.
  assert (r2 = Ok (mkReport Windows NotInstalled (lit "run `lens cert install` before inspecting HTTPS"))) as ->
    by (apply (f_equal fst) in Eu; cbn [fst] in Eu; rewrite <- Eu; by vm_compute).
  destruct (Hu _ _ _ Eu) as (Hs & Hn & _). eexists _, _. split; [done|]. split; [done|by apply Hn].
Defined.

(** ** Names of processes and services *)

(** A short line of text without control characters. *)
Definition label_ok (s : bytes) : Prop :=
  utf8_valid s = true /\ forallb (fun c => negb (is_control c)) (chars s) = true /\ (length (chars s) <= MAX_LABEL_CHARS)%nat.

Lemma Forall_split_on p s : utf8_valid s = true -> (forall b, p b = true -> is_ascii b = true) ->
  Forall (fun c => utf8_valid c = true) (split_on p s).
Proof.
  intros Hv Hp. revert Hv. induction s as [s IH] using (induction_ltof1 _ (@length byte)). unfold ltof in IH. intros Hv.
  destruct (existsb p s) eqn:Ex.
  - assert (exists l b t, s = l ++ b :: t /\ p b = true /\ split_on p s = l :: split_on p t) as (l & b & t & -> & Hb & ->).
    { clear -Ex. induction s as [|b s IH]; [done|]. cbn [existsb split_on] in *. destruct (p b) eqn:E.
      - by exists [], b, s.
      - destruct (IH Ex) as (l & c & t & -> & Hc & Hs). exists (b :: l), c, t. by rewrite Hs. }
    rewrite utf8_valid_split, andb_true_iff in Hv by auto. destruct Hv. constructor; [done|].
    apply IH; [|done]. rewrite length_app. cbn. lia.
  - assert (split_on p s = [s]) as ->; [|by apply Forall_singleton].
    clear -Ex. induction s as [|b s IH]; [done|]. cbn [existsb split_on] in *. apply orb_false_iff in Ex as [Hb Ex].
    by rewrite Hb, (IH Ex).
Qed.

Lemma path_file_name_valid s n : utf8_valid s = true -> path_file_name s = Some n -> utf8_valid n = true.
Proof.
  intros Hv. unfold path_file_name.
  pose proof (Forall_split_on (fun b => b =b "/"%byte) s Hv) as Hf.
  set (named := match split_on _ s with [] => [] | _ => _ end). intros Hn.
  assert (n ∈ named) as Hin.
  { destruct (rev named) as [|c cs] eqn:E; [done|]. assert (c = n) as <- by (destruct ((c =s lit ".") || (c =s lit "..")); congruence).
    rewrite list_elem_of_In, in_rev, E. by left. }
  assert (n ∈ split_on (fun b => b =b "/"%byte) s) as Hs.
  { unfold named in Hin. destruct (split_on _ s) as [|p ps]; [done|]. apply elem_of_app in Hin as [Hin|Hin];
      rewrite list_elem_of_In, filter_In, <- list_elem_of_In in Hin; destruct Hin as [Hin _].
    - apply list_elem_of_singleton in Hin as ->. by left.
    - by right. }
  specialize (Hf ltac:(by intros b ->%byte_eqb_eq)). rewrite List.Forall_forall in Hf. apply Hf. by rewrite <- list_elem_of_In.
Qed.

Lemma safe_label_ok s : utf8_valid s = true -> label_ok (safe_label s).
Proof.
  intros Hv. unfold safe_label. set (base := default s (path_file_name s)).
  assert (utf8_valid base = true) as Hb.
  { unfold base. destruct (path_file_name s) as [n|] eqn:E; [|done]. by eapply path_file_name_valid. }
  set (cs := take MAX_LABEL_CHARS _).
  assert (Forall (fun c => char_ok c /\ negb (is_control c) = true) cs) as Hcs.
  { apply Forall_take. pose proof (chars_ok base Hb) as Hok. rewrite List.Forall_forall in Hok |- *.
    intros c [Hin Hc]%filter_In. auto. }
  assert (length cs <= MAX_LABEL_CHARS)%nat as Hl by (unfold cs; rewrite length_take; lia). clearbody cs.
  destruct (trim_chars cs) as (i & k & ->); [eapply List.Forall_impl; [|exact Hcs]; by intros ? []|].
  assert (Forall (fun c => char_ok c /\ negb (is_control c) = true) (take k (drop i cs))) as Hmid
    by (by apply Forall_take, Forall_drop).
  assert (Forall char_ok (take k (drop i cs))) as Hok by (eapply List.Forall_impl; [|exact Hmid]; by intros ? []).
  split; [by apply utf8_valid_concat|]. rewrite chars_concat by done. split.
  - apply forallb_forall. rewrite List.Forall_forall in Hmid. intros c Hc. by apply Hmid.
  - rewrite length_take, length_drop. lia.
Qed.

Definition identity_ok (i : ServiceIdentity) : Prop :=
  (forall p, process i = Some p -> label_ok p) /\ (forall s, service i = Some s -> label_ok s).

Lemma resolution_ok r owner :
  (forall s, resolver_service r = Some s -> label_ok s) ->
  (forall pid p, owner = Some (pid, p) -> utf8_valid p = true) ->
  forall i, resolved (resolution r owner) = Some i -> identity_ok i.
Proof.
  intros Hs Ho i. destruct owner as [[pid p]|]; cbn [resolution resolved].
  - intros [= <-]. pose proof (safe_label_ok p (Ho _ _ eq_refl)) as Hl. split; cbn; intros x [= <-]; [done|].
    destruct (resolver_service r) as [s|]; cbn; auto.
  - destruct (resolver_service r) as [s|]; cbn; [|done]. intros [= <-]. split; cbn; intros x [= <-]; [|auto].
    split; [by vm_compute|]. split; [by vm_compute|]. unfold MAX_LABEL_CHARS. apply Nat.leb_le. by vm_compute.
Qed.
Lemma trim_valid s : utf8_valid s = true -> utf8_valid (trim s) = true.
Proof.
  intros Hv. rewrite <- (concat_chars s). destruct (trim_chars (chars s)) as (i & k & ->); [by apply chars_ok|].
  apply utf8_valid_concat. by apply Forall_take, Forall_drop, chars_ok.
Qed.

Lemma split_once_eq sep s a b : split_once sep s = Some (a, b) -> s = a ++ sep :: b.
Proof.
  revert a. induction s as [|c s IH]; intros a; cbn [split_once]; [done|]. destruct (c =b sep) eqn:E.
  - intros [= <- <-]. by apply byte_eqb_eq in E as ->.
  - destruct (split_once sep s) as [[x y]|]; [|done]. intros [= <- <-]. cbn. by rewrite (IH x).
Qed.

Lemma parse_owner_line_valid s pid p : utf8_valid s = true -> parse_owner_line s = Some (pid, p) -> utf8_valid p = true.
Proof.
  intros Hv%trim_valid. unfold parse_owner_line. destruct (split_once x09 (trim s)) as [[a b]|] eqn:E; [|done].
  apply split_once_eq in E. rewrite E, utf8_valid_split, andb_true_iff in Hv by done. destruct Hv as [_ Hb%trim_valid].
  repeat case_match; intros [= <- <-]. done.
Qed.

Lemma strip_cr_valid s : utf8_valid s = true -> utf8_valid (strip_cr s) = true.
Proof.
  intros Hv. unfold strip_cr. destruct (rev s) as [|b r] eqn:E; [done|]. destruct (b =b x0d) eqn:Eb; [|done].
  apply byte_eqb_eq in Eb as ->. apply (f_equal (@rev byte)) in E. rewrite rev_involutive in E. cbn in E. subst s.
  rewrite utf8_valid_split in Hv by done. by apply andb_true_iff in Hv as [Hv _].
Qed.

Lemma lines_valid s : utf8_valid s = true -> Forall (fun l => utf8_valid l = true) (lines s).
Proof.
  intros Hv. unfold lines. assert (Forall (fun l => utf8_valid l = true) (split_on (fun b => b =b x0a) s)) as Hp
    by (apply Forall_split_on; [done|by intros b ->%byte_eqb_eq]).
  induction Hp as [|l ls Hl _ IH]; [constructor|]. destruct ls as [|l' ls]; [destruct l; cbn [finish_lines]; [constructor|]|].
  - constructor; [done|constructor].
  - cbn [finish_lines]. constructor; [by apply strip_cr_valid|exact IH].
Qed.

Lemma lsof_lines_valid e ls : Forall (fun l => utf8_valid l = true) ls -> forall p c,
  (forall x, c = Some x -> utf8_valid x = true) -> forall pid x, lsof_lines e p c ls = Some (pid, x) -> utf8_valid x = true.
Proof.
  induction 1 as [|l ls Hl _ IH]; intros p c Hc pid x; cbn [lsof_lines]; [done|].
  destruct l as [|b rest]; [by apply IH|]. destruct (b =b "p"%byte); [by apply IH|].
  destruct (b =b "c"%byte) eqn:Eb.
  - apply IH. intros y [= <-]. apply byte_eqb_eq in Eb as ->.
    change ("c"%byte :: rest) with (["c"%byte] ++ rest) in Hl. by rewrite utf8_valid_app in Hl.
  - destruct ((b =b "n"%byte) && contains e rest); [|by apply IH].
    destruct p as [q|]; [|by apply IH]. destruct c as [y|]; [|by apply IH]. intros [= <- <-]. by apply Hc.
Qed.

Section Resolver.
Context `{Commands} `{Proc}.

Lemma find_owner_valid root inode names pid p : find_owner root inode names = Some (pid, p) -> utf8_valid p = true.
Proof.
  induction names as [|n names IH]; cbn [find_owner]; [done|]. repeat case_match; try done. intros [= <- <-].
  unfold process_name, proc_text. destruct (proc_read _) as [c|]; [|done]. unfold from_utf8.
  destruct (utf8_valid c) eqn:E; [|done]. case_match; [done|by apply trim_valid].
Qed.

(** Whatever the system answers, the process and service names that the
    process resolver finds are valid text of at most 128 characters, none of them a
    control character. *)
Theorem resolver_labels_safe (kind : PlatformKind) (label : option bytes) (root : bytes)
    (client listener : SocketAddr.t) (w : system) (i : ServiceIdentity) :
  (forall s, label = Some s -> utf8_valid s = true) ->
  resolved (resolve (new_resolver kind label root) client listener w).1 = Some i ->
  identity_ok i.
Proof.
  intros Hl. unfold resolve. set (owner := match resolver_platform _ with Linux => _ | _ => _ end).
  assert (forall pid p, owner.1 = Some (pid, p) -> utf8_valid p = true) as Ho.
  { intros pid p. unfold owner. destruct kind; cbn [new_resolver resolver_platform].
    - unfold resolve_windows. destruct (command_output _ _ _) as [[o|] w']; [|done]. cbn [fst].
      destruct (success o); [|done]. apply parse_owner_line_valid, lossy_valid.
    - unfold resolve_macos. destruct (command_output _ _ _) as [[o|] w']; [|done]. cbn [fst].
      destruct (success o); [|done]. unfold parse_lsof_owner.
      apply lsof_lines_valid; [apply lines_valid, lossy_valid|done].
    - cbn [fst]. unfold resolve_linux. repeat case_match; try done; apply find_owner_valid.
    - done. }
  destruct owner as [owner w']. cbn [fst] in *. apply resolution_ok; [|done].
  intros s. cbn [new_resolver resolver_service]. destruct label as [x|]; [|done]. intros [= <-]. apply safe_label_ok. by apply Hl.
Qed.
End Resolver.

(** A /proc with one process that holds one socket; its name has a control
    character. *)
#[local] Instance demo_proc : Proc := {|
  proc_read p :=
    if p =s lit "/proc/net/tcp" then
      Some (lit "sl" ++ [x0a] ++ lit "0: 0100007F:C350 0100007F:22B8 01 0:0 0:0 0 1000 0 777 1" ++ [x0a])
    else if p =s lit "/proc/42/comm" then Some (lit "cu" ++ [x1b] ++ lit "rl" ++ [x0a]) else None;
  proc_names p :=
    if p =s lit "/proc" then Some [lit "net"; lit "42"] else if p =s lit "/proc/42/fd" then Some [lit "3"] else None;
  proc_link p := if p =s lit "/proc/42/fd/3" then Some (lit "socket:[777]") else None |}.

Definition local (port : Z) : SocketAddr.t := SocketAddr.mk (IpAddr.V4 127 0 0 1) port 0.

Lemma resolver_labels_safe_witness :
  exists i, resolved (resolve (H := memory_store) (new_resolver Linux None (lit "/proc")) (local 50000) (local 8888) (false, demo_disk)).1 = Some i
  /\ process i = Some (lit "curl") /\ pid i = Some 42 /\ identity_ok i.
Proof.
  eexists. split; [by vm_compute|]. split; [done|]. split; [done|].
  eapply (resolver_labels_safe (H := memory_store) Linux None (lit "/proc") (local 50000) (local 8888) (false, demo_disk));
    [done|by vm_compute].
Defined.
End PlatformFacts.
