(* ===== verification/Driver.v ===== *)
(** * Driver: the redirecting driver that [lens-platform] talks to.

    The control requests and the connect classification of
    [drivers/windows/lens-wfp], over the packed records of
    [lens_wfp_shared.h]; what Windows answers to the driver's own calls is
    part of the input.  The theorems join both ends: the driver takes the
    configurations the proxy encodes, the proxy reads back the driver's status
    and the destination of every redirected connection. *)

From S2P Require Import Prelude RustStd Net Core Platform.
Import Platform.
#[local] Open Scope lens_scope.

Module Driver.

Definition header (size operation : Z) : bytes :=
  le_bytes 2 LENS_WFP_ABI_VERSION ++ le_bytes 2 size ++ le_bytes 4 operation.

(** [LensHeaderValid]. *)
Definition header_valid (record : bytes) (size operation : Z) : bool :=
  (field 0 2 record =? LENS_WFP_ABI_VERSION) && (field 2 2 record =? size) && (field 4 4 record =? operation).

(** The fields of [LENS_WFP_CONFIG]. *)
Definition config_proxy_pid := field 8 8.
Definition config_listen_port := field 16 2.
Definition config_flags := field 18 2.
Definition config_generation := field 20 4.
Definition config_session_nonce := field 24 8.

(** [LENS_WFP_STATUS] and [LENS_WFP_REDIRECT_CONTEXT], the fields the driver
    leaves at zero included. *)
Definition status_record (state generation redirected errors : Z) : bytes :=
  header STATUS_SIZE OP_STATUS ++ le_bytes 4 state ++ le_bytes 4 0 ++ le_bytes 8 generation
  ++ le_bytes 8 redirected ++ le_bytes 8 errors.

Definition context_record (family protocol : Z) (port address : bytes) (process_id generation : Z) : bytes :=
  header REDIRECT_CONTEXT_SIZE OP_REDIRECT_CONTEXT ++ le_bytes 2 family ++ le_bytes 1 protocol ++ le_bytes 1 0
  ++ port ++ le_bytes 2 0 ++ address ++ le_bytes 8 process_id ++ le_bytes 8 generation.

Record State := mkState { config : bytes; is_active : bool; redirected : Z; errors : Z }.

Definition write_config (s : State) (config : bytes) (active : bool) : State :=
  mkState config active (redirected s) (errors s).

Definition disable (s : State) : State := write_config s (repeat x00 32) false.

(** [InterlockedIncrement64]. *)
Definition count_redirect (s : State) : State :=
  mkState (config s) (is_active s) ((redirected s + 1) mod 2 ^ 64) (errors s).
Definition count_error (s : State) : State :=
  mkState (config s) (is_active s) (redirected s) ((errors s + 1) mod 2 ^ 64).

Inductive NtStatus :=
| STATUS_SUCCESS | STATUS_INVALID_DEVICE_REQUEST | STATUS_INVALID_PARAMETER | STATUS_OTHER (code : Z).
Inductive ControlCode := CONFIGURE | DISABLE | STATUS | UNKNOWN_CODE (code : Z).

(** A request, with the outcome of retrieving its buffer: a failure, or the
    length of the buffer. *)
Record Request := mkRequest { control_code : ControlCode; input : bytes; output_length : Z; retrieve : Z + Z }.

(** [LensEvtIoDeviceControl]: the completion status and the bytes returned. *)
Definition device_control (q : Request) (s : State) : NtStatus * bytes * State :=
  match control_code q with
  | CONFIGURE =>
      match retrieve q with
      | inl code => (STATUS_OTHER code, [], s)
      | inr length =>
          let c := input q in
          if (blen c =? CONFIG_SIZE) && (CONFIG_SIZE <=? length) && header_valid c CONFIG_SIZE OP_CONFIGURE
             && negb (config_proxy_pid c =? 0) && (config_proxy_pid c <=? u32_max)
             && negb (config_listen_port c =? 0) && negb (config_generation c =? 0)
             && negb (config_session_nonce c =? 0) && (config_flags c =? 0)
          then (STATUS_SUCCESS, [], write_config s c true)
          else (STATUS_INVALID_PARAMETER, [], s)
      end
  | DISABLE =>
      if blen (input q) =? 0 then (STATUS_SUCCESS, [], disable s) else (STATUS_INVALID_PARAMETER, [], s)
  | STATUS =>
      match retrieve q with
      | inl code => (STATUS_OTHER code, [], s)
      | inr length =>
          if (STATUS_SIZE <=? output_length q) && (STATUS_SIZE <=? length) then
            (STATUS_SUCCESS,
             status_record (if is_active s then 2 else 1) (config_generation (config s)) (redirected s) (errors s), s)
          else (STATUS_SUCCESS, [], s)
      end
  | UNKNOWN_CODE _ => (STATUS_INVALID_DEVICE_REQUEST, [], s)
  end.

Inductive Layer := LayerV4 | LayerV6 | OtherLayer.

(** A connection to classify, and what Windows grants the driver for it: the
    right to decide, a context, the classify handle, the writable layer data
    and the memory of the redirect context. *)
Record Connect := mkConnect {
  action_write : bool; has_context : bool; layer : Layer; protocol : Z; metadata_pid : option Z;
  handle_acquired : bool; data_acquired : bool; allocated : bool;
  remote_port : bytes; remote_address : bytes }.

(** Where a connection is sent instead: the loopback address of its family. *)
Record Redirect := mkRedirect { to_ : SocketAddr.t; target_pid : Z; context : bytes }.

Definition redirect (c : Connect) (process_id : Z) (s : State) : Redirect :=
  let port := config_listen_port (config s) in
  let generation := config_generation (config s) in
  let target := config_proxy_pid (config s) mod 2 ^ 32 in
  match layer c with
  | LayerV4 =>
      mkRedirect (SocketAddr.mk (IpAddr.V4 127 0 0 1) port 0) target
        (context_record 2 (protocol c) (remote_port c) (remote_address c ++ repeat x00 12) process_id generation)
  | _ =>
      mkRedirect (SocketAddr.mk (IpAddr.V6 [0; 0; 0; 0; 0; 0; 0; 1]) port 0) target
        (context_record 23 (protocol c) (remote_port c) (remote_address c) process_id generation)
  end.

(** [LensClassifyConnectRedirect]; without a redirection the connection is
    permitted as it is. *)
Definition classify (c : Connect) (s : State) : option Redirect * State :=
  if negb (action_write c) then (None, s)
  else if negb (is_active s) || negb (has_context c)
          || match layer c with OtherLayer => true | _ => false end
          || negb (protocol c =? 6) then (None, s)
  else
    let process_id := default 0 (metadata_pid c) in
    if (process_id =? 0) || (process_id =? config_proxy_pid (config s)) then (None, s)
    else if negb (handle_acquired c) then (None, count_error s)
    else if negb (data_acquired c) then (None, count_error s)
    else if negb (allocated c) then (None, count_error s)
    else (Some (redirect c process_id s), count_redirect s).
End Driver.

Module DriverFacts.
Import Driver.

(** ** Records *)

Lemma read_field n s off : (off + n <= length s)%nat -> read_le n s off = Ok (field off n s).
Proof. intros Hl. unfold read_le, read_array. by rewrite (proj2 (Nat.leb_le _ _) Hl). Qed.

(** The header of a record of the right length is accepted exactly when the
    driver would accept it too. *)
Lemma read_header_spec s size op : blen s = size -> 8 <= size ->
  read_header s size op = Ok tt <-> header_valid s size op = true.
Proof.
  intros Hl Hs. unfold read_header, header_valid, read_u16, read_u32.
  assert (8 <= length s)%nat as Hlen by (unfold blen in Hl; lia).
  rewrite Hl, Z.eqb_refl. rewrite (proj2 (Z.ltb_ge size ABI_HEADER_SIZE)) by (unfold ABI_HEADER_SIZE; lia). cbn [negb orb].
  rewrite !read_field by lia.
  destruct (field 0 2 s =? LENS_WFP_ABI_VERSION), (field 2 2 s =? size), (field 4 4 s =? op); cbn; by split.
Qed.

Lemma header_record size op rest : 0 <= size < 2 ^ 16 -> 0 <= op < 2 ^ 32 -> header_valid (header size op ++ rest) size op = true.
Proof.
  intros Hs Ho. unfold header_valid.
  change (field 0 2 (header size op ++ rest)) with (le_uint (le_bytes 2 LENS_WFP_ABI_VERSION)).
  change (field 2 2 (header size op ++ rest)) with (le_uint (le_bytes 2 size)).
  change (field 4 4 (header size op ++ rest)) with (le_uint (le_bytes 4 op)).
  rewrite !le_uint_le_bytes by (unfold LENS_WFP_ABI_VERSION; cbn; lia). by rewrite !Z.eqb_refl.
Qed.

(** Slicing a record of [n] bytes at its header. *)
Lemma header_of s size op : (8 <= length s)%nat -> header_valid s size op = true -> take 8 s = header size op.
Proof.
  intros Hl. unfold header_valid, header. rewrite !andb_true_iff, !Z.eqb_eq. intros [[Hv Hs] Ho].
  rewrite <- Hv, <- Hs, <- Ho. rewrite !field_bytes by lia.
  rewrite <- (take_drop 2 (take 8 s)), take_take, skipn_firstn_comm. f_equal.
  rewrite <- (take_drop 2 (take _ (drop 2 s))), take_take, skipn_firstn_comm, drop_drop. done.
Qed.

Definition status_ok (st : TransparentDriverStatus) : Prop :=
  0 <= driver_generation st < 2 ^ 64 /\ 0 <= redirected_connections st < 2 ^ 64 /\ 0 <= redirect_errors st < 2 ^ 64.

Lemma decode_status_record state g r e :
  state = 1 \/ state = 2 -> 0 <= g < 2 ^ 64 -> 0 <= r < 2 ^ 64 -> 0 <= e < 2 ^ 64 ->
  decode_status (status_record state g r e) = Ok (mkDriver (state =? 2) g r e).
Proof.
  intros Hst Hg Hr He. unfold decode_status.
  assert (read_header (status_record state g r e) STATUS_SIZE OP_STATUS = Ok tt) as ->.
  { apply read_header_spec; [done|done|]. by apply header_record. }
  assert (length (status_record state g r e) = 40%nat) as Hlen by done.
  unfold read_u32, read_u64. rewrite !read_field by (rewrite Hlen; lia). clear Hlen.
  change (field 8 4 _) with (le_uint (le_bytes 4 state)).
  change (field 12 4 _) with 0.
  change (field 16 8 _) with (le_uint (le_bytes 8 g)).
  change (field 24 8 _) with (le_uint (le_bytes 8 r)).
  change (field 32 8 _) with (le_uint (le_bytes 8 e)).
  rewrite !le_uint_le_bytes by (cbn; lia). by destruct Hst as [-> | ->].
Qed.
(** The proxy reads a status from exactly the records that state it, and reads
    what they state: 40 bytes, the header of a status, no flags, a state of 1
    or 2. *)
Theorem driver_status_exact (s : bytes) (st : TransparentDriverStatus) :
  decode_status s = Ok st
  <-> status_ok st
      /\ s = status_record (if active st then 2 else 1) (driver_generation st) (redirected_connections st) (redirect_errors st).
Proof.
  split.
  - unfold decode_status. destruct (read_header s STATUS_SIZE OP_STATUS) as [[]|] eqn:Hh; [|done].
    assert (blen s = STATUS_SIZE) as Hb.
    { unfold read_header in Hh. destruct (Z.eqb_spec (blen s) STATUS_SIZE); [done|by cbn [negb orb] in Hh]. }
    apply read_header_spec in Hh; [|done|done]. assert (length s = 40%nat) as Hl by (unfold blen, STATUS_SIZE in Hb; lia).
    unfold read_u32, read_u64. rewrite !read_field by (rewrite Hl; lia).
    destruct ((field 8 4 s =? 1) || (field 8 4 s =? 2)) eqn:Est; [|done]. cbn [negb].
    destruct (Z.eqb_spec (field 12 4 s) 0) as [Ef|]; [|done]. cbn [negb]. intros [= <-].
    cbn [active driver_generation redirected_connections redirect_errors]. split; [split_and!; apply field_range|].
    assert ((if field 8 4 s =? 2 then 2 else 1) = field 8 4 s) as ->.
    { destruct (Z.eqb_spec (field 8 4 s) 2), (Z.eqb_spec (field 8 4 s) 1); try done; lia. }
    unfold status_record. rewrite <- (header_of s) by (done || lia). rewrite <- Ef. rewrite !field_bytes by (rewrite Hl; lia).
    do 40 (destruct s as [|? s]; [done|]). by destruct s.
  - intros [(Hg & Hr & He) ->]. rewrite decode_status_record by (done || (destruct (active st); auto)).
    f_equal. destruct st as [[] g r e]; done.
Qed.

Lemma driver_status_exact_witness :
  decode_status (status_record 2 7 3 1) = Ok (mkDriver true 7 3 1).
Proof. apply driver_status_exact. split; [split_and!; cbn; lia|done]. Defined.

Lemma decode_context_record family (v6 : family = 2 \/ family = 23) port address pid g :
  length port = 2%nat -> length address = 16%nat -> 0 <= pid < 2 ^ 64 -> 0 <= g < 2 ^ 64 ->
  decode_context (context_record family 6 port address pid g)
  = Ok (mkContext (SocketAddr.mk (if family =? 2 then IpAddr.ipv4_of address else IpAddr.V6 (IpAddr.groups address)) (be_uint port) 0) pid g).
Proof.
  intros Hp Ha Hpid Hg. do 2 (destruct port as [|? port]; [done|]). destruct port; [|done].
  do 16 (destruct address as [|? address]; [done|]). destruct address; [|done].
  unfold decode_context. set (s := context_record _ _ _ _ _ _).
  assert (read_header s REDIRECT_CONTEXT_SIZE OP_REDIRECT_CONTEXT = Ok tt) as ->.
  { apply read_header_spec; [done|done|]. by apply header_record. }
  assert (length s = 48%nat) as Hl by done.
  unfold read_u16, read_u64. rewrite !read_field by (rewrite Hl; lia). unfold read_array.
  rewrite !(proj2 (Nat.leb_le _ _)) by (rewrite Hl; lia). unfold s.
  change (field 8 2 _) with (le_uint (le_bytes 2 family)).
  change (field 32 8 _) with (le_uint (le_bytes 8 pid)).
  change (field 40 8 _) with (le_uint (le_bytes 8 g)).
  rewrite !le_uint_le_bytes by (cbn; lia). by destruct v6 as [-> | ->].
Qed.
(** ** Sessions *)

(** The driver after any requests and connections since it was loaded. *)
Definition loaded : State := mkState (repeat x00 32) false 0 0.

Inductive reached : State -> Prop :=
| reached_loaded : reached loaded
| reached_control q s : reached s -> reached (device_control q s).2
| reached_classify c s : reached s -> reached (classify c s).2.

Record inv (s : State) : Prop := {
  inv_length : length (config s) = 32%nat;
  inv_redirected : 0 <= redirected s < 2 ^ 64;
  inv_errors : 0 <= errors s < 2 ^ 64;
  inv_active : is_active s = true -> config_listen_port (config s) <> 0 /\ 0 < config_proxy_pid (config s) <= u32_max;
  inv_idle : is_active s = false -> config s = repeat x00 32 }.

Lemma control_inv q s : inv s -> inv (device_control q s).2.
Proof.
  intros [Hl Hr He Ha Hi]. unfold device_control. destruct (control_code q).
  - destruct (retrieve q) as [|n]; [by split|].
    destruct (_ && _) eqn:E; [|by split]. rewrite !andb_true_iff, !negb_true_iff in E.
    destruct E as [[[[[[[[E1 _] _] E2] E3] E4] _] _] _]. cbn [snd]. split; try done; cbn [write_config config is_active].
    + unfold blen, CONFIG_SIZE in E1. lia.
    + intros _. pose proof (field_range 8 8 (input q)). unfold config_proxy_pid in *. lia.
  - destruct (blen (input q) =? 0); by split.
  - destruct (retrieve q); [by split|]. destruct (_ && _); by split.
  - by split.
Qed.

Lemma classify_inv c s : inv s -> inv (classify c s).2.
Proof.
  intros [Hl Hr He Ha Hi]. unfold classify. repeat case_match; cbn [snd]; try (by split); split; try done;
    cbn [count_error count_redirect redirected errors]; by apply Z.mod_pos_bound.
Qed.

Lemma reached_inv s : reached s -> inv s.
Proof. induction 1; [by split|by apply control_inv|by apply classify_inv]. Qed.

Lemma encode_fields c : 0 <= proxy_pid c < 2 ^ 64 -> 0 <= listen_port c < 2 ^ 16 -> 0 <= generation c < 2 ^ 32 ->
  0 <= session_nonce c < 2 ^ 64 ->
  length (encode c) = 32%nat /\ header_valid (encode c) CONFIG_SIZE OP_CONFIGURE = true
  /\ config_proxy_pid (encode c) = proxy_pid c /\ config_listen_port (encode c) = listen_port c
  /\ config_flags (encode c) = 0 /\ config_generation (encode c) = generation c
  /\ config_session_nonce (encode c) = session_nonce c.
Proof.
  intros Hp Hl Hg Hn.
  assert (encode c = header CONFIG_SIZE OP_CONFIGURE ++ le_bytes 8 (proxy_pid c) ++ le_bytes 2 (listen_port c)
                     ++ le_bytes 2 0 ++ le_bytes 4 (generation c) ++ le_bytes 8 (session_nonce c)) as -> by done.
  split_and!; [done|by apply header_record| | |done| |]; unfold config_proxy_pid, config_listen_port, config_generation, config_session_nonce.
  - change (field 8 8 _) with (le_uint (le_bytes 8 (proxy_pid c))). by rewrite le_uint_le_bytes.
  - change (field 16 2 _) with (le_uint (le_bytes 2 (listen_port c))). by rewrite le_uint_le_bytes.
  - change (field 20 4 _) with (le_uint (le_bytes 4 (generation c))). by rewrite le_uint_le_bytes.
  - change (field 24 8 _) with (le_uint (le_bytes 8 (session_nonce c))). by rewrite le_uint_le_bytes.
Qed.

(** A TCP connection as Windows describes it. *)
Definition connect_ok (q : Connect) : Prop :=
  length (remote_port q) = 2%nat
  /\ length (remote_address q) = (match layer q with LayerV4 => 4 | _ => 16 end)%nat
  /\ 0 <= default 0 (metadata_pid q) < 2 ^ 64.

Definition original (q : Connect) : SocketAddr.t :=
  SocketAddr.mk (match layer q with LayerV4 => IpAddr.ipv4_of (remote_address q) | _ => IpAddr.V6 (IpAddr.groups (remote_address q)) end)
    (be_uint (remote_port q)) 0.

Lemma redirect_read q pid s : connect_ok q -> protocol q = 6 -> default 0 (metadata_pid q) = pid ->
  decode_context (context (redirect q pid s)) = Ok (mkContext (original q) pid (config_generation (config s))).
Proof.
  intros (Hp & Ha & Hpid) Hsix <-. pose proof (field_range 20 4 (config s)) as Hg. cbn in Hg. unfold redirect, original.
  destruct (layer q); cbn [context]; rewrite Hsix, decode_context_record; try done; try lia; try (by unfold config_generation; lia);
    try (by rewrite length_app, Ha); try by auto.
  destruct (remote_address q) as [|? [|? [|? [|? []]]]]; done.
Qed.
(** C38. In every state the driver can reach: it takes each configuration the proxy
    builds and encodes (process ids have 32 bits) and works with its fields;
    each status it answers is read back as its own state; each redirection
    goes to the loopback port of the active configuration, never takes a
    connection of the proxy itself, and its context is read back as the
    original destination, process and generation. *)
Theorem driver_session (s : State) :
  reached s ->
  (forall pid port gen nonce c out n,
     0 <= pid <= u32_max -> 0 <= port < 2 ^ 16 -> 0 <= gen < 2 ^ 32 -> 0 <= nonce < 2 ^ 64 -> CONFIG_SIZE <= n ->
     new_config pid port gen nonce = Ok c ->
     let on := write_config s (encode c) true in
     device_control (mkRequest CONFIGURE (encode c) out (inr n)) s = (STATUS_SUCCESS, [], on)
     /\ config_proxy_pid (config on) = pid /\ config_listen_port (config on) = port /\ config_generation (config on) = gen)
  /\ (forall q answer, device_control q s = (STATUS_SUCCESS, answer, s) -> answer <> [] ->
        decode_status answer = Ok (mkDriver (is_active s) (config_generation (config s)) (redirected s) (errors s)))
  /\ (forall q r s', connect_ok q -> classify q s = (Some r, s') ->
        is_active s = true
        /\ SocketAddr.port (to_ r) = config_listen_port (config s) /\ SocketAddr.port (to_ r) <> 0
        /\ target_pid r = config_proxy_pid (config s)
        /\ exists pid, metadata_pid q = Some pid /\ pid <> config_proxy_pid (config s)
           /\ decode_context (context r) = Ok (mkContext (original q) pid (config_generation (config s)))).
Proof.
  intros [Hl Hr He Ha Hi]%reached_inv. split_and!.
  - intros pid port gen nonce c out n Hp Hport Hgen Hnonce Hn Hc.
    unfold new_config in Hc. destruct (Z.eqb_spec pid 0), (Z.eqb_spec port 0), (Z.eqb_spec gen 0), (Z.eqb_spec nonce 0); try done.
    injection Hc as <-. destruct (encode_fields (mkConfig pid port gen nonce)) as (Hlen & Hh & E1 & E2 & E3 & E4 & E5);
      cbn [proxy_pid listen_port generation session_nonce] in *; try done; [unfold u32_max in Hp; lia|].
    cbv zeta. cbn [write_config config]. rewrite E1, E2, E4. split; [|done].
    unfold device_control. cbn [control_code retrieve input]. rewrite Hh, E1, E2, E3, E4, E5.
    rewrite (proj2 (Z.eqb_eq (blen _) CONFIG_SIZE)) by (unfold blen; by rewrite Hlen).
    rewrite (proj2 (Z.leb_le CONFIG_SIZE n)), (proj2 (Z.leb_le pid u32_max)) by lia.
    rewrite !(proj2 (Z.eqb_neq _ _)) by done. done.
  - intros q answer E Hne. unfold device_control in E. repeat case_match; simplify_eq.
    all: rewrite decode_status_record; try done; auto; pose proof (field_range 20 4 (config s)) as Hg; cbn in Hg; unfold config_generation; lia.
  - intros q r s' Hq E. unfold classify in E. destruct (action_write q); cbn [negb] in E; [|done].
    destruct (is_active s) eqn:Eact; cbn [negb orb] in E; [|done]. specialize (Ha eq_refl).
    destruct (negb (has_context q) || _ || _) eqn:Eg; [done|]. rewrite !orb_false_iff in Eg. destruct Eg as [[_ Elayer] E6].
    apply negb_false_iff, Z.eqb_eq in E6.
    destruct ((default 0 (metadata_pid q) =? 0) || _) eqn:Ep; [done|]. rewrite orb_false_iff, !Z.eqb_neq in Ep. destruct Ep as [Ep0 Ep1].
    destruct (handle_acquired q); cbn [negb] in E; [|done]. destruct (data_acquired q); cbn [negb] in E; [|done].
    destruct (allocated q); cbn [negb] in E; [|done]. injection E as <- <-. split; [done|].
    assert (SocketAddr.port (to_ (redirect q (default 0 (metadata_pid q)) s)) = config_listen_port (config s)
            /\ target_pid (redirect q (default 0 (metadata_pid q)) s) = config_proxy_pid (config s)) as [-> ->].
    { unfold redirect. destruct (layer q); cbn [to_ target_pid SocketAddr.port];
        rewrite Z.mod_small by (unfold u32_max in Ha; lia); done. }
    split_and!; try done; try lia. destruct (metadata_pid q) as [pid|] eqn:Em; [|done]. cbn [default] in *.
    exists pid. split_and!; try done. apply redirect_read; try done. by rewrite Em.
Qed.

(** The proxy of process 4242 listens on port 8888; process 7 connects to
    192.0.2.1:443. *)
Definition demo_config : bytes := encode (mkConfig 4242 8888 5 99).
Definition demo_on : State := (device_control (mkRequest CONFIGURE demo_config 0 (inr 32)) loaded).2.
Definition demo_connect : Connect :=
  mkConnect true true LayerV4 6 (Some 7) true true true [x01; xbb] [xc0; x00; x02; x01].

Lemma driver_session_witness :
  exists r s', classify demo_connect demo_on = (Some r, s') /\ SocketAddr.port (to_ r) = 8888
  /\ decode_context (context r) = Ok (mkContext (SocketAddr.mk (IpAddr.V4 192 0 2 1) 443 0) 7 5).
Proof.
  destruct (classify demo_connect demo_on) as [[r|] s'] eqn:E; [|apply (f_equal fst) in E; by vm_compute in E].
  assert (reached demo_on) as Hr by (apply reached_control, reached_loaded).
  destruct (driver_session demo_on Hr) as (_ & _ & Hc).
  destruct (Hc demo_connect r s') as (_ & Hp & _ & _ & pid & Hpid & _ & Hd); [by repeat split; cbn; lia|done|].
  exists r, s'. split; [done|]. split; [rewrite Hp; by vm_compute|]. rewrite Hd. injection Hpid as <-. by vm_compute.
Defined.
End DriverFacts.
