(* ===== verification/Wfp.v ===== *)
(** * Wfp: the redirecting driver from load to unload, and the session with it.

    Module [Loading]: [DriverEntry] and unloading of [drivers/windows/lens-wfp],
    with the outcome of every call into Windows as input.  Module [Wfp]:
    [transparent/windows.rs] of [crates/lens-platform], which opens the driver,
    installs the dynamic filter policy, configures and checks the driver and
    takes everything back.  Windows is a parameter, class [Win32]; what is
    documented of the calls is [Win32Laws]. *)

From S2P Require Import Prelude RustStd Net Core Platform Driver.
#[local] Open Scope lens_scope.

Module Loading.
Import Driver.

(** What the driver holds: an unfinished initialization, the objects of the
    framework, the redirect handle and the callouts. *)
Inductive Resource :=
| DriverObject | DeviceInit | ControlDevice | SymbolicLink | IoQueue | RedirectHandle (h : Z) | Callout (id : Z).
#[global] Instance Resource_eq_dec : EqDecision Resource.
Proof. solve_decision. Defined.

(** [g_state], and the resources. *)
Record Globals := mkGlobals {
  state : Driver.State; callout_v4 : Z; callout_v6 : Z; redirect_handle : option Z; held : list Resource }.

Definition acquire (r : Resource) (g : Globals) : Globals :=
  mkGlobals (state g) (callout_v4 g) (callout_v6 g) (redirect_handle g) (r :: held g).
Definition release (r : Resource) (g : Globals) : Globals :=
  mkGlobals (state g) (callout_v4 g) (callout_v6 g) (redirect_handle g) (List.filter (fun x => negb (bool_decide (x = r))) (held g)).
Definition set_callout_v4 (g : Globals) (id : Z) : Globals := mkGlobals (state g) id (callout_v6 g) (redirect_handle g) (held g).
Definition set_callout_v6 (g : Globals) (id : Z) : Globals := mkGlobals (state g) (callout_v4 g) id (redirect_handle g) (held g).
Definition set_handle (g : Globals) (h : option Z) : Globals := mkGlobals (state g) (callout_v4 g) (callout_v6 g) h (held g).

(** [RtlZeroMemory(&g_state, sizeof(g_state))]. *)
Definition zeroed : Globals := mkGlobals (mkState (repeat x00 32) false 0 0) 0 0 None [].

(** How the calls of loading turn out: [Some] is a failing status. *)
Record Outcomes := mkOutcomes {
  driver_create : option Z; init_allocated : bool; assign_name : option Z; device_create : option Z;
  symbolic_link : option Z; queue_create : option Z; handle_create : Z + Z; register_v4 : Z + Z; register_v6 : Z + Z }.

Definition STATUS_INSUFFICIENT_RESOURCES : Z := 0xC000009A.

(** [LensCreateControlDevice]; a device that was created takes the
    initialization over. *)
Definition create_control_device (o : Outcomes) (g : Globals) : option Z * Globals :=
  if negb (init_allocated o) then (Some STATUS_INSUFFICIENT_RESOURCES, g)
  else
    let g := acquire DeviceInit g in
    match assign_name o with
    | Some e => (Some e, release DeviceInit g)
    | None =>
        match device_create o with
        | Some e => (Some e, g)
        | None =>
            let g := acquire ControlDevice (release DeviceInit g) in
            match symbolic_link o with
            | Some e => (Some e, g)
            | None =>
                let g := acquire SymbolicLink g in
                match queue_create o with
                | Some e => (Some e, g)
                | None => (None, acquire IoQueue g)
                end
            end
        end
    end.

(** [LensRegisterCallout]. *)
Definition register_callout (r : Z + Z) (set : Globals -> Z -> Globals) (g : Globals) : option Z * Globals :=
  match r with inl e => (Some e, g) | inr id => (None, acquire (Callout id) (set g id)) end.

Definition destroy_handle (g : Globals) : Globals :=
  match redirect_handle g with Some h => release (RedirectHandle h) g | None => g end.
Definition unregister (id : Z) (g : Globals) : Globals := release (Callout id) g.

(** [DriverEntry]: the failing status, if any. *)
Definition driver_entry (o : Outcomes) : option Z * Globals :=
  let g := zeroed in
  match driver_create o with
  | Some e => (Some e, g)
  | None =>
      match create_control_device o (acquire DriverObject g) with
      | (Some e, g) => (Some e, g)
      | (None, g) =>
          match handle_create o with
          | inl e => (Some e, g)
          | inr h =>
              let g := acquire (RedirectHandle h) (set_handle g (Some h)) in
              match register_callout (register_v4 o) set_callout_v4 g with
              | (Some e, g) => (Some e, set_handle (destroy_handle g) None)
              | (None, g) =>
                  match register_callout (register_v6 o) set_callout_v6 g with
                  | (Some e, g) =>
                      let g := set_callout_v4 (unregister (callout_v4 g) g) 0 in
                      (Some e, set_handle (destroy_handle g) None)
                  | (None, g) => (None, g)
                  end
              end
          end
      end
  end.

(** [LensEvtDriverUnload]. *)
Definition driver_unload (g : Globals) : Globals :=
  let g := mkGlobals (Driver.disable (state g)) (callout_v4 g) (callout_v6 g) (redirect_handle g) (held g) in
  let g := if negb (callout_v6 g =? 0) then unregister (callout_v6 g) g else g in
  let g := if negb (callout_v4 g =? 0) then unregister (callout_v4 g) g else g in
  destroy_handle g.

(** Requests and connections between loading and unloading. *)
Inductive served : Globals -> Globals -> Prop :=
| served_none g : served g g
| served_control q g g' :
    served (mkGlobals (device_control q (state g)).2 (callout_v4 g) (callout_v6 g) (redirect_handle g) (held g)) g' -> served g g'
| served_classify c g g' :
    served (mkGlobals (classify c (state g)).2 (callout_v4 g) (callout_v6 g) (redirect_handle g) (held g)) g' -> served g g'.

(** The objects of the framework, which it deletes with the driver. *)
Definition framework (r : Resource) : bool :=
  match r with DriverObject | ControlDevice | SymbolicLink | IoQueue => true | _ => false end.
Definition leftover (g : Globals) : list Resource := List.filter (fun r => negb (framework r)) (held g).

Lemma served_keeps g g' :
  served g g' -> held g' = held g /\ callout_v4 g' = callout_v4 g /\ callout_v6 g' = callout_v6 g /\ redirect_handle g' = redirect_handle g.
Proof. by induction 1. Qed.

(** C37. Loading the driver is all or nothing: when it fails no callout, no
    redirect handle and no name stays behind, but for the initialization of
    the device, which leaks exactly when the device could not be created from
    it; when it succeeds the driver is idle, and unloading it after any
    requests and connections releases all it held and leaves it idle.
    Callouts have identifiers other than zero. *)
Theorem driver_lifecycle (o : Outcomes) :
  (forall id, register_v4 o = inr id -> id <> 0) -> (forall id, register_v6 o = inr id -> id <> 0) ->
  let '(failed, g) := driver_entry o in
  is_active (state g) = false
  /\ match failed with
     | Some _ =>
         callout_v4 g = 0 /\ callout_v6 g = 0 /\ redirect_handle g = None
         /\ leftover g = (if match driver_create o, assign_name o, device_create o with None, None, Some _ => init_allocated o | _, _, _ => false end
                          then [DeviceInit] else [])
     | None => forall g', served g g' -> leftover (driver_unload g') = [] /\ is_active (state (driver_unload g')) = false
     end.
Proof.
  intros H4 H6. unfold driver_entry, create_control_device, register_callout.
  destruct (driver_create o); [done|]. destruct (init_allocated o); [|destruct (assign_name o), (device_create o); done].
  cbn [negb]. destruct (assign_name o); [done|]. destruct (device_create o); [done|]. destruct (symbolic_link o); [done|].
  destruct (queue_create o); [done|]. destruct (handle_create o) as [|h]; [done|].
  destruct (register_v4 o) as [|id4].
  { split; [done|]. unfold leftover, destroy_handle. cbn. by rewrite bool_decide_eq_true_2. }
  destruct (register_v6 o) as [|id6].
  { split; [done|]. unfold leftover, destroy_handle, unregister. cbn. repeat (case_bool_decide; cbn; try done). }
  specialize (H4 id4 eq_refl). specialize (H6 id6 eq_refl). split; [done|]. intros g' (Eh & E4 & E6 & Er)%served_keeps. cbn in *.
  unfold driver_unload, destroy_handle, unregister, leftover. cbn. rewrite E6, (proj2 (Z.eqb_neq _ _) H6). cbn.
  rewrite E4, (proj2 (Z.eqb_neq _ _) H4). cbn. rewrite Er. cbn. rewrite Eh. split; [|done].
  repeat (case_bool_decide; cbn; try done).
Qed.

Definition loads : Outcomes := mkOutcomes None true None None None None (inr 5) (inr 7) (inr 8).

Lemma driver_lifecycle_witness : leftover (driver_unload (driver_entry loads).2) = [].
Proof.
  pose proof (driver_lifecycle loads ltac:(by intros id [= <-]) ltac:(by intros id [= <-])) as [_ H].
  by apply H, served_none.
Defined.
End Loading.

Module Wfp.
Import Platform Driver.

Definition PROVIDER_KEY : Z := 0x5623e61bb8d44c98a3796fee58f42c10.
Definition CALLOUT_V4_KEY : Z := 0xc3aefc98e96745bf9cda86b6d84369f4.
Definition CALLOUT_V6_KEY : Z := 0x6c557e87754d4dc986cfc2131ce8c0d5.
Definition SUBLAYER_KEY : Z := 0x4d34a9926aed4d709bd83e75f3c42239.
Definition FILTER_V4_KEY : Z := 0x5d1fa442480a4e06b8a57a195d724ab9.
Definition FILTER_V6_KEY : Z := 0x04ab74bad2244ed2bee153e5e1d7c8af.

Definition FILE_READ_WRITE_ACCESS : Z := 3.
Definition METHOD_BUFFERED : Z := 0.
Definition DEVICE_TYPE : Z := 0x8337.
Definition ctl_code (function : Z) : Z :=
  Z.lor (Z.lor (Z.lor (Z.shiftl DEVICE_TYPE 16) (Z.shiftl FILE_READ_WRITE_ACCESS 14)) (Z.shiftl function 2)) METHOD_BUFFERED.
Definition IOCTL_CONFIGURE : Z := ctl_code 0x900.
Definition IOCTL_DISABLE : Z := ctl_code 0x901.
Definition IOCTL_STATUS : Z :=
  Z.lor (Z.lor (Z.lor (Z.shiftl DEVICE_TYPE 16) (Z.shiftl 1 14)) (Z.shiftl 0x902 2)) METHOD_BUFFERED.

(** [CTL_CODE] and the codes of [lens_wfp_shared.h], as the driver compares
    them. *)
Definition CTL_CODE (device function method access : Z) : Z :=
  Z.lor (Z.lor (Z.lor (Z.shiftl device 16) (Z.shiftl access 14)) (Z.shiftl function 2)) method.
Definition control_of (code : Z) : ControlCode :=
  if code =? CTL_CODE 0x8337 0x900 0 3 then CONFIGURE
  else if code =? CTL_CODE 0x8337 0x901 0 3 then DISABLE
  else if code =? CTL_CODE 0x8337 0x902 0 1 then STATUS
  else UNKNOWN_CODE code.

(** The objects of the filter policy, with the keys that tie them together. *)
Inductive PolicyObject :=
| Provider (key : Z) (name : bytes)
| Sublayer (key provider : Z) (name : bytes) (weight : Z)
| CalloutObject (key provider : Z) (layer : Layer) (name : bytes)
| Filter (key provider : Z) (layer : Layer) (sublayer : Z) (name : bytes) (ip_protocol : Z)
    (permit_if_unregistered : bool) (terminating_callout : Z).

(** [FWPM_SESSION0]: the session of the filter engine that is asked for. *)
Record EngineSession := mkEngineSession { session_name : bytes; session_flags : Z; txn_wait_timeout_ms : Z }.
Definition FWPM_SESSION_FLAG_DYNAMIC : Z := 0x1.
Definition RPC_C_AUTHN_WINNT : Z := 10.

(** [GENERIC_READ | GENERIC_WRITE], [OPEN_EXISTING], [FILE_ATTRIBUTE_NORMAL]. *)
Definition GENERIC_READ_WRITE : Z := Z.lor 0x80000000 0x40000000.
Definition OPEN_EXISTING : Z := 3.
Definition FILE_ATTRIBUTE_NORMAL : Z := 0x80.

(** The calls into Windows: [inl] is the error code of a call that fails; a
    code other than zero for those of the filter engine. *)
Class Win32 := {
  kernel : Type;
  CreateFileW (path : bytes) (access share disposition attributes : Z) : kernel -> (Z + Z) * kernel;
  CloseHandle : Z -> kernel -> kernel;
  DeviceIoControl : Z -> Z -> bytes -> Z -> kernel -> (Z + bytes) * kernel;
  FwpmEngineOpen (authentication : Z) (session : EngineSession) : kernel -> Z * Z * kernel;
  FwpmEngineClose : Z -> kernel -> kernel;
  FwpmTransactionBegin (engine flags : Z) : kernel -> Z * kernel;
  FwpmTransactionCommit : Z -> kernel -> Z * kernel;
  FwpmTransactionAbort : Z -> kernel -> kernel;
  FwpmAdd : Z -> PolicyObject -> kernel -> Z * kernel;
  query_redirect_context : Z -> Z -> kernel -> (Z + bytes) * kernel;
  os_error : Z -> bytes }.

Section Calls.
Context `{Win32}.

Definition win32 (operation : string) (code : Z) : result unit :=
  if code =? 0 then Ok tt
  else Err (lit operation ++ lit " failed (0x" ++ List.concat (map hex2 (be_bytes 4 code)) ++ lit ")").

Definition last_error (operation : string) (code : Z) : bytes :=
  lit operation ++ lit " failed (" ++ os_error code ++ lit ")".

(** A call of the filter engine. *)
Definition engine_call (operation : string) (f : kernel -> Z * kernel) : call kernel unit := fun w =>
  let '(code, w) := f w in (win32 operation code, w).

Record WindowsWfpSession := mkSession { device : Z; engine : Z }.

Definition open_device : call kernel Z := fun w =>
  match CreateFileW (lit "\\.\LensWfp") GENERIC_READ_WRITE 0 OPEN_EXISTING FILE_ATTRIBUTE_NORMAL w with
  | (inr h, w) => (Ok h, w)
  | (inl e, w) => (Err (last_error "open Lens WFP driver; install and start the signed driver first" e), w)
  end.

Definition engine_session : EngineSession :=
  mkEngineSession (lit "Lens transparent session") FWPM_SESSION_FLAG_DYNAMIC 5000.

Definition open_engine : call kernel Z := fun w =>
  let '(code, handle, w) := FwpmEngineOpen RPC_C_AUTHN_WINNT engine_session w in
  (let? _u := win32 "open WFP engine" code in Ok handle, w).

Definition add_callout (s : WindowsWfpSession) (key : Z) (layer : Layer) (name : string) : call kernel unit :=
  engine_call "add WFP callout" (FwpmAdd (engine s) (CalloutObject key PROVIDER_KEY layer (lit name))).

Definition add_filter (s : WindowsWfpSession) (key callout_key : Z) (layer : Layer) (name : string) : call kernel unit :=
  engine_call "add WFP filter"
    (FwpmAdd (engine s) (Filter key PROVIDER_KEY layer SUBLAYER_KEY (lit name) 6 true callout_key)).

Definition add_policy_objects (s : WindowsWfpSession) : call kernel unit :=
  let* _u := engine_call "add WFP provider" (FwpmAdd (engine s) (Provider PROVIDER_KEY (lit "Lens transparent provider"))) in
  let* _u := engine_call "add WFP sublayer"
               (FwpmAdd (engine s) (Sublayer SUBLAYER_KEY PROVIDER_KEY (lit "Lens transparent redirect") 0x100)) in
  let* _u := add_callout s CALLOUT_V4_KEY LayerV4 "Lens IPv4 connect redirect" in
  let* _u := add_callout s CALLOUT_V6_KEY LayerV6 "Lens IPv6 connect redirect" in
  let* _u := add_filter s FILTER_V4_KEY CALLOUT_V4_KEY LayerV4 "Lens IPv4 transparent TCP" in
  add_filter s FILTER_V6_KEY CALLOUT_V6_KEY LayerV6 "Lens IPv6 transparent TCP".

Definition install_dynamic_policy (s : WindowsWfpSession) : call kernel unit :=
  let* _u := engine_call "begin WFP transaction" (FwpmTransactionBegin (engine s) 0) in
  fun w =>
    match add_policy_objects s w with
    | (Err e, w) => (Err e, FwpmTransactionAbort (engine s) w)
    | (Ok _, w) => engine_call "commit WFP transaction" (FwpmTransactionCommit (engine s)) w
    end.

Definition ioctl_input (s : WindowsWfpSession) (code : Z) (record : bytes) : call kernel unit := fun w =>
  match DeviceIoControl (device s) code record 0 w with
  | (inr _, w) => (Ok tt, w)
  | (inl e, w) => (Err (last_error "configure WFP driver" e), w)
  end.

Definition ioctl_output (s : WindowsWfpSession) (code size : Z) : call kernel bytes := fun w =>
  match DeviceIoControl (device s) code [] size w with
  | (inr returned, w) =>
      (if negb (blen returned =? size) then Err (lit "WFP driver returned an unexpected record size") else Ok returned, w)
  | (inl e, w) => (Err (last_error "query WFP driver" e), w)
  end.

Definition driver_status (s : WindowsWfpSession) : call kernel TransparentDriverStatus :=
  let* record := ioctl_output s IOCTL_STATUS STATUS_SIZE in fun w => (decode_status record, w).

(** [Drop]. *)
Definition drop_session (s : WindowsWfpSession) (w : kernel) : kernel :=
  let '(_, w) := DeviceIoControl (device s) IOCTL_DISABLE [] 0 w in
  FwpmEngineClose (engine s) (CloseHandle (device s) w).

(** The steps of [activate] that drop the session when they fail. *)
Definition configure (s : WindowsWfpSession) (config : TransparentConfig) : call kernel unit :=
  let* _u := install_dynamic_policy s in
  let* _u := ioctl_input s IOCTL_CONFIGURE (encode config) in
  let* status := driver_status s in fun w =>
    (if negb (active status) || negb (driver_generation status =? generation config)
     then Err (lit "WFP driver did not acknowledge the active generation") else Ok tt, w).

Definition activate (config : TransparentConfig) : call kernel WindowsWfpSession :=
  let* device := open_device in fun w =>
    match open_engine w with
    | (Err e, w) => (Err e, CloseHandle device w)
    | (Ok engine, w) =>
        let s := mkSession device engine in
        match configure s config w with
        | (Err e, w) => (Err e, drop_session s w)
        | (Ok _, w) => (Ok s, w)
        end
    end.

Definition redirect_context (raw_socket : Z) : call kernel RedirectContext := fun w =>
  match query_redirect_context raw_socket REDIRECT_CONTEXT_SIZE w with
  | (inl e, w) => (Err (lit "query WFP redirect context failed (" ++ dec e ++ lit ")"), w)
  | (inr returned, w) =>
      (if negb (blen returned =? REDIRECT_CONTEXT_SIZE) then Err (lit "WFP redirect context has an unexpected size")
       else decode_context returned, w)
  end.

(** ** What Windows keeps for the process *)

(** Device handles, the engine sessions with their flags, and the policy
    objects with the session that added them: of open transactions, and in
    force. *)
Record Ledger := mkLedger {
  devices : list Z; engines : list (Z * Z); pending : list (Z * PolicyObject); policy : list (Z * PolicyObject) }.
Definition nothing_open : Ledger := mkLedger [] [] [] [].

Definition closed (h : Z) (hs : list Z) : list Z := List.filter (fun x => negb (x =? h)) hs.
Definition without {A} (h : Z) (xs : list (Z * A)) : list (Z * A) := List.filter (fun x => negb (fst x =? h)) xs.
Definition of_session {A} (h : Z) (xs : list (Z * A)) : list (Z * A) := List.filter (fun x => fst x =? h) xs.

(** Whether a session is open as a dynamic one. *)
Definition is_dynamic (h : Z) (sessions : list (Z * Z)) : bool :=
  existsb (fun x => (fst x =? h) && negb (Z.land (snd x) FWPM_SESSION_FLAG_DYNAMIC =? 0)) sessions.

Definition settings (s : Driver.State) : bytes * bool := (Driver.config s, is_active s).

(** Documented behaviour of the calls.  A control request reaches the driver
    or fails before it; between requests the driver classifies connections,
    which leaves its settings.  Objects are added within a transaction of their
    session.  Closing a session aborts its transaction; what it put in force is
    deleted when the session is dynamic, and stays otherwise. *)
Class Win32Laws (driver : kernel -> Driver.State) (ledger : kernel -> Ledger) : Prop := {
  law_create p a s d t w : let '(r, w') := CreateFileW p a s d t w in
    settings (driver w') = settings (driver w) /\ let l := ledger w in
    ledger w' = match r with inr h => mkLedger (h :: devices l) (engines l) (pending l) (policy l) | inl _ => l end;
  law_close h w : let w' := CloseHandle h w in
    settings (driver w') = settings (driver w) /\ let l := ledger w in
    ledger w' = mkLedger (closed h (devices l)) (engines l) (pending l) (policy l);
  law_ioctl h code input n w : let '(r, w') := DeviceIoControl h code input n w in
    ledger w' = ledger w
    /\ ((settings (driver w') = settings (driver w) /\ exists e, r = inl e)
        \/ exists s retrieve, settings s = settings (driver w) /\
           let '(status, answer, s') := device_control (mkRequest (control_of code) input n retrieve) s in
           settings (driver w') = settings s'
           /\ match status with STATUS_SUCCESS => r = inr answer | _ => exists e, r = inl e end);
  law_engine_open a s w : let '(code, h, w') := FwpmEngineOpen a s w in
    settings (driver w') = settings (driver w) /\ let l := ledger w in
    ledger w' = if code =? 0 then mkLedger (devices l) ((h, session_flags s) :: engines l) (pending l) (policy l) else l;
  law_engine_close h w : let w' := FwpmEngineClose h w in
    settings (driver w') = settings (driver w) /\ let l := ledger w in
    ledger w' = mkLedger (devices l) (without h (engines l)) (without h (pending l))
                  (if is_dynamic h (engines l) then without h (policy l) else policy l);
  law_begin h f w : let '(code, w') := FwpmTransactionBegin h f w in
    settings (driver w') = settings (driver w) /\ let l := ledger w in
    ledger w' = if code =? 0 then mkLedger (devices l) (engines l) (without h (pending l)) (policy l) else l;
  law_add h o w : let '(code, w') := FwpmAdd h o w in
    settings (driver w') = settings (driver w) /\ let l := ledger w in
    ledger w' = if code =? 0 then mkLedger (devices l) (engines l) (pending l ++ [(h, o)]) (policy l) else l;
  law_commit h w : let '(code, w') := FwpmTransactionCommit h w in
    settings (driver w') = settings (driver w) /\ let l := ledger w in
    ledger w' = if code =? 0 then mkLedger (devices l) (engines l) (without h (pending l)) (policy l ++ of_session h (pending l))
                else l;
  law_abort h w : let w' := FwpmTransactionAbort h w in
    settings (driver w') = settings (driver w) /\ let l := ledger w in
    ledger w' = mkLedger (devices l) (engines l) (without h (pending l)) (policy l) }.

Section Laws.
Context (driver : kernel -> Driver.State) (ledger : kernel -> Ledger) `{L : !Win32Laws driver ledger}.

(** Nothing is held and the driver redirects nothing. *)
Definition idle (w : kernel) : Prop := ledger w = nothing_open /\ is_active (driver w) = false.

(** Every object is owned by session [h]. *)
Definition owned (h : Z) (os : list PolicyObject) : list (Z * PolicyObject) := map (pair h) os.

Lemma owned_of h os : of_session h (owned h os) = owned h os.
Proof. induction os as [|o os IH]; [done|]. cbn. rewrite Z.eqb_refl. by f_equal. Qed.
Lemma owned_without h os : without h (owned h os) = [].
Proof. induction os as [|o os IH]; [done|]. cbn. by rewrite Z.eqb_refl. Qed.

(** The policy: both callouts, and for each a filter of TCP that ends there. *)
Definition lens_policy : list PolicyObject :=
  [Provider PROVIDER_KEY (lit "Lens transparent provider");
   Sublayer SUBLAYER_KEY PROVIDER_KEY (lit "Lens transparent redirect") 0x100;
   CalloutObject CALLOUT_V4_KEY PROVIDER_KEY LayerV4 (lit "Lens IPv4 connect redirect");
   CalloutObject CALLOUT_V6_KEY PROVIDER_KEY LayerV6 (lit "Lens IPv6 connect redirect");
   Filter FILTER_V4_KEY PROVIDER_KEY LayerV4 SUBLAYER_KEY (lit "Lens IPv4 transparent TCP") 6 true CALLOUT_V4_KEY;
   Filter FILTER_V6_KEY PROVIDER_KEY LayerV6 SUBLAYER_KEY (lit "Lens IPv6 transparent TCP") 6 true CALLOUT_V6_KEY].

(** Everything pending or in force belongs to session [h]. *)
Definition confined (h : Z) (l : Ledger) : Prop := without h (pending l) = [] /\ without h (policy l) = [].

Lemma without_app {A} h (xs ys : list (Z * A)) : without h (xs ++ ys) = without h xs ++ without h ys.
Proof. apply List.filter_app. Qed.
Lemma without_of {A} h (xs : list (Z * A)) : without h (of_session h xs) = [].
Proof. induction xs as [|x xs IH]; [done|]. cbn. destruct (fst x =? h) eqn:E; [cbn; by rewrite E|done]. Qed.

(** Calls on session [h] that hold on to the handles, leave the driver's
    settings and touch nothing of other sessions. *)
Definition quiet {A} (h : Z) (m : call kernel A) (pre : Ledger -> Prop) (post : A -> Ledger -> Prop) : Prop :=
  forall w, pre (ledger w) -> confined h (ledger w) ->
    settings (driver (m w).2) = settings (driver w)
    /\ devices (ledger (m w).2) = devices (ledger w) /\ engines (ledger (m w).2) = engines (ledger w)
    /\ confined h (ledger (m w).2) /\ forall a, (m w).1 = Ok a -> post a (ledger (m w).2).

Lemma quiet_bind {A B} h (m : call kernel A) (k : A -> call kernel B) pre mid post :
  quiet h m pre mid -> (forall a, quiet h (k a) (mid a) post) -> quiet h (let* a := m in k a) pre post.
Proof.
  intros Hm Hk w Hp Hc. destruct (Hm w Hp Hc) as (H1 & H2 & H3 & H4 & H5). unfold call_bind.
  destruct (m w) as [[a|e] w1]; cbn [fst snd] in *; [|done].
  destruct (Hk a w1 (H5 a eq_refl) H4) as (K1 & K2 & K3 & K4 & K5). split_and!; (congruence || done).
Qed.

Lemma win32_ok op code u : win32 op code = Ok u -> code = 0.
Proof. unfold win32. destruct (Z.eqb_spec code 0); done. Qed.

(** A call of the engine that changes the ledger by [f] when it succeeds. *)
Lemma quiet_call op h (g : kernel -> Z * kernel) f pre (post : Ledger -> Prop) :
  (forall w, let '(code, w') := g w in
     settings (driver w') = settings (driver w) /\ ledger w' = if code =? 0 then f (ledger w) else ledger w) ->
  (forall l, devices (f l) = devices l /\ engines (f l) = engines l /\ (confined h l -> confined h (f l))) ->
  (forall l, pre l -> confined h l -> post (f l)) ->
  quiet h (engine_call op g) pre (fun _ => post).
Proof.
  intros Hg Hf Hpost w Hp Hc. unfold engine_call. specialize (Hg w). destruct (g w) as [code w']. destruct Hg as [H1 H2].
  cbn [fst snd]. destruct (Hf (ledger w)) as (F1 & F2 & F3). rewrite H2. destruct (Z.eqb_spec code 0) as [->|Hn].
  - split_and!; auto.
  - split_and!; try done. by intros a Ha%win32_ok.
Qed.

Lemma quiet_add op h o os p :
  quiet h (engine_call op (FwpmAdd h o)) (fun l => pending l = owned h os /\ policy l = p)
    (fun _ l => pending l = owned h (os ++ [o]) /\ policy l = p).
Proof.
  apply (quiet_call op h _ (fun l => mkLedger (devices l) (engines l) (pending l ++ [(h, o)]) (policy l))); [apply law_add| |].
  - intros l. split; [done|]. split; [done|]. intros [C1 C2]. split; [|done]. cbn [pending]. rewrite without_app, C1. cbn. by rewrite Z.eqb_refl.
  - intros l [Hp <-] _. cbn. rewrite Hp. unfold owned. by rewrite map_app.
Qed.

Lemma quiet_policy s p :
  quiet (engine s) (add_policy_objects s) (fun l => pending l = owned (engine s) [] /\ policy l = p)
    (fun _ l => pending l = owned (engine s) lens_policy /\ policy l = p).
Proof. unfold add_policy_objects, add_callout, add_filter. do 5 (eapply quiet_bind; [apply quiet_add|intros ?]). apply quiet_add. Qed.

Lemma quiet_commit op h os p :
  quiet h (engine_call op (FwpmTransactionCommit h)) (fun l => pending l = owned h os /\ policy l = p)
    (fun _ l => policy l = p ++ owned h os).
Proof.
  apply (quiet_call op h _ (fun l => mkLedger (devices l) (engines l) (without h (pending l)) (policy l ++ of_session h (pending l))));
    [apply law_commit| |].
  - intros l. split; [done|]. split; [done|]. intros [C1 C2]. split; cbn [pending policy]; [by rewrite C1|].
    by rewrite without_app, C2, without_of.
  - intros l [Hp <-] _. cbn. by rewrite Hp, owned_of.
Qed.

Lemma quiet_install s p :
  quiet (engine s) (install_dynamic_policy s) (fun l => policy l = p) (fun _ l => policy l = p ++ owned (engine s) lens_policy).
Proof.
  unfold install_dynamic_policy. apply (quiet_bind _ _ _ _ (fun _ l => pending l = owned (engine s) [] /\ policy l = p)).
  - apply (quiet_call _ _ _ (fun l => mkLedger (devices l) (engines l) (without (engine s) (pending l)) (policy l))); [apply law_begin| |].
    + intros l. split; [done|]. split; [done|]. intros [C1 C2]. split; cbn [pending policy]; [by rewrite C1|done].
    + intros l <- [C1 C2]. by cbn.
  - intros _ w Hw Hc. destruct (quiet_policy s p w Hw Hc) as (K1 & K2 & K3 & K4 & K5).
    destruct (add_policy_objects s w) as [[[]|e] w1]; cbn [fst snd] in *.
    + destruct (quiet_commit "commit WFP transaction" (engine s) lens_policy p w1 (K5 tt eq_refl) K4) as (M1 & M2 & M3 & M4 & M5).
      split_and!; (congruence || done).
    + pose proof (law_abort (engine s) w1) as [H1 H2]. destruct K4 as [C1 C2]. split_and!; try congruence; rewrite H2; try done.
      split; cbn [pending policy]; [by rewrite C1|done].
Qed.

Lemma control_codes : control_of IOCTL_CONFIGURE = CONFIGURE /\ control_of IOCTL_DISABLE = DISABLE /\ control_of IOCTL_STATUS = STATUS.
Proof. done. Qed.

(** A configuration that was accepted is the driver's. *)
Lemma configured s record w w' u :
  ioctl_input s IOCTL_CONFIGURE record w = (Ok u, w') -> settings (driver w') = (record, true) /\ ledger w' = ledger w.
Proof.
  unfold ioctl_input. pose proof (law_ioctl (device s) IOCTL_CONFIGURE record 0 w) as Hl.
  destruct (DeviceIoControl _ _ _ _ w) as [[e|r] w1]; [done|]. intros [= _ <-]. destruct Hl as [Hg [[_ [e [=]]]|(st & re & _ & Hc)]].
  split; [|done]. unfold device_control in Hc. cbn [control_code input retrieve] in Hc. rewrite (proj1 control_codes) in Hc.
  destruct re as [code|n]; [by destruct Hc as [_ [? [=]]]|]. destruct (_ && _); [by destruct Hc as [-> _]|by destruct Hc as [_ [? [=]]]].
Qed.

Lemma status_quiet s w :
  settings (driver (driver_status s w).2) = settings (driver w) /\ ledger (driver_status s w).2 = ledger w.
Proof.
  unfold driver_status, ioctl_output, call_bind. pose proof (law_ioctl (device s) IOCTL_STATUS [] STATUS_SIZE w) as Hl.
  destruct (DeviceIoControl _ _ _ _ w) as [r w1]. destruct Hl as [Hg Hd].
  assert (settings (driver w1) = settings (driver w)) as Hs.
  { destruct Hd as [[Hs _]|(st & re & Hst & Hc)]; [done|]. unfold device_control in Hc. cbn [control_code retrieve] in Hc.
    rewrite (proj2 (proj2 control_codes)) in Hc. destruct re as [code|n]; [destruct Hc as [-> _]; done|].
    destruct (_ && _); destruct Hc as [-> _]; done. }
  destruct r as [e|r]; [done|]. by destruct (negb _).
Qed.

(** What [configure] leaves, whether it succeeds or not. *)
Lemma configure_spec s config w :
  confined (engine s) (ledger w) ->
  let '(r, w') := configure s config w in
  devices (ledger w') = devices (ledger w) /\ engines (ledger w') = engines (ledger w) /\ confined (engine s) (ledger w')
  /\ (r = Ok tt -> policy (ledger w') = policy (ledger w) ++ owned (engine s) lens_policy
                   /\ settings (driver w') = (encode config, true)).
Proof.
  intros Hconf. unfold configure, call_bind.
  destruct (quiet_install s (policy (ledger w)) w eq_refl Hconf) as (_ & H2 & H3 & Hc & H4).
  destruct (install_dynamic_policy s w) as [[[]|e] w1]; cbn [fst snd] in *; [|done]. specialize (H4 tt eq_refl).
  destruct (ioctl_input s IOCTL_CONFIGURE (encode config) w1) as [[u|e] w2] eqn:Ei.
  2: { unfold ioctl_input in Ei. pose proof (law_ioctl (device s) IOCTL_CONFIGURE (encode config) 0 w1) as Hl.
       destruct (DeviceIoControl _ _ _ _ w1) as [[e'|r] w3]; [|done]. injection Ei as _ <-. destruct Hl as [-> _]. done. }
  apply configured in Ei as [K1 K2]. destruct (status_quiet s w2) as [S1 S2].
  destruct (driver_status s w2) as [[status|e] w3]; cbn [fst snd] in *; rewrite S2, K2; [|done].
  destruct (_ || _); [done|]. split_and!; try done. intros _. split; [done|]. congruence.
Qed.

(** Requests to disable are delivered. *)
Definition disable_delivered : Prop := forall h w, exists answer, (DeviceIoControl h IOCTL_DISABLE [] 0 w).1 = inr answer.

(** No handle, no session, no object of the policy is left, and the driver is
    idle if the request to disable it is delivered. *)
Definition released (w : kernel) : Prop := ledger w = nothing_open /\ (disable_delivered -> is_active (driver w) = false).

Lemma closed_only h : closed h [h] = [].
Proof. unfold closed. cbn. by rewrite Z.eqb_refl. Qed.

(** Closing the handles of a dynamic session that owns everything. *)
Lemma drop_released s f w :
  Z.land f FWPM_SESSION_FLAG_DYNAMIC <> 0 ->
  devices (ledger w) = [device s] -> engines (ledger w) = [(engine s, f)] -> confined (engine s) (ledger w) ->
  released (drop_session s w).
Proof.
  intros Hf Hdev Heng [C1 C2]. unfold drop_session. pose proof (law_ioctl (device s) IOCTL_DISABLE [] 0 w) as Hl.
  destruct (DeviceIoControl _ _ _ _ w) as [r w1] eqn:Eio. destruct Hl as [Hg Hcase].
  pose proof (law_close (device s) w1) as [D1 D2]. set (w2 := CloseHandle (device s) w1) in *.
  pose proof (law_engine_close (engine s) w2) as [E1 E2]. cbv zeta in *. split.
  - rewrite E2, D2. cbn [devices engines pending policy]. rewrite Hg, Hdev, Heng, C1, C2, closed_only.
    unfold is_dynamic, without. cbn [existsb fst snd List.filter]. apply Z.eqb_neq in Hf. rewrite Z.eqb_refl, Hf. cbn. done.
  - intros Hd. destruct (Hd (device s) w) as [answer Ha]. rewrite Eio in Ha. cbn [fst] in Ha. subst r.
    destruct Hcase as [[_ [e [=]]]|(st & re & _ & Hc)].
    unfold device_control in Hc. cbn [control_code input] in Hc. rewrite (proj1 (proj2 control_codes)) in Hc.
    destruct Hc as [Hc _]. injection Hc as _ Hc. injection E1 as _ E1. injection D1 as _ D1. congruence.
Qed.

(** C36. The native session leaves nothing behind: starting from an idle system,
    whichever call fails, an activation that fails leaves every handle and
    every session of the filter engine closed and no object of the filter
    policy; one that succeeds leaves the driver active with exactly the
    configuration that was asked for and the complete policy in force, owned by
    one dynamic session, and dropping the session again leaves nothing.  The
    driver is then idle, provided that requests to disable it are delivered
    (nothing else turns it off). *)
Theorem wfp_session (config : TransparentConfig) (w : kernel) :
  idle w ->
  let '(r, w') := activate config w in
  match r with
  | Err _ => released w'
  | Ok s =>
      settings (driver w') = (encode config, true)
      /\ devices (ledger w') = [device s] /\ engines (ledger w') = [(engine s, 1)]
      /\ policy (ledger w') = owned (engine s) lens_policy
      /\ released (drop_session s w')
  end.
Proof.
  intros [Hi1 Hi2]. unfold activate, call_bind, open_device.
  pose proof (law_create (lit "\\.\LensWfp") GENERIC_READ_WRITE 0 OPEN_EXISTING FILE_ATTRIBUTE_NORMAL w) as Hc.
  destruct (CreateFileW _ _ _ _ _ w) as [[e|dev] w1]; destruct Hc as [C1 C2]; cbv zeta in C2; rewrite Hi1 in C2.
  { split; [done|]. intros _. injection C1 as _ C1. congruence. }
  unfold open_engine. pose proof (law_engine_open RPC_C_AUTHN_WINNT engine_session w1) as He.
  destruct (FwpmEngineOpen _ _ w1) as [[code eng] w2]. destruct He as [E1 E2]. cbv zeta in E2. rewrite C2 in E2.
  unfold win32. destruct (Z.eqb_spec code 0) as [->|Hcode].
  2: { pose proof (law_close dev w2) as [K1 K2]. cbv zeta in K2. split.
       - rewrite K2, E2. cbn [devices engines pending policy nothing_open]. by rewrite closed_only.
       - intros _. injection K1 as _ K1. injection E1 as _ E1. injection C1 as _ C1. congruence. }
  pose proof (configure_spec (mkSession dev eng) config w2) as Hs. rewrite E2 in Hs.
  destruct (configure (mkSession dev eng) config w2) as [[[]|e] w3]; destruct (Hs ltac:(done)) as (S1 & S2 & S3 & S4).
  - destruct (S4 eq_refl) as [S5 S6]. split_and!; try done. by apply (drop_released _ 1).
  - by apply (drop_released _ 1).
Qed.
End Laws.
End Calls.

(** ** Example: a Windows that grants every call, with the driver in it *)

Definition machine : Type := Driver.State * Ledger.
Definition noted (f : Ledger -> Ledger) (w : machine) : machine := (w.1, f w.2).

#[local] Instance granting : Win32 := {|
  kernel := machine;
  CreateFileW _ _ _ _ _ w := (inr 11, noted (fun l => mkLedger (11 :: devices l) (engines l) (pending l) (policy l)) w);
  CloseHandle h := noted (fun l => mkLedger (closed h (devices l)) (engines l) (pending l) (policy l));
  DeviceIoControl _ code input n w :=
    let '(status, answer, s) := device_control (mkRequest (control_of code) input n (inr (Z.max n (blen input)))) w.1 in
    (match status with STATUS_SUCCESS => inr answer | _ => inl 31 end, (s, w.2));
  FwpmEngineOpen _ s w := (0, 12, noted (fun l => mkLedger (devices l) ((12, session_flags s) :: engines l) (pending l) (policy l)) w);
  FwpmEngineClose h := noted (fun l => mkLedger (devices l) (without h (engines l)) (without h (pending l))
    (if is_dynamic h (engines l) then without h (policy l) else policy l));
  FwpmTransactionBegin h _ w := (0, noted (fun l => mkLedger (devices l) (engines l) (without h (pending l)) (policy l)) w);
  FwpmTransactionCommit h w := (0, noted (fun l =>
    mkLedger (devices l) (engines l) (without h (pending l)) (policy l ++ of_session h (pending l))) w);
  FwpmTransactionAbort h := noted (fun l => mkLedger (devices l) (engines l) (without h (pending l)) (policy l));
  FwpmAdd h o w := (0, noted (fun l => mkLedger (devices l) (engines l) (pending l ++ [(h, o)]) (policy l)) w);
  query_redirect_context _ _ w := (inl 10022, w);
  os_error code := dec code |}.

Definition machine_driver (w : kernel) : Driver.State := fst (w : machine).
Definition machine_ledger (w : kernel) : Ledger := snd (w : machine).

#[local] Instance granting_laws : Win32Laws machine_driver machine_ledger.
Proof.
  split; intros; cbn; try done.
  destruct (device_control _ w.1) as [[status answer] s] eqn:E. cbn. split; [done|]. right.
  eexists w.1, (inr _). split; [done|]. rewrite E. split; [done|]. destruct status; eauto.
Qed.

Definition demo_config : TransparentConfig := mkConfig 4242 8888 1 77.

Lemma wfp_session_witness :
  exists s w, activate demo_config (DriverFacts.loaded, nothing_open) = (Ok s, w)
  /\ settings (machine_driver w) = (encode demo_config, true) /\ policy (machine_ledger w) = owned (engine s) lens_policy
  /\ machine_ledger (drop_session s w) = nothing_open.
Proof.
  pose proof (wfp_session machine_driver machine_ledger demo_config (DriverFacts.loaded, nothing_open)) as H.
  assert (exists s w, activate demo_config (DriverFacts.loaded, nothing_open) = (Ok s, w)) as (s & w & E) by (do 2 eexists; by vm_compute).
  rewrite E in H. exists s, w. split; [done|].
  destruct H as (H1 & _ & _ & H2 & H3 & _); [done|]. done.
Defined.
End Wfp.
