(* ===== verification/Discovery.v ===== *)
(** * Discovery: processes behind connections, from the kernel.

    The record parser, the cache of recent connections and the polling session
    of [crates/lens-ebpf], with the probe that produces the records
    ([lens-discovery.bpf.c]).  The numbers of a record have the byte order of
    the machine, little-endian here; what the kernel answers to the loader and
    to the probe is part of the input. *)

From stdpp Require Import gmap.
From S2P Require Import Prelude RustStd RustText Disk Net Core.
#[local] Open Scope lens_scope.

Module Discovery.

Definition EVENT_SIZE : Z := 72.
Definition DEFAULT_CACHE_CAPACITY : Z := 4096.

Inductive DiscoveryError := InvalidEvent (detail : bytes) | Unavailable (detail : bytes) | Runtime (detail : bytes).

Definition DiscoveryError_display (e : DiscoveryError) : bytes :=
  match e with
  | InvalidEvent detail => lit "invalid eBPF event: " ++ detail
  | Unavailable detail => lit "eBPF discovery unavailable: " ++ detail
  | Runtime detail => lit "eBPF discovery failed: " ++ detail
  end.

Abbreviation outcome A := (A + DiscoveryError)%type.

Record ConnectionRecord := mkRecord {
  timestamp_nanos : Z; record_pid : Z; uid : Z; local : SocketAddr.t; remote : SocketAddr.t; record_process : bytes }.

Definition parse_endpoint (family : Z) (address : bytes) (port : Z) : outcome SocketAddr.t :=
  if family =? 2 then inl (SocketAddr.mk (IpAddr.ipv4_of address) port 0)
  else if family =? 10 then inl (SocketAddr.mk (IpAddr.V6 (IpAddr.groups address)) port 0)
  else inr (InvalidEvent (lit "unsupported address family " ++ dec family)).

(** [ConnectionRecord::parse]. *)
Definition parse (s : bytes) : outcome ConnectionRecord :=
  if negb (blen s =? EVENT_SIZE) then
    inr (InvalidEvent (lit "expected " ++ dec EVENT_SIZE ++ lit " bytes, received " ++ dec (blen s)))
  else
    let family := field 16 2 s in
    match parse_endpoint family (take 16 (drop 24 s)) (field 18 2 s) with
    | inr e => inr e
    | inl local =>
        match parse_endpoint family (take 16 (drop 40 s)) (field 20 2 s) with
        | inr e => inr e
        | inl remote =>
            let name := take 16 (drop 56 s) in
            let process_end := default 16%nat (position (fun b => b =b x00) name) in
            match from_utf8 (take process_end name) with
            | None => inr (InvalidEvent (lit "process name is not UTF-8"))
            | Some process => inl (mkRecord (field 0 8 s) (field 8 4 s) (field 12 4 s) local remote process)
            end
        end
    end.

Definition identity (r : ConnectionRecord) : ServiceIdentity :=
  Identity.with_service (Identity.with_process (Identity.with_pid Identity.new (record_pid r)) (record_process r)) (record_process r).

(** ** The cache *)

Record DiscoveryCache := mkCache { capacity : Z; records : list ConnectionRecord; evicted : Z }.

(** [DiscoveryCache::new]; a capacity of zero panics. *)
Definition new_cache (capacity : Z) : option DiscoveryCache :=
  if 0 <? capacity then Some (mkCache capacity [] 0) else None.

Definition insert (c : DiscoveryCache) (r : ConnectionRecord) (lens_pid : Z) : DiscoveryCache :=
  if record_pid r =? lens_pid then c
  else if blen (records c) =? capacity c then
    mkCache (capacity c) (drop 1 (records c) ++ [r]) (sat_add (evicted c) 1)
  else mkCache (capacity c) (records c ++ [r]) (evicted c).

Definition endpoints_match (discovered accepted : SocketAddr.t) : bool :=
  bool_decide (discovered = accepted)
  || ((SocketAddr.port discovered =? SocketAddr.port accepted) && IpAddr.is_unspecified (SocketAddr.ip discovered)
      && eqb (IpAddr.is_ipv4 (SocketAddr.ip discovered)) (IpAddr.is_ipv4 (SocketAddr.ip accepted))).

(** [iter().rposition(p)]. *)
Definition rposition {A} (p : A -> bool) (l : list A) : option nat :=
  match position p (rev l) with Some i => Some (length l - 1 - i)%nat | None => None end.

Definition take_identity (c : DiscoveryCache) (client : SocketAddr.t) : option ServiceIdentity * DiscoveryCache :=
  match rposition (fun r => endpoints_match (local r) client) (records c) with
  | None => (None, c)
  | Some index =>
      (identity <$> records c !! index,
       mkCache (capacity c) (take index (records c) ++ drop (S index) (records c)) (evicted c))
  end.

Definition cache_len (c : DiscoveryCache) : Z := blen (records c).
Definition is_empty (c : DiscoveryCache) : bool := match records c with [] => true | _ => false end.

(** ** Sessions *)

Record DiscoveryConfig := mkConfig { cgroup : bytes; config_capacity : Z; config_lens_pid : Z }.

Definition new_config (cgroup : bytes) (process_id : Z) : DiscoveryConfig :=
  mkConfig cgroup DEFAULT_CACHE_CAPACITY process_id.
Definition with_capacity (c : DiscoveryConfig) (capacity : Z) : DiscoveryConfig :=
  mkConfig (cgroup c) capacity (config_lens_pid c).

(** What the kernel and the loader answer, failures as text: opening the
    group, loading the probe, loading and attaching one of its programs if it
    has it, and the ring buffer with its pending events. *)
Record Kernel := mkKernel {
  open_cgroup : bytes -> Disk.io unit;
  load_probe : result unit;
  attach : bytes -> option (result unit);
  take_events : option (result (list bytes)) }.

Record DiscoverySession := mkSession {
  ring : list bytes; cache : DiscoveryCache; lens_pid : Z; invalid_events : Z }.

Definition attach_program (k : Kernel) (name : bytes) : outcome unit :=
  match attach k name with
  | None => inr (Runtime (lit "missing " ++ name))
  | Some (Err e) => inr (Runtime e)
  | Some (Ok _) => inl tt
  end.

Definition start (k : Kernel) (config : DiscoveryConfig) : outcome DiscoverySession :=
  if config_capacity config =? 0 then inr (Runtime (lit "cache capacity must be positive"))
  else
    match open_cgroup k (cgroup config) with
    | inr e => inr (Runtime (lit "open " ++ cgroup config ++ lit ": " ++ Disk.text e))
    | inl _ =>
        match load_probe k with
        | Err e => inr (Runtime e)
        | Ok _ =>
            match attach_program k (lit "lens_connect4") with
            | inr e => inr e
            | inl _ =>
                match attach_program k (lit "lens_connect6") with
                | inr e => inr e
                | inl _ =>
                    match attach_program k (lit "lens_established") with
                    | inr e => inr e
                    | inl _ =>
                        match take_events k with
                        | None => inr (Runtime (lit "missing EVENTS ring buffer"))
                        | Some (Err e) => inr (Runtime e)
                        | Some (Ok events) =>
                            inl (mkSession events (mkCache (config_capacity config) [] 0) (config_lens_pid config) 0)
                        end
                    end
                end
            end
        end
    end.

Definition receive (s : DiscoverySession) (item : bytes) : DiscoverySession * Z :=
  match parse item with
  | inl record => (mkSession (ring s) (insert (cache s) record (lens_pid s)) (lens_pid s) (invalid_events s), 1)
  | inr _ => (mkSession (ring s) (cache s) (lens_pid s) (sat_add (invalid_events s) 1), 0)
  end.

(** [poll(limit)]: how many events were accepted. *)
Fixpoint poll (limit : nat) (s : DiscoverySession) : Z * DiscoverySession :=
  match limit, ring s with
  | S limit, item :: rest =>
      let '(s, accepted) := receive (mkSession rest (cache s) (lens_pid s) (invalid_events s)) item in
      let '(more, s) := poll limit s in
      (accepted + more, s)
  | _, _ => (0, s)
  end.

(** The session of builds without the kernel interface. *)
Definition portable_start (config : DiscoveryConfig) : outcome DiscoverySession :=
  inr (Unavailable (lit "requires Linux, a cgroup v2 path, privilege to attach BPF programs, and a binary built with the `runtime` feature")).
Definition portable_poll (s : DiscoverySession) (limit : nat) : Z * DiscoverySession := (0, s).

(** ** The probe *)

Definition AF_INET : Z := 2.
Definition AF_INET6 : Z := 10.
Definition BPF_SOCK_OPS_ACTIVE_ESTABLISHED_CB : Z := 1.

Record Pending := mkPending {
  p_timestamp : Z; p_pid : Z; p_uid : Z; p_family : Z; p_remote_port : Z; p_remote_address : bytes; p_process : bytes }.

Record Probe := mkProbe { pending : gmap Z Pending; events : list bytes }.

(** [__builtin_bswap32(value) >> 16], truncated to 16 bits. *)
Definition network_port (value : Z) : Z := be_uint (take 2 (le_bytes 4 value)).

(** A call of [connect]: the cookie of its socket, the address as the program
    gave it, the time, the identities and the command of the process; whether
    the map had room. *)
Record ConnectCall := mkConnectCall {
  c_cookie : Z; c_family : Z; c_port : Z; c_address : bytes; c_time : Z; c_pid_tgid : Z; c_uid_gid : Z; c_comm : bytes;
  c_stored : bool }.

(** [remember]: an IPv4 address fills the first four bytes. *)
Definition remember (p : Probe) (c : ConnectCall) : Probe :=
  if c_cookie c =? 0 then p
  else
    let value := mkPending (c_time c) (Z.shiftr (c_pid_tgid c) 32 mod 2 ^ 32) (c_uid_gid c mod 2 ^ 32) (c_family c)
                   (network_port (c_port c))
                   (if c_family c =? AF_INET then take 4 (c_address c) ++ repeat x00 12 else take 16 (c_address c))
                   (c_comm c) in
    if c_stored c then mkProbe (<[c_cookie c := value]> (pending p)) (events p) else p.

(** A change of a socket's state: the local end, and the memory the ring
    buffer had for an event, if it had any. *)
Record SockOp := mkSockOp {
  o_op : Z; o_cookie : Z; o_local_port : Z; o_local_ip4 : bytes; o_local_ip6 : bytes; o_slot : option bytes }.

(** [struct connection_event]; the bytes of an IPv4 address behind the fourth
    are what the memory held. *)
Definition event_record (v : Pending) (o : SockOp) (slot : bytes) : bytes :=
  le_bytes 8 (p_timestamp v) ++ le_bytes 4 (p_pid v) ++ le_bytes 4 (p_uid v) ++ le_bytes 2 (p_family v)
  ++ le_bytes 2 (o_local_port o) ++ le_bytes 2 (p_remote_port v) ++ le_bytes 2 0
  ++ (if p_family v =? AF_INET then o_local_ip4 o ++ take 12 (drop 28 slot) else o_local_ip6 o)
  ++ p_remote_address v ++ p_process v.

Definition established (p : Probe) (o : SockOp) : Probe :=
  if negb (o_op o =? BPF_SOCK_OPS_ACTIVE_ESTABLISHED_CB) then p
  else
    match pending p !! o_cookie o with
    | None => p
    | Some v =>
        match o_slot o with
        | None => mkProbe (delete (o_cookie o) (pending p)) (events p)
        | Some slot => mkProbe (delete (o_cookie o) (pending p)) (events p ++ [event_record v o slot])
        end
    end.
End Discovery.
