(* ===== verification/DiscoveryFacts.v ===== *)
(** * DiscoveryFacts: the cache of connections, and attribution end to end. *)

From stdpp Require Import gmap.
From S2P Require Import Prelude RustStd RustText Disk Net Core Discovery.
Import Discovery.
#[local] Open Scope lens_scope.

Module DiscoveryFacts.

(** ** The cache *)

Definition none {A} (p : A -> bool) (l : list A) : Prop := Forall (fun x => p x = false) l.

Lemma position_split {A} (p : A -> bool) l :
  match position p l with
  | Some i => exists a x b, l = a ++ x :: b /\ length a = i /\ p x = true /\ none p a
  | None => none p l
  end.
Proof.
  induction l as [|x l IH]; cbn [position]; [constructor|]. destruct (p x) eqn:E; [exists [], x, l; by repeat constructor|].
  destruct (position p l) as [i|].
  - destruct IH as (a & y & b & -> & Hl & Hy & Ha). exists (x :: a), y, b. cbn [length app]. split_and!; try done; [lia|by constructor].
  - by constructor.
Qed.

Lemma rposition_split {A} (p : A -> bool) l :
  match rposition p l with
  | Some i => exists a x b, l = a ++ x :: b /\ length a = i /\ p x = true /\ none p b
  | None => none p l
  end.
Proof.
  unfold rposition. pose proof (position_split p (rev l)) as Hs. destruct (position p (rev l)) as [i|].
  - destruct Hs as (a & x & b & E & Hl & Hx & Ha). apply (f_equal (@rev A)) in E. rewrite rev_involutive, rev_app_distr in E.
    cbn [rev] in E. rewrite <- app_assoc in E. exists (rev b), x, (rev a). split; [exact E|]. split.
    + apply (f_equal length) in E. rewrite !length_app in E. cbn [length app] in E. rewrite !length_rev in *. lia.
    + split; [done|]. by apply Forall_rev.
  - apply Forall_rev in Hs. by rewrite rev_involutive in Hs.
Qed.

(** A lookup consumes the newest record of the client's address. *)
Lemma take_identity_newest c client :
  match take_identity c client with
  | (Some i, c') =>
      exists a r b, records c = a ++ r :: b /\ endpoints_match (local r) client = true
      /\ none (fun r => endpoints_match (local r) client) b
      /\ i = identity r /\ c' = mkCache (capacity c) (a ++ b) (evicted c)
  | (None, c') => c' = c /\ none (fun r => endpoints_match (local r) client) (records c)
  end.
Proof.
  unfold take_identity. pose proof (rposition_split (fun r => endpoints_match (local r) client) (records c)) as Hs.
  destruct (rposition _ _) as [i|]; [|done]. destruct Hs as (a & r & b & -> & <- & Hr & Hb).
  rewrite lookup_app_r, Nat.sub_diag, take_app_length by lia. cbn [lookup list_lookup fmap option_fmap option_map].
  exists a, r, b. split_and!; try done. f_equal. f_equal. rewrite drop_app_ge by lia.
  by replace (S (length a) - length a)%nat with 1%nat by lia.
Qed.

Inductive operation := Insert (r : ConnectionRecord) | Take (client : SocketAddr.t).

(** The cache and the identities that were taken from it. *)
Definition step (lens : Z) (st : DiscoveryCache * list ServiceIdentity) (o : operation) : DiscoveryCache * list ServiceIdentity :=
  match o with
  | Insert r => (insert st.1 r lens, st.2)
  | Take client => let '(i, c) := take_identity st.1 client in (c, st.2 ++ option_list i)
  end.
Definition operate (lens : Z) (os : list operation) (c : DiscoveryCache) : DiscoveryCache * list ServiceIdentity :=
  fold_left (step lens) os (c, []).

(** The records that were offered and are not the proxy's own. *)
Definition offered (lens : Z) (os : list operation) : list ConnectionRecord :=
  omap (fun o => match o with Insert r => if record_pid r =? lens then None else Some r | Take _ => None end) os.

(** The records in the cache were offered, in this order, and there are at
    most [n]; what was offered is in the cache, was taken or was evicted. *)
Record cache_inv (n : Z) (seen : list ConnectionRecord) (st : DiscoveryCache * list ServiceIdentity) : Prop := {
  ci_capacity : capacity st.1 = n;
  ci_bound : blen (records st.1) <= n;
  ci_sub : sublist (records st.1) seen;
  ci_taken : Forall (fun i => exists r, r ∈ seen /\ i = identity r) st.2;
  ci_count : blen seen <= u64_max -> blen seen = blen (records st.1) + blen st.2 + evicted st.1 }.

Lemma insert_inv n lens seen st r : 0 < n -> cache_inv n seen st ->
  cache_inv n (seen ++ (if record_pid r =? lens then [] else [r])) (step lens st (Insert r)).
Proof.
  intros Hn [Hc Hb Hs Ht Hk]. destruct st as [c taken]. cbn [fst snd step] in *. unfold insert.
  destruct (record_pid r =? lens); [by rewrite app_nil_r|].
  assert (Forall (fun i => exists r0, r0 ∈ seen ++ [r] /\ i = identity r0) taken) as Ht'.
  { eapply Forall_impl; [|exact Ht]. intros i (x & Hx & ->). exists x. rewrite elem_of_app. auto. }
  destruct (Z.eqb_spec (blen (records c)) (capacity c)) as [E|E]; split; cbn [fst snd records capacity evicted]; try done.
  - destruct (records c) as [|x l]; [unfold blen in *; cbn [length] in *; lia|]. rewrite blen_app. unfold blen in *. rewrite length_drop. cbn [length] in *. lia.
  - apply sublist_app; [|done]. etrans; [apply sublist_drop|done].
  - rewrite !blen_app. intros Hl. pose proof (blen_nonneg taken). pose proof (blen_nonneg seen).
    change (blen [r]) with 1 in *. specialize (Hk ltac:(lia)).
    assert (blen (drop 1 (records c)) = blen (records c) - 1) as ->.
    { unfold blen in *. rewrite length_drop. lia. }
    unfold sat_add. pose proof (blen_nonneg (records c)). lia.
  - rewrite blen_app. change (blen [r]) with 1. lia.
  - by apply sublist_app.
  - rewrite !blen_app. change (blen [r]) with 1. intros Hl. specialize (Hk ltac:(lia)). lia.
Qed.

Lemma take_inv n lens seen st client : cache_inv n seen st -> cache_inv n seen (step lens st (Take client)).
Proof.
  intros [Hc Hb Hs Ht Hk]. destruct st as [c taken]. cbn [fst snd step] in *.
  pose proof (take_identity_newest c client) as Hn. destruct (take_identity c client) as [[i|] c'].
  - destruct Hn as (a & r & b & E & _ & _ & -> & ->). rewrite E in *. split; cbn [fst snd records capacity evicted option_list].
    + done.
    + rewrite blen_app in *. unfold blen in *. cbn [length] in *. lia.
    + etrans; [|exact Hs]. apply sublist_app; [done|]. by constructor.
    + apply Forall_app. split; [done|]. constructor; [|constructor]. exists r. split; [|done].
      eapply elem_of_submseteq; [|by apply sublist_submseteq]. rewrite elem_of_app, elem_of_cons. auto.
    + intros Hl. specialize (Hk Hl). change (option_list (Some (identity r))) with [identity r]. rewrite !blen_app in *. unfold blen in *. cbn [length] in *. lia.
  - destruct Hn as [-> _]. cbn [option_list]. rewrite app_nil_r. by split.
Qed.

(** A cache of a given capacity, after any insertions and lookups: it never
    holds more records than that, nor any of the proxy itself; it holds a
    subsequence of what was offered, the identities handed out were all
    offered, and every record offered is still there, was handed out or was
    counted as evicted. *)
Theorem discovery_cache_bounded (n lens : Z) (c : DiscoveryCache) (os : list operation) :
  new_cache n = Some c ->
  cache_inv n (offered lens os) (operate lens os c)
  /\ Forall (fun r => record_pid r <> lens) (records (operate lens os c).1).
Proof.
  unfold new_cache. destruct (Z.ltb_spec 0 n) as [Hn|]; [|done]. intros [= <-].
  assert (cache_inv n (offered lens os) (operate lens os (mkCache n [] 0))) as Hi.
  { unfold operate. induction os as [|o os IH] using rev_ind; [split; cbn; try done; unfold blen; cbn; lia|].
    rewrite fold_left_app. cbn [fold_left]. unfold offered in *. rewrite omap_app. destruct o as [r|client].
    - cbn [omap list_omap]. pose proof (insert_inv n lens _ _ r Hn IH) as Hi. by destruct (record_pid r =? lens).
    - cbn [omap list_omap]. rewrite app_nil_r. by apply take_inv. }
  split; [done|]. apply Forall_forall. intros r Hr%list_elem_of_In.
  assert (r ∈ offered lens os) as Ho by (eapply elem_of_submseteq; [exact Hr|by apply sublist_submseteq, Hi]).
  unfold offered in Ho. rewrite list_elem_of_omap in Ho. destruct Ho as ([x|] & _ & E); [|done].
  destruct (Z.eqb_spec (record_pid x) lens); [done|]. by injection E as ->.
Qed.
(** ** From the probe to the proxy *)

(** Events of the probe that concern other sockets than [cookie]. *)
Inductive probe_event := Connecting (c : ConnectCall) | Changed (o : SockOp).
Definition probe_step (p : Probe) (e : probe_event) : Probe :=
  match e with Connecting c => remember p c | Changed o => established p o end.
Definition event_cookie (e : probe_event) : Z := match e with Connecting c => c_cookie c | Changed o => o_cookie o end.

Lemma probe_other cookie p e : event_cookie e <> cookie -> pending (probe_step p e) !! cookie = pending p !! cookie.
Proof.
  intros Hne. destruct e as [c|o]; cbn [probe_step event_cookie] in *.
  - unfold remember. destruct (c_cookie c =? 0), (c_stored c); try done. cbn [pending]. by rewrite lookup_insert_ne.
  - unfold established. repeat case_match; try done; cbn [pending]; by rewrite lookup_delete_ne.
Qed.

Lemma probe_others cookie es p : Forall (fun e => event_cookie e <> cookie) es ->
  pending (fold_left probe_step es p) !! cookie = pending p !! cookie.
Proof.
  intros Hes. revert p. induction Hes as [|e es He _ IH]; intros p; [done|]. cbn [fold_left]. by rewrite IH, probe_other.
Qed.

(** An address of a family as the kernel lays it out. *)
Definition address_ok (family : Z) (a : bytes) : Prop :=
  (family = AF_INET /\ length a = 4%nat) \/ (family = AF_INET6 /\ length a = 16%nat).
Definition address_of (family : Z) (a : bytes) : IpAddr.t :=
  if family =? AF_INET then IpAddr.ipv4_of a else IpAddr.V6 (IpAddr.groups a).

(** The command of a process: its name and at least one zero byte, 16 in all. *)
Definition comm_ok (name comm : bytes) : Prop :=
  length comm = 16%nat /\ utf8_valid name = true /\ none (fun b => b =b x00) name /\ exists zeros, comm = name ++ x00 :: zeros.

Definition connect_call_ok (c : ConnectCall) (name : bytes) : Prop :=
  c_cookie c <> 0 /\ c_stored c = true /\ address_ok (c_family c) (c_address c)
  /\ 0 <= c_time c < 2 ^ 64 /\ 0 <= c_pid_tgid c < 2 ^ 64 /\ 0 <= c_uid_gid c < 2 ^ 64
  /\ 0 <= c_port c < 2 ^ 16 /\ comm_ok name (c_comm c).

Definition sock_op_ok (o : SockOp) (slot : bytes) : Prop :=
  o_op o = BPF_SOCK_OPS_ACTIVE_ESTABLISHED_CB /\ 0 <= o_local_port o < 2 ^ 16
  /\ length (o_local_ip4 o) = 4%nat /\ length (o_local_ip6 o) = 16%nat /\ o_slot o = Some slot /\ length slot = 72%nat.

(** The record a connection must arrive as. *)
Definition expected (c : ConnectCall) (o : SockOp) (name : bytes) : ConnectionRecord :=
  mkRecord (c_time c) (Z.shiftr (c_pid_tgid c) 32) (c_uid_gid c mod 2 ^ 32)
    (SocketAddr.mk (address_of (c_family c) (if c_family c =? AF_INET then o_local_ip4 o else o_local_ip6 o)) (o_local_port o) 0)
    (SocketAddr.mk (address_of (c_family c) (c_address c)) (network_port (c_port c)) 0) name.

Lemma position_name name zeros : none (fun b => b =b x00) name ->
  position (fun b => b =b x00) (name ++ x00 :: zeros) = Some (length name).
Proof. induction 1 as [|b l Hb _ IH]; [done|]. cbn [app position length]. by rewrite Hb, IH. Qed.

(** Reading back the parts of an event. *)
Lemma parse_event time pid uid family lport rport local remote comm name :
  0 <= time < 2 ^ 64 -> 0 <= pid < 2 ^ 32 -> 0 <= uid < 2 ^ 32 -> family = AF_INET \/ family = AF_INET6 ->
  0 <= lport < 2 ^ 16 -> 0 <= rport < 2 ^ 16 -> length local = 16%nat -> length remote = 16%nat -> comm_ok name comm ->
  parse (le_bytes 8 time ++ le_bytes 4 pid ++ le_bytes 4 uid ++ le_bytes 2 family ++ le_bytes 2 lport ++ le_bytes 2 rport
         ++ le_bytes 2 0 ++ local ++ remote ++ comm)
  = inl (mkRecord time pid uid (SocketAddr.mk (address_of family local) lport 0) (SocketAddr.mk (address_of family remote) rport 0) name).
Proof.
  intros Ht Hp Hu Hf Hl Hr Hlen1 Hlen2 (Hc & Hv & Hn & zeros & Ec). unfold parse. set (s := le_bytes 8 time ++ _).
  assert (blen s = 72) as -> by (unfold blen, s; rewrite !length_app, !length_le_bytes, Hlen1, Hlen2, Hc; done).
  cbn [negb Z.eqb EVENT_SIZE Pos.eqb].
  assert (exists u, s = le_bytes 8 time ++ le_bytes 4 pid ++ le_bytes 4 uid ++ le_bytes 2 family ++ le_bytes 2 lport
            ++ le_bytes 2 rport ++ u) as [u Eu] by (by eexists).
  assert (field 0 8 s = time /\ field 8 4 s = pid /\ field 12 4 s = uid /\ field 16 2 s = family /\ field 18 2 s = lport
          /\ field 20 2 s = rport) as (-> & -> & -> & -> & -> & ->).
  { rewrite Eu. split_and!; [change (field 0 8 _) with (le_uint (le_bytes 8 time))|change (field 8 4 _) with (le_uint (le_bytes 4 pid))
      |change (field 12 4 _) with (le_uint (le_bytes 4 uid))|change (field 16 2 _) with (le_uint (le_bytes 2 family))
      |change (field 18 2 _) with (le_uint (le_bytes 2 lport))|change (field 20 2 _) with (le_uint (le_bytes 2 rport))];
    apply le_uint_le_bytes; try done. by destruct Hf as [-> | ->]. }
  assert (drop 24 s = local ++ remote ++ comm) as Hd by done.
  assert (take 16 (drop 24 s) = local) as -> by (by rewrite Hd, take_app_length').
  assert (take 16 (drop 40 s) = remote) as ->.
  { change (drop 40 s) with (drop 16 (drop 24 s)); rewrite Hd, drop_app_length' by done. by rewrite take_app_length'. }
  assert (take 16 (drop 56 s) = comm) as ->.
  { change (drop 56 s) with (drop 32 (drop 24 s)); rewrite Hd, app_assoc, drop_app_length' by (rewrite length_app; lia). by rewrite take_ge by lia. }
  rewrite Ec, position_name by done. change (default 16%nat (Some (length name))) with (length name). rewrite take_app_length. unfold from_utf8. rewrite Hv.
  unfold parse_endpoint, address_of, AF_INET, AF_INET6 in *. by destruct Hf as [-> | ->].
Qed.
Lemma network_port_range v : 0 <= network_port v < 2 ^ 16.
Proof. unfold network_port. apply (be_uint_bounds (take 2 (le_bytes 4 v))). Qed.

Lemma pid_range v : 0 <= v < 2 ^ 64 -> 0 <= Z.shiftr v 32 < 2 ^ 32.
Proof.
  intros Hv. rewrite Z.shiftr_div_pow2 by lia. split; [apply Z.div_pos; lia|]. apply Z.div_lt_upper_bound; lia.
Qed.

Lemma ipv4_of_app a t : length a = 4%nat -> IpAddr.ipv4_of (a ++ t) = IpAddr.ipv4_of a.
Proof. destruct a as [|? [|? [|? [|? []]]]]; done. Qed.

(** The event of an established connection. *)
Lemma established_event p c o name slot es :
  connect_call_ok c name -> sock_op_ok o slot -> o_cookie o = c_cookie c -> Forall (fun e => event_cookie e <> c_cookie c) es ->
  let p1 := fold_left probe_step es (remember p c) in
  exists event, events (established p1 o) = events p1 ++ [event] /\ parse event = inl (expected c o name)
  /\ pending (established p1 o) !! c_cookie c = None.
Proof.
  intros (Hck & Hst & Ha & Ht & Hp & Hu & Hport & Hcomm) (Hop & Hlp & H4 & H6 & Hs & Hsl) Hoc Hes p1.
  assert (pending p1 !! o_cookie o = pending (remember p c) !! c_cookie c) as E by (rewrite Hoc; by apply probe_others).
  unfold remember in E. rewrite (proj2 (Z.eqb_neq _ _) Hck), Hst in E. cbn [pending] in E. rewrite lookup_insert_eq in E.
  unfold established. rewrite Hop, Z.eqb_refl, E, Hs. cbn [negb events pending].
  eexists. split; [done|]. split; [|by rewrite <- Hoc, lookup_delete_eq].
  unfold event_record. cbn [p_timestamp p_pid p_uid p_family p_remote_port p_remote_address p_process].
  pose proof (pid_range _ Hp) as Hpid. rewrite (Z.mod_small (Z.shiftr (c_pid_tgid c) 32)) by done.
  unfold expected, address_of. destruct Ha as [[Hf Hal]|[Hf Hal]]; rewrite Hf.
  - rewrite (parse_event _ _ _ _ _ _ _ _ _ name); try done; auto using network_port_range.
    + unfold address_of. change (AF_INET =? AF_INET) with true. cbv iota. rewrite (take_ge (c_address c)) by lia. by rewrite !ipv4_of_app.
    + by apply Z.mod_pos_bound.
    + change (AF_INET =? AF_INET) with true. cbv iota. rewrite length_app, length_take, length_drop. lia.
    + change (AF_INET =? AF_INET) with true. cbv iota. rewrite length_app, length_take, repeat_length. lia.
  - rewrite (parse_event _ _ _ _ _ _ _ _ _ name); try done; auto using network_port_range.
    + unfold address_of. change (AF_INET6 =? AF_INET) with false. cbv iota. by rewrite (take_ge (c_address c)) by lia.
    + by apply Z.mod_pos_bound.
    + change (AF_INET6 =? AF_INET) with false. cbv iota. rewrite length_take. lia.
Qed.

(** Draining a ring that ends in [event] receives it last. *)
Lemma poll_last older event : forall limit s, ring s = older ++ [event] -> (length older < limit)%nat ->
  exists s1, (poll limit s).2 = (receive s1 event).1 /\ ring s1 = [] /\ lens_pid s1 = lens_pid s.
Proof.
  induction older as [|e older IH]; intros limit s Hr Hl; (destruct limit as [|limit]; [lia|]); cbn [poll]; rewrite Hr; cbn [app].
  - exists (mkSession [] (cache s) (lens_pid s) (invalid_events s)). split; [|done].
    destruct (receive _ event) as [s' n] eqn:E.
    assert (ring s' = []) as Hr' by (unfold receive in E; destruct (parse event); by injection E as <- <-).
    cbn [fst]. destruct limit as [|limit]; cbn [poll]; by rewrite ?Hr'.
  - destruct (receive _ e) as [s' n] eqn:E.
    assert (ring s' = older ++ [event] /\ lens_pid s' = lens_pid s) as [Hr' Hp]
      by (unfold receive in E; destruct (parse e); by injection E as <- <-).
    destruct (IH limit s' Hr') as (s1 & H1 & H2 & H3); [cbn in Hl; lia|]. exists s1.
    destruct (poll limit s') as [m s'']. cbn [snd] in *. by rewrite H3, Hp.
Qed.

Lemma take_inserted c r lens : record_pid r <> lens -> (take_identity (insert c r lens) (local r)).1 = Some (identity r).
Proof.
  intros Hp. assert (exists l, records (insert c r lens) = l ++ [r]) as [l El].
  { unfold insert. rewrite (proj2 (Z.eqb_neq _ _) Hp). destruct (_ =? _); by eexists. }
  assert (endpoints_match (local r) (local r) = true) as Hm by (unfold endpoints_match; by rewrite bool_decide_eq_true_2).
  pose proof (take_identity_newest (insert c r lens) (local r)) as Hn. rewrite El in Hn.
  destruct (take_identity _ _) as [[i|] c']; cbn [fst].
  - destruct Hn as (a & x & b & E & _ & Hb & -> & _). destruct b as [|y b] using rev_ind.
    + apply app_inj_tail in E as [_ ->]. done.
    + change (a ++ x :: b ++ [y]) with (a ++ (x :: b) ++ [y]) in E. rewrite app_assoc in E. apply app_inj_tail in E as [_ <-].
      apply Forall_app in Hb as [_ Hb]. inversion_clear Hb. congruence.
  - destruct Hn as [_ Hn]. apply Forall_app in Hn as [_ Hn]. inversion_clear Hn. congruence.
Qed.

(** C39. A connection that a process other than the proxy opens is attributed to
    it: whatever else the probe sees in between, its establishment puts one
    event on the ring, and once the session has drained the ring up to that
    event the address the proxy accepted resolves to the pid and the name of
    the process. *)
Theorem discovery_attributes (p : Probe) (c : ConnectCall) (o : SockOp) (name slot : bytes) (es : list probe_event) :
  connect_call_ok c name -> sock_op_ok o slot -> o_cookie o = c_cookie c -> Forall (fun e => event_cookie e <> c_cookie c) es ->
  let p1 := fold_left probe_step es (remember p c) in
  exists event,
    events (established p1 o) = events p1 ++ [event]
    /\ forall s older limit,
         ring s = older ++ [event] -> (length older < limit)%nat -> lens_pid s <> Z.shiftr (c_pid_tgid c) 32 ->
         (take_identity (cache (poll limit s).2) (local (expected c o name))).1
         = Some (mkIdentity (Some (Z.shiftr (c_pid_tgid c) 32)) (Some name) (Some name) None).
Proof.
  intros Hc Ho Hoc Hes p1. destruct (established_event p c o name slot es Hc Ho Hoc Hes) as (event & Ev & Hp & _).
  exists event. split; [done|]. intros s older limit Hr Hl Hne.
  destruct (poll_last older event limit s Hr Hl) as (s1 & -> & _ & Hpid). unfold receive. rewrite Hp. cbn [fst cache].
  rewrite take_inserted; [done|]. cbn. congruence.
Qed.

(** Process 42, named curl, connects from 127.0.0.1:50000 to port 8888. *)
Definition demo_comm : bytes := lit "curl" ++ repeat x00 12.
Definition demo_call : ConnectCall :=
  mkConnectCall 9 AF_INET 47138 [x7f; x00; x00; x01] 1000 (42 * 2 ^ 32 + 43) 5 demo_comm true.
Definition demo_op : SockOp := mkSockOp 1 9 50000 [x7f; x00; x00; x01] (repeat x00 16) (Some (repeat xff 72)).
Definition demo_probe : Probe := established (remember (mkProbe ∅ []) demo_call) demo_op.
Definition demo_session : DiscoverySession := mkSession (events demo_probe) (mkCache 2 [] 0) 77 0.

Lemma discovery_attributes_witness :
  (take_identity (cache (poll 8 demo_session).2) (SocketAddr.mk (IpAddr.V4 127 0 0 1) 50000 0)).1
  = Some (mkIdentity (Some 42) (Some (lit "curl")) (Some (lit "curl")) None)
  /\ network_port (c_port demo_call) = 8888.
Proof.
  split; [|by vm_compute].
  destruct (discovery_attributes (mkProbe ∅ []) demo_call demo_op (lit "curl") (repeat xff 72) []) as (event & E & H).
  - split_and!; try done; try (cbn; lia).
    + by left.
    + split_and!; try done; [by repeat constructor|by exists (repeat x00 11)].
  - by repeat split; cbn; try lia.
  - done.
  - constructor.
  - exact (H demo_session [] 8%nat E ltac:(cbn; lia) ltac:(done)).
Defined.

Lemma discovery_cache_bounded_witness :
  blen (records (operate 77 (repeat (Insert (expected demo_call demo_op (lit "curl"))) 5) (mkCache 2 [] 0)).1) <= 2.
Proof.
  apply (discovery_cache_bounded 2 77 (mkCache 2 [] 0) (repeat (Insert (expected demo_call demo_op (lit "curl"))) 5)).
  done.
Defined.
End DiscoveryFacts.
