(* ===== verification/Cli.v ===== *)
(** * Cli: the command line of [crates/lens-cli].

    The arguments, the configuration file and the environment, how they are
    resolved into one configuration, and the reports that show it.  A path is
    text; the operating system the program was built for, and its environment,
    are inputs. *)

From stdpp Require Import gmap.
From S2P Require Import Prelude RustStd RustText Disk Net Core Tls Platform Proxy.
#[local] Open Scope lens_scope.

Module Cli.

(** ** Errors *)

Inductive CliError :=
| MissingValue (name : bytes)
| UnknownCommand (command : bytes)
| UnknownOption (option : bytes)
| MultipleCommands
| OptionRequiresCommand (option command : bytes)
| InvalidValue (name value expected : bytes)
| ConfigRead (path source : bytes)
| ConfigNotFound (path : bytes)
| BindFailed (addr source : bytes)
| RuntimeFailed (source : bytes)
| ProxyFailed (source : bytes)
| Certificate (source : bytes)
| Trust (source : bytes)
| Terminal (source : bytes)
| ReplayError (source : bytes)
| PluginError (source : bytes)
| DiscoveryError (source : bytes)
| Export (path source : bytes).

Definition CliError_display (e : CliError) : bytes :=
  match e with
  | MissingValue name => lit "lens: missing value for " ++ name
  | UnknownCommand command => lit "lens: unknown command `" ++ command ++ lit "`"
  | UnknownOption option => lit "lens: unknown option `" ++ option ++ lit "`"
  | MultipleCommands => lit "lens: only one command can be run at a time"
  | OptionRequiresCommand option command =>
      lit "lens: " ++ option ++ lit " requires the `" ++ command ++ lit "` command"
  | InvalidValue name value expected =>
      lit "lens: invalid value for " ++ name ++ lit ": `" ++ value ++ lit "`; expected " ++ expected
  | ConfigRead path source => lit "lens: failed to read config " ++ path ++ lit ": " ++ source
  | ConfigNotFound path => lit "lens: config file not found: " ++ path
  | BindFailed addr source => lit "lens: failed to bind " ++ addr ++ lit ": " ++ source
  | RuntimeFailed source => lit "lens: failed to start runtime: " ++ source
  | ProxyFailed source => lit "lens: proxy session failed: " ++ source
  | Certificate source => lit "lens: certificate operation failed: " ++ source
  | Trust source => lit "lens: trust-store operation failed: " ++ source
  | Terminal source => lit "lens: terminal UI failed: " ++ source
  | ReplayError source => lit "lens replay: " ++ source
  | PluginError source => lit "lens plugin: " ++ source
  | DiscoveryError source => lit "lens discovery: " ++ source
  | Export path source => lit "lens: failed to safely export " ++ path ++ lit ": " ++ source
  end.

Abbreviation outcome A := (A + CliError)%type.

Notation "'let!' x := e 'in' k" :=
  (match e with inl x => k | inr error => inr error end)
  (at level 10, x name, e at level 200, k at level 200) : lens_scope.

Definition invalid {A} (name : string) (value : bytes) (expected : string) : outcome A :=
  inr (InvalidValue (lit name) value (lit expected)).

(** [Result::ok]. *)
Definition ok {A} (r : outcome A) : option A := match r with inl a => Some a | inr _ => None end.

(** ** Values of options *)

Inductive PluginAction := PluginInstall | PluginList | PluginRemove.

Definition parse_plugin_action (value : bytes) : outcome PluginAction :=
  if value =s lit "install" then inl PluginInstall
  else if value =s lit "list" then inl PluginList
  else if value =s lit "remove" then inl PluginRemove
  else invalid "plugin action" value "install, list, or remove".

Inductive ExportFormat := Json | Jsonl.

Definition ExportFormat_display (f : ExportFormat) : bytes :=
  match f with Json => lit "json" | Jsonl => lit "jsonl" end.

Definition parse_export_format (value : bytes) : outcome ExportFormat :=
  if value =s lit "json" then inl Json
  else if value =s lit "jsonl" then inl Jsonl
  else invalid "--export-format" value "json or jsonl".

Inductive CertAction := CertInstall | CertUninstall | CertStatus.

Definition CertAction_display (a : CertAction) : bytes :=
  match a with
  | CertInstall => lit "install"
  | CertUninstall => lit "uninstall"
  | CertStatus => lit "status"
  end.

Definition parse_cert_action (value : bytes) : outcome CertAction :=
  if value =s lit "install" then inl CertInstall
  else if value =s lit "uninstall" then inl CertUninstall
  else if value =s lit "status" then inl CertStatus
  else invalid "cert action" value "install, uninstall, or status".

Inductive DoctorCheck :=
| CheckAll | CheckConfig | CheckNetwork | CheckTrust | CheckPlatform | CheckTransparent | CheckPlugins | CheckDiscovery.
#[global] Instance DoctorCheck_eq_dec : EqDecision DoctorCheck.
Proof. solve_decision. Defined.

Definition parse_doctor_check (value : bytes) : outcome DoctorCheck :=
  if value =s lit "all" then inl CheckAll
  else if value =s lit "config" then inl CheckConfig
  else if value =s lit "network" then inl CheckNetwork
  else if value =s lit "trust" then inl CheckTrust
  else if value =s lit "platform" then inl CheckPlatform
  else if value =s lit "transparent" then inl CheckTransparent
  else if value =s lit "plugins" then inl CheckPlugins
  else if (value =s lit "discovery") || (value =s lit "ebpf") then inl CheckDiscovery
  else invalid "--check" value
         "all, config, network, trust, platform, transparent, plugins, or discovery".

Inductive ProxyMode := Explicit | Transparent.
#[global] Instance ProxyMode_eq_dec : EqDecision ProxyMode.
Proof. solve_decision. Defined.

Definition ProxyMode_display (m : ProxyMode) : bytes :=
  match m with Explicit => lit "explicit" | Transparent => lit "transparent" end.

Definition parse_mode (value : bytes) : outcome ProxyMode :=
  if value =s lit "explicit" then inl Explicit
  else if value =s lit "transparent" then inl Transparent
  else invalid "--mode" value "explicit or transparent".

Inductive TrafficProtocol := Http | Http2 | Grpc | Tcp | Postgres | Redis.
#[global] Instance TrafficProtocol_eq_dec : EqDecision TrafficProtocol.
Proof. solve_decision. Defined.

Definition TrafficProtocol_display (p : TrafficProtocol) : bytes :=
  match p with
  | Http => lit "http" | Http2 => lit "http2" | Grpc => lit "grpc"
  | Tcp => lit "tcp" | Postgres => lit "postgres" | Redis => lit "redis"
  end.

Definition parse_protocol (value : bytes) : outcome TrafficProtocol :=
  if value =s lit "http" then inl Http
  else if (value =s lit "http2") || (value =s lit "h2") then inl Http2
  else if value =s lit "grpc" then inl Grpc
  else if value =s lit "tcp" then inl Tcp
  else if (value =s lit "postgres") || (value =s lit "postgresql") then inl Postgres
  else if value =s lit "redis" then inl Redis
  else invalid "--protocol" value "http, http2, grpc, tcp, postgres, or redis".

Definition parse_https_mode (value : bytes) : outcome Proxy.HttpsMode :=
  if value =s lit "intercept" then inl Proxy.Intercept
  else if value =s lit "passthrough" then inl Proxy.Passthrough
  else if value =s lit "reject" then inl Proxy.Reject
  else invalid "--https" value "intercept, passthrough, or reject".

Definition parse_bool (value : bytes) : outcome bool :=
  if existsb (bytes_eqb value) [lit "true"; lit "1"; lit "yes"; lit "on"] then inl true
  else if existsb (bytes_eqb value) [lit "false"; lit "0"; lit "no"; lit "off"] then inl false
  else invalid "boolean" value "true, false, 1, 0, yes, no, on, or off".

Definition parse_positive (max : Z) (name value : bytes) : outcome Z :=
  match parse_unsigned 10 max value with
  | None => inr (InvalidValue name value (lit "a positive integer"))
  | Some parsed =>
      if parsed =? 0 then inr (InvalidValue name value (lit "a positive integer")) else inl parsed
  end.
Definition parse_positive_usize := parse_positive usize_max.
Definition parse_positive_u64 := parse_positive u64_max.

Definition validate_service_label (value : bytes) : outcome bytes :=
  let value := trim value in
  if (value =s []) || (128 <? blen (chars value)) || existsb is_control (chars value) then
    invalid "--service" value "a non-empty label of at most 128 printable characters"
  else inl value.

(** [split_once] at a text. *)
Definition split_once_text (sep s : bytes) : option (bytes * bytes) :=
  match find_bytes s sep with Some i => Some (take i s, drop (i + length sep) s) | None => None end.

Definition parse_endpoint (value : bytes) : outcome Endpoint :=
  let bad := @invalid Endpoint "--upstream" value "host:port, for example db.example.com:5432" in
  match (match strip_prefix (lit "[") value with
         | Some rest => split_once_text (lit "]:") rest
         | None => Platform.rsplit_colon value
         end) with
  | None => bad
  | Some (host, port) =>
      match parse_unsigned 10 u16_max port with
      | None => bad
      | Some port =>
          if (host =s []) || existsb is_whitespace (chars host) || existsb (fun b => b =b "/"%byte) host
             || (existsb (fun b => b =b ":"%byte) host && negb (starts_with (lit "[") value))
          then bad
          else inl (mkEndpoint host port)
      end
  end.

(** ** Settings *)

Record ConfigValues := mkValues {
  v_listen : option bytes;
  v_upstream : option bytes;
  v_service : option bytes;
  v_protocol : option TrafficProtocol;
  v_mode : option ProxyMode;
  v_https_mode : option Proxy.HttpsMode;
  v_reveal : option bool;
  v_max_flows : option Z;
  v_max_body : option Z;
  v_headless : option bool;
  v_refresh_ms : option Z;
  v_export : option bytes;
  v_export_format : option ExportFormat;
  v_allow_secret_export : option bool;
  v_enable_plugins : option bool;
  v_plugin_dir : option bytes;
  v_ebpf_cgroup : option bytes }.

Definition values_default : ConfigValues :=
  mkValues None None None None None None None None None None None None None None None None None.

Definition set_listen (v : ConfigValues) (x : option bytes) : ConfigValues :=
  mkValues x (v_upstream v) (v_service v) (v_protocol v) (v_mode v) (v_https_mode v) (v_reveal v) (v_max_flows
    v) (v_max_body v) (v_headless v) (v_refresh_ms v) (v_export v) (v_export_format v) (v_allow_secret_export v)
    (v_enable_plugins v) (v_plugin_dir v) (v_ebpf_cgroup v).
Definition set_upstream (v : ConfigValues) (x : option bytes) : ConfigValues :=
  mkValues (v_listen v) x (v_service v) (v_protocol v) (v_mode v) (v_https_mode v) (v_reveal v) (v_max_flows v)
    (v_max_body v) (v_headless v) (v_refresh_ms v) (v_export v) (v_export_format v) (v_allow_secret_export v)
    (v_enable_plugins v) (v_plugin_dir v) (v_ebpf_cgroup v).
Definition set_service (v : ConfigValues) (x : option bytes) : ConfigValues :=
  mkValues (v_listen v) (v_upstream v) x (v_protocol v) (v_mode v) (v_https_mode v) (v_reveal v) (v_max_flows v)
    (v_max_body v) (v_headless v) (v_refresh_ms v) (v_export v) (v_export_format v) (v_allow_secret_export v)
    (v_enable_plugins v) (v_plugin_dir v) (v_ebpf_cgroup v).
Definition set_protocol (v : ConfigValues) (x : option TrafficProtocol) : ConfigValues :=
  mkValues (v_listen v) (v_upstream v) (v_service v) x (v_mode v) (v_https_mode v) (v_reveal v) (v_max_flows v)
    (v_max_body v) (v_headless v) (v_refresh_ms v) (v_export v) (v_export_format v) (v_allow_secret_export v)
    (v_enable_plugins v) (v_plugin_dir v) (v_ebpf_cgroup v).
Definition set_mode (v : ConfigValues) (x : option ProxyMode) : ConfigValues :=
  mkValues (v_listen v) (v_upstream v) (v_service v) (v_protocol v) x (v_https_mode v) (v_reveal v) (v_max_flows
    v) (v_max_body v) (v_headless v) (v_refresh_ms v) (v_export v) (v_export_format v) (v_allow_secret_export v)
    (v_enable_plugins v) (v_plugin_dir v) (v_ebpf_cgroup v).
Definition set_https_mode (v : ConfigValues) (x : option Proxy.HttpsMode) : ConfigValues :=
  mkValues (v_listen v) (v_upstream v) (v_service v) (v_protocol v) (v_mode v) x (v_reveal v) (v_max_flows v)
    (v_max_body v) (v_headless v) (v_refresh_ms v) (v_export v) (v_export_format v) (v_allow_secret_export v)
    (v_enable_plugins v) (v_plugin_dir v) (v_ebpf_cgroup v).
Definition set_reveal (v : ConfigValues) (x : option bool) : ConfigValues :=
  mkValues (v_listen v) (v_upstream v) (v_service v) (v_protocol v) (v_mode v) (v_https_mode v) x (v_max_flows
    v) (v_max_body v) (v_headless v) (v_refresh_ms v) (v_export v) (v_export_format v) (v_allow_secret_export v)
    (v_enable_plugins v) (v_plugin_dir v) (v_ebpf_cgroup v).
Definition set_max_flows (v : ConfigValues) (x : option Z) : ConfigValues :=
  mkValues (v_listen v) (v_upstream v) (v_service v) (v_protocol v) (v_mode v) (v_https_mode v) (v_reveal v) x
    (v_max_body v) (v_headless v) (v_refresh_ms v) (v_export v) (v_export_format v) (v_allow_secret_export v)
    (v_enable_plugins v) (v_plugin_dir v) (v_ebpf_cgroup v).
Definition set_max_body (v : ConfigValues) (x : option Z) : ConfigValues :=
  mkValues (v_listen v) (v_upstream v) (v_service v) (v_protocol v) (v_mode v) (v_https_mode v) (v_reveal v)
    (v_max_flows v) x (v_headless v) (v_refresh_ms v) (v_export v) (v_export_format v) (v_allow_secret_export v)
    (v_enable_plugins v) (v_plugin_dir v) (v_ebpf_cgroup v).
Definition set_headless (v : ConfigValues) (x : option bool) : ConfigValues :=
  mkValues (v_listen v) (v_upstream v) (v_service v) (v_protocol v) (v_mode v) (v_https_mode v) (v_reveal v)
    (v_max_flows v) (v_max_body v) x (v_refresh_ms v) (v_export v) (v_export_format v) (v_allow_secret_export v)
    (v_enable_plugins v) (v_plugin_dir v) (v_ebpf_cgroup v).
Definition set_refresh_ms (v : ConfigValues) (x : option Z) : ConfigValues :=
  mkValues (v_listen v) (v_upstream v) (v_service v) (v_protocol v) (v_mode v) (v_https_mode v) (v_reveal v)
    (v_max_flows v) (v_max_body v) (v_headless v) x (v_export v) (v_export_format v) (v_allow_secret_export v)
    (v_enable_plugins v) (v_plugin_dir v) (v_ebpf_cgroup v).
Definition set_export (v : ConfigValues) (x : option bytes) : ConfigValues :=
  mkValues (v_listen v) (v_upstream v) (v_service v) (v_protocol v) (v_mode v) (v_https_mode v) (v_reveal v)
    (v_max_flows v) (v_max_body v) (v_headless v) (v_refresh_ms v) x (v_export_format v) (v_allow_secret_export
    v) (v_enable_plugins v) (v_plugin_dir v) (v_ebpf_cgroup v).
Definition set_export_format (v : ConfigValues) (x : option ExportFormat) : ConfigValues :=
  mkValues (v_listen v) (v_upstream v) (v_service v) (v_protocol v) (v_mode v) (v_https_mode v) (v_reveal v)
    (v_max_flows v) (v_max_body v) (v_headless v) (v_refresh_ms v) (v_export v) x (v_allow_secret_export v)
    (v_enable_plugins v) (v_plugin_dir v) (v_ebpf_cgroup v).
Definition set_allow_secret_export (v : ConfigValues) (x : option bool) : ConfigValues :=
  mkValues (v_listen v) (v_upstream v) (v_service v) (v_protocol v) (v_mode v) (v_https_mode v) (v_reveal v)
    (v_max_flows v) (v_max_body v) (v_headless v) (v_refresh_ms v) (v_export v) (v_export_format v) x
    (v_enable_plugins v) (v_plugin_dir v) (v_ebpf_cgroup v).
Definition set_enable_plugins (v : ConfigValues) (x : option bool) : ConfigValues :=
  mkValues (v_listen v) (v_upstream v) (v_service v) (v_protocol v) (v_mode v) (v_https_mode v) (v_reveal v)
    (v_max_flows v) (v_max_body v) (v_headless v) (v_refresh_ms v) (v_export v) (v_export_format v)
    (v_allow_secret_export v) x (v_plugin_dir v) (v_ebpf_cgroup v).
Definition set_plugin_dir (v : ConfigValues) (x : option bytes) : ConfigValues :=
  mkValues (v_listen v) (v_upstream v) (v_service v) (v_protocol v) (v_mode v) (v_https_mode v) (v_reveal v)
    (v_max_flows v) (v_max_body v) (v_headless v) (v_refresh_ms v) (v_export v) (v_export_format v)
    (v_allow_secret_export v) (v_enable_plugins v) x (v_ebpf_cgroup v).
Definition set_ebpf_cgroup (v : ConfigValues) (x : option bytes) : ConfigValues :=
  mkValues (v_listen v) (v_upstream v) (v_service v) (v_protocol v) (v_mode v) (v_https_mode v) (v_reveal v)
    (v_max_flows v) (v_max_body v) (v_headless v) (v_refresh_ms v) (v_export v) (v_export_format v)
    (v_allow_secret_export v) (v_enable_plugins v) (v_plugin_dir v) x.

(** ** The command line *)

Inductive Command :=
| Run | Replay | Doctor (check : DoctorCheck) | Cert (action : CertAction) | Plugin (action : PluginAction)
| Quickstart | Help | Version.

Record PluginArgs := mkPlugin {
  g_file : option bytes;
  g_name : option bytes;
  g_version : option bytes;
  g_directory : option bytes;
  g_used : bool }.

Definition plugin_default : PluginArgs := mkPlugin None None None None false.

Definition plugin_file (g : PluginArgs) (x : option bytes) : PluginArgs :=
  mkPlugin x (g_name g) (g_version g) (g_directory g) true.
Definition plugin_name (g : PluginArgs) (x : option bytes) : PluginArgs :=
  mkPlugin (g_file g) x (g_version g) (g_directory g) true.
Definition plugin_version (g : PluginArgs) (x : option bytes) : PluginArgs :=
  mkPlugin (g_file g) (g_name g) x (g_directory g) true.

Definition plugin_directory (g : PluginArgs) (x : option bytes) : PluginArgs :=
  mkPlugin (g_file g) (g_name g) (g_version g) x (g_used g).

Record ReplayArgs := mkReplay {
  r_input : option bytes;
  r_flow : option Z;
  r_request : Z;
  r_target : option bytes;
  r_execute : bool;
  r_allow_unsafe : bool;
  r_allow_secrets : bool;
  r_allow_redacted : bool;
  r_allow_remote : bool;
  r_timeout_ms : Z;
  r_used : bool }.

Definition replay_default : ReplayArgs := mkReplay None None 1 None false false false false false 10000 false.

(** Each option of a replay marks it as used. *)
Definition replay_input (r : ReplayArgs) (x : option bytes) : ReplayArgs :=
  mkReplay x (r_flow r) (r_request r) (r_target r) (r_execute r) (r_allow_unsafe r) (r_allow_secrets r) (r_allow_redacted r) (r_allow_remote r) (r_timeout_ms r) true.
Definition replay_flow (r : ReplayArgs) (x : option Z) : ReplayArgs :=
  mkReplay (r_input r) x (r_request r) (r_target r) (r_execute r) (r_allow_unsafe r) (r_allow_secrets r) (r_allow_redacted r) (r_allow_remote r) (r_timeout_ms r) true.
Definition replay_request (r : ReplayArgs) (x : Z) : ReplayArgs :=
  mkReplay (r_input r) (r_flow r) x (r_target r) (r_execute r) (r_allow_unsafe r) (r_allow_secrets r) (r_allow_redacted r) (r_allow_remote r) (r_timeout_ms r) true.
Definition replay_target (r : ReplayArgs) (x : option bytes) : ReplayArgs :=
  mkReplay (r_input r) (r_flow r) (r_request r) x (r_execute r) (r_allow_unsafe r) (r_allow_secrets r) (r_allow_redacted r) (r_allow_remote r) (r_timeout_ms r) true.
Definition replay_execute (r : ReplayArgs) (x : bool) : ReplayArgs :=
  mkReplay (r_input r) (r_flow r) (r_request r) (r_target r) x (r_allow_unsafe r) (r_allow_secrets r) (r_allow_redacted r) (r_allow_remote r) (r_timeout_ms r) true.
Definition replay_allow_unsafe (r : ReplayArgs) (x : bool) : ReplayArgs :=
  mkReplay (r_input r) (r_flow r) (r_request r) (r_target r) (r_execute r) x (r_allow_secrets r) (r_allow_redacted r) (r_allow_remote r) (r_timeout_ms r) true.
Definition replay_allow_secrets (r : ReplayArgs) (x : bool) : ReplayArgs :=
  mkReplay (r_input r) (r_flow r) (r_request r) (r_target r) (r_execute r) (r_allow_unsafe r) x (r_allow_redacted r) (r_allow_remote r) (r_timeout_ms r) true.
Definition replay_allow_redacted (r : ReplayArgs) (x : bool) : ReplayArgs :=
  mkReplay (r_input r) (r_flow r) (r_request r) (r_target r) (r_execute r) (r_allow_unsafe r) (r_allow_secrets r) x (r_allow_remote r) (r_timeout_ms r) true.
Definition replay_allow_remote (r : ReplayArgs) (x : bool) : ReplayArgs :=
  mkReplay (r_input r) (r_flow r) (r_request r) (r_target r) (r_execute r) (r_allow_unsafe r) (r_allow_secrets r) (r_allow_redacted r) x (r_timeout_ms r) true.
Definition replay_timeout_ms (r : ReplayArgs) (x : Z) : ReplayArgs :=
  mkReplay (r_input r) (r_flow r) (r_request r) (r_target r) (r_execute r) (r_allow_unsafe r) (r_allow_secrets r) (r_allow_redacted r) (r_allow_remote r) x true.

Record Cli := mkCli {
  command : Command; config_path : option bytes; flags : ConfigValues; replay : ReplayArgs; plugin : PluginArgs }.

(** The variables of the parsing loop. *)
Record Parser := mkParser {
  p_command : option Command; p_check : option DoctorCheck; p_config : option bytes;
  p_flags : ConfigValues; p_replay : ReplayArgs; p_plugin : PluginArgs }.

Definition parser_default : Parser := mkParser None None None values_default replay_default plugin_default.

Definition set_command (p : Parser) (c : Command) : outcome Parser :=
  match p_command p with
  | Some _ => inr MultipleCommands
  | None => inl (mkParser (Some c) (p_check p) (p_config p) (p_flags p) (p_replay p) (p_plugin p))
  end.
Definition with_flags (p : Parser) (v : ConfigValues) : Parser :=
  mkParser (p_command p) (p_check p) (p_config p) v (p_replay p) (p_plugin p).
Definition with_replay (p : Parser) (r : ReplayArgs) : Parser :=
  mkParser (p_command p) (p_check p) (p_config p) (p_flags p) r (p_plugin p).
Definition with_plugin (p : Parser) (g : PluginArgs) : Parser :=
  mkParser (p_command p) (p_check p) (p_config p) (p_flags p) (p_replay p) g.

(** An arm of the loop: alone, or with the argument that follows it, whose
    absence is reported under a name. *)
Inductive Arm :=
| Bare (f : Parser -> outcome Parser)
| Takes (name : bytes) (f : bytes -> Parser -> outcome Parser).

Definition flag (set : ConfigValues -> ConfigValues) : Arm := Bare (fun p => inl (with_flags p (set (p_flags p)))).
Definition replay_flag (set : ReplayArgs -> ReplayArgs) : Arm := Bare (fun p => inl (with_replay p (set (p_replay p)))).
Definition value_flag {A} (name : string) (read : bytes -> outcome A) (set : ConfigValues -> option A -> ConfigValues) :
    bytes * Arm :=
  (lit name, Takes (lit name) (fun v p => let! x := read v in inl (with_flags p (set (p_flags p) (Some x))))).
Definition replay_value {A} (name : string) (read : bytes -> outcome A) (set : ReplayArgs -> A -> ReplayArgs) :
    bytes * Arm :=
  (lit name, Takes (lit name) (fun v p => let! x := read v in inl (with_replay p (set (p_replay p) x)))).
Definition plugin_value (name : string) (set : PluginArgs -> option bytes -> PluginArgs) : bytes * Arm :=
  (lit name, Takes (lit name) (fun v p => inl (with_plugin p (set (p_plugin p) (Some v))))).

Definition arms : list (bytes * Arm) :=
  [(lit "run", Bare (fun p => set_command p Run));
   (lit "replay", Bare (fun p => set_command p Replay));
   (lit "plugin", Takes (lit "plugin action")
      (fun v p => let! action := parse_plugin_action v in set_command p (Plugin action)));
   (lit "doctor", Bare (fun p => set_command p (Doctor CheckAll)));
   (lit "cert", Takes (lit "cert action")
      (fun v p => let! action := parse_cert_action v in set_command p (Cert action)));
   (lit "quickstart", Bare (fun p => set_command p Quickstart));
   (lit "--check", Takes (lit "--check")
      (fun v p => let! check := parse_doctor_check v in
                  inl (mkParser (p_command p) (Some check) (p_config p) (p_flags p) (p_replay p) (p_plugin p))));
   (lit "--help", Bare (fun p => set_command p Help));
   (lit "-h", Bare (fun p => set_command p Help));
   (lit "--version", Bare (fun p => set_command p Version));
   (lit "-V", Bare (fun p => set_command p Version));
   (lit "--config", Takes (lit "--config")
      (fun v p => inl (mkParser (p_command p) (p_check p) (Some v) (p_flags p) (p_replay p) (p_plugin p))));
   value_flag "--listen" inl set_listen;
   value_flag "--upstream" inl set_upstream;
   value_flag "--service" inl set_service;
   value_flag "--protocol" parse_protocol set_protocol;
   value_flag "--mode" parse_mode set_mode;
   value_flag "--https" parse_https_mode set_https_mode;
   (lit "--reveal", flag (fun v => set_reveal v (Some true)));
   (lit "--redact", flag (fun v => set_reveal v (Some false)));
   (lit "--headless", flag (fun v => set_headless v (Some true)));
   value_flag "--refresh-ms" (parse_positive_usize (lit "--refresh-ms")) set_refresh_ms;
   value_flag "--export" inl set_export;
   value_flag "--export-format" parse_export_format set_export_format;
   (lit "--allow-secret-export", flag (fun v => set_allow_secret_export v (Some true)));
   (lit "--enable-plugins", flag (fun v => set_enable_plugins v (Some true)));
   (lit "--plugin-dir", Takes (lit "--plugin-dir")
      (fun v p => inl (with_plugin (with_flags p (set_plugin_dir (p_flags p) (Some v)))
                         (plugin_directory (p_plugin p) (Some v)))));
   value_flag "--ebpf-cgroup" inl set_ebpf_cgroup;
   plugin_value "--file" plugin_file;
   plugin_value "--name" plugin_name;
   plugin_value "--plugin-version" plugin_version;
   replay_value "--input" (fun v => inl (Some v)) replay_input;
   replay_value "--flow" (fun v => let! n := parse_positive_u64 (lit "--flow") v in inl (Some n)) replay_flow;
   replay_value "--request" (parse_positive_usize (lit "--request")) replay_request;
   replay_value "--target" (fun v => inl (Some v)) replay_target;
   (lit "--execute", replay_flag (fun r => replay_execute r true));
   (lit "--dry-run", replay_flag (fun r => replay_execute r false));
   (lit "--allow-unsafe", replay_flag (fun r => replay_allow_unsafe r true));
   (lit "--allow-secrets", replay_flag (fun r => replay_allow_secrets r true));
   (lit "--allow-redacted", replay_flag (fun r => replay_allow_redacted r true));
   (lit "--allow-remote", replay_flag (fun r => replay_allow_remote r true));
   replay_value "--timeout-ms" (parse_positive_u64 (lit "--timeout-ms")) replay_timeout_ms;
   value_flag "--max-flows" (parse_positive_usize (lit "--max-flows")) set_max_flows;
   value_flag "--max-body" (parse_positive_usize (lit "--max-body")) set_max_body].

Fixpoint find_arm (table : list (bytes * Arm)) (arg : bytes) : option Arm :=
  match table with
  | [] => None
  | (name, a) :: table => if arg =s name then Some a else find_arm table arg
  end.

(** The loop over the arguments. *)
Fixpoint parse_loop (args : list bytes) (p : Parser) : outcome Parser :=
  match args with
  | [] => inl p
  | arg :: rest =>
      match find_arm arms arg with
      | Some (Bare f) => let! p := f p in parse_loop rest p
      | Some (Takes name f) =>
          match rest with
          | [] => inr (MissingValue name)
          | value :: rest => let! p := f value p in parse_loop rest p
          end
      | None => inr (if starts_with (lit "-") arg then UnknownOption arg else UnknownCommand arg)
      end
  end.

Definition is_none {A} (o : option A) : bool := match o with None => true | Some _ => false end.

Definition checked_command (p : Parser) : outcome Command :=
  match default Run (p_command p), p_check p with
  | Doctor _, check => inl (Doctor (default CheckAll check))
  | _, Some _ => inr (OptionRequiresCommand (lit "--check") (lit "doctor"))
  | c, None => inl c
  end.

Definition check_replay (c : Command) (r : ReplayArgs) : outcome unit :=
  match c with
  | Replay =>
      if is_none (r_input r) then inr (MissingValue (lit "--input"))
      else if is_none (r_target r) then inr (MissingValue (lit "--target"))
      else inl tt
  | _ => if r_used r then inr (OptionRequiresCommand (lit "replay options") (lit "replay")) else inl tt
  end.

Definition check_plugin (c : Command) (g : PluginArgs) : outcome unit :=
  match c with
  | Plugin PluginInstall =>
      if is_none (g_file g) then inr (MissingValue (lit "--file"))
      else if is_none (g_name g) then inr (MissingValue (lit "--name"))
      else if is_none (g_version g) then inr (MissingValue (lit "--plugin-version"))
      else inl tt
  | Plugin PluginRemove => if is_none (g_name g) then inr (MissingValue (lit "--name")) else inl tt
  | Plugin PluginList => inl tt
  | _ =>
      if g_used g then inr (OptionRequiresCommand (lit "plugin management options") (lit "plugin")) else inl tt
  end.

(** [Cli::parse]. *)
Definition parse (args : list bytes) : outcome Cli :=
  let! p := parse_loop args parser_default in
  let! c := checked_command p in
  let! _u := check_replay c (p_replay p) in
  let! _u := check_plugin c (p_plugin p) in
  inl (mkCli c (p_config p) (p_flags p) (p_replay p) (p_plugin p)).

(** ** The environment and the configuration file *)

Section Environment.
Context (env : gmap bytes bytes).

Definition get (name : string) : option bytes := env !! lit name.
Definition read {A} (parse : bytes -> outcome A) (name : string) : option A :=
  match get name with Some v => ok (parse v) | None => None end.

Definition from_env : ConfigValues :=
  mkValues (get "LENS_LISTEN") (get "LENS_UPSTREAM") (get "LENS_SERVICE")
    (read parse_protocol "LENS_PROTOCOL") (read parse_mode "LENS_MODE") (read parse_https_mode "LENS_HTTPS")
    (read parse_bool "LENS_REVEAL")
    (read (parse_positive_usize (lit "LENS_MAX_FLOWS")) "LENS_MAX_FLOWS")
    (read (parse_positive_usize (lit "LENS_MAX_BODY")) "LENS_MAX_BODY")
    (read parse_bool "LENS_HEADLESS")
    (read (parse_positive_usize (lit "LENS_REFRESH_MS")) "LENS_REFRESH_MS")
    (get "LENS_EXPORT") (read parse_export_format "LENS_EXPORT_FORMAT")
    (read parse_bool "LENS_ALLOW_SECRET_EXPORT") (read parse_bool "LENS_ENABLE_PLUGINS")
    (get "LENS_PLUGIN_DIR") (get "LENS_EBPF_CGROUP").
End Environment.

(** A setting of the configuration file; one that cannot be read is unset. *)
Definition set_value (v : ConfigValues) (key value : bytes) : ConfigValues :=
  if key =s lit "listen" then set_listen v (Some value)
  else if key =s lit "upstream" then set_upstream v (Some value)
  else if key =s lit "service" then set_service v (Some value)
  else if key =s lit "protocol" then set_protocol v (ok (parse_protocol value))
  else if key =s lit "mode" then set_mode v (ok (parse_mode value))
  else if key =s lit "https" then set_https_mode v (ok (parse_https_mode value))
  else if key =s lit "reveal" then set_reveal v (ok (parse_bool value))
  else if key =s lit "max_flows" then set_max_flows v (ok (parse_positive_usize key value))
  else if key =s lit "max_body" then set_max_body v (ok (parse_positive_usize key value))
  else if key =s lit "headless" then set_headless v (ok (parse_bool value))
  else if key =s lit "refresh_ms" then set_refresh_ms v (ok (parse_positive_usize key value))
  else if key =s lit "export" then set_export v (Some value)
  else if key =s lit "export_format" then set_export_format v (ok (parse_export_format value))
  else if key =s lit "allow_secret_export" then set_allow_secret_export v (ok (parse_bool value))
  else if key =s lit "enable_plugins" then set_enable_plugins v (ok (parse_bool value))
  else if key =s lit "plugin_dir" then set_plugin_dir v (Some value)
  else if key =s lit "ebpf_cgroup" then set_ebpf_cgroup v (Some value)
  else v.

(** [raw_line.split('#').next()]. *)
Definition without_comment (line : bytes) : bytes :=
  match split_on (fun b => b =b "#"%byte) line with s :: _ => s | [] => [] end.

Definition config_line (v : ConfigValues) (raw_line : bytes) : ConfigValues :=
  let line := trim (without_comment raw_line) in
  if line =s [] then v
  else
    match split_once "="%byte line with
    | None => v
    | Some (key, value) => set_value v (trim key) (Tls.trim_matches (fun b => b =b x22) (trim value))
    end.

Definition parse_config_file (contents : bytes) : ConfigValues := fold_left config_line (lines contents) values_default.

(** ** Resolution *)

(** The environment of the process and the system it was built for. *)
Record Host := mkHost {
  os : bytes; kind : Platform.PlatformKind; lens_plugin_dir : option bytes; local_app_data : option bytes;
  xdg_data_home : option bytes; home : option bytes; user_profile : option bytes; config_dir : option bytes }.

Definition default_plugin_dir (h : Host) : bytes :=
  let under_home :=
    Disk.join (Disk.join (Disk.join (Disk.join (default (lit ".") (home h)) (lit ".local")) (lit "share")) (lit "lens"))
      (lit "plugins") in
  match lens_plugin_dir h with
  | Some path => path
  | None =>
      match kind h with
      | Platform.Windows =>
          match local_app_data h with
          | Some path => Disk.join (Disk.join path (lit "Lens")) (lit "plugins")
          | None => under_home
          end
      | _ =>
          match xdg_data_home h with
          | Some path => Disk.join (Disk.join path (lit "lens")) (lit "plugins")
          | None => under_home
          end
      end
  end.

Definition DEFAULT_LISTEN : bytes := lit "127.0.0.1:8888".
Definition DEFAULT_MODE : ProxyMode := Explicit.
Definition DEFAULT_MAX_FLOWS : Z := 10000.
Definition DEFAULT_MAX_BODY : Z := 262144.
Definition DEFAULT_HTTPS_MODE : Proxy.HttpsMode := Proxy.Intercept.
Definition DEFAULT_REFRESH_MS : Z := 250.

Record ResolvedConfig := mkResolved {
  listen : bytes; listen_addr : SocketAddr.t; upstream : option bytes; upstream_endpoint : option Endpoint;
  service : option bytes; protocol : TrafficProtocol; mode : ProxyMode; https_mode : Proxy.HttpsMode; reveal : bool;
  max_flows : Z; max_body : Z; headless : bool; refresh_ms : Z; export : option bytes; export_format : ExportFormat;
  enable_plugins : bool; plugin_dir : bytes; ebpf_cgroup : option bytes }.

Definition or {A} (a b : option A) : option A := match a with Some _ => a | None => b end.

Definition pick {A} (flags env file : option A) (d : A) : A := default d (or (or flags env) file).

Definition transpose {A} (o : option (outcome A)) : outcome (option A) :=
  match o with None => inl None | Some (inl a) => inl (Some a) | Some (inr e) => inr e end.

(** The combinations of mode, protocol and upstream that are refused. *)
Definition check_target (mode : ProxyMode) (protocol : TrafficProtocol) (upstream : option bytes) (fixed : bool) :
    outcome unit :=
  match mode, protocol, fixed with
  | Transparent, _, true => invalid "--upstream" (default [] upstream) "no fixed upstream in transparent mode"
  | Explicit, Http, true =>
      invalid "--upstream" (default [] upstream) "no fixed upstream when --protocol http is selected"
  | Explicit, (Tcp | Postgres | Redis | Http2 | Grpc), false =>
      invalid "--protocol" (TrafficProtocol_display protocol) "--upstream host:port for fixed-target protocols"
  | _, _, _ => inl tt
  end.

Section Resolve.
Context (h : Host) (file env flags : option ConfigValues).

(** [flags.and_then(..)], [env_vars.and_then(..)] and [file.and_then(..)]. *)
Definition from {A} (source : option ConfigValues) (get : ConfigValues -> option A) : option A :=
  match source with Some v => get v | None => None end.
Definition first {A} (get : ConfigValues -> option A) : option A :=
  or (or (from flags get) (from env get)) (from file get).
Definition picked {A} (get : ConfigValues -> option A) (d : A) : A :=
  pick (from flags get) (from env get) (from file get) d.

Definition resolve : outcome ResolvedConfig :=
  let listen := picked v_listen DEFAULT_LISTEN in
  match SocketAddr.parse listen with
  | None => invalid "--listen" listen "addr:port, for example 127.0.0.1:8888"
  | Some listen_addr =>
      let upstream := first v_upstream in
      let! upstream_endpoint := transpose (parse_endpoint <$> upstream) in
      let! service := transpose (validate_service_label <$> first v_service) in
      let protocol := default (if is_none upstream_endpoint then Http else Tcp) (first v_protocol) in
      let mode := picked v_mode DEFAULT_MODE in
      if bool_decide (mode = Transparent) && negb (IpAddr.is_loopback (SocketAddr.ip listen_addr)) then
        invalid "--listen" listen "a loopback address for transparent mode"
      else
        let! _u := check_target mode protocol upstream (negb (is_none upstream_endpoint)) in
        let reveal := picked v_reveal false in
        let export := first v_export in
        let allow_secret_export := picked v_allow_secret_export false in
        if reveal && negb (is_none export) && negb allow_secret_export then
          invalid "--export" (default [] export) "--allow-secret-export when --reveal is active"
        else
          inl (mkResolved listen listen_addr upstream upstream_endpoint service protocol mode
                 (picked v_https_mode DEFAULT_HTTPS_MODE) reveal (picked v_max_flows DEFAULT_MAX_FLOWS)
                 (picked v_max_body DEFAULT_MAX_BODY) (picked v_headless false)
                 (Z.max 50 (Z.min 2000 (picked v_refresh_ms DEFAULT_REFRESH_MS))) export
                 (picked v_export_format Jsonl) (picked v_enable_plugins false)
                 (default (default_plugin_dir h) (first v_plugin_dir)) (first v_ebpf_cgroup))
  end.
End Resolve.

(** ** Reports *)

Definition NL : bytes := [x0a].

Definition redaction_text (c : ResolvedConfig) : bytes := lit (if reveal c then "revealed" else "enabled").

Definition render_run_plan (c : ResolvedConfig) : bytes :=
  join NL
    [lit "lens run";
     lit "mode: " ++ ProxyMode_display (mode c);
     lit "protocol: " ++ TrafficProtocol_display (protocol c);
     lit "listen: " ++ listen c;
     lit "upstream: " ++ default (match mode c with
                                  | Transparent => lit "selected from native redirect context"
                                  | Explicit => lit "selected from HTTP request"
                                  end) (upstream c);
     lit "service: " ++ default (lit "auto-detect") (service c);
     lit "https: " ++ Proxy.HttpsMode_display (https_mode c);
     lit "redaction: " ++ redaction_text c;
     lit "plugins: " ++ lit (if enable_plugins c then "enabled" else "disabled") ++ lit " (" ++ plugin_dir c ++ lit ")";
     lit "eBPF discovery: " ++ default (lit "disabled") (ebpf_cgroup c);
     lit "headless: " ++ bool_text (headless c);
     lit "refresh: " ++ dec (refresh_ms c) ++ lit " ms";
     lit "export: " ++ default (lit "disabled") (export c) ++ lit " (" ++ ExportFormat_display (export_format c) ++ lit ")";
     lit "max_flows: " ++ dec (max_flows c);
     lit "max_body: " ++ dec (max_body c) ++ lit " bytes"].

(** [render_quickstart]; the continuation lines of the literal lose their indentation. *)
Definition render_quickstart : bytes :=
  join [x0a]
    [lit "lens quickstart";
     lit "1. Check readiness:        lens doctor --check all";
     lit "2. Trust HTTPS inspection: lens cert install";
     lit "3. Start the live TUI:     lens run --listen 127.0.0.1:8888";
     lit "4. Point HTTP clients at:  HTTP_PROXY=http://127.0.0.1:8888";
     lit "HTTPS_PROXY=http://127.0.0.1:8888";
     lit "5. PostgreSQL locally:     lens run --protocol postgres --listen 127.0.0.1:15432 --upstream 127.0.0.1:5432";
     lit "6. Redis locally:          lens run --protocol redis --listen 127.0.0.1:16379 --upstream 127.0.0.1:6379";
     lit "7. gRPC over h2c:          lens run --protocol grpc --listen 127.0.0.1:15051 --upstream 127.0.0.1:50051";
     lit "8. Safe diagnostic file:   lens run --headless --export lens-flows.jsonl";
     lit "9. Install a WASM plugin:  lens plugin install --file plugin.wasm --name example --plugin-version 1.0.0";
     lit "10. Enable plugins:        lens run --enable-plugins";
     lit "";
     lit "Windows transparent TCP (signed driver required):";
     lit "lens run --mode transparent --protocol http --listen 127.0.0.1:8888";
     lit "";
     lit "Optional Linux discovery (privileged cgroup attach):";
     lit "lens run --ebpf-cgroup /sys/fs/cgroup";
     lit "";
     lit "TUI controls: j/k select, p protocol, s status, l latency, / search, x clear, q quit.";
     lit "Redaction is always on unless --reveal is explicit. Secret exports additionally require --allow-secret-export."].

(** [HELP_TEXT]. *)
Definition HELP_TEXT : bytes :=
  join [x0a]
    [lit "lens";
     lit "Local-first traffic inspection for developer debugging.";
     lit "";
     lit "USAGE:";
     lit "  lens [COMMAND] [OPTIONS]";
     lit "";
     lit "COMMANDS:";
     lit "  run        Start a live capture session (default)";
     lit "  replay     Preview or explicitly execute one captured HTTP/1 request";
     lit "  doctor     Check config, platform, trust, and network readiness";
     lit "  cert       Manage the explicit local CA: install, uninstall, or status";
     lit "  plugin     Explicitly install, list, or remove capability-limited WASM plugins";
     lit "  quickstart Show the first-run HTTP, HTTPS, PostgreSQL, and export path";
     lit "";
     lit "GLOBAL OPTIONS:";
     lit "  --config <path>            Read simple key = value configuration";
     lit "  --listen <addr:port>       Listen address [default: 127.0.0.1:8888]";
     lit "  --upstream <host:port>     Fixed target for TCP, database, HTTP/2, or gRPC mode";
     lit "  --service <name>           Override the auto-detected client service label";
     lit "  --protocol <http|http2|grpc|tcp|postgres|redis>";
     lit "                             Protocol to route and inspect [auto-detected from upstream]";
     lit "  --mode <explicit|transparent>";
     lit "                             How traffic reaches Lens [default: explicit]";
     lit "  --https <intercept|passthrough|reject>";
     lit "                             CONNECT behavior [default: intercept]";
     lit "  --reveal                   Disable redaction for this run";
     lit "  --redact                   Force redaction on";
     lit "  --headless                 Run without the TUI";
     lit "  --refresh-ms <n>           TUI refresh interval, clamped to 50-2000 [default: 250]";
     lit "  --export <path>            Safely create a snapshot file when Lens stops";
     lit "  --export-format <json|jsonl>";
     lit "                             Snapshot format [default: jsonl]";
     lit "  --allow-secret-export      Required with both --reveal and --export";
     lit "  --enable-plugins           Run verified installed plugins on redacted messages";
     lit "  --plugin-dir <path>        Explicit plugin installation directory";
     lit "  --ebpf-cgroup <path>       Linux cgroup v2 scope for metadata-only discovery";
     lit "  --max-flows <n>            Maximum retained flows [default: 10000]";
     lit "  --max-body <bytes>         Per-message body cap [default: 262144]";
     lit "  --help                     Print help";
     lit "  --version                  Print version";
     lit "";
     lit "REPLAY OPTIONS:";
     lit "  --input <path>             JSON or JSONL capture [required]";
     lit "  --flow <id>                Flow ID [required when multiple HTTP flows exist]";
     lit "  --request <n>              One-based request in the flow [default: 1]";
     lit "  --target <origin>          Explicit http:// or https:// replay origin [required]";
     lit "  --execute                  Send after preview validation [default: preview only]";
     lit "  --allow-unsafe             Permit methods that may change server state";
     lit "  --allow-secrets            Permit capture data produced with --reveal";
     lit "  --allow-redacted           Permit literal [REDACTED] placeholders";
     lit "  --allow-remote             Permit a non-loopback target";
     lit "  --timeout-ms <n>           Replay deadline [default: 10000]";
     lit "";
     lit "PLUGIN OPTIONS:";
     lit "  lens plugin install --file <wasm> --name <name> --plugin-version <version>";
     lit "  lens plugin list [--plugin-dir <path>]";
     lit "  lens plugin remove --name <name>";
     lit "";
     lit "EXAMPLES:";
     lit "  lens";
     lit "  lens cert install";
     lit "  lens cert status";
     lit "  lens plugin list";
     lit "  lens quickstart";
     lit "  lens replay --input lens-flows.jsonl --flow 1 --target http://127.0.0.1:8080";
     lit "  HTTP_PROXY=http://127.0.0.1:8888 lens run --headless";
     lit "  lens run --listen 127.0.0.1:8888 --upstream 127.0.0.1:8080";
     lit "  lens run --protocol postgres --listen 127.0.0.1:15432 --upstream db.example.com:5432 --headless";
     lit "  lens run --protocol redis --listen 127.0.0.1:16379 --upstream 127.0.0.1:6379 --headless";
     lit "  lens run --protocol grpc --listen 127.0.0.1:15051 --upstream 127.0.0.1:50051 --headless";
     lit "  lens doctor --check all";
     lit ""].

End Cli.
