(* ===== verification/CliRun.v ===== *)
(** * CliRun: the commands of [crates/lens-cli] and their effects.

    Every command of [main.rs] over the file system and the programs of
    [Platform.Commands].  Random keys and the time are inputs, and so is how
    the concurrent tasks of a session go: class [Sessions] gives what the
    server counted, what the terminal returned and the observations that
    reached the store, which the store of the session then consumes. *)

From stdpp Require Import gmap.
From S2P Require Import Prelude RustStd RustText Disk Net Core Redact Plugin Http2 Store Replay Proxy Tls PluginDir Tui Platform Discovery Cli.
Import Cli.
#[local] Open Scope lens_scope.

Module CliRun.

Section Commands.
Context `{C : Platform.Commands} `{K : Tls.Crypto} `{W : Plugin.Wasm} `{G : PluginDir.Digests}.

Definition on_disk {A} (w : Platform.system) (f : Disk.t -> A * Disk.t) : A * Platform.system :=
  let '(a, d) := f (Platform.disk w) in (a, Platform.set_disk w d).

(** ** Plugins *)

Definition plugin_entry (m : Plugin.PluginManifest) : bytes :=
  Plugin.name m ++ lit " " ++ Plugin.version m ++ lit " abi=" ++ dec (Plugin.abi_version m)
  ++ lit " sha256=" ++ Plugin.sha256 m.

Definition plugin_failure (e : Plugin.PluginError) : CliError := PluginError (Plugin.PluginError_display e).

Definition plugin_list (root : bytes) (d : Disk.t) : outcome bytes * Disk.t :=
  match PluginDir.list d root with
  | (inr e, d) => (inr (plugin_failure e), d)
  | (inl plugins, d) =>
      let entries := join NL (map plugin_entry plugins) in
      (inl (lit "lens plugin list" ++ NL ++ lit "directory: " ++ root ++ NL ++ lit "plugins: "
            ++ dec (blen plugins) ++ (if entries =s [] then [] else NL ++ entries)), d)
  end.

Definition plugin_install (root source name version : bytes) (execute : bool) (d : Disk.t) : outcome bytes * Disk.t :=
  if negb execute then
    (inl (join NL [lit "lens plugin install"; lit "name: " ++ name; lit "version: " ++ version;
                   lit "source: " ++ source; lit "directory: " ++ root; lit "status: dry-run; no files written"]), d)
  else
    match PluginDir.install d root source name version with
    | (inr e, d) => (inr (plugin_failure e), d)
    | (inl m, d) =>
        (inl (join NL [lit "lens plugin install"; lit "name: " ++ Plugin.name m; lit "version: " ++ Plugin.version m;
                       lit "abi: " ++ dec (Plugin.abi_version m); lit "sha256: " ++ Plugin.sha256 m;
                       lit "directory: " ++ root; lit "status: installed; disabled until --enable-plugins"]), d)
    end.

Definition plugin_remove (root name : bytes) (execute : bool) (d : Disk.t) : outcome bytes * Disk.t :=
  if negb execute then
    (inl (join NL [lit "lens plugin remove"; lit "name: " ++ name; lit "directory: " ++ root;
                   lit "status: dry-run; no files removed"]), d)
  else
    match PluginDir.remove d root name with
    | (inr e, d) => (inr (plugin_failure e), d)
    | (inl _, d) =>
        (inl (join NL [lit "lens plugin remove"; lit "name: " ++ name; lit "directory: " ++ root;
                       lit "status: removed"]), d)
    end.

(** [run_plugin_command], what it does to the files left to do. *)
Definition run_plugin_command (h : Host) (action : PluginAction) (options : PluginArgs) (execute : bool) :
    ended (Disk.t -> outcome bytes * Disk.t) :=
  let root := default (default_plugin_dir h) (g_directory options) in
  match action with
  | PluginList => Finished (plugin_list root)
  | PluginInstall =>
      expect source := g_file options with "plugin file validated during parsing" in
      expect name := g_name options with "plugin name validated during parsing" in
      expect version := g_version options with "plugin version validated during parsing" in
      Finished (plugin_install root source name version execute)
  | PluginRemove =>
      expect name := g_name options with "plugin name validated during parsing" in
      Finished (plugin_remove root name execute)
  end.

(** ** Certificates *)

(** A fresh key, and the seconds of the clock as the steps of the authority
    read it: at creation, for validity, for the reissued parameters. *)
Record Fresh := mkFresh { key : result Tls.KeyPair; created : Z; now : Z; issued : Z; ssl_cert_file : option bytes }.

Definition yes_no (b : bool) : bytes := lit (if b then "yes" else "no").
Definition valid_text (v : option bool) : bytes := match v with Some b => yes_no b | None => lit "unknown" end.

Definition render_cert_status (d : Disk.t) (material : Tls.CaStatus) (trust : Platform.TrustState) (trust_detail : bytes) :
    bytes :=
  let paths := Tls.paths material in
  join NL
    [lit "lens cert status";
     lit "material: " ++ Tls.CaMaterialState_display (Tls.state material) ++ lit "; " ++ Tls.detail material;
     lit "certificate: " ++ Tls.certificate paths;
     lit "client_bundle: " ++ Tls.client_bundle paths ++ lit " ("
       ++ lit (if Disk.is_file d (Tls.client_bundle paths) then "ready" else "not-created") ++ lit ")";
     lit "fingerprint: " ++ default (lit "unavailable") (Tls.status_fingerprint material);
     lit "valid_now: " ++ valid_text (Tls.status_valid_now material);
     lit "trust: " ++ Platform.TrustState_display trust ++ lit "; " ++ trust_detail].

Definition is_linux (s : Platform.UserTrustStore) : bool := bool_decide (Platform.platform s = Platform.Linux).

(** A trust change: its report, or on Linux its failure as one. *)
Definition trust_outcome (s : Platform.UserTrustStore) (r : result Platform.TrustReport)
    (fallback : bytes -> ended bytes) : ended (outcome (Platform.TrustState * bytes)) :=
  match r with
  | Ok report => Finished (inl (Platform.state report, Platform.detail report))
  | Err e =>
      if is_linux s then ended_bind (fallback e) (fun detail => Finished (inl (Platform.Unavailable, detail)))
      else Finished (inr (Trust e))
  end.

Definition trust_line (t : Platform.TrustState * bytes) : bytes :=
  lit "trust: " ++ Platform.TrustState_display (fst t) ++ lit "; " ++ snd t.

(** The bundle of [cert install]: always there on Linux. *)
Definition linux_bundle (s : Platform.UserTrustStore) (f : Fresh) (ca : Tls.CertificateAuthority) (d : Disk.t) :
    outcome (option bytes) * Disk.t :=
  if is_linux s then
    match Tls.write_linux_client_bundle ca d true (ssl_cert_file f) with
    | (Ok path, d) => (inl (Some path), d)
    | (Err e, d) => (inr (Certificate e), d)
    end
  else (inl None, d).

Definition cert_install (s : Platform.UserTrustStore) (f : Fresh) (paths : Tls.CaPaths) (w : Platform.system) :
    ended (outcome bytes) * Platform.system :=
  match on_disk w (fun d => Tls.load_or_create d paths (key f) (created f) (now f) (issued f)) with
  | (Tls.Panics, w) => (Panicked Slice, w)
  | (Tls.Returns (Err e), w) => (Finished (inr (Certificate e)), w)
  | (Tls.Returns (Ok ca), w) =>
      match on_disk w (linux_bundle s f ca) with
      | (inr e, w) => (Finished (inr e), w)
      | (inl bundle, w) =>
          let certificate := Tls.certificate (Tls.ca_paths ca) in
          let '(r, w) := Platform.install s certificate w in
          (ended_bind
             (trust_outcome s r (fun e =>
                expect path := bundle with "Linux bundle created above" in
                Finished (lit "NSS installation unavailable (" ++ e ++ lit "); use SSL_CERT_FILE=" ++ path
                          ++ lit " for OpenSSL-based clients")))
             (fun trusted => Finished
               (let! t := trusted in
                inl (join NL
                  [lit "lens cert install"; lit "material: ready"; lit "certificate: " ++ certificate;
                   lit "fingerprint: " ++ default [] (Tls.status_fingerprint (Tls.status ca));
                   lit "client_bundle: " ++ default (lit "not required") bundle; trust_line t]))), w)
      end
  end.

Definition cert_uninstall (s : Platform.UserTrustStore) (w : Platform.system) :
    ended (outcome bytes) * Platform.system :=
  let '(r, w) := Platform.uninstall s w in
  (ended_bind
     (trust_outcome s r (fun e => Finished
        (lit "NSS removal unavailable (" ++ e ++ lit "); unset SSL_CERT_FILE to remove environment trust")))
     (fun trusted => Finished
       (let! t := trusted in
        inl (join NL [lit "lens cert uninstall"; trust_line t;
                      lit "material: retained; the local CA key was not deleted"]))), w).

Definition run_cert_command (h : Host) (action : CertAction) (execute : bool) (f : Fresh) (w : Platform.system) :
    ended (outcome bytes) * Platform.system :=
  match Tls.for_user (config_dir h) with
  | Err e => (Finished (inr (Certificate e)), w)
  | Ok paths =>
      if negb execute then
        (Finished (inl (join NL
           [lit "lens cert " ++ CertAction_display action; lit "certificate: " ++ Tls.certificate paths;
            lit "status: dry-run; no trust-store changes made"])), w)
      else
        match Platform.current_store (kind h) (home h) (user_profile h) with
        | Err e => (Finished (inr (Trust e)), w)
        | Ok trust =>
            match action with
            | CertInstall => cert_install trust f paths w
            | CertUninstall => cert_uninstall trust w
            | CertStatus =>
                match on_disk w (fun d => Tls.inspect d paths (now f) (issued f)) with
                | (Tls.Panics, w) => (Panicked Slice, w)
                | (Tls.Returns material, w) =>
                    let '(report, w) := Platform.status trust w in
                    (Finished (inl (render_cert_status (Platform.disk w) material (Platform.state report)
                                         (Platform.detail report))), w)
                end
            end
        end
  end.

(** ** Diagnostics *)

Definition wants (check one : DoctorCheck) : bool := bool_decide (check = CheckAll) || bool_decide (check = one).

(** The trust line: the material of the authority, then the trust store. *)
Definition doctor_trust (h : Host) (f : Fresh) (w : Platform.system) : ended bytes * Platform.system :=
  let material :=
    match Tls.for_user (config_dir h) with
    | Err e => (Finished (lit "material=unavailable (" ++ e ++ lit ")"), w)
    | Ok paths =>
        match on_disk w (fun d => Tls.inspect d paths (now f) (issued f)) with
        | (Tls.Panics, w) => (Panicked Slice, w)
        | (Tls.Returns s, w) =>
            (Finished (lit "material=" ++ Tls.CaMaterialState_display (Tls.state s) ++ lit ", valid_now="
               ++ valid_text (Tls.status_valid_now s) ++ lit ", client_bundle="
               ++ (if Disk.is_file (Platform.disk w) (Tls.client_bundle (Tls.paths s))
                   then Tls.client_bundle (Tls.paths s) else lit "not-created")), w)
        end
    end in
  match material with
  | (Panicked p, w) => (Panicked p, w)
  | (Finished material, w) =>
      let '(trust, w) :=
        match Platform.current_store (kind h) (home h) (user_profile h) with
        | Err e => (lit "unavailable; " ++ e, w)
        | Ok s =>
            let '(report, w) := Platform.status s w in
            (Platform.TrustState_display (Platform.state report) ++ lit "; " ++ Platform.detail report, w)
        end in
      (Finished (lit "trust: " ++ trust ++ lit "; " ++ material), w)
  end.

Definition doctor_transparent (h : Host) (w : Platform.system) : bytes * Platform.system :=
  let '(s, w) := Platform.transparent_status (kind h) w in
  (lit "transparent: " ++ Platform.TransparentPhase_display (Platform.phase s) ++ lit "; backend="
   ++ Platform.TransparentBackend_display (Platform.status_backend s) ++ lit "; admin="
   ++ lit (if Platform.requires_admin s then "required" else "not-required") ++ lit "; " ++ Platform.status_detail s, w).

Definition doctor_plugins (c : ResolvedConfig) (d : Disk.t) : bytes * Disk.t :=
  let '(r, d) := PluginDir.list d (plugin_dir c) in
  (lit "plugins: " ++
   match r with
   | inl plugins =>
       lit "ok; installed=" ++ dec (blen plugins) ++ lit "; enabled=" ++ bool_text (enable_plugins c)
       ++ lit "; directory=" ++ plugin_dir c
   | inr e => lit "invalid; " ++ Plugin.PluginError_display e
   end, d).

(** [compiled]: built for Linux with the [ebpf] feature. *)
Definition render_doctor_report (h : Host) (compiled : bool) (f : Fresh) (c : ResolvedConfig) (check : DoctorCheck)
    (w : Platform.system) : ended bytes * Platform.system :=
  let first :=
    [lit "lens doctor"]
    ++ (if wants check CheckConfig then
          [lit "config: ok; mode=" ++ ProxyMode_display (mode c) ++ lit ", protocol="
           ++ TrafficProtocol_display (protocol c) ++ lit ", listen=" ++ listen c ++ lit ", https="
           ++ Proxy.HttpsMode_display (https_mode c) ++ lit ", redaction=" ++ redaction_text c] else [])
    ++ (if wants check CheckNetwork then
          [lit "network: ok; bind address " ++ SocketAddr.to_string (listen_addr c) ++ lit "; upstream "
           ++ default (lit "selected from HTTP request") (upstream c)] else []) in
  let '(trust, w) :=
    if wants check CheckTrust then
      match doctor_trust h f w with (Finished l, w) => (Finished [l], w) | (Panicked p, w) => (Panicked p, w) end
    else (Finished [], w) in
  match trust with
  | Panicked p => (Panicked p, w)
  | Finished trust =>
      let platform :=
        if wants check CheckPlatform
        then [lit "platform: " ++ os h ++ lit "; userspace explicit proxy mode is supported"] else [] in
      let '(transparent, w) :=
        if wants check CheckTransparent then let '(l, w) := doctor_transparent h w in ([l], w) else ([], w) in
      let '(plugins, w) :=
        if wants check CheckPlugins then let '(l, w) := on_disk w (doctor_plugins c) in ([l], w) else ([], w) in
      let discovery :=
        if wants check CheckDiscovery then
          [lit "discovery: " ++ lit (if compiled then "available" else "unavailable") ++ lit "; platform=" ++ os h
           ++ lit "; cgroup=" ++ default (lit "not-configured") (ebpf_cgroup c) ++ lit "; payload_capture=disabled"]
        else [] in
      (Finished (join NL (first ++ trust ++ platform ++ transparent ++ plugins ++ discovery)), w)
  end.
End Commands.

(** ** Replay *)

Section ReplayCommand.
Context `{Net.Http} `{Replay.Base64Decode} `{Replay.Serde} `{Replay.Files} `{Replay.Client}.

Definition replay_result {A} (r : result A) : outcome A := match r with Ok a => inl a | Err e => inr (ReplayError e) end.

Definition replay_warnings (p : Replay.ReplayPlan) : bytes :=
  let warnings :=
    join (lit "; ")
      ((if Replay.redacted p then [lit "redacted placeholders are present"] else [])
       ++ (if Replay.plan_sensitivity p =s lit "secret" then [lit "capture contains revealed secrets"] else [])
       ++ (if Replay.plan_truncated p then [lit "request is truncated and cannot execute"] else [])
       ++ (if Replay.legacy_text_encoding p then [lit "legacy text-only capture is preview-only"] else [])) in
  if warnings =s [] then lit "none" else warnings.

Definition replay_preview (input target_url : bytes) (p : Replay.ReplayPlan) : bytes :=
  join NL
    [lit "lens replay"; lit "mode: preview"; lit "input: " ++ input; lit "flow: " ++ dec (Replay.flow p);
     lit "request: " ++ dec (Replay.request p); lit "method: " ++ Replay.method p; lit "target: " ++ target_url;
     lit "headers: " ++ (match Replay.plan_headers p with
                         | [] => lit "none"
                         | _ => join (lit ", ") (Replay.header_names p)
                         end);
     lit "body: " ++ dec (blen (Replay.plan_body p)) ++ lit " bytes";
     lit "sensitivity: " ++ Replay.plan_sensitivity p;
     lit "captured_status: " ++ match Replay.captured_status p with Some s => dec s | None => lit "unavailable" end;
     lit "warnings: " ++ replay_warnings p].

Definition replay_policy (o : ReplayArgs) : Replay.ReplayPolicy :=
  Replay.mkPolicy (r_allow_unsafe o) (r_allow_secrets o) (r_allow_redacted o) (r_allow_remote o) (r_timeout_ms o * 10 ^ 6).

(** The plan of the options and its preview. *)
Definition replay_plan (o : ReplayArgs) (input target : bytes) : ended (outcome (Replay.ReplayPlan * bytes)) :=
  match let! selection := replay_result (Replay.selection_new (r_flow o) (r_request o)) in
        replay_result (Replay.load_plan input selection) with
  | inr e => Finished (inr e)
  | inl p =>
      ended_bind (Replay.preview_target_url p target) (fun previewed => Finished
        (let! url := replay_result previewed in inl (p, replay_preview input url p)))
  end.

Definition replay_report (preview : bytes) (report : Replay.ReplayReport) : bytes :=
  join NL
    [preview; lit "mode: executed"; lit "status: " ++ dec (Replay.report_status report);
     lit "elapsed_ms: " ++ dec (Replay.elapsed_ms report);
     lit "status_compare: " ++ Replay.MatchState_display (Replay.status_match report);
     lit "body_compare: " ++ Replay.MatchState_display (Replay.body_match report);
     lit "response_truncated: " ++ bool_text (Replay.response_truncated report);
     lit "redirects: not followed"].

Definition run_replay_command (o : ReplayArgs) (allow_network : bool) (elapsed : Z) : ended (outcome bytes) :=
  expect input := r_input o with "replay input validated during parsing" in
  expect target := r_target o with "replay target validated during parsing" in
  ended_bind (replay_plan o input target) (fun planned =>
    match planned with
    | inr e => Finished (inr e)
    | inl (p, preview) =>
        if negb (r_execute o) || negb allow_network then
          Finished (inl (preview ++ NL ++ lit "network: not sent; pass --execute after reviewing the plan"))
        else
          ended_bind (Replay.execute p target (replay_policy o) elapsed) (fun executed => Finished
            (let! report := replay_result executed in inl (replay_report preview report)))
    end).
End ReplayCommand.

(** ** Export *)

Section Export.
Context `{Store.Base64}.

Definition write_snapshot (d : Disk.t) (path : bytes) (format : ExportFormat) (snapshot : Store.StoreSnapshot) :
    outcome bytes * Disk.t :=
  let contents := match format with Json => Store.to_json snapshot | Jsonl => Store.to_jsonl snapshot end in
  match Disk.open_new d path 438 with
  | (inr e, d) => (inr (Export path (Disk.text e)), d)
  | (inl _, d) =>
      match Disk.write_all d path contents with
      | (inr e, d) => (inr (Export path (Disk.text e)), d)
      | (inl _, d) =>
          match Disk.write_all d path NL with
          | (inr e, d) => (inr (Export path (Disk.text e)), d)
          | (inl _, d) => (inl path, d)
          end
      end
  end.
(** Whether the session has the terminal. *)
Definition interactive (terminal : bool) (c : ResolvedConfig) : bool := negb (headless c) && terminal.

Definition session_report (terminal : bool) (c : ResolvedConfig) (addr : SocketAddr.t) (stats : Proxy.ProxyStats)
    (snapshot : Store.StoreSnapshot) (exported : option bytes) : bytes :=
  join NL
    ([lit "lens stopped"; lit "bound: " ++ SocketAddr.to_string addr;
      lit "accepted: " ++ dec (Proxy.st_accepted stats); lit "completed: " ++ dec (Proxy.st_completed stats);
      lit "failed: " ++ dec (Proxy.st_failed stats);
      lit "observations_dropped: " ++ dec (Proxy.st_dropped stats);
      lit "evicted: " ++ dec (Store.snapshot_evicted snapshot);
      lit "bytes: client->upstream " ++ dec (Proxy.st_up stats) ++ lit ", upstream->client " ++ dec (Proxy.st_down stats)]
     ++ match exported with
        | Some path => [lit "export: " ++ path ++ lit " (" ++ ExportFormat_display (export_format c) ++ lit ")"]
        | None => []
        end
     ++ (if interactive terminal c then [] else map Store.to_json_line (Store.snapshot_flows snapshot))).

(** The end of a session: the export, then the report. *)
Definition finish_session (terminal : bool) (c : ResolvedConfig) (addr : SocketAddr.t) (stats : Proxy.ProxyStats)
    (snapshot : Store.StoreSnapshot) (d : Disk.t) : outcome bytes * Disk.t :=
  match export c with
  | None => (inl (session_report terminal c addr stats snapshot None), d)
  | Some path =>
      match write_snapshot d path (export_format c) snapshot with
      | (inr e, d) => (inr e, d)
      | (inl path, d) => (inl (session_report terminal c addr stats snapshot (Some path)), d)
      end
  end.
End Export.

(** ** Sessions *)

(** The clock and the process at the start of a session. *)
Record Start := mkStart { secs : Z; subsec_nanos : Z; process_id : Z }.

Definition transparent_nonce (s : Start) : Z := Z.max (Z.lxor (Z.lxor (secs s) (subsec_nanos s)) (process_id s)) 1.

Definition fixed_protocol (p : TrafficProtocol) : Proxy.FixedProtocol :=
  match p with
  | Tcp => Proxy.Tcp | Postgres => Proxy.ProtoPostgres | Http => Proxy.ProtoHttp1
  | Http2 => Proxy.ProtoHttp2 | Grpc => Proxy.Grpc | Redis => Proxy.ProtoRedis
  end.

(** The closure of [transparent_target_lookup] on what the socket's redirect
    context is. *)
Definition transparent_target (expected_generation : Z) (context : result Platform.RedirectContext) : result Endpoint :=
  match context with
  | Err e => Proxy.failed "WFP context" e
  | Ok c =>
      if negb (Platform.context_generation c =? expected_generation) then
        Proxy.failed "WFP context" (lit "redirect generation does not match the active session")
      else Ok (mkEndpoint (IpAddr.to_string (SocketAddr.ip (Platform.destination c))) (SocketAddr.port (Platform.destination c)))
  end.

Definition transparent_target_lookup (h : Host) : outcome unit :=
  match kind h with
  | Platform.Windows => inl tt
  | _ => inr (ProxyFailed (lit "native transparent activation is currently available only on Windows"))
  end.

(** The closure behind [FlowIdentityLookup]: discovery first, then the owner
    of the socket. *)
Definition identity_lookup `{Platform.Commands} `{Platform.Proc} (discovery : option Discovery.DiscoverySession)
    (resolver : Platform.ProcessResolver) (client listener : SocketAddr.t) (w : Platform.system) :
    option ServiceIdentity * option Discovery.DiscoverySession * Platform.system :=
  let resolved d :=
    let '(r, w) := Platform.resolve resolver client listener w in (Platform.resolved r, d, w) in
  match discovery with
  | None => resolved None
  | Some s =>
      let '(_, s) := Discovery.poll 64 s in
      match Discovery.take_identity (Discovery.cache s) client with
      | (found, cache) =>
          let s := Discovery.mkSession (Discovery.ring s) cache (Discovery.lens_pid s) (Discovery.invalid_events s) in
          match found with
          | Some identity => (Some identity, Some s, w)
          | None => resolved (Some s)
          end
      end
  end.

Section Session.
Context `{C : Platform.Commands} `{K : Tls.Crypto} `{W : Plugin.Wasm} `{G : PluginDir.Digests} `{T : Proxy.Tls}
  `{B : Store.Base64} `{P : Http2.Hpack} `{J : Redact.JsonSecret}.

(** All a session is given. *)
Record Setup := mkSetup {
  local_addr : SocketAddr.t; runtime : Proxy.ProxyRuntimeConfig; actor : Store.StoreActor;
  discovery : option Discovery.DiscoverySession; resolver : Platform.ProcessResolver;
  native : option Platform.TransparentConfig; tui : option Tui.TuiConfig }.

(** How the tasks of a session went: the counters of the server, whether the
    task of the store could be joined, the observations it had received, and
    what the terminal returned. *)
Record Served := mkServed {
  server_task : result Proxy.ProxyStats; store_task : result unit;
  received : list ObservationEvent; tui_result : result unit }.

(** What the system and the runtime answer; [kernel] is there in builds that
    can attach probes. *)
Class Sessions := {
  stdout_is_terminal : bool;
  tcp_bind : SocketAddr.t -> Platform.system -> result (result SocketAddr.t) * Platform.system;
  build_runtime : result unit;
  platform_verifier : Tls.CertificateAuthority -> result Proxy.interception;
  set_nonblocking : result unit;
  async_listener : result unit;
  kernel : option Discovery.Kernel;
  activate : Platform.TransparentConfig -> result unit;
  serve : Setup -> Platform.system -> Served * Platform.system }.

Context `{S : Sessions}.

(** The interception of HTTPS: the user's authority, created when missing. *)
Definition interception (h : Host) (f : Fresh) (w : Platform.system) :
    ended (outcome Proxy.interception) * Platform.system :=
  match Tls.for_user (config_dir h) with
  | Err e => (Finished (inr (Certificate e)), w)
  | Ok paths =>
      match on_disk w (fun d => Tls.load_or_create d paths (key f) (created f) (now f) (issued f)) with
      | (Tls.Panics, w) => (Panicked Slice, w)
      | (Tls.Returns (Err e), w) => (Finished (inr (Certificate e)), w)
      | (Tls.Returns (Ok authority), w) =>
          (Finished (match platform_verifier authority with Ok i => inl i | Err e => inr (Certificate e) end), w)
      end
  end.

Definition runtime_config (h : Host) (f : Fresh) (c : ResolvedConfig) (w : Platform.system) :
    ended (outcome Proxy.ProxyRuntimeConfig) * Platform.system :=
  let fixed (make : Endpoint -> Proxy.ProxyRuntimeConfig) message :=
    (match upstream_endpoint c with
     | Some e => Finished (inl (make e))
     | None => Panicked (Expected message)
     end, w) in
  match mode c, protocol c with
  | Transparent, p => (Finished (inl (Proxy.transparent (fixed_protocol p))), w)
  | Explicit, Tcp => fixed Proxy.fixed (lit "TCP configuration requires an upstream")
  | Explicit, Postgres => fixed Proxy.postgres (lit "PostgreSQL configuration requires an upstream")
  | Explicit, Redis => fixed Proxy.redis (lit "Redis configuration requires an upstream")
  | Explicit, Http2 => fixed Proxy.http2 (lit "HTTP/2 configuration requires an upstream")
  | Explicit, Grpc => fixed Proxy.grpc (lit "gRPC configuration requires an upstream")
  | Explicit, Http =>
      match https_mode c with
      | Proxy.Intercept =>
          match interception h f w with
          | (Panicked p, w) => (Panicked p, w)
          | (Finished (inr e), w) => (Finished (inr e), w)
          | (Finished (inl i), w) => (Finished (inl (Proxy.with_tls_interception Proxy.http i)), w)
          end
      | m => (Finished (inl (Proxy.with_https_mode Proxy.http m)), w)
      end
  end.

(** The store of the session, with the plugins when they are enabled. *)
Definition session_actor (c : ResolvedConfig) (d : Disk.t) : ended (outcome Store.StoreActor) * Disk.t :=
  match Store.with_inspection (max_flows c) 1 (max_body c) (reveal c) with
  | None => (Panicked (Expected (lit "max_flows and max_body must be positive")), d)
  | Some actor =>
      if enable_plugins c then
        match PluginDir.load d (plugin_dir c) with
        | (inr e, d) => (Finished (inr (plugin_failure e)), d)
        | (inl host, d) => (Finished (inl (Store.with_plugins actor host)), d)
        end
      else (Finished (inl actor), d)
  end.

Definition session_discovery (c : ResolvedConfig) (s : Start) : outcome (option Discovery.DiscoverySession) :=
  match ebpf_cgroup c with
  | None => inl None
  | Some cgroup =>
      let config := Discovery.new_config cgroup (process_id s) in
      match match kernel with Some k => Discovery.start k config | None => Discovery.portable_start config end with
      | inl session => inl (Some session)
      | inr e => inr (DiscoveryError (Discovery.DiscoveryError_display e))
      end
  end.

(** Native redirection, in transparent mode. *)
Definition session_native (h : Host) (c : ResolvedConfig) (s : Start) (addr : SocketAddr.t) :
    outcome (option Platform.TransparentConfig) :=
  match mode c with
  | Explicit => inl None
  | Transparent =>
      match Platform.new_config (process_id s) (SocketAddr.port addr) 1 (transparent_nonce s) with
      | Err e => inr (ProxyFailed e)
      | Ok config =>
          let! _u := transparent_target_lookup h in
          match activate config with Err e => inr (ProxyFailed e) | Ok _ => inl (Some config) end
      end
  end.

(** Serving what was set up, and the end: the snapshot is that of the store
    after all it received. *)
Definition serve_session (c : ResolvedConfig) (setup : Setup) (w : Platform.system) : outcome bytes * Platform.system :=
  let '(served, w) := serve setup w in
  match server_task served with
  | Err e => (inr (ProxyFailed e), w)
  | Ok stats =>
      match store_task served with
      | Err e => (inr (ProxyFailed e), w)
      | Ok _ =>
          match tui setup, tui_result served with
          | Some _, Err e => (inr (Terminal e), w)
          | _, _ =>
              on_disk w (finish_session stdout_is_terminal c (local_addr setup) stats
                           (Store.snapshot (Store.run (actor setup) (received served))))
          end
      end
  end.

(** What a configured listener needs before it can serve. *)
Definition start_session (h : Host) (f : Fresh) (s : Start) (c : ResolvedConfig) (addr : SocketAddr.t) (w : Platform.system) :
    ended (outcome Setup) * Platform.system :=
  match runtime_config h f c w with
  | (Panicked p, w) => (Panicked p, w)
  | (Finished (inr e), w) => (Finished (inr e), w)
  | (Finished (inl runtime), w) =>
      match on_disk w (session_actor c) with
      | (Panicked p, w) => (Panicked p, w)
      | (Finished (inr e), w) => (Finished (inr e), w)
      | (Finished (inl actor), w) =>
          (Finished
             (match Proxy.from_listener set_nonblocking async_listener with
              | Err e => inr (ProxyFailed e)
              | Ok _ =>
                  let! discovery := session_discovery c s in
                  let! native := session_native h c s addr in
                  inl (mkSetup addr runtime actor discovery
                         (Platform.new_resolver (kind h) (service c) (lit "/proc")) native
                         (if interactive stdout_is_terminal c then Some (Tui.new_config (refresh_ms c) (reveal c)) else None))
              end), w)
      end
  end.

Definition run_proxy_session (h : Host) (f : Fresh) (s : Start) (c : ResolvedConfig) (bind_listener : bool)
    (w : Platform.system) : ended (outcome bytes) * Platform.system :=
  if negb bind_listener then (Finished (inl (render_run_plan c)), w)
  else
    match Proxy.listener_new (listen_addr c)
            (match mode c with Explicit => Proxy.Explicit | Transparent => Proxy.TransparentMode end) with
    | Err e => (Finished (inr (InvalidValue (lit "--listen") (listen c) e)), w)
    | Ok listener =>
        let '(opened, w) := tcp_bind (Proxy.addr listener) w in
        match Proxy.listener_bind opened listener with
        | Err e => (Finished (inr (BindFailed (listen c) e)), w)
        | Ok bound =>
            let addr := Proxy.addr bound in
            match build_runtime with
            | Err e => (Finished (inr (RuntimeFailed e)), w)
            | Ok _ =>
                match start_session h f s c addr w with
                | (Panicked p, w) => (Panicked p, w)
                | (Finished (inr e), w) => (Finished (inr e), w)
                | (Finished (inl setup), w) => let '(r, w) := serve_session c setup w in (Finished r, w)
                end
            end
        end
    end.
End Session.

(** ** The program *)

Definition read_config_file `{Platform.Commands} (path : bytes) (w : Platform.system) : outcome (option bytes) * Platform.system :=
  let '(r, w) := on_disk w (fun d => Disk.read_to_string d path) in
  (match r with
   | inl contents => inl (Some contents)
   | inr e => match Disk.kind e with Disk.NotFound => inl None | _ => inr (ConfigRead path (Disk.text e)) end
   end, w).

Section Program.
Context `{C : Platform.Commands} `{K : Tls.Crypto} `{W : Plugin.Wasm} `{G : PluginDir.Digests} `{T : Proxy.Tls}
  `{B : Store.Base64} `{P : Http2.Hpack} `{J : Redact.JsonSecret} `{S : !Sessions}.
Context `{HT : Net.Http} `{BD : Replay.Base64Decode} `{SE : Replay.Serde} `{FI : Replay.Files} `{CL : Replay.Client}.
Context (h : Host) (f : Fresh) (s : Start) (compiled : bool) (elapsed : Z).

(** The settings of the file that [--config] names. *)
Definition file_values (read_config : bytes -> Platform.system -> outcome (option bytes) * Platform.system)
    (path : option bytes) (w : Platform.system) : outcome (option ConfigValues) * Platform.system :=
  match path with
  | None => (inl None, w)
  | Some path =>
      let '(r, w) := read_config path w in
      (let! contents := r in
       match contents with
       | Some contents => inl (Some (parse_config_file contents))
       | None => inr (ConfigNotFound path)
       end, w)
  end.

(** The commands that need a configuration. *)
Definition run_configured (c : Command) (config : ResolvedConfig) (bind_listener : bool) (w : Platform.system) :
    ended (outcome bytes) * Platform.system :=
  match c with
  | Run => run_proxy_session h f s config bind_listener w
  | Doctor check =>
      match render_doctor_report h compiled f config check w with
      | (Finished report, w) => (Finished (inl report), w)
      | (Panicked p, w) => (Panicked p, w)
      end
  | Cert action => run_cert_command h action bind_listener f w
  | _ => (Panicked (Expected (lit "handled before configuration")), w)
  end.

Definition run (args : list bytes) (env : gmap bytes bytes)
    (read_config : bytes -> Platform.system -> outcome (option bytes) * Platform.system) (bind_listener : bool)
    (w : Platform.system) : ended (outcome bytes) * Platform.system :=
  match Cli.parse args with
  | inr e => (Finished (inr e), w)
  | inl parsed =>
      match command parsed with
      | Help => (Finished (inl HELP_TEXT), w)
      | Version => (Finished (inl (lit "lens 0.1.0")), w)
      | Quickstart => (Finished (inl render_quickstart), w)
      | Replay => (run_replay_command (replay parsed) bind_listener elapsed, w)
      | Plugin action =>
          match run_plugin_command h action (plugin parsed) bind_listener with
          | Panicked p => (Panicked p, w)
          | Finished act => let '(r, w) := on_disk w act in (Finished r, w)
          end
      | c =>
          match file_values read_config (config_path parsed) w with
          | (inr e, w) => (Finished (inr e), w)
          | (inl file, w) =>
              match resolve h file (Some (from_env env)) (Some (flags parsed)) with
              | inr e => (Finished (inr e), w)
              | inl config => run_configured c config bind_listener w
              end
          end
      end
  end.

(** [main]: what it prints at the end, on the standard output and the standard
    error, and the exit code; a panic exits with 101, its message left out. *)
Definition main_ (args : list bytes) (env : gmap bytes bytes) (w : Platform.system) : bytes * bytes * Z * Platform.system :=
  match run args env read_config_file true w with
  | (Finished (inl output), w) => (if output =s [] then [] else output ++ NL, [], 0, w)
  | (Finished (inr e), w) => ([], CliError_display e ++ NL, 2, w)
  | (Panicked _, w) => ([], [], 101, w)
  end.
End Program.
End CliRun.
