(* ===== verification/CliFacts.v ===== *)
(** * CliFacts: the command line reads back, resolves soundly and never
    unwraps a missing value. *)

From stdpp Require Import gmap.
From S2P Require Import Prelude RustStd RustText Disk Net Core Proxy Platform Cli.
Import Cli.
#[local] Open Scope lens_scope.

Module CliFacts.

(** ** Canonical command lines *)

Definition value_args {A} (name : string) (show : A -> bytes) (o : option A) : list bytes :=
  match o with Some x => [lit name; show x] | None => [] end.
Definition switch_args (name : string) (o : option bool) : list bytes :=
  match o with Some true => [lit name] | _ => [] end.
Definition flag_args (name : string) (on : bool) : list bytes := if on then [lit name] else [].

Definition PluginAction_text (a : PluginAction) : bytes :=
  match a with PluginInstall => lit "install" | PluginList => lit "list" | PluginRemove => lit "remove" end.
Definition DoctorCheck_text (c : DoctorCheck) : bytes :=
  match c with
  | CheckAll => lit "all" | CheckConfig => lit "config" | CheckNetwork => lit "network" | CheckTrust => lit "trust"
  | CheckPlatform => lit "platform" | CheckTransparent => lit "transparent" | CheckPlugins => lit "plugins"
  | CheckDiscovery => lit "discovery"
  end.

Definition command_args (c : Command) : list bytes :=
  match c with
  | Run => [lit "run"] | Replay => [lit "replay"]
  | Doctor check => [lit "doctor"; lit "--check"; DoctorCheck_text check]
  | Cert a => [lit "cert"; CertAction_display a]
  | Plugin a => [lit "plugin"; PluginAction_text a]
  | Quickstart => [lit "quickstart"] | Help => [lit "--help"] | Version => [lit "--version"]
  end.

Definition flags_args (v : ConfigValues) : list bytes :=
  value_args "--listen" id (v_listen v) ++ value_args "--upstream" id (v_upstream v)
  ++ value_args "--service" id (v_service v) ++ value_args "--protocol" TrafficProtocol_display (v_protocol v)
  ++ value_args "--mode" ProxyMode_display (v_mode v) ++ value_args "--https" Proxy.HttpsMode_display (v_https_mode v)
  ++ match v_reveal v with Some true => [lit "--reveal"] | Some false => [lit "--redact"] | None => [] end
  ++ value_args "--max-flows" dec (v_max_flows v) ++ value_args "--max-body" dec (v_max_body v)
  ++ switch_args "--headless" (v_headless v) ++ value_args "--refresh-ms" dec (v_refresh_ms v)
  ++ value_args "--export" id (v_export v) ++ value_args "--export-format" ExportFormat_display (v_export_format v)
  ++ switch_args "--allow-secret-export" (v_allow_secret_export v) ++ switch_args "--enable-plugins" (v_enable_plugins v)
  ++ value_args "--plugin-dir" id (v_plugin_dir v) ++ value_args "--ebpf-cgroup" id (v_ebpf_cgroup v).

Definition replay_args (r : ReplayArgs) : list bytes :=
  if r_used r then
    [lit "--request"; dec (r_request r)] ++ [lit "--timeout-ms"; dec (r_timeout_ms r)]
    ++ [lit (if r_execute r then "--execute" else "--dry-run")]
    ++ value_args "--input" id (r_input r) ++ value_args "--flow" dec (r_flow r) ++ value_args "--target" id (r_target r)
    ++ flag_args "--allow-unsafe" (r_allow_unsafe r) ++ flag_args "--allow-secrets" (r_allow_secrets r)
    ++ flag_args "--allow-redacted" (r_allow_redacted r) ++ flag_args "--allow-remote" (r_allow_remote r)
  else [].

Definition plugin_args (g : PluginArgs) : list bytes :=
  value_args "--file" id (g_file g) ++ value_args "--name" id (g_name g) ++ value_args "--plugin-version" id (g_version g).

Definition args_of (c : Cli) : list bytes :=
  command_args (command c) ++ value_args "--config" id (config_path c) ++ flags_args (flags c)
  ++ replay_args (replay c) ++ plugin_args (plugin c).

(** What a command line can say: counts are positive and fit their type,
    switches can only be turned on, [--plugin-dir] sets both directories, and
    the options of a replay or of a plugin are used when one of them is set. *)
Definition count_ok (o : option Z) : Prop := forall n, o = Some n -> 0 < n <= u64_max.
Definition switch_ok (o : option bool) : Prop := o <> Some false.

Record flags_ok (v : ConfigValues) : Prop := {
  fo_max_flows : count_ok (v_max_flows v);
  fo_max_body : count_ok (v_max_body v);
  fo_refresh : count_ok (v_refresh_ms v);
  fo_headless : switch_ok (v_headless v);
  fo_secret : switch_ok (v_allow_secret_export v);
  fo_plugins : switch_ok (v_enable_plugins v) }.

Record replay_ok (r : ReplayArgs) : Prop := {
  ro_unused : r_used r = false -> r = replay_default;
  ro_flow : count_ok (r_flow r);
  ro_request : 0 < r_request r <= u64_max;
  ro_timeout : 0 < r_timeout_ms r <= u64_max }.

Definition plugin_ok (g : PluginArgs) : Prop :=
  g_used g = negb (is_none (g_file g) && is_none (g_name g) && is_none (g_version g)).

Record parser_ok (p : Parser) : Prop := {
  po_flags : flags_ok (p_flags p);
  po_replay : replay_ok (p_replay p);
  po_plugin : plugin_ok (p_plugin p);
  po_dir : g_directory (p_plugin p) = v_plugin_dir (p_flags p) }.

Record cli_ok (c : Cli) : Prop := {
  co_flags : flags_ok (flags c);
  co_replay : replay_ok (replay c);
  co_plugin : plugin_ok (plugin c);
  co_dir : g_directory (plugin c) = v_plugin_dir (flags c);
  co_check_replay : check_replay (command c) (replay c) = inl tt;
  co_check_plugin : check_plugin (command c) (plugin c) = inl tt }.

(** *** Every accepted command line is of this kind *)

Lemma digit_val_nonneg radix b d : digit_val radix b = Some d -> 0 <= d.
Proof.
  unfold digit_val, is_ascii_digit, is_ascii_lower, is_ascii_upper, in_range.
  repeat case_match; intros [= <-]; repeat match goal with H : _ && _ = true |- _ => apply andb_true_iff in H as [?%Z.leb_le ?%Z.leb_le] end; lia.
Qed.

Lemma parse_digits_nonneg radix acc s n : 0 <= radix -> 0 <= acc -> parse_digits radix acc s = Some n -> 0 <= n.
Proof.
  intros Hr. revert acc. induction s as [|b s IH]; intros acc Ha; cbn [parse_digits]; [by intros [= <-]|].
  destruct (digit_val radix b) as [d|] eqn:E; [|done]. apply digit_val_nonneg in E. apply IH. nia.
Qed.

Lemma parse_unsigned_bound max s n : parse_unsigned 10 max s = Some n -> 0 <= n <= max.
Proof.
  unfold parse_unsigned. set (ds := match s with [] => _ | _ => _ end). destruct ds as [|b r] eqn:E; [done|].
  destruct (parse_digits 10 0 (b :: r)) as [k|] eqn:Ek; [|done]. apply parse_digits_nonneg in Ek; [|lia..].
  destruct (Z.leb_spec k max); [|done]. intros [= <-]. lia.
Qed.

Lemma parse_positive_ok max name v n : parse_positive max name v = inl n -> max <= u64_max -> 0 < n <= u64_max.
Proof.
  unfold parse_positive. destruct (parse_unsigned 10 max v) as [k|] eqn:E; [|done].
  destruct (Z.eqb_spec k 0); [done|]. intros [= <-] Hm. apply parse_unsigned_bound in E. lia.
Qed.
Definition arm_ok (a : Arm) : Prop :=
  match a with
  | Bare f => forall p p', parser_ok p -> f p = inl p' -> parser_ok p'
  | Takes _ f => forall v p p', parser_ok p -> f v p = inl p' -> parser_ok p'
  end.

Ltac solve_arm :=
  cbn [snd arm_ok value_flag replay_value plugin_value flag replay_flag]; intros;
  repeat match goal with
         | H : (match ?e with inl _ => _ | inr _ => _ end) = inl _ |- _ => destruct e eqn:?; [|discriminate H]
         | H : set_command ?p _ = inl _ |- _ => unfold set_command in H; destruct (p_command p); [discriminate H|]
         | H : inl _ = inl _ |- _ => injection H as <-
         | H : parser_ok _ |- _ => destruct H as [[] [] ? ?]
         end;
  split; [split|split| |]; cbn; try done;
  repeat match goal with
         | |- count_ok (Some _) => intros ? [= <-]
         | H : parse_positive_usize _ _ = inl ?n |- 0 < ?n <= _ => by apply parse_positive_ok in H
         | H : parse_positive_u64 _ _ = inl ?n |- 0 < ?n <= _ => by apply parse_positive_ok in H
         | |- plugin_ok _ => unfold plugin_ok; cbn; by rewrite ?andb_false_r
         end.

Lemma arms_ok : Forall (fun na => arm_ok (snd na)) arms.
Proof. repeat (apply List.Forall_cons; [solve_arm|]); constructor. Qed.

Lemma find_arm_ok arg a : find_arm arms arg = Some a -> arm_ok a.
Proof.
  pose proof arms_ok as Ha. induction Ha as [|[n b] l Hb _ IH]; cbn [find_arm]; [done|].
  destruct (arg =s n); [by intros [= <-]|done].
Qed.

Lemma parse_loop_ok args p p' : parser_ok p -> parse_loop args p = inl p' -> parser_ok p'.
Proof.
  revert p. induction args as [args IH] using (induction_ltof1 _ (@length bytes)). unfold ltof in IH. intros p Hp.
  destruct args as [|arg rest]; cbn [parse_loop]; [by intros [= <-]|].
  destruct (find_arm arms arg) as [[f|n f]|] eqn:E; [| |done]; apply find_arm_ok in E; cbn [arm_ok] in E.
  - destruct (f p) as [q|] eqn:Eq; [|done]. apply IH; [cbn; lia|]. by eapply E.
  - destruct rest as [|v rest]; [done|]. destruct (f v p) as [q|] eqn:Eq; [|done]. apply IH; [cbn; lia|]. by eapply E.
Qed.

Lemma default_parser_ok : parser_ok parser_default.
Proof. by split; [split|split| |]; cbn. Qed.

Lemma parse_cli_ok args c : Cli.parse args = inl c -> cli_ok c.
Proof.
  unfold Cli.parse. destruct (parse_loop args parser_default) as [p|] eqn:Ep; [|done].
  destruct (checked_command p) as [k|]; [|done]. destruct (check_replay k (p_replay p)) as [[]|] eqn:Er; [|done].
  destruct (check_plugin k (p_plugin p)) as [[]|] eqn:Eg; [|done]. intros [= <-].
  destruct (parse_loop_ok _ _ _ default_parser_ok Ep) as [Hf Hr Hg Hd]. by split.
Qed.
(** *** Canonical command lines are read back *)

(** The argument of a setting; a setting that was not made yet may be absent. *)
Lemma value_chunk {A} name (read : bytes -> outcome A) set (show : A -> bytes) o p rest :
  find_arm arms (lit name) = Some (snd (value_flag name read set)) ->
  (forall x, o = Some x -> read (show x) = inl x) ->
  set (p_flags p) None = p_flags p ->
  parse_loop (value_args name show o ++ rest) p = parse_loop rest (with_flags p (set (p_flags p) o)).
Proof.
  intros Ha Hr Hn. destruct o as [x|]; cbn [value_args app].
  - cbn [parse_loop]. rewrite Ha. cbn [snd value_flag]. by rewrite (Hr x eq_refl).
  - rewrite Hn. by destruct p.
Qed.

Lemma switch_chunk name set o p rest :
  find_arm arms (lit name) = Some (flag (fun v => set v (Some true))) ->
  switch_ok o -> set (p_flags p) None = p_flags p ->
  parse_loop (switch_args name o ++ rest) p = parse_loop rest (with_flags p (set (p_flags p) o)).
Proof.
  intros Ha Ho Hn. destruct o as [[]|]; cbn [switch_args app]; [|done|rewrite Hn; by destruct p].
  cbn [parse_loop]. by rewrite Ha.
Qed.

Lemma read_positive max name n : 0 < n <= max -> parse_positive max name (dec n) = inl n.
Proof.
  intros Hn. unfold parse_positive. rewrite parse_unsigned_dec by lia. by rewrite (proj2 (Z.eqb_neq n 0)) by lia.
Qed.

(** The state of the parser, with its fields in sight. *)
Ltac parser_fields :=
  cbv beta iota delta [with_flags with_replay with_plugin p_command p_check p_config p_flags p_replay p_plugin values_default
    replay_default plugin_default plugin_directory g_file g_name g_version g_directory g_used
    v_listen v_upstream v_service v_protocol v_mode v_https_mode v_reveal v_max_flows v_max_body
    v_headless v_refresh_ms v_export v_export_format v_allow_secret_export v_enable_plugins v_plugin_dir
    v_ebpf_cgroup set_listen set_upstream set_service set_protocol set_mode set_https_mode set_reveal
    set_max_flows set_max_body set_headless set_refresh_ms set_export set_export_format
    set_allow_secret_export set_enable_plugins set_plugin_dir set_ebpf_cgroup].

(** The arguments of all settings. *)
Lemma flags_chunk v k ck cf r g rest : flags_ok v -> g_directory g = None ->
  parse_loop (flags_args v ++ rest) (mkParser k ck cf values_default r g)
  = parse_loop rest (mkParser k ck cf v r (plugin_directory g (v_plugin_dir v))).
Proof.
  intros [H1 H2 H3 H4 H5 H6] Hd. destruct v as [li up se pr mo ht re mf mb he rm ex ef al ep pd eb], g as [gf gn gv gd gu].
  unfold flags_args. parser_fields. cbn in H1, H2, H3, H4, H5, H6, Hd. subst gd. rewrite <- !app_assoc.
  rewrite (value_chunk "--listen" inl set_listen); [|done..]; parser_fields.
  rewrite (value_chunk "--upstream" inl set_upstream); [|done..]; parser_fields.
  rewrite (value_chunk "--service" inl set_service); [|done..]; parser_fields.
  rewrite (value_chunk "--protocol" parse_protocol set_protocol); [|done|by intros []|done]; parser_fields.
  rewrite (value_chunk "--mode" parse_mode set_mode); [|done|by intros []|done]; parser_fields.
  rewrite (value_chunk "--https" parse_https_mode set_https_mode); [|done|by intros []|done]; parser_fields.
  match goal with |- parse_loop (?a ++ ?b) ?q = _ =>
    assert (parse_loop (a ++ b) q = parse_loop b (with_flags q (set_reveal (p_flags q) re))) as ->
      by (by destruct re as [[]|]) end; parser_fields.
  rewrite (value_chunk "--max-flows" (parse_positive_usize (lit "--max-flows")) set_max_flows);
    [|done|intros n E; by apply read_positive, H1|done]; parser_fields.
  rewrite (value_chunk "--max-body" (parse_positive_usize (lit "--max-body")) set_max_body);
    [|done|intros n E; by apply read_positive, H2|done]; parser_fields.
  rewrite (switch_chunk "--headless" set_headless); [|done..]; parser_fields.
  rewrite (value_chunk "--refresh-ms" (parse_positive_usize (lit "--refresh-ms")) set_refresh_ms);
    [|done|intros n E; by apply read_positive, H3|done]; parser_fields.
  rewrite (value_chunk "--export" inl set_export); [|done..]; parser_fields.
  rewrite (value_chunk "--export-format" parse_export_format set_export_format); [|done|by intros []|done]; parser_fields.
  rewrite (switch_chunk "--allow-secret-export" set_allow_secret_export); [|done..]; parser_fields.
  rewrite (switch_chunk "--enable-plugins" set_enable_plugins); [|done..]; parser_fields.
  match goal with |- parse_loop (?a ++ ?b) ?q = _ =>
    assert (parse_loop (a ++ b) q = parse_loop b (with_plugin (with_flags q (set_plugin_dir (p_flags q) pd))
      (plugin_directory (p_plugin q) pd))) as -> by (by destruct pd) end; parser_fields.
  rewrite (value_chunk "--ebpf-cgroup" inl set_ebpf_cgroup); [|done..]; by parser_fields.
Qed.
Lemma replay_chunk_value {A} name (read : bytes -> outcome (option A)) set (show : A -> bytes) o p rest :
  find_arm arms (lit name) = Some (snd (replay_value name read set)) ->
  (forall x, o = Some x -> read (show x) = inl (Some x)) ->
  set (p_replay p) None = p_replay p ->
  parse_loop (value_args name show o ++ rest) p = parse_loop rest (with_replay p (set (p_replay p) o)).
Proof.
  intros Ha Hr Hn. destruct o as [x|]; cbn [value_args app].
  - cbn [parse_loop]. rewrite Ha. cbn [snd replay_value]. by rewrite (Hr x eq_refl).
  - rewrite Hn. by destruct p.
Qed.

Lemma replay_chunk_flag name set on p rest :
  find_arm arms (lit name) = Some (replay_flag (fun r => set r true)) -> set (p_replay p) false = p_replay p ->
  parse_loop (flag_args name on ++ rest) p = parse_loop rest (with_replay p (set (p_replay p) on)).
Proof.
  intros Ha Hn. destruct on; cbn [flag_args app]; [|rewrite Hn; by destruct p]. cbn [parse_loop]. by rewrite Ha.
Qed.

Lemma loop_number {A} name (read : bytes -> outcome A) set text (x : A) p rest :
  find_arm arms (lit name) = Some (snd (replay_value name read set)) -> read text = inl x ->
  parse_loop (lit name :: text :: rest) p = parse_loop rest (with_replay p (set (p_replay p) x)).
Proof. intros Ha Hr. cbn [parse_loop]. rewrite Ha. cbn [snd replay_value]. by rewrite Hr. Qed.

Ltac replay_fields :=
  cbv beta iota delta [with_replay p_command p_check p_config p_flags p_replay p_plugin replay_default replay_input replay_flow
    replay_request replay_target replay_execute replay_allow_unsafe replay_allow_secrets replay_allow_redacted replay_allow_remote
    replay_timeout_ms r_input r_flow r_request r_target r_execute r_allow_unsafe r_allow_secrets r_allow_redacted
    r_allow_remote r_timeout_ms r_used].

Lemma replay_chunk r k ck cf fl g rest : replay_ok r ->
  parse_loop (replay_args r ++ rest) (mkParser k ck cf fl replay_default g) = parse_loop rest (mkParser k ck cf fl r g).
Proof.
  intros [Hu Hf Hr Ht]. unfold replay_args. destruct (r_used r) eqn:E; [|by rewrite Hu].
  destruct r as [inp flow rq tg ex au as_ ard arm tm us]. cbn in E, Hf, Hr, Ht. subst us. clear Hu. replay_fields.
  rewrite <- !app_assoc. cbn [app].
  rewrite (loop_number "--request" (parse_positive_usize (lit "--request")) replay_request _ rq);
    [|done|by apply read_positive]; replay_fields.
  rewrite (loop_number "--timeout-ms" (parse_positive_u64 (lit "--timeout-ms")) replay_timeout_ms _ tm);
    [|done|by apply read_positive]; replay_fields.
  match goal with |- parse_loop (_ :: ?b) ?q = _ =>
    assert (parse_loop (lit (if ex then "--execute" else "--dry-run") :: b) q = parse_loop b (with_replay q (replay_execute (p_replay q) ex))) as ->
      by (by destruct ex) end; replay_fields.
  rewrite (replay_chunk_value "--input" (fun v => inl (Some v)) replay_input); [|done..]; replay_fields.
  rewrite (replay_chunk_value "--flow" (fun v => let! n := parse_positive_u64 (lit "--flow") v in inl (Some n)) replay_flow);
    [|done| |done]; replay_fields.
  2: { intros n En. unfold parse_positive_u64. by rewrite read_positive by (by apply Hf). }
  rewrite (replay_chunk_value "--target" (fun v => inl (Some v)) replay_target); [|done..]; replay_fields.
  rewrite (replay_chunk_flag "--allow-unsafe" replay_allow_unsafe); [|done..]; replay_fields.
  rewrite (replay_chunk_flag "--allow-secrets" replay_allow_secrets); [|done..]; replay_fields.
  rewrite (replay_chunk_flag "--allow-redacted" replay_allow_redacted); [|done..]; replay_fields.
  rewrite (replay_chunk_flag "--allow-remote" replay_allow_remote); [|done..]; by replay_fields.
Qed.

Lemma plugin_chunk g k ck cf fl r : plugin_ok g ->
  parse_loop (plugin_args g) (mkParser k ck cf fl r (plugin_directory plugin_default (g_directory g)))
  = inl (mkParser k ck cf fl r g).
Proof.
  destruct g as [[f|] [n|] [v|] d us]; unfold plugin_ok; cbn [is_none g_file g_name g_version g_used andb negb]; intros ->;
    reflexivity.
Qed.

(** The command, and the file of the configuration. *)
Lemma command_chunk c cf rest :
  parse_loop (command_args c ++ value_args "--config" id cf ++ rest) parser_default
  = parse_loop rest (mkParser (Some (match c with Doctor _ => Doctor CheckAll | _ => c end))
      (match c with Doctor check => Some check | _ => None end) cf values_default replay_default plugin_default).
Proof. destruct c as [| |[]|[]|[]| | |], cf; reflexivity. Qed.

(** C30. Every command line that is accepted makes sense (the requirements between
    options hold, counts are positive), and every sensible selection of a
    command and options is read back from its canonical command line. *)
Theorem cli_parse_canonical (c : Cli) :
  (forall args, Cli.parse args = inl c -> cli_ok c)
  /\ (cli_ok c -> Cli.parse (args_of c) = inl c).
Proof.
  split; [intros args; apply parse_cli_ok|]. destruct c as [k cf fl r g]. intros [Hf Hr Hg Hd Hcr Hcg].
  cbn [command config_path flags replay plugin] in *. unfold Cli.parse, args_of. cbn [command config_path flags replay plugin].
  rewrite command_chunk, flags_chunk by done. rewrite (replay_chunk r) by done. rewrite <- Hd, plugin_chunk by done.
  destruct k; cbv beta iota delta [checked_command p_command p_check p_config p_flags p_replay p_plugin from_option id];
    by rewrite Hcr, Hcg.
Qed.

Definition demo_cli : Cli :=
  mkCli Run (Some (lit "lens.conf"))
    (mkValues (Some (lit "127.0.0.1:15432")) (Some (lit "db:5432")) None (Some Postgres) None None (Some false) (Some 500)
       None (Some true) None (Some (lit "out.jsonl")) (Some Json) None None None None)
    replay_default plugin_default.

Lemma cli_parse_canonical_witness : Cli.parse (args_of demo_cli) = inl demo_cli.
Proof.
  apply (cli_parse_canonical demo_cli). split; [split|split| | | |]; try done; intros n [= <-]; by cbn.
Defined.
(** ** Resolution *)

(** Settings laid over others: the first that is made counts. *)
Definition overlay (a b : ConfigValues) : ConfigValues :=
  mkValues (or (v_listen a) (v_listen b))
    (or (v_upstream a) (v_upstream b))
    (or (v_service a) (v_service b))
    (or (v_protocol a) (v_protocol b))
    (or (v_mode a) (v_mode b))
    (or (v_https_mode a) (v_https_mode b))
    (or (v_reveal a) (v_reveal b))
    (or (v_max_flows a) (v_max_flows b))
    (or (v_max_body a) (v_max_body b))
    (or (v_headless a) (v_headless b))
    (or (v_refresh_ms a) (v_refresh_ms b))
    (or (v_export a) (v_export b))
    (or (v_export_format a) (v_export_format b))
    (or (v_allow_secret_export a) (v_allow_secret_export b))
    (or (v_enable_plugins a) (v_enable_plugins b))
    (or (v_plugin_dir a) (v_plugin_dir b))
    (or (v_ebpf_cgroup a) (v_ebpf_cgroup b)).

(** The command line over the environment over the file. *)
Definition merged (file env flags : option ConfigValues) : ConfigValues :=
  overlay (default values_default flags) (overlay (default values_default env) (default values_default file)).

(** What a configuration must be for given settings: every field, and the
    conditions between them. *)
Record resolves (h : Host) (v : ConfigValues) (c : ResolvedConfig) : Prop := {
  rs_listen : listen c = default DEFAULT_LISTEN (v_listen v);
  rs_addr : SocketAddr.parse (listen c) = Some (listen_addr c);
  rs_upstream : upstream c = v_upstream v;
  rs_endpoint : match upstream c, upstream_endpoint c with
                | Some u, Some e => parse_endpoint u = inl e
                | None, None => True
                | _, _ => False
                end;
  rs_service : match v_service v, service c with
               | Some s, Some l => validate_service_label s = inl l
               | None, None => True
               | _, _ => False
               end;
  rs_protocol : protocol c = default (if is_none (v_upstream v) then Http else Tcp) (v_protocol v);
  rs_mode : mode c = default Explicit (v_mode v);
  rs_transparent : mode c = Transparent -> IpAddr.is_loopback (SocketAddr.ip (listen_addr c)) = true /\ upstream c = None;
  rs_explicit : mode c = Explicit -> protocol c = Http <-> upstream c = None;
  rs_https : https_mode c = default Proxy.Intercept (v_https_mode v);
  rs_reveal : reveal c = default false (v_reveal v);
  rs_flows : max_flows c = default 10000 (v_max_flows v);
  rs_body : max_body c = default 262144 (v_max_body v);
  rs_headless : headless c = default false (v_headless v);
  rs_refresh : refresh_ms c = Z.max 50 (Z.min 2000 (default 250 (v_refresh_ms v)));
  rs_export : export c = v_export v;
  rs_secret : reveal c = true -> export c <> None -> v_allow_secret_export v = Some true;
  rs_format : export_format c = default Jsonl (v_export_format v);
  rs_plugins : enable_plugins c = default false (v_enable_plugins v);
  rs_dir : plugin_dir c = default (default_plugin_dir h) (v_plugin_dir v);
  rs_cgroup : ebpf_cgroup c = v_ebpf_cgroup v }.

Lemma or_none {A} (a : option A) : or a None = a.
Proof. by destruct a. Qed.
Lemma or_assoc {A} (a b c : option A) : or (or a b) c = or a (or b c).
Proof. by destruct a. Qed.

Lemma first_merged {A} (get : ConfigValues -> option A) file env flags :
  (forall a b, get (overlay a b) = or (get a) (get b)) -> get values_default = None ->
  first file env flags get = get (merged file env flags).
Proof.
  intros Ho Hd. unfold first, merged. rewrite !Ho, or_assoc.
  assert (forall s, from s get = get (default values_default s)) as K by (by intros []). by rewrite !K.
Qed.

Lemma picked_merged {A} (get : ConfigValues -> option A) file env flags d :
  (forall a b, get (overlay a b) = or (get a) (get b)) -> get values_default = None ->
  picked file env flags get d = default d (get (merged file env flags)).
Proof. intros Ho Hd. rewrite <- (first_merged get) by done. done. Qed.

Lemma transpose_spec {A B} (f : A -> outcome B) o r :
  transpose (f <$> o) = inl r <-> match o, r with Some a, Some b => f a = inl b | None, None => True | _, _ => False end.
Proof.
  destruct o as [a|], r as [b|]; cbn; split; try done; repeat case_match; try done; congruence.
Qed.

(** The fixed target agrees with the mode and the protocol. *)
Lemma check_target_spec m p u (fixed : bool) :
  check_target m p u fixed = inl tt <-> (m = Transparent -> fixed = false) /\ (m = Explicit -> p = Http <-> fixed = false).
Proof. destruct m, p, fixed; cbn; naive_solver. Qed.

Lemma resolve_spec (h : Host) (file env flags : option ConfigValues) (c : ResolvedConfig) :
  resolve h file env flags = inl c <-> resolves h (merged file env flags) c.
Proof.
  unfold resolve. cbv zeta.
  rewrite !(picked_merged v_listen), !(first_merged v_upstream), !(first_merged v_service), !(first_merged v_protocol),
    !(picked_merged v_mode), !(picked_merged v_reveal), !(first_merged v_export), !(picked_merged v_allow_secret_export),
    !(picked_merged v_https_mode), !(picked_merged v_max_flows), !(picked_merged v_max_body), !(picked_merged v_headless),
    !(picked_merged v_refresh_ms), !(picked_merged v_export_format), !(picked_merged v_enable_plugins),
    !(first_merged v_plugin_dir), !(first_merged v_ebpf_cgroup) by done.
  generalize (merged file env flags). clear file env flags. intros v. split.
  - destruct (SocketAddr.parse _) as [addr|] eqn:Ea; [|done].
    destruct (transpose (parse_endpoint <$> _)) as [ep|] eqn:Ee; [|done].
    destruct (transpose (validate_service_label <$> _)) as [sv|] eqn:Es; [|done].
    destruct (bool_decide _ && _) eqn:Em; [done|]. destruct (check_target _ _ _ _) as [[]|] eqn:Et; [|done].
    destruct (_ && _ && _) eqn:Ex; [done|]. intros [= <-].
    apply transpose_spec in Ee, Es. apply check_target_spec in Et as [Et1 Et2].
    assert (is_none ep = is_none (v_upstream v)) as En by (by destruct (v_upstream v), ep).
    assert (forall b, negb b = false <-> b = true) as Hb by (by intros []).
    assert (is_none (v_upstream v) = true <-> v_upstream v = None) as Hu by (by destruct (v_upstream v)).
    rewrite !Hb, ?En in *. rewrite Hu in *. split; cbn; try done; try (by rewrite En).
    + intros Hm. split; [|by apply Et1]. destruct (IpAddr.is_loopback _); [done|]. by rewrite Hm in Em.
    + intros Hr He. rewrite Hr in Ex. destruct (v_export v); [|done]. by destruct (v_allow_secret_export v) as [[]|].
  - intros [E1 E2 E3 E4 E5 E6 E7 E8 E9 E10 E11 E12 E13 E14 E15 E16 E17 E18 E19 E20 E21].
    destruct c as [li la up ep sv pr mo ht re mf mb he rm ex ef en pd eb].
    cbn [listen listen_addr upstream upstream_endpoint service protocol mode https_mode reveal max_flows max_body headless
      refresh_ms export export_format enable_plugins plugin_dir ebpf_cgroup] in *. subst li up ex.
    rewrite E2. rewrite (proj2 (transpose_spec parse_endpoint (v_upstream v) ep) E4).
    rewrite (proj2 (transpose_spec validate_service_label (v_service v) sv) E5).
    assert (is_none ep = is_none (v_upstream v)) as En by (by destruct (v_upstream v), ep).
    assert (is_none (v_upstream v) = true <-> v_upstream v = None) as Hu by (by destruct (v_upstream v)).
    assert (forall b, negb b = false <-> b = true) as Hb by (by intros []).
    change DEFAULT_MODE with Explicit. rewrite En, <- E6, <- E7, <- E11.
    assert (bool_decide (mo = Transparent) && negb (IpAddr.is_loopback (SocketAddr.ip la)) = false) as ->.
    { case_bool_decide as Hm; [|done]. by rewrite (proj1 (E8 Hm)). }
    assert (check_target mo pr (v_upstream v) (negb (is_none (v_upstream v))) = inl tt) as ->.
    { apply check_target_spec. rewrite Hb, Hu. split; [by intros Hm; apply E8|done]. }
    assert (re && negb (is_none (v_export v)) && negb (default false (v_allow_secret_export v)) = false) as ->.
    { destruct re; [|done]. destruct (v_export v); [|done]. by rewrite E17. }
    by subst.
Qed.
(** C29. A configuration is resolved from the file, the environment and the command
    line exactly when it is the one these settings call for, each taken from
    the command line first, then the environment, then the file: so a
    transparent proxy listens on a loopback address, a fixed protocol has its
    target, revealed traffic is only exported when that was allowed, and the
    screen is refreshed every 50 to 2000 milliseconds. *)
Theorem cli_resolve_exact (h : Host) (file env flags : option ConfigValues) (c : ResolvedConfig) :
  (resolve h file env flags = inl c <-> resolves h (merged file env flags) c)
  /\ (resolve h file env flags = inl c -> 50 <= refresh_ms c <= 2000).
Proof.
  split; [apply resolve_spec|]. intros Hr%resolve_spec. rewrite (rs_refresh _ _ _ Hr). lia.
Qed.
End CliFacts.
