(* ===== verification/CliRunFacts.v ===== *)
(** * CliRunFacts: what running a command guarantees. *)

From stdpp Require Import gmap.
From S2P Require Import Prelude RustStd RustText Disk Net Core Redact Plugin Http2 Http2Wire Store StoreFacts Replay Proxy ProxyFacts Tls TlsFacts PluginDir Tui Platform PlatformFacts Discovery DiscoveryFacts Cli CliRun CliFacts.
Import Cli CliRun CliFacts.
#[local] Open Scope lens_scope.

Module CliRunFacts.

(** ** Counts are positive, wherever they come from *)

Definition counts_ok (v : ConfigValues) : Prop := count_ok (v_max_flows v) /\ count_ok (v_max_body v).

Lemma count_none : count_ok None.
Proof. by intros n. Qed.

Lemma count_read name v : count_ok (ok (parse_positive_usize name v)).
Proof.
  unfold parse_positive_usize. destruct (parse_positive usize_max name v) as [n|] eqn:E; [|apply count_none].
  intros m [= <-]. by apply parse_positive_ok in E.
Qed.

Lemma from_env_counts env : counts_ok (from_env env).
Proof. split; cbn; unfold read; destruct (get env _); auto using count_none, count_read. Qed.

Lemma set_value_counts v key value : counts_ok v -> counts_ok (set_value v key value).
Proof.
  intros [H1 H2]. unfold set_value. repeat (case_match; [split; cbn; auto using count_read|]). by split.
Qed.

Lemma config_file_counts contents : counts_ok (parse_config_file contents).
Proof.
  unfold parse_config_file. assert (counts_ok values_default) as H0 by (split; apply count_none). revert H0.
  generalize values_default. induction (lines contents) as [|l ls IH]; intros v Hv; [done|]. cbn [fold_left]. apply IH.
  unfold config_line. case_match; [done|]. destruct (split_once _ _) as [[k x]|]; [|done]. by apply set_value_counts.
Qed.

Lemma merged_counts file env flags :
  (forall v, file = Some v -> counts_ok v) -> (forall v, env = Some v -> counts_ok v) -> (forall v, flags = Some v -> counts_ok v) ->
  counts_ok (merged file env flags).
Proof.
  assert (forall s, (forall v, s = Some v -> counts_ok v) -> counts_ok (default values_default s)) as K.
  { intros [v|] Hs; [by apply Hs|]. split; apply count_none. }
  assert (forall a b, counts_ok a -> counts_ok b -> counts_ok (overlay a b)) as L.
  { intros a b [A1 A2] [B1 B2]. split; cbn; [destruct (v_max_flows a)|destruct (v_max_body a)]; done. }
  intros H1 H2 H3. apply L; [|apply L]; by apply K.
Qed.

Lemma resolves_limits h v c : counts_ok v -> resolves h v c -> 0 < max_flows c /\ 0 < max_body c.
Proof.
  intros [H1 H2] Hr. rewrite (rs_flows _ _ _ Hr), (rs_body _ _ _ Hr).
  destruct (v_max_flows v) as [a|] eqn:Ea, (v_max_body v) as [b|] eqn:Eb; cbn;
    try (destruct (H1 a eq_refl)); try (destruct (H2 b eq_refl)); lia.
Qed.

(** ** No command unwraps a value that is not there *)

Section Sound.
Context `{C : Platform.Commands} `{K : Tls.Crypto} `{W : Plugin.Wasm} `{G : PluginDir.Digests} `{T : Proxy.Tls}
  `{B : Store.Base64} `{P : Http2.Hpack} `{J : Redact.JsonSecret} `{S : !Sessions}.

Lemma interception_sound h f w : sound (interception h f w).1.
Proof.
  intros message. unfold interception. destruct (Tls.for_user _) as [paths|]; [|done].
  destruct (on_disk w _) as [[[ca|]|] w']; done.
Qed.

Lemma runtime_config_sound h f v c w : resolves h v c -> sound (runtime_config h f c w).1.
Proof.
  intros Hr message. unfold runtime_config.
  pose proof (rs_explicit _ _ _ Hr) as He. pose proof (rs_endpoint _ _ _ Hr) as Hp.
  destruct (mode c); [|done]. specialize (He eq_refl).
  destruct (protocol c) eqn:Epr.
  { destruct (https_mode c); [|done..]. pose proof (interception_sound h f w message) as Hi.
    destruct (interception h f w) as [[[i|]|p] w']; [done..|]. cbn in *. congruence. }
  all: destruct (upstream_endpoint c); [done|]; destruct (upstream c); [done|]; by destruct He as [_ He]; specialize (He eq_refl).
Qed.

Lemma session_actor_sound c d : 0 < max_flows c -> 0 < max_body c -> sound (session_actor c d).1.
Proof.
  intros H1 H2 message. unfold session_actor, Store.with_inspection.
  rewrite (proj2 (Z.ltb_lt _ _) H1), (proj2 (Z.ltb_lt _ _) H2). cbn [andb]. by repeat case_match.
Qed.

Lemma session_sound h f s v c b w : counts_ok v -> resolves h v c -> sound (run_proxy_session h f s c b w).1.
Proof.
  intros Hv Hr message. destruct (resolves_limits _ _ _ Hv Hr) as [Hf Hb]. unfold run_proxy_session.
  destruct (negb b); [done|]. destruct (Proxy.listener_new _ _); [|done]. destruct (tcp_bind _ w) as [opened w1].
  destruct (Proxy.listener_bind opened _) as [bound|]; [|done].
  destruct build_runtime; [|done]. unfold start_session.
  pose proof (runtime_config_sound h f v c w1 Hr message) as H1.
  destruct (runtime_config h f c w1) as [[[rt|]|p] w2]; [|done|cbn in *; congruence]. unfold on_disk.
  pose proof (session_actor_sound c (Platform.disk w2) Hf Hb message) as H2.
  destruct (session_actor c (Platform.disk w2)) as [[[act|]|q] d]; [|done|cbn in *; congruence].
  destruct (match Proxy.from_listener _ _ with Ok _ => _ | Err _ => _ end) as [setup|]; [|done]. by destruct (serve_session c setup _).
Qed.

(** The fallback may take for present what is there on Linux. *)
Lemma trust_outcome_sound s r fallback : (is_linux s = true -> forall e, sound (fallback e)) -> sound (trust_outcome s r fallback).
Proof.
  intros Hf. unfold trust_outcome. destruct r as [r|e]; [done|]. destruct (is_linux s); [|done]. by apply sound_bind; auto.
Qed.

(** On Linux the bundle was created. *)
Lemma linux_bundle_there s f ca d bundle : (linux_bundle s f ca d).1 = inl bundle -> is_linux s = true -> exists path, bundle = Some path.
Proof.
  unfold linux_bundle. intros Hb Hl. rewrite Hl in Hb. destruct (Tls.write_linux_client_bundle ca d true (ssl_cert_file f)) as [[path|e] d']; [|done].
  injection Hb as <-. by exists path.
Qed.

Lemma cert_install_sound s f paths w : sound (cert_install s f paths w).1.
Proof.
  intros message. unfold cert_install. destruct (on_disk w _) as [[[ca|]|] w1]; [|done..]. unfold on_disk.
  pose proof (linux_bundle_there s f ca (Platform.disk w1)) as Hb.
  destruct (linux_bundle s f ca (Platform.disk w1)) as [[bundle|] d]; [|done]. specialize (Hb bundle eq_refl).
  destruct (Platform.install s _ _) as [r w2]. cbn [fst]. revert message. apply sound_bind; [|done].
  apply trust_outcome_sound. intros Hl e message. by destruct (Hb Hl) as [path ->].
Qed.

Lemma cert_sound h a b f w : sound (run_cert_command h a b f w).1.
Proof.
  intros message. unfold run_cert_command. destruct (Tls.for_user _) as [paths|]; [|done]. destruct (negb b); [done|].
  destruct (Platform.current_store _ _ _) as [s|]; [|done]. destruct a.
  - apply cert_install_sound.
  - unfold cert_uninstall. destruct (Platform.uninstall s w) as [r w']. cbn [fst]. revert message.
    apply sound_bind; [|done]. by apply trust_outcome_sound.
  - destruct (on_disk w _) as [[m|] w']; [|done]. by destruct (Platform.status _ _).
Qed.

Lemma doctor_trust_sound h f w : sound (doctor_trust h f w).1.
Proof.
  intros message. unfold doctor_trust. destruct (Tls.for_user _) as [paths|].
  - destruct (on_disk w _) as [[st|] w']; [|done]. destruct (Platform.current_store _ _ _); [|done]. by destruct (Platform.status _ _).
  - destruct (Platform.current_store _ _ _); [|done]. by destruct (Platform.status _ _).
Qed.

Lemma doctor_sound h k f c check w : sound (render_doctor_report h k f c check w).1.
Proof.
  intros message. unfold render_doctor_report. pose proof (doctor_trust_sound h f w message) as Ht. destruct (wants check CheckTrust).
  - destruct (doctor_trust h f w) as [[l|p] w1]; [|cbn in *; congruence].
    destruct (if wants check CheckTransparent then _ else _) as [a w2]. by destruct (if wants check CheckPlugins then _ else _).
  - destruct (if wants check CheckTransparent then _ else _) as [a w2]. by destruct (if wants check CheckPlugins then _ else _).
Qed.

Context `{HT : Net.Http} `{BD : Replay.Base64Decode} `{SE : Replay.Serde} `{FI : Replay.Files} `{CL : Replay.Client}.

Lemma replay_command_sound o allow elapsed :
  (exists input target, r_input o = Some input /\ r_target o = Some target) -> sound (run_replay_command o allow elapsed).
Proof.
  intros (input & target & Hi & Ht). unfold run_replay_command. rewrite Hi, Ht. apply sound_bind.
  - unfold replay_plan. destruct (let! _ := _ in _) as [p|e]; [|done].
    apply sound_bind; [|done]. intros message. apply Replay.preview_target_url_sound.
  - intros [[p preview]|e] _; [|done]. destruct (negb _ || negb _); [done|]. apply sound_bind; [|done].
    intros message. unfold Replay.execute. apply sound_bind; [|done]. intros q. apply Replay.validate_execution_sound.
Qed.

(** C31. Whatever the arguments, the environment and the configuration file are, no
    command fails on a value it takes to be there: the file and the name of a
    plugin, the input and the target of a replay and the scheme and authority
    of that target, the client bundle of a certificate installation, the
    upstream of a fixed protocol, positive limits of the store. *)
Theorem cli_never_unwraps (h : Host) (f : Fresh) (s : Start) (compiled : bool) (elapsed : Z)
    (args : list bytes) (env : gmap bytes bytes)
    (read_config : bytes -> Platform.system -> outcome (option bytes) * Platform.system) (bind_listener : bool)
    (w : Platform.system) (message : bytes) :
  (run h f s compiled elapsed args env read_config bind_listener w).1 <> Panicked (Expected message).
Proof.
  unfold run. destruct (Cli.parse args) as [cli|] eqn:Ep; [|done]. apply parse_cli_ok in Ep as [Hf _ _ _ Hcr Hcg].
  assert (forall k, k = command cli -> (k = Run \/ (exists c, k = Doctor c) \/ exists a, k = Cert a) ->
    (match file_values read_config (config_path cli) w with
     | (inr e, w) => (Finished (inr e), w)
     | (inl file, w) =>
         match resolve h file (Some (from_env env)) (Some (flags cli)) with
         | inr e => (Finished (inr e), w)
         | inl config => run_configured h f s compiled k config bind_listener w
         end
     end).1 <> Panicked (Expected message)) as Hrun.
  { intros k _ Hk. destruct (file_values read_config (config_path cli) w) as [[file|] w1] eqn:Efv; [|done].
    destruct (resolve h file _ _) as [c|] eqn:Er; [|done]. apply resolve_spec in Er.
    assert (counts_ok (merged file (Some (from_env env)) (Some (flags cli)))) as Hv.
    { apply merged_counts; [|intros v [= <-]; apply from_env_counts|intros v [= <-]; split; apply Hf].
      intros v ->. unfold file_values in Efv. destruct (config_path cli) as [path|]; [|done].
      destruct (read_config path w) as [[[contents|]|] w2]; [|done..]. injection Efv as <- <-. apply config_file_counts. }
    destruct Hk as [->|[[ck ->]|[a ->]]]; cbn [run_configured].
    - by eapply session_sound.
    - pose proof (doctor_sound h compiled f c ck w1 message) as Hd.
      destruct (render_doctor_report h compiled f c ck w1) as [[r|p] w2]; [done|cbn in *; congruence].
    - apply cert_sound. }
  destruct (command cli) as [| |ck|a|a| | |] eqn:Ek; try done.
  - apply Hrun; auto.
  - refine (replay_command_sound (replay cli) bind_listener elapsed _ message). cbn in Hcr. destruct (r_input (replay cli)), (r_target (replay cli)); naive_solver.
  - apply Hrun; eauto.
  - apply Hrun; eauto.
  - unfold run_plugin_command. cbn in Hcg.
    destruct a, (g_file (plugin cli)), (g_name (plugin cli)), (g_version (plugin cli)); try done; by destruct (on_disk w _).
Qed.
End Sound.

(** ** Identities *)









Section Identities.
Context `{C : Platform.Commands} `{Platform.Proc}.


End Identities.

Section AttachedIdentities.
Context `{C : Platform.Commands} `{Platform.Proc} `{K : Tls.Crypto} `{W : Plugin.Wasm} `{G : PluginDir.Digests} `{T : Proxy.Tls}
  `{B : Store.Base64} `{P : Http2.Hpack} `{J : Redact.JsonSecret} `{S : !Sessions}.


End AttachedIdentities.

(** ** Exports *)

Section Exports.
Context `{B : Store.Base64}.






End Exports.

Section SessionExport.
Context `{C : Platform.Commands} `{K : Tls.Crypto} `{W : Plugin.Wasm} `{G : PluginDir.Digests} `{T : Proxy.Tls}
  `{B : Store.Base64} `{P : Http2.Hpack} `{J : Redact.JsonSecret} `{S : !Sessions}.



End SessionExport.

Definition plain_text : Store.Base64 := {| Store.base64_encode s := s |}.
#[local] Existing Instances PlatformFacts.memory_store TlsFacts.toy_crypto Plugin.echo_wasm PluginDirFacts.zero_digests
  ProxyFacts.no_tls plain_text Http2Wire.literal_hpack Redact.no_json_secret.

Definition demo_served : Served := mkServed (Ok (Proxy.mkStats 1 1 0 0 0 0)) (Ok tt) StoreFacts.demo_events (Ok tt).
#[local] Instance demo_session : Sessions := {|
  stdout_is_terminal := false;
  tcp_bind a w := (Ok (Ok a), w);
  build_runtime := Ok tt;
  platform_verifier _ := Err (lit "none");
  set_nonblocking := Ok tt;
  async_listener := Ok tt;
  kernel := None;
  activate _ := Ok tt;
  serve _ w := (demo_served, w) |}.







End CliRunFacts.
