(* ===== verification/Session.v ===== *)
(** * Session: the tasks of a running session, together.

    What [run_proxy_session] of [crates/lens-cli] spawns: the server of
    [crates/lens-proxy] with its connection tasks and identity lookups, the
    observation channel, and the store that drains it, as one step relation
    over the interleavings of all of them, in which tasks and lookups may wait
    for ever for what is around the session.  A session that ends hands the
    command line its counters and what the store received. *)

From stdpp Require Import gmap.
From S2P Require Import Prelude RustStd Disk Net Core Protocol Redact Plugin Http2 Http2Wire Store StoreFacts Proxy ProxyFacts Pipeline Tls TlsFacts PluginDir Platform PlatformFacts Discovery Cli CliRun.
Import Store.
#[local] Open Scope lens_scope.

Module Session.

Section Tasks.
Context `{HT : Http} `{T : Proxy.Tls} `{P : Http2.Hpack} `{J : Redact.JsonSecret} `{W : Plugin.Wasm}.

(** A connection: its flow and its client, the route that is chosen for it, all
    that its task will have done when it is not disturbed, the observations its
    task and its identity lookup have still to emit, whether the task can go on
    or waits for its peers, and whether it was cut off by a panic or an abort. *)
Record Connection := mkConnection {
  flow : FlowId; peer : SocketAddr.t; chosen : result Proxy.Route; plan : Proxy.Forwarded;
  left : list ObservationKind; background : list ObservationKind; ready : bool; cut : bool }.

Definition connection (id : FlowId) (peer : SocketAddr.t) (chosen : result Proxy.Route) (f : Proxy.Forwarded) : Connection :=
  mkConnection id peer chosen f (Proxy.fw_events f) (Proxy.fw_background f) false false.
Definition with_left (c : Connection) (left : list ObservationKind) (ready : bool) : Connection :=
  mkConnection (flow c) (peer c) (chosen c) (plan c) left (background c) ready (cut c).
Definition woken (c : Connection) : Connection := with_left c (left c) true.
Definition with_background (c : Connection) (background : list ObservationKind) : Connection :=
  mkConnection (flow c) (peer c) (chosen c) (plan c) (left c) background (ready c) (cut c).
Definition cut_short (c : Connection) : Connection :=
  mkConnection (flow c) (peer c) (chosen c) (plan c) (left c) (background c) (ready c) true.
Definition cut_off (id : FlowId) (cs : list Connection) : list Connection :=
  map (fun c => if flow c =? id then cut_short c else c) cs.

(** The session; [emitted] records the observations in the order they were
    offered to the channel. *)
Record State := mkState {
  server : Proxy.Server; connections : list Connection; sink : Proxy.ObservationSink;
  emitted : list ObservationEvent; store : StoreActor; over : bool }.

Definition CHANNEL_CAPACITY : nat := 1024.

Definition start (actor : StoreActor) : State :=
  mkState Proxy.server_start [] (Proxy.mkSink CHANNEL_CAPACITY [] [] false 0) [] actor false.

(** The counters when a task is done. *)
Definition settle (c : Proxy.RuntimeCounters) (f : Proxy.Forwarded) : Proxy.RuntimeCounters :=
  match Proxy.fw_result f with
  | Ok _ => Proxy.count_completed c (Proxy.bytes_up (Proxy.fw_counters f)) (Proxy.bytes_down (Proxy.fw_counters f))
  | Err _ => Proxy.count_failed c 1
  end.

(** A lookup starts when its flow was opened. *)
Definition opened (c : Connection) : bool := (length (left c) <? length (Proxy.fw_events (plan c)))%nat.
Definition looked_up (c : Connection) : Prop := background c = [] \/ opened c = false.
#[local] Instance looked_up_dec c : Decision (looked_up c).
Proof. unfold looked_up. destruct (background c); [left; by left|]. destruct (opened c) eqn:E; [right; by intros [|]|left; by right]. Defined.

(** Who makes a step happen: the session itself, which always gets to it, or
    what is around it, which may never: clients that connect, peers a task
    waits for, lookups that return, a task that panics, the user who asks for
    the shutdown.  A task goes on only while it is ready, and after any
    observation it may wait for its peers until it is woken. *)
Inductive Cause := Own | Outside.

Inductive step (config : Proxy.ProxyRuntimeConfig) : Cause -> State -> State -> Prop :=
| connects c ts cs k es st mirror platform peer client :
    complete mirror ->
    step config Outside (mkState (Proxy.mkServer c ts Proxy.Accepting) cs k es st false)
      (mkState
         (Proxy.mkServer (Proxy.count_accepted c) (ts ++ [(Proxy.accepted c + 1, Proxy.TaskRunning)]) Proxy.Accepting)
         (cs ++ [connection (Proxy.accepted c + 1) peer (Proxy.choose_route config platform client).1
                   (Proxy.forward_connection mirror config platform peer Proxy.counters_default client)])
         k es st false)
| wakes sv a c b k es st :
    (flow c, Proxy.TaskRunning) ∈ Proxy.tasks sv -> Proxy.live (Proxy.stage sv) = true -> ready c = false ->
    step config Outside (mkState sv (a ++ c :: b) k es st false) (mkState sv (a ++ woken c :: b) k es st false)
| observes sv a c b k es st o rest goes_on t :
    (flow c, Proxy.TaskRunning) ∈ Proxy.tasks sv -> Proxy.live (Proxy.stage sv) = true ->
    ready c = true -> left c = o :: rest ->
    step config Own (mkState sv (a ++ c :: b) k es st false)
      (mkState sv (a ++ with_left c rest goes_on :: b) (Proxy.emit k (mkObservation (flow c) t o))
         (es ++ [mkObservation (flow c) t o]) st false)
| identifies_flow sv a c b k es st o rest t :
    opened c = true -> background c = o :: rest ->
    step config Outside (mkState sv (a ++ c :: b) k es st false)
      (mkState sv (a ++ with_background c rest :: b) (Proxy.emit k (mkObservation (flow c) t o))
         (es ++ [mkObservation (flow c) t o]) st false)
| finishes n a b s cs k es st c :
    Proxy.live s = true -> c ∈ cs -> ready c = true -> left c = [] ->
    step config Own (mkState (Proxy.mkServer n (a ++ (flow c, Proxy.TaskRunning) :: b) s) cs k es st false)
      (mkState (Proxy.mkServer (settle n (plan c)) (a ++ (flow c, Proxy.TaskOver false) :: b) s) cs k es st false)
| panics n a b s cs k es st c :
    Proxy.live s = true -> c ∈ cs -> ready c = true ->
    step config Outside (mkState (Proxy.mkServer n (a ++ (flow c, Proxy.TaskRunning) :: b) s) cs k es st false)
      (mkState (Proxy.mkServer n (a ++ (flow c, Proxy.TaskOver true) :: b) s) (cut_off (flow c) cs) k es st false)
| joins_task n a id p b s cs k es st :
    s = Proxy.Accepting \/ s = Proxy.Draining ->
    step config Own (mkState (Proxy.mkServer n (a ++ (id, Proxy.TaskOver p) :: b) s) cs k es st false)
      (mkState (Proxy.mkServer (if p then Proxy.count_failed n 1 else n) (a ++ b) s) cs k es st false)
| shutdown_requested n ts cs k es st :
    step config Outside (mkState (Proxy.mkServer n ts Proxy.Accepting) cs k es st false)
      (mkState (Proxy.mkServer n ts Proxy.Draining) cs k es st false)
| drained n cs k es st :
    step config Own (mkState (Proxy.mkServer n [] Proxy.Draining) cs k es st false)
      (mkState (Proxy.mkServer n [] (Proxy.Stopped true (Proxy.stats n (Proxy.dropped k)))) cs k es st false)
| grace_over n t ts cs k es st :
    step config Own (mkState (Proxy.mkServer n (t :: ts) Proxy.Draining) cs k es st false)
      (mkState (Proxy.mkServer (Proxy.count_failed n (blen (t :: ts))) (t :: ts) Proxy.Aborting) cs k es st false)
| aborts_task n a id t b cs k es st :
    step config Own (mkState (Proxy.mkServer n (a ++ (id, t) :: b) Proxy.Aborting) cs k es st false)
      (mkState (Proxy.mkServer n (a ++ b) Proxy.Aborting)
         (match t with Proxy.TaskRunning => cut_off id cs | Proxy.TaskOver _ => cs end) k es st false)
| all_aborted n cs k es st :
    step config Own (mkState (Proxy.mkServer n [] Proxy.Aborting) cs k es st false)
      (mkState (Proxy.mkServer n [] (Proxy.Stopped false (Proxy.stats n (Proxy.dropped k)))) cs k es st false)
| receives sv cs k es st e q :
    Proxy.queue k = e :: q ->
    step config Own (mkState sv cs k es st false) (mkState sv cs (Proxy.recv k) es (apply st e) false)
| store_ends sv cs k es st :
    Proxy.live (Proxy.stage sv) = false -> Proxy.queue k = [] -> Forall looked_up cs ->
    step config Own (mkState sv cs k es st false) (mkState sv cs k es st true).

(** A move of the session, whoever makes it happen. *)
Definition moves (config : Proxy.ProxyRuntimeConfig) (s s' : State) : Prop := exists cause, step config cause s s'.

Lemma step_moves config cause s s' : step config cause s s' -> moves config s s'.
Proof. by exists cause. Qed.

Lemma moves_l config cause s s1 s' : step config cause s s1 -> rtc (moves config) s1 s' -> rtc (moves config) s s'.
Proof. intros Hs. apply rtc_l. by exists cause. Qed.

(** ** After the shutdown was requested, every session ends *)

Definition pending (c : Connection) : nat := 3 * (length (left c) + length (background c)) + (if ready c then 0 else 1).
Definition task_weight (t : FlowId * Proxy.Task) : nat :=
  match snd t with Proxy.TaskRunning => 2 | Proxy.TaskOver _ => 1 end.
Definition stage_weight (s : Proxy.Stage) : nat :=
  match s with Proxy.Accepting => 3 | Proxy.Draining => 2 | Proxy.Aborting => 1 | Proxy.Stopped _ _ => 0 end.
Definition total {A} (f : A -> nat) (l : list A) : nat := list_sum (map f l).

Definition measure (s : State) : nat :=
  total pending (connections s) + length (Proxy.queue (sink s)) + total task_weight (Proxy.tasks (server s))
  + stage_weight (Proxy.stage (server s)) + (if over s then 0 else 1).

Lemma total_app {A} (f : A -> nat) a b : total f (a ++ b) = (total f a + total f b)%nat.
Proof. unfold total. by rewrite map_app, list_sum_app. Qed.
Lemma total_cons {A} (f : A -> nat) x b : total f (x :: b) = (f x + total f b)%nat.
Proof. done. Qed.

Lemma total_cut_off id cs : total pending (cut_off id cs) = total pending cs.
Proof.
  unfold total, cut_off. rewrite map_map. f_equal. apply map_ext. intros c. by destruct (flow c =? id).
Qed.

Lemma emit_queue k e : (length (Proxy.queue (Proxy.emit k e)) <= S (length (Proxy.queue k)))%nat.
Proof. unfold Proxy.emit. destruct (_ || _); cbn; [lia|]. rewrite length_app. cbn. lia. Qed.

Lemma pending_woken c : ready c = false -> pending c = S (pending (woken c)).
Proof. intros E. unfold pending. rewrite E. cbn. lia. Qed.
Lemma pending_next c o rest g : left c = o :: rest -> (2 + pending (with_left c rest g) <= pending c)%nat.
Proof. intros E. unfold pending. rewrite E. cbn. destruct (ready c), g; lia. Qed.
Lemma pending_lookup c o rest : background c = o :: rest -> pending c = (3 + pending (with_background c rest))%nat.
Proof. intros E. unfold pending. rewrite E. cbn. destruct (ready c); lia. Qed.

Lemma step_measure config cause s s' :
  Proxy.stage (server s) <> Proxy.Accepting -> step config cause s s' ->
  (measure s' < measure s)%nat /\ Proxy.stage (server s') <> Proxy.Accepting.
Proof.
  intros Hs Hstep. destruct Hstep as [| ? ? c ? ? ? ? _ _ E| ? ? c ? k ? ? o rest g t _ _ _ E| ? ? c ? k ? ? o rest t _ E| | | | | | | ? ? ? [] | |? ? ? ? ? ? ? E|];
    unfold measure; cbn [connections sink server over Proxy.tasks Proxy.stage stage_weight] in *;
    rewrite ?total_app, ?total_cons, ?total_cut_off; try done.
  1: rewrite (pending_woken _ E); split; [cbn [over]; lia|done].
  1: pose proof (emit_queue k (mkObservation (flow c) t o)); pose proof (pending_next _ _ _ g E); split; [cbn [over]; lia|done].
  1: pose proof (emit_queue k (mkObservation (flow c) t o)); rewrite (pending_lookup _ _ _ E); split; [cbn [over]; lia|done].
  all: try (split; [cbn; lia|done]).
  unfold Proxy.recv. rewrite E. split; [cbn; lia|done].
Qed.

Lemma steps_after_shutdown config s s' :
  Proxy.stage (server s) <> Proxy.Accepting -> rtc (moves config) s s' -> Proxy.stage (server s') <> Proxy.Accepting.
Proof.
  intros Hs Hr. induction Hr as [|s s1 s' [cause H1] _ IH]; [done|]. apply IH. by eapply step_measure.
Qed.

Lemma steps_finite config s : Proxy.stage (server s) <> Proxy.Accepting -> Acc (flip (moves config)) s.
Proof.
  induction s as [s IH] using (induction_ltof1 _ measure). intros Hs. constructor. intros s' [cause Hstep].
  destruct (step_measure config cause s s' Hs Hstep) as [Hm Hs']. by apply IH.
Qed.

(** Whatever the connections wait for, a session that is shutting down can go
    on by itself until the server has stopped and the store has received what
    was observed, and then, when no lookup is left, until it is over. *)
Lemma shutdown_progress config s :
  Proxy.stage (server s) <> Proxy.Accepting -> over s = false ->
  (exists s', step config Own s s')
  \/ (exists complete st, Proxy.stage (server s) = Proxy.Stopped complete st) /\ Proxy.queue (sink s) = []
     /\ ~ Forall looked_up (connections s).
Proof.
  destruct s as [[n ts [| | |d r]] cs k es st o]; cbn [over server Proxy.stage sink connections]; intros Hs ->; [done|..].
  - left. destruct ts as [|t ts]; eexists; [apply drained|apply grace_over].
  - left. destruct ts as [|[id t] ts]; eexists; [apply all_aborted|apply (aborts_task _ _ [])].
  - destruct (Proxy.queue k) as [|e q] eqn:Eq; [|left; eexists; by eapply receives].
    destruct (decide (Forall looked_up cs)) as [Hl|Hl]; [left; eexists; by apply store_ends|]. right. split; [by eauto|done].
Qed.

(** ** Flows *)

Definition flows_ok (s : State) : Prop :=
  Proxy.accepted (Proxy.counters (server s)) = blen (connections s)
  /\ NoDup (map flow (connections s)) /\ Forall (fun c => flow c <= blen (connections s)) (connections s).

Lemma flows_cut_off id cs : map flow (cut_off id cs) = map flow cs.
Proof. unfold cut_off. rewrite map_map. apply map_ext. intros c. by destruct (flow c =? id). Qed.

Lemma Forall_cut_off (Q : Connection -> Prop) id cs :
  (forall c, Q c -> Q (cut_short c)) ->
  Forall Q cs -> Forall Q (cut_off id cs).
Proof.
  intros HQ. unfold cut_off. induction 1 as [|c cs Hc _ IH]; [constructor|]. cbn. constructor; [|done].
  destruct (flow c =? id); auto.
Qed.

Lemma blen_cut_off id cs : blen (cut_off id cs) = blen cs.
Proof. unfold blen, cut_off. by rewrite length_map. Qed.

Lemma settle_accepted n f : Proxy.accepted (settle n f) = Proxy.accepted n.
Proof. unfold settle. by destruct (Proxy.fw_result f). Qed.

(** Steps that replace one connection, keeping its flow. *)
Lemma replaced_flows (c c' : Connection) a b : flow c' = flow c -> map flow (a ++ c' :: b) = map flow (a ++ c :: b).
Proof. intros E. by rewrite !map_app, !map_cons, E. Qed.
Lemma replaced_size (c c' : Connection) a b : blen (a ++ c' :: b) = blen (a ++ c :: b).
Proof. unfold blen. by rewrite !length_app. Qed.

Lemma Forall_replaced (Q : Connection -> Prop) a c c' b :
  (Q c -> Q c') -> Forall Q (a ++ c :: b) -> Forall Q (a ++ c' :: b).
Proof.
  intros HQ [H1 H2]%Forall_app. inversion_clear H2. apply Forall_app. split; [done|]. constructor; auto.
Qed.

Lemma step_grows config cause s s' : step config cause s s' -> blen (connections s) <= blen (connections s').
Proof.
  intros Hs. destruct Hs as [| | | | | | | | | |? ? ? []| | |]; cbn [connections]; rewrite ?blen_app, ?blen_cut_off; unfold blen; cbn; lia.
Qed.

Lemma flows_step config cause s s' :
  blen (connections s') < 2 ^ 64 -> step config cause s s' -> flows_ok s -> flows_ok s'.
Proof.
  intros Hb Hs (Ha & Hn & Hf). unfold flows_ok.
  destruct Hs as [n ? cs ? ? ? ? ? ? ?|? ? c|? ? c|? ? c| | |? ? ? p| | | |? ? ? []| | |]; cbn [connections server Proxy.counters] in *;
    rewrite ?flows_cut_off, ?blen_cut_off, ?settle_accepted;
    try (split; [done|]; split; [done|]; by try (apply Forall_cut_off)).
  - rewrite blen_app in *. change (blen [_]) with 1 in *. cbn [Proxy.accepted Proxy.count_accepted].
    split; [unfold Proxy.fetch_add; rewrite Ha; apply Z.mod_small; pose proof (blen_nonneg cs); lia|].
    split; [|apply Forall_app; split; [|constructor; [cbn; lia|constructor]]].
    + rewrite map_app. apply list.NoDup_app. split; [done|]. split; [|cbn; apply NoDup_singleton]. intros id Hid.
      apply list_elem_of_In, in_map_iff in Hid as (c & <- & Hc). rewrite Forall_forall in Hf. specialize (Hf c Hc).
      cbn. rewrite list_elem_of_singleton. lia.
    + revert Hf. apply Forall_impl. cbn. intros; lia.
  - rewrite (replaced_flows c), (replaced_size c _) by done. split; [done|]. split; [done|]. by apply (Forall_replaced _ _ c).
  - rewrite (replaced_flows c), (replaced_size c _) by done. split; [done|]. split; [done|]. by apply (Forall_replaced _ _ c).
  - rewrite (replaced_flows c), (replaced_size c _) by done. split; [done|]. split; [done|]. by apply (Forall_replaced _ _ c).
  - split; [by destruct p|done].
Qed.

(** ** What the connections have emitted *)

Lemma kinds_of_snoc id es e :
  kinds_of id (es ++ [e]) = kinds_of id es ++ (if ev_flow_id e =? id then [ev_kind e] else []).
Proof. unfold kinds_of. rewrite List.filter_app, map_app. cbn. by destruct (ev_flow_id e =? id). Qed.

Lemma unidentified_app a b : unidentified (a ++ b) = unidentified a ++ unidentified b.
Proof. apply List.filter_app. Qed.

Lemma forwarded_background mirror config platform pr counters client :
  Forall (fun o => identifies o = true) (Proxy.fw_background (Proxy.forward_connection mirror config platform pr counters client)).
Proof.
  assert (Forall (fun o => identifies o = true)
    match Proxy.identity_lookup platform with Some (Some i) => [Identified i] | _ => [] end) as Hb
    by (destruct (Proxy.identity_lookup platform) as [[i|]|]; repeat constructor).
  unfold Proxy.forward_connection, Proxy.refuse, Proxy.conclude. repeat case_match; try done; constructor.
Qed.

(** Only the first observation of a connection opens its flow, and none of its
    own identifies it. *)
Definition opens_flow (o : ObservationKind) : bool := match o with Opened _ _ _ => true | _ => false end.
Definition own (o : ObservationKind) : Prop := identifies o = false.

Lemma in_flight_own obs : in_flight obs -> Forall (fun o => own o /\ opens_flow o = false) obs.
Proof.
  intros (detected & data & -> & Hd & Hdet). apply Forall_app. split.
  - destruct Hdet as [->|[p ->]]; repeat constructor.
  - revert Hd. apply Forall_impl. by intros [].
Qed.

Lemma trace_own config ch pr counters f :
  flow_trace config ch pr counters f ->
  Forall own (Proxy.fw_events f) /\ Forall (fun o => opens_flow o = false) (tail (Proxy.fw_events f)).
Proof.
  intros [e _ _ _ -> _|route passing ending _ Hp He ->]; [by split|]. cbn [tail].
  assert (Forall (fun o => own o /\ opens_flow o = false) (passing ++ ending)) as K.
  { apply Forall_app. split; [by apply in_flight_own|]. destruct He; repeat constructor. }
  split; [constructor; [done|]|]; revert K; apply Forall_impl; naive_solver.
Qed.

(** A connection does what forwarding it, under some schedule of its pumps,
    does on some platform. *)
Definition planned config (c : Connection) : Prop :=
  exists mirror platform client, complete mirror
    /\ chosen c = (Proxy.choose_route config platform client).1
    /\ plan c = Proxy.forward_connection mirror config platform (peer c) Proxy.counters_default client.

Lemma planned_trace config c : planned config c -> flow_trace config (chosen c) (peer c) Proxy.counters_default (plan c).
Proof. intros (mirror & platform & client & Hm & -> & ->). by apply flow_trace_forward. Qed.

Definition trace_ok config (es : list ObservationEvent) (c : Connection) : Prop :=
  planned config c
  /\ unidentified (kinds_of (flow c) es) ++ left c = Proxy.fw_events (plan c)
  /\ Forall (fun o => identifies o = true) (background c).

Definition known (s : State) : Prop := Forall (fun e => ev_flow_id e ∈ map flow (connections s)) (emitted s).

Definition traces_ok config (s : State) : Prop := Forall (trace_ok config (emitted s)) (connections s) /\ known s.

Lemma kinds_of_unknown id es cs :
  Forall (fun e => ev_flow_id e ∈ map flow cs) es -> id ∉ map flow cs -> kinds_of id es = [].
Proof.
  intros Hk Hid. unfold kinds_of. induction Hk as [|e es He _ IH]; [done|]. cbn.
  destruct (Z.eqb_spec (ev_flow_id e) id) as [<-|]; [done|apply IH].
Qed.

(** Another flow's observation, or one that only identifies, changes nothing. *)
Lemma trace_ok_other config es e c : ev_flow_id e <> flow c -> trace_ok config es c -> trace_ok config (es ++ [e]) c.
Proof. intros He (H1 & H2 & H3). split; [done|]. rewrite kinds_of_snoc, (proj2 (Z.eqb_neq _ _) He), app_nil_r. done. Qed.

Lemma trace_ok_identified config es e c : identifies (ev_kind e) = true -> trace_ok config es c -> trace_ok config (es ++ [e]) c.
Proof.
  intros He (H1 & H2 & H3). split; [done|]. rewrite kinds_of_snoc, unidentified_app.
  destruct (ev_flow_id e =? flow c); cbn; rewrite ?He; cbn; by rewrite app_nil_r.
Qed.

Lemma trace_ok_observed config es c o rest g t :
  left c = o :: rest -> trace_ok config es c -> trace_ok config (es ++ [mkObservation (flow c) t o]) (with_left c rest g).
Proof.
  intros El (H1 & H2 & H3). split; [done|]. split; [|done]. cbn [flow with_left left plan].
  rewrite kinds_of_snoc, unidentified_app. cbn. rewrite Z.eqb_refl. rewrite El in H2. cbn.
  assert (identifies o = false) as ->; [|by rewrite <- app_assoc].
  destruct (trace_own _ _ _ _ _ (planned_trace _ _ H1)) as [Ho _]. rewrite <- H2 in Ho. apply Forall_app in Ho as [_ Ho]. by inversion_clear Ho.
Qed.

Lemma other_flows a c b : NoDup (map flow (a ++ c :: b)) -> Forall (fun c' => flow c <> flow c') (a ++ b).
Proof.
  rewrite map_app, map_cons. intros (_ & Ha & Hb)%list.NoDup_app. apply Forall_app. split; apply List.Forall_forall; intros c' Hc E.
  - apply (Ha (flow c')); [by apply list_elem_of_In, in_map|]. rewrite E. by left.
  - apply list.NoDup_cons in Hb as [Hb _]. apply Hb. rewrite E. by apply list_elem_of_In, in_map.
Qed.

Lemma Forall_others {A} (Q R S : A -> Prop) a c b c' :
  Forall Q (a ++ c :: b) -> Forall R (a ++ b) -> (forall x, Q x -> R x -> S x) -> (Q c -> S c') -> Forall S (a ++ c' :: b).
Proof.
  intros [Q1 Q2]%Forall_app [R1 R2]%Forall_app HS Hc. inversion_clear Q2. apply Forall_app. split; [|constructor; [auto|]].
  all: apply List.Forall_forall; intros x Hx; apply HS.
  - by apply (proj1 (List.Forall_forall Q a) Q1).
  - by apply (proj1 (List.Forall_forall R a) R1).
  - by apply (proj1 (List.Forall_forall Q b) H0).
  - by apply (proj1 (List.Forall_forall R b) R2).
Qed.

Lemma known_snoc a c b es t o :
  Forall (fun e => ev_flow_id e ∈ map flow (a ++ c :: b)) es ->
  Forall (fun e => ev_flow_id e ∈ map flow (a ++ c :: b)) (es ++ [mkObservation (flow c) t o]).
Proof.
  intros Hk. apply Forall_app. split; [done|]. constructor; [|constructor]. cbn.
  apply list_elem_of_In, in_map, in_or_app. right. by left.
Qed.

Lemma traces_step config cause s s' : step config cause s s' -> flows_ok s -> traces_ok config s -> traces_ok config s'.
Proof.
  intros Hs (Ha & Hn & Hf) (Ht & Hk). unfold traces_ok, known in *.
  destruct Hs as [n ? cs ? ? ? mirror platform ? client Hm|? a c b|? a c b ? ? ? o rest g t _ _ _ El|? a c b ? ? ? o rest t _ Eb| | | | | | |? ? ? []| | |];
    cbn [connections emitted server Proxy.counters] in *; try done.
  - assert (Proxy.accepted n + 1 ∉ map flow cs) as Hnew.
    { intros (c & Ec & Hc)%list_elem_of_In%in_map_iff. rewrite List.Forall_forall in Hf. specialize (Hf c Hc). lia. }
    split.
    + apply Forall_app. split; [done|]. constructor; [|constructor]. split; [by exists mirror, platform, client|].
      split; [|apply forwarded_background]. cbn [flow connection left plan]. by rewrite (kinds_of_unknown _ _ cs).
    + revert Hk. apply Forall_impl. intros e He. rewrite map_app. apply elem_of_app. by left.
  - rewrite (replaced_flows c) by done. split; [|done]. by apply (Forall_replaced _ _ c).
  - split; [|rewrite (replaced_flows c) by done; by apply known_snoc].
    apply (Forall_others _ _ _ _ _ _ _ Ht (other_flows _ _ _ Hn)).
    + intros x Hx Hd. by apply trace_ok_other.
    + by apply trace_ok_observed.
  - split; [|rewrite (replaced_flows c) by done; by apply known_snoc].
    assert (identifies o = true) as Ho.
    { apply Forall_app in Ht as [_ Ht]. inversion_clear Ht. destruct H as (_ & _ & H). rewrite Eb in H. by inversion_clear H. }
    apply (Forall_others _ _ _ _ _ _ _ Ht (other_flows _ _ _ Hn)).
    + intros x Hx _. by apply trace_ok_identified.
    + intros Hx. apply (trace_ok_identified _ _ (mkObservation (flow c) t o)) in Hx as (H1 & H2 & H3); [|done].
      split; [done|]. split; [done|]. cbn [background with_background]. rewrite Eb in H3. by inversion_clear H3.
  - split; [by apply Forall_cut_off|]. by rewrite flows_cut_off.
  - split; [by apply Forall_cut_off|]. by rewrite flows_cut_off.
Qed.

(** ** Every flow is opened once *)

Lemma opened_ids_snoc es e :
  opened_ids (es ++ [e]) = opened_ids es ++ (if opens_flow (ev_kind e) then [ev_flow_id e] else []).
Proof. unfold opened_ids. rewrite omap_app. f_equal. cbn. unfold opened_id. by destruct (ev_kind e). Qed.

Lemma opened_kind id es : id ∈ opened_ids es -> exists o, o ∈ unidentified (kinds_of id es) /\ opens_flow o = true.
Proof.
  unfold opened_ids. intros (e & He & Ho)%list_elem_of_omap. unfold opened_id in Ho. exists (ev_kind e).
  split; [|by destruct (ev_kind e)]. apply list_elem_of_In, filter_In. split; [|by destruct (ev_kind e)].
  apply in_map, filter_In. split; [by apply list_elem_of_In|]. destruct (ev_kind e); try done. injection Ho as <-. apply Z.eqb_refl.
Qed.

Definition opened_once (s : State) : Prop := NoDup (opened_ids (emitted s)).

Lemma not_opened_yet config es c o rest :
  left c = o :: rest -> opens_flow o = true -> trace_ok config es c -> flow c ∉ opened_ids es.
Proof.
  intros El Eo (H1 & H2 & _) (o' & Ho & Hp)%opened_kind. apply planned_trace, trace_own in H1 as [_ Ht].
  rewrite El in H2. destruct (unidentified (kinds_of (flow c) es)) as [|x l]; [by apply not_elem_of_nil in Ho|].
  rewrite <- H2 in Ht. cbn in Ht. apply Forall_app in Ht as [_ Ht]. inversion_clear Ht. congruence.
Qed.

Lemma opened_once_step config cause s s' : step config cause s s' -> traces_ok config s -> opened_once s -> opened_once s'.
Proof.
  intros Hs (Ht & _) Hn. unfold opened_once in *.
  destruct Hs as [| |? a c b ? ? ? o rest g t _ _ _ El|? a c b ? ? ? o rest t _ Eb| | | | | | |? ? ? []| | |];
    cbn [connections emitted] in *; try done; rewrite opened_ids_snoc; cbn [ev_kind ev_flow_id];
    apply Forall_app in Ht as [_ Ht]; inversion_clear Ht as [|? ? Hc].
  - destruct (opens_flow o) eqn:Eo; [|by rewrite app_nil_r]. apply list.NoDup_app. split; [done|].
    split; [|apply NoDup_singleton]. intros id Hid ->%list_elem_of_singleton. by eapply not_opened_yet.
  - destruct Hc as (_ & _ & Hc). rewrite Eb in Hc. inversion_clear Hc. destruct o; try done. by rewrite app_nil_r.
Qed.

(** ** Tasks, store and channel *)

(** A connection that was not cut off has emitted everything or still runs. *)
Definition alive (sv : Proxy.Server) (c : Connection) : Prop :=
  cut c = true \/ left c = [] \/ (flow c, Proxy.TaskRunning) ∈ Proxy.tasks sv.

Lemma alive_tasks sv sv' c :
  (forall id, (id, Proxy.TaskRunning) ∈ Proxy.tasks sv -> (id, Proxy.TaskRunning) ∈ Proxy.tasks sv') ->
  alive sv c -> alive sv' c.
Proof. unfold alive. naive_solver. Qed.

Lemma alive_cut n ts ts' s s' id cs :
  (forall i, i <> id -> (i, Proxy.TaskRunning) ∈ ts -> (i, Proxy.TaskRunning) ∈ ts') ->
  Forall (alive (Proxy.mkServer n ts s)) cs -> Forall (alive (Proxy.mkServer n ts' s')) (cut_off id cs).
Proof.
  intros Hts. unfold cut_off. induction 1 as [|c cs Hc _ IH]; [constructor|]. cbn. constructor; [|done].
  unfold alive in *. cbn [Proxy.tasks] in *. destruct (Z.eqb_spec (flow c) id); cbn; naive_solver.
Qed.

Lemma flow_inj cs c c' : NoDup (map flow cs) -> In c cs -> In c' cs -> flow c' = flow c -> c' = c.
Proof.
  intros Hn [a [b ->]]%in_split Hc' E. apply other_flows in Hn. rewrite List.Forall_forall in Hn.
  apply in_app_or in Hc' as [H|[H|H]]; [|done|]; destruct (Hn c'); try done; apply in_or_app; auto.
Qed.

Lemma alive_step config cause s s' :
  step config cause s s' -> flows_ok s -> Forall (alive (server s)) (connections s) -> Forall (alive (server s')) (connections s').
Proof.
  intros Hs (_ & Hn & _) Ha.
  destruct Hs as [n ts cs|? a c b|? a c b ? ? ? o rest g t Hr _ _ El|? a c b ? ? ? o rest t _ Eb|n a b ? cs ? ? ? c _ Hc _ El|n a b ? ? ? ? ? c|n a id p b| | | |n a id []|
    |? ? ? ? ? ? ? E|]; cbn [connections server] in *; try done.
  - apply Forall_app. split; [|constructor; [|constructor]].
    + revert Ha. apply Forall_impl. intros c. apply alive_tasks. cbn. intros id Hid. apply elem_of_app. by left.
    + right. right. cbn. apply elem_of_app. right. by apply list_elem_of_singleton.
  - by apply (Forall_replaced _ _ c).
  - apply (Forall_replaced _ _ c); [|done]. intros _. by right; right.
  - by apply (Forall_replaced _ _ c).
  - apply List.Forall_forall. intros c' Hc'. rewrite List.Forall_forall in Ha. destruct (Ha c' Hc') as [H|[H|H]]; [by left|by right; left|].
    destruct (decide (flow c' = flow c)) as [E|E].
    + right. left. assert (c' = c) as ->; [|done].
      apply list_elem_of_In in Hc. by apply (flow_inj cs).
    + right. right. cbn in *. rewrite !elem_of_app, !elem_of_cons in *. naive_solver.
  - revert Ha. apply alive_cut. intros i Hi. rewrite !elem_of_app, !elem_of_cons. naive_solver.
  - revert Ha. apply Forall_impl. intros c. apply alive_tasks. cbn. intros i. rewrite !elem_of_app, !elem_of_cons. naive_solver.
  - revert Ha. apply alive_cut. intros i Hi. rewrite !elem_of_app, !elem_of_cons. naive_solver.
  - revert Ha. apply Forall_impl. intros c. apply alive_tasks. cbn. intros i. rewrite !elem_of_app, !elem_of_cons. naive_solver.
Qed.

(** The store has consumed what was received, in order; nothing is lost that
    was not counted. *)
Definition stored_ok (actor : StoreActor) (s : State) : Prop :=
  store s = run actor (Proxy.received (sink s)) /\ sink_inv CHANNEL_CAPACITY (emitted s) true (sink s).

Lemma stored_step actor config cause s s' : step config cause s s' -> stored_ok actor s -> stored_ok actor s'.
Proof.
  intros Hs [Hst Hk].
  destruct Hs as [| |? a c b k ? ? o rest g t|? a c b k ? ? o rest t| | | | | | |? ? ? []| |sv cs k es st e q E|]; try done;
    unfold stored_ok in *; cbn [store sink emitted] in *.
  - split; [|apply (sink_inv_op _ _ _ _ (Emit _) Hk)]. unfold Proxy.emit. by destruct (_ || _).
  - split; [|apply (sink_inv_op _ _ _ _ (Emit _) Hk)]. unfold Proxy.emit. by destruct (_ || _).
  - split.
    + unfold Proxy.recv. rewrite E. cbn [Proxy.received]. unfold run. rewrite fold_left_app. cbn. by rewrite Hst.
    + apply (sink_inv_op _ _ _ _ Recv) in Hk. by rewrite app_nil_r in Hk.
Qed.

(** The report of a stopped server: when it counts no dropped observation,
    the channel kept every one that does not just identify. *)
Definition kept_all (s : State) : Prop :=
  forall id, unidentified (kinds_of id (Proxy.received (sink s) ++ Proxy.queue (sink s))) = unidentified (kinds_of id (emitted s)).

Definition report_ok (s : State) : Prop :=
  match Proxy.stage (server s) with
  | Proxy.Stopped _ st =>
      Proxy.tasks (server s) = [] /\ Proxy.st_accepted st = Proxy.accepted (Proxy.counters (server s))
      /\ (Proxy.st_dropped st = 0 -> blen (emitted s) < 2 ^ 64 -> kept_all s)
  | _ => True
  end.

Lemma sublist_full {A} (l k : list A) : l `sublist_of` k -> (length k <= length l)%nat -> l = k.
Proof.
  induction 1 as [|x l k _ IH|x l k Hs IH]; cbn; intros Hl; [done|f_equal; apply IH; lia|].
  pose proof (sublist_length _ _ Hs). lia.
Qed.

Lemma nothing_dropped n es k :
  sink_inv n es true k -> Proxy.dropped k = 0 -> blen es < 2 ^ 64 -> Proxy.received k ++ Proxy.queue k = es.
Proof.
  intros (_ & _ & Hs & Ho) Hd Hb. destruct (Ho eq_refl) as [_ Hc]. rewrite Hd in Hc.
  pose proof (sublist_length _ _ Hs) as Hl. pose proof (blen_nonneg (Proxy.received k ++ Proxy.queue k)).
  rewrite Z.mod_small in Hc by (unfold blen in *; lia).
  apply sublist_full; [done|unfold blen in *; lia].
Qed.

Lemma stopped_kept n k es : sink_inv n es true k -> Proxy.dropped k = 0 -> blen es < 2 ^ 64 ->
  forall id, unidentified (kinds_of id (Proxy.received k ++ Proxy.queue k)) = unidentified (kinds_of id es).
Proof. intros Hk Hd Hb id. by rewrite (nothing_dropped n es k). Qed.

Lemma identified_kinds id e l : identifies (ev_kind e) = true -> unidentified (kinds_of id (l ++ [e])) = unidentified (kinds_of id l).
Proof.
  intros He. rewrite kinds_of_snoc, unidentified_app. destruct (_ =? id); cbn; rewrite ?He; cbn; by rewrite app_nil_r.
Qed.

Lemma emit_identified id k e :
  identifies (ev_kind e) = true ->
  unidentified (kinds_of id (Proxy.received (Proxy.emit k e) ++ Proxy.queue (Proxy.emit k e)))
  = unidentified (kinds_of id (Proxy.received k ++ Proxy.queue k)).
Proof.
  intros He. unfold Proxy.emit. destruct (_ || _); [done|]. cbn [Proxy.received Proxy.queue].
  by rewrite app_assoc, identified_kinds.
Qed.

Lemma report_step actor config cause s s' :
  step config cause s s' -> stored_ok actor s -> traces_ok config s -> report_ok s -> report_ok s'.
Proof.
  intros Hs [_ Hk] [Ht _] Hr. unfold report_ok, kept_all in *.
  destruct Hs as [| |sv a c b k ? ? o rest g t _ Hl _ _|sv a c b k es ? o rest t _ Eb|n a b s cs k es st c Hl|n a b s cs k es st c Hl|n a id p b s cs k es st [-> | ->]| | | |? ? ? []|
    |sv cs k es st e q E|]; cbn [server sink emitted Proxy.stage Proxy.tasks Proxy.counters] in *; try done.
  - destruct (Proxy.stage sv); done.
  - assert (identifies o = true) as Ho.
    { apply Forall_app in Ht as [_ Ht]. inversion_clear Ht as [|? ? Hc]. destruct Hc as (_ & _ & Hc). rewrite Eb in Hc. by inversion_clear Hc. }
    destruct (Proxy.stage sv) as [| | |d r]; [done..|]. destruct Hr as (H1 & H2 & H3). split; [done|]. split; [done|].
    intros Hd Hb id. rewrite blen_app in Hb. change (blen [_]) with 1 in Hb.
    rewrite emit_identified, identified_kinds by done. apply H3; [done|lia].
  - by destruct s.
  - by destruct s.
  - split; [done|]. split; [done|]. cbn. by eapply stopped_kept.
  - split; [done|]. split; [done|]. cbn. by eapply stopped_kept.
  - destruct (Proxy.stage sv) as [| | |d r]; [done..|]. destruct Hr as (H1 & H2 & H3). split; [done|]. split; [done|].
    intros Hd Hb id. unfold Proxy.recv. rewrite E. cbn. rewrite <- app_assoc. cbn. rewrite <- E. by apply H3.
Qed.

(** ** All of it *)

Record session_inv config (actor : StoreActor) (s : State) : Prop := {
  si_flows : flows_ok s; si_traces : traces_ok config s; si_opened : opened_once s;
  si_alive : Forall (alive (server s)) (connections s); si_stored : stored_ok actor s; si_report : report_ok s }.

Lemma session_invariant config actor s :
  rtc (moves config) (start actor) s -> blen (connections s) < 2 ^ 64 -> session_inv config actor s.
Proof.
  intros Hr. revert s Hr. apply (rtc_ind_r (fun s => blen (connections s) < 2 ^ 64 -> session_inv config actor s)).
  - intros _. split; repeat split; cbn; try constructor; try lia; done.
  - intros s s' _ [cause Hstep] IH Hb. destruct IH as [H1 H2 H3 H4 H5 H6]; [pose proof (step_grows _ _ _ _ Hstep); lia|].
    split; eauto using flows_step, traces_step, opened_once_step, alive_step, stored_step, report_step.
Qed.

Lemma opened_sublist es es' : es `sublist_of` es' -> opened_ids es `sublist_of` opened_ids es'.
Proof.
  unfold opened_ids. induction 1 as [|e es es' _ IH|e es es' _ IH]; [done|..]; cbn; destruct (opened_id e); try done.
  - by constructor.
  - by constructor.
Qed.

(** There is room for the flows of the session. *)
Lemma session_room config actor s :
  session_inv config actor s -> flows (state actor) = [] -> blen (connections s) <= max_flows actor ->
  roomy actor (Proxy.received (sink s)).
Proof.
  intros [Hf [_ Hk] Ho _ [_ (_ & _ & Hs & _)] _] He Hm. unfold roomy. rewrite He.
  assert (Proxy.received (sink s) `sublist_of` emitted s) as Hsub%opened_sublist.
  { etrans; [|exact Hs]. by apply sublist_inserts_r. }
  apply sublist_length in Hsub.
  assert (length (opened_ids (emitted s)) <= length (map flow (connections s)))%nat as Hlen.
  { apply submseteq_length, NoDup_submseteq; [exact Ho|]. intros id Hid. unfold opened_ids in Hid.
    apply list_elem_of_omap in Hid as (e & He' & Hoe). unfold known in Hk. rewrite List.Forall_forall in Hk.
    apply list_elem_of_In in He'. specialize (Hk e He'). unfold opened_id in Hoe. destruct (ev_kind e); try done. by injection Hoe as <-. }
  rewrite length_map in Hlen. unfold blen in *. cbn. lia.
Qed.

(** A session that is over: the server has stopped and nothing waits. *)
Definition at_rest (s : State) : Prop :=
  (exists complete st, Proxy.stage (server s) = Proxy.Stopped complete st)
  /\ Proxy.queue (sink s) = [] /\ Forall looked_up (connections s).

Lemma over_at_rest config s s' :
  rtc (moves config) s s' -> (over s = true -> at_rest s) -> over s' = true -> at_rest s'.
Proof.
  intros Hr. induction Hr as [|s s1 s' [cause Hs] _ IH]; [done|]. intros _. apply IH.
  destruct Hs as [| | | | | | | | | |? ? ? []| | |sv]; try done. intros _. split; [|done]. cbn [server].
  destruct (Proxy.stage sv); try done. eauto.
Qed.

(** C9. Shutting down always succeeds: from the moment the shutdown was
    requested every interleaving of the tasks of a session is finite, and
    however few of its connections ever hear from their peers again, the
    session does not stop by itself before the server has reported its
    counters and the store has received everything that waited in the
    channel; then it is over exactly when no identity lookup is left that
    has not returned. *)
Theorem shutdown_completes (config : Proxy.ProxyRuntimeConfig) (s : State) :
  Proxy.stage (server s) <> Proxy.Accepting -> over s = false ->
  Acc (flip (moves config)) s
  /\ forall s', rtc (moves config) s s' -> (forall s'', ~ step config Own s' s'') ->
       (exists complete st, Proxy.stage (server s') = Proxy.Stopped complete st)
       /\ Proxy.queue (sink s') = []
       /\ (over s' = true <-> Forall looked_up (connections s')).
Proof.
  intros Hs Ho. split; [by apply steps_finite|]. intros s' Hr Hstuck.
  pose proof (steps_after_shutdown config s s' Hs Hr) as Hs'. destruct (over s') eqn:Ho'.
  - destruct (over_at_rest config s s' Hr) as (H1 & H2 & H3); [congruence|done|]. split; [done|]. split; [done|]. by split.
  - destruct (shutdown_progress config s' Hs' Ho') as [[s'' H]|(H1 & H2 & H3)]; [by destruct (Hstuck s'')|].
    split; [done|]. split; [done|]. by split.
Qed.

(** What a connection shows in the store of a session. *)
Lemma session_shown config actor s drained st c :
  rtc (moves config) (start actor) s -> over s = true ->
  Proxy.stage (server s) = Proxy.Stopped drained st -> Proxy.st_dropped st = 0 ->
  blen (emitted s) < 2 ^ 64 -> blen (connections s) < 2 ^ 64 ->
  flows (state actor) = [] -> blen (connections s) <= max_flows actor -> In c (connections s) ->
  exists seen, seen ++ left c = Proxy.fw_events (plan c)
    /\ overview <$> flow_of (flow c) (flows (state (run actor (Proxy.received (sink s))))) = fold_left observe seen None
    /\ planned config c /\ (cut c = false -> left c = []).
Proof.
  intros Hr Ho Hst Hd Hb Hc He Hm Hin. destruct (over_at_rest config (start actor) s Hr) as (_ & Hq & _); [done..|]. pose proof (session_invariant config actor s Hr Hc) as Hi.
  pose proof (session_room config actor s Hi He Hm) as Hroom. destruct Hi as [_ [Ht _] _ Ha _ Hrep].
  rewrite List.Forall_forall in Ht, Ha. destruct (Ht c Hin) as (H1 & H2 & _). exists (unidentified (kinds_of (flow c) (emitted s))).
  split; [done|]. unfold report_ok in Hrep. rewrite Hst in Hrep. destruct Hrep as (Hts & _ & Hk). specialize (Hk Hd Hb (flow c)).
  rewrite Hq, app_nil_r in Hk. split; [|split; [done|]].
  - pose proof (shown_run (flow c) actor (Proxy.received (sink s)) Hroom) as Hs. unfold shown in Hs.
    rewrite Hs, He, observe_unidentified, Hk. done.
  - intros Hcut. destruct (Ha c Hin) as [E|[E|E]]; [congruence|done|]. rewrite Hts in E. by apply not_elem_of_nil in E.
Qed.
End Tasks.

Section Served.
Context `{HT : Http} `{C : Platform.Commands} `{K : Tls.Crypto} `{W : Plugin.Wasm} `{G : PluginDir.Digests} `{T : Proxy.Tls}
  `{B : Store.Base64} `{P : Http2.Hpack} `{J : Redact.JsonSecret}.

(** A session that is over, and what it hands to the command line. *)
Record ended_session (setup : CliRun.Setup) (served : CliRun.Served) (s : State) (st : Proxy.ProxyStats) : Prop := {
  es_run : rtc (moves (CliRun.runtime setup)) (start (CliRun.actor setup)) s;
  es_over : over s = true;
  es_stage : exists complete, Proxy.stage (server s) = Proxy.Stopped complete st;
  es_stats : CliRun.server_task served = Ok st;
  es_received : CliRun.received served = Proxy.received (sink s) }.

(** C8. What a session reports is what happened: when it is over, its
    counters show no dropped observation and its store was started empty with
    room for as many flows as connections were accepted, the number of
    accepted connections is exact and the snapshot shows every one of them
    that was not cut off by a panic or an abort: as closed with the bytes that
    were counted, as failed with the reason of its error, or, exactly when no
    route could be chosen for it, not at all; one that was cut off shows what
    it had reported until then. *)
Theorem session_records (setup : CliRun.Setup) (served : CliRun.Served) (s : State) (st : Proxy.ProxyStats) :
  ended_session setup served s st ->
  Proxy.st_dropped st = 0 -> blen (emitted s) < 2 ^ 64 -> blen (connections s) < 2 ^ 64 ->
  flows (state (CliRun.actor setup)) = [] -> blen (connections s) <= max_flows (CliRun.actor setup) ->
  let snapshot := snapshot (run (CliRun.actor setup) (CliRun.received served)) in
  Proxy.st_accepted st = blen (connections s)
  /\ Forall (fun c =>
       let shown := overview <$> flow_of (flow c) (snapshot_flows snapshot) in
       planned (CliRun.runtime setup) c /\
       if cut c then exists seen, seen `prefix_of` Proxy.fw_events (plan c) /\ shown = fold_left observe seen None
       else recorded (chosen c) (peer c) Proxy.counters_default (plan c) shown) (connections s).
Proof.
  intros [Hr Ho [full Hst] _ Hrec] Hd Hb Hc He Hm. cbv zeta. rewrite Hrec. split.
  - destruct (session_invariant _ _ s Hr Hc) as [(Ha & _) _ _ _ _ Hrep]. unfold report_ok in Hrep. rewrite Hst in Hrep.
    destruct Hrep as (_ & -> & _). exact Ha.
  - apply List.Forall_forall. intros c Hin.
    destruct (session_shown _ _ s full st c Hr Ho Hst Hd Hb Hc He Hm Hin) as (seen & Es & Hsh & Ht & Hl).
    change (snapshot_flows (Store.snapshot ?a)) with (flows (state a)). rewrite Hsh.
    split; [exact Ht|]. destruct (cut c); [exists seen; split; [by exists (left c)|done]|].
    rewrite Hl, app_nil_r in Es by done. rewrite Es. by eapply observe_trace, planned_trace.
Qed.
End Served.

(** ** Examples

    A session with one connection, from its start to its end. *)

Section Runs.
Context `{HT : Http} `{T : Proxy.Tls} `{P : Http2.Hpack} `{J : Redact.JsonSecret} `{W : Plugin.Wasm}.

Definition emit_all (id : FlowId) (t : TimestampPair) (os : list ObservationKind) (k : Proxy.ObservationSink) :
    Proxy.ObservationSink :=
  fold_left (fun k o => Proxy.emit k (mkObservation id t o)) os k.

Lemma observe_all config sv c k es st t :
  (flow c, Proxy.TaskRunning) ∈ Proxy.tasks sv -> Proxy.live (Proxy.stage sv) = true -> ready c = true ->
  rtc (moves config) (mkState sv [c] k es st false)
    (mkState sv [with_left c [] true] (emit_all (flow c) t (left c) k) (es ++ map (mkObservation (flow c) t) (left c)) st false).
Proof.
  intros Hin Hl Hg. destruct c as [id pr ch f os bg g ct]. cbn [flow left ready] in *. subst g.
  unfold with_left. cbn [flow peer chosen plan background ready cut].
  revert k es. induction os as [|o os IH]; intros k es; cbn; [by rewrite app_nil_r|].
  eapply moves_l; [by apply (observes _ _ [] (mkConnection id pr ch f (o :: os) bg true ct) [] _ _ _ o os true t)|].
  cbn [app flow with_left]. etrans; [apply IH|]. by rewrite <- app_assoc.
Qed.

Definition drain (k : Proxy.ObservationSink) : Proxy.ObservationSink :=
  Proxy.mkSink (Proxy.capacity k) [] (Proxy.received k ++ Proxy.queue k) (Proxy.closed k) (Proxy.dropped k).

Lemma receive_all config sv cs k es st :
  rtc (moves config) (mkState sv cs k es st false) (mkState sv cs (drain k) es (run st (Proxy.queue k)) false).
Proof.
  destruct k as [cap q r cl d]. unfold drain. cbn. revert r st. induction q as [|e q IH]; intros r st; [by rewrite app_nil_r|].
  eapply moves_l; [by eapply receives|]. cbn. etrans; [apply IH|]. by rewrite <- app_assoc.
Qed.

(** The end of a session with one undisturbed connection. *)
Definition single_counters (f : Proxy.Forwarded) : Proxy.RuntimeCounters :=
  settle (Proxy.count_accepted Proxy.counters_default) f.
Definition single_sink (f : Proxy.Forwarded) (t : TimestampPair) : Proxy.ObservationSink :=
  emit_all 1 t (Proxy.fw_events f) (Proxy.mkSink CHANNEL_CAPACITY [] [] false 0).
Definition single_end (actor : StoreActor) (pr : SocketAddr.t) (ch : result Proxy.Route) (f : Proxy.Forwarded) (t : TimestampPair) : State :=
  mkState
    (Proxy.mkServer (single_counters f) [] (Proxy.Stopped true (Proxy.stats (single_counters f) (Proxy.dropped (single_sink f t)))))
    [with_left (connection 1 pr ch f) [] true] (drain (single_sink f t)) (map (mkObservation 1 t) (Proxy.fw_events f))
    (run actor (Proxy.queue (single_sink f t))) true.

Lemma single_session config actor mirror platform pr client t :
  complete mirror ->
  let ch := (Proxy.choose_route config platform client).1 in
  let f := Proxy.forward_connection mirror config platform pr Proxy.counters_default client in
  Proxy.fw_background f = [] -> rtc (moves config) (start actor) (single_end actor pr ch f t).
Proof.
  intros Hm ch f Hb. eapply moves_l; [by apply (connects _ _ _ _ _ _ _ mirror platform pr client)|]. fold ch f. clearbody ch f.
  eapply moves_l; [apply (wakes _ _ [] (connection 1 pr ch f) []); [by left|done|done]|].
  etrans; [apply (observe_all _ _ (woken (connection 1 pr ch f)) _ _ _ t); [by left|done|done]|].
  eapply moves_l; [apply (finishes _ _ [] [] _ _ _ _ _ (with_left (connection 1 pr ch f) [] true)); [done|by left|done|done]|].
  eapply moves_l; [apply shutdown_requested|].
  eapply moves_l; [apply (joins_task _ _ [] _ _ []); by right|].
  eapply moves_l; [apply drained|]. etrans; [apply receive_all|].
  eapply moves_l; [|apply rtc_refl]. apply store_ends; [done|done|]. constructor; [by left|constructor].
Qed.
End Runs.

#[local] Existing Instances PlatformFacts.memory_store TlsFacts.toy_crypto Plugin.echo_wasm
  ProxyFacts.no_tls ProxyFacts.absolute_uris Http2Wire.literal_hpack Redact.no_json_secret.

Definition demo_sink : Proxy.ObservationSink := drain (single_sink demo_forwarded (at_time 5)).
Definition demo_stats : Proxy.ProxyStats := Proxy.stats (single_counters demo_forwarded) (Proxy.dropped demo_sink).
Definition demo_end : State := single_end (small_store 2 false) demo_peer demo_chosen demo_forwarded (at_time 5).

Lemma demo_session_runs : rtc (moves (@Proxy.http no_tls)) (start (small_store 2 false)) demo_end.
Proof.
  apply (single_session _ _ scheduled demo_platform demo_peer demo_client (at_time 5) scheduled_complete). by vm_compute.
Qed.

Definition demo_setup : CliRun.Setup :=
  CliRun.mkSetup demo_peer (@Proxy.http no_tls) (small_store 2 false) None
    (Platform.new_resolver Platform.Linux None (lit "/proc")) None None.
Definition demo_served : CliRun.Served := CliRun.mkServed (Ok demo_stats) (Ok tt) (Proxy.received demo_sink) (Ok tt).

#[local] Opaque demo_forwarded demo_chosen.
Lemma session_records_witness :
  recorded demo_chosen demo_peer Proxy.counters_default demo_forwarded
    (overview <$> flow_of 1 (snapshot_flows (snapshot (run (CliRun.actor demo_setup) (CliRun.received demo_served))))).
Proof.
  assert (ended_session demo_setup demo_served demo_end demo_stats) as He.
  { split; [exact demo_session_runs|done|by exists true|done|done]. }
  pose proof (session_records demo_setup demo_served demo_end demo_stats He) as [_ Hc]; [by vm_compute..|].
  exact (proj2 (Forall_inv Hc)).
Defined.

(** A session that is asked to stop while a connection hangs, after it opened
    its flow, and its lookup has not returned. *)
Definition demo_hanging : State :=
  mkState (Proxy.mkServer (Proxy.count_accepted Proxy.counters_default) [(1, Proxy.TaskRunning)] Proxy.Draining)
    [mkConnection 1 demo_peer demo_chosen demo_forwarded (tail (Proxy.fw_events demo_forwarded)) [Identified (Identity.with_pid Identity.new 7)] false false]
    (Proxy.mkSink CHANNEL_CAPACITY [] [] false 0) [] (small_store 2 false) false.

(** Only the grace period gets it any further by itself. *)
Example demo_hanging_waits s' :
  step (@Proxy.http no_tls) Own demo_hanging s' -> Proxy.stage (server s') = Proxy.Aborting.
Proof.
  unfold demo_hanging. inversion 1; subst; try done; match goal with
  | Hc : _ ∈ [_] |- _ => by apply list_elem_of_singleton in Hc as ->
  | E : ?a ++ _ :: _ = [_] |- _ => destruct a as [|? [|]]; cbn in E; by simplify_eq
  end.
Qed.

(** Where the session gets without any help: its task was aborted, and it waits
    for the lookup. *)
Definition demo_aborted : State :=
  let n := Proxy.count_failed (Proxy.count_accepted Proxy.counters_default) 1 in
  mkState (Proxy.mkServer n [] (Proxy.Stopped false (Proxy.stats n 0)))
    (cut_off 1 (connections demo_hanging)) (sink demo_hanging) [] (small_store 2 false) false.

Lemma demo_hanging_aborted : rtc (moves (@Proxy.http no_tls)) demo_hanging demo_aborted.
Proof.
  eapply moves_l; [apply grace_over|]. eapply moves_l; [apply (aborts_task _ _ [])|].
  eapply moves_l; [apply all_aborted|]. apply rtc_refl.
Qed.

Lemma demo_aborted_waits s' : ~ step (@Proxy.http no_tls) Own demo_aborted s'.
Proof.
  unfold demo_aborted. inversion 1; subst; try done; match goal with
  | E : ?a ++ _ :: _ = [_] |- _ => destruct a as [|? [|]]; cbn in E; by simplify_eq
  | E : _ = _ \/ _ = _ |- _ => by destruct E
  | Hl : Forall _ _ |- _ => inversion_clear Hl as [|? ? [Hb|Hb] _]; [done|by vm_compute in Hb]
  end.
Qed.

Lemma shutdown_completes_witness :
  Acc (flip (moves (@Proxy.http no_tls))) demo_hanging
  /\ (over demo_aborted = true <-> Forall looked_up (connections demo_aborted)).
Proof.
  destruct (shutdown_completes (@Proxy.http no_tls) demo_hanging) as [H1 H2]; [done|done|]. split; [exact H1|].
  exact (proj2 (proj2 (H2 demo_aborted demo_hanging_aborted demo_aborted_waits))).
Defined.
End Session.
